(** * ParticleText: the per-frame particle simulation of [src/js/main.js]

    A shallow embedding of [bezierEasing] and [updatePhysics] and of the
    event handlers that feed them.

    Numbers.  Every JavaScript number is modelled as a real number: the
    rounding of IEEE doubles and of [Float32Array] stores is not modelled,
    with one exception: the two timers of the explosions are stored in
    [Float32Array]s and then compared with the unrounded clock, so their
    stores round with [fround].  The development speaks about runs in
    which every value is finite (no division by zero, no read past the
    end of an array).  [Math.max],
    [Math.min], [Math.abs], [Math.sqrt], [Math.exp], [Math.cos],
    [Math.sin] are [Rmax], [Rmin], [Rabs], [sqrt], [exp], [cos], [sin].

    Arrays.  A typed array is a [list R]; a read is [rd], a write is
    stdpp's insert, which like a typed array ignores a write past the end.

    Effects.  [Date.now()], [performance.now()] are arguments of a step;
    [Math.random()] is an oracle [rnd : nat -> R] with a call counter that
    is threaded through the code in the order of the calls. *)

From Stdlib Require Import Reals Lra Lia Psatz.
From stdpp Require Import base decidable list.

#[local] Open Scope R_scope.

(** ** Numeric helpers *)

#[global] Instance Rlt_decision (a b : R) : Decision (a < b) := Rlt_dec a b.
#[global] Instance Rle_decision (a b : R) : Decision (a <= b) := Rle_dec a b.
#[global] Instance Rgt_decision (a b : R) : Decision (a > b) := Rgt_dec a b.
#[global] Instance Rge_decision (a b : R) : Decision (a >= b) := Rge_dec a b.
#[global] Instance Req_decision : EqDecision R := Req_dec_T.

(** [Math.max(0, Math.min(1, x))] *)
Definition clamp01 (x : R) : R := Rmax 0 (Rmin 1 x).

(** *** Stores into the [Float32Array]s of the explosion timers *)

(** The exponent of the binade of [x]: [floor(log2 |x|)], and -126 for
    the subnormal numbers and for 0. *)
Definition binadeOf (x : R) : Z :=
  if bool_decide (x = 0) then (-126)%Z
  else Z.max (-126) (Int_part (ln (Rabs x) / ln 2)).

(** The integer nearest to [y], the even one of two that are equally
    near. *)
Definition nearestEven (y : R) : Z :=
  let n := Int_part y in
  let d := y - IZR n in
  if bool_decide (d < 1 / 2) then n
  else if bool_decide (d > 1 / 2) then (n + 1)%Z
  else if Z.even n then n else (n + 1)%Z.

(** [Math.fround], the value that a store into a [Float32Array] keeps:
    the nearest multiple of [2 ^ (e - 23)] for the exponent [e] of the
    binade, with 24 bits of precision.  A magnitude that float32 turns
    into [Infinity] (about [3.4e38] or more) is outside the model. *)
Definition fround (x : R) : R :=
  let ulp := powerRZ 2 (binadeOf x - 23) in
  IZR (nearestEven (x / ulp)) * ulp.

Module Easing.

(** ** The easing evaluator *)

(** [bezierEasing(t, p1x, p1y, p2x, p2y)], main.js 1508-1527. *)
Definition bezierEasing (t p1x p1y p2x p2y : R) : R :=
  let t := Rmax 0 (Rmin 1 t) in
  let oneMinusT := 1 - t in
  let oneMinusT2 := oneMinusT * oneMinusT in
  let oneMinusT3 := oneMinusT2 * oneMinusT in
  let t2 := t * t in
  let t3 := t2 * t in
  let y := oneMinusT3 * 0 +
           3 * oneMinusT2 * t * p1y +
           3 * oneMinusT * t2 * p2y +
           t3 * 1 in
  y.

(** [bezierPointXY], the local function of [drawCurve] (main.js 2660-2677)
    with which the curve editor draws the curve: both coordinates. *)
Definition bezierPointXY (t p0x p0y p1x p1y p2x p2y p3x p3y : R) : R * R :=
  let oneMinusT := 1 - t in
  let oneMinusT2 := oneMinusT * oneMinusT in
  let oneMinusT3 := oneMinusT2 * oneMinusT in
  let t2 := t * t in
  let t3 := t2 * t in
  let x := oneMinusT3 * p0x +
           3 * oneMinusT2 * t * p1x +
           3 * oneMinusT * t2 * p2x +
           t3 * p3x in
  let y := oneMinusT3 * p0y +
           3 * oneMinusT2 * t * p1y +
           3 * oneMinusT * t2 * p2y +
           t3 * p3y in
  (x, y).

(** [CONFIG.loadAnimationEasingCurve] and the entries of [curvePresets]. *)
Record Curve := { p1x : R; p1y : R; p2x : R; p2y : R }.

(** [curvePresets], main.js 2585-2590. *)
Definition preset_linear : Curve :=
  {| p1x := 0.25; p1y := 0.25; p2x := 0.75; p2y := 0.75 |}.
Definition preset_ease_in : Curve :=
  {| p1x := 0.42; p1y := 0; p2x := 1; p2y := 1 |}.
Definition preset_ease_out : Curve :=
  {| p1x := 0; p1y := 0; p2x := 0.58; p2y := 1 |}.
Definition preset_ease_in_out : Curve :=
  {| p1x := 0.42; p1y := 0; p2x := 0.58; p2y := 1 |}.

(** The call of [updatePhysics]: the evaluator applied to a curve. *)
Definition easingOf (c : Curve) (progress : R) : R :=
  bezierEasing progress (p1x c) (p1y c) (p2x c) (p2y c).

(** The timing function [cubic-bezier(p1x, p1y, p2x, p2y)] as the
    specification words it: [v] is a value of the timing function at input
    progress [t] when [v] is the Y-coordinate at a curve parameter [s] of
    [[0,1]] whose X-coordinate is [clamp(t,0,1)]. *)
Definition cssCubicBezier (c : Curve) (t v : R) : Prop :=
  exists s : R,
    0 <= s <= 1 /\
    fst (bezierPointXY s 0 0 (p1x c) (p1y c) (p2x c) (p2y c) 1 1) = clamp01 t /\
    v = snd (bezierPointXY s 0 0 (p1x c) (p1y c) (p2x c) (p2y c) 1 1).

End Easing.
Export Easing.

(** ** Vectors: the part of three.js [Vector3] and [Vector2] in use *)

Record Vec3 := mkVec3 { vx : R; vy : R; vz : R }.
Record Vec2 := mkVec2 { v2x : R; v2y : R }.

Definition subVectors (a b : Vec3) : Vec3 :=
  mkVec3 (vx a - vx b) (vy a - vy b) (vz a - vz b).

Definition crossVectors (a b : Vec3) : Vec3 :=
  mkVec3 (vy a * vz b - vz a * vy b)
         (vz a * vx b - vx a * vz b)
         (vx a * vy b - vy a * vx b).

Definition lengthSq (a : Vec3) : R := vx a * vx a + vy a * vy a + vz a * vz a.

Definition vlength (a : Vec3) : R := sqrt (lengthSq a).

Definition multiplyScalar (a : Vec3) (s : R) : Vec3 :=
  mkVec3 (vx a * s) (vy a * s) (vz a * s).

Definition addScaledVector (a v : Vec3) (s : R) : Vec3 :=
  mkVec3 (vx a + vx v * s) (vy a + vy v * s) (vz a + vz v * s).

(** [divideScalar(s)] is [multiplyScalar(1 / s)]. *)
Definition divideScalar (a : Vec3) (s : R) : Vec3 := multiplyScalar a (1 / s).

(** [normalize()] is [divideScalar(this.length() || 1)]. *)
Definition normalize (a : Vec3) : Vec3 :=
  divideScalar a (if decide (vlength a = 0) then 1 else vlength a).

(** ** Typed arrays *)

(** A read [a[i]]; the default stands for the [undefined] of a read past
    the end, which no statement below relies on. *)
Definition rd (a : list R) (i : nat) : R := default 0 (a !! i).

(** The three consecutive entries of particle [i] in a flat array. *)
Definition get3 (a : list R) (i : nat) : Vec3 :=
  mkVec3 (rd a (i * 3)) (rd a (i * 3 + 1)) (rd a (i * 3 + 2)).

(** The bound of [for (i = 0; i < len / k; i++)] on an integer [i]:
    [i < len / k] over the reals is [i < ceil(len / k)]. *)
Definition countOf (len k : nat) : nat := (len + (k - 1)) / k.

(** A [for] loop over [i, i+1, ...] of at most [fuel] iterations; the
    body answers [None] for [break]. *)
Fixpoint forLoop {St : Type} (body : nat -> St -> option St) (i fuel : nat)
    (s : St) : St :=
  match fuel with
  | O => s
  | S fuel' =>
      match body i s with
      | None => s
      | Some s' => forLoop body (S i) fuel' s'
      end
  end.

(** ** The data model *)

(** An entry of [CONFIG.waves]. *)
Record Wave := mkWave { radius : R; waveStart : R; waveId : R }.

(** An entry of [CONFIG.explosions]. *)
Record Explosion := mkExplosion {
  exPosition : Vec3;
  exStart : R;
  exId : nat;
  applied : bool
}.

(** [CONFIG], the fields that the simulation reads or writes. *)
Record Config := mkConfig {
  particleCount : nat;
  forceStrength : R;
  interactionRadius : R;
  springConstant : R;
  damping : R;
  timeScale : R;
  pointSize : R;
  sizeVariation : R;
  autonomousMotionStrength : R;
  chaosAngle : R;
  chaosStrength : R;
  tangentialForceRatio : R;
  zAxisStrength : R;
  isLoadingAnimation : bool;
  loadAnimationStartTime : option R;
  loadAnimationDuration : R;
  loadAnimationEasingCurve : Curve;
  waveEnabled : bool;
  waveInterval : R;
  waveSpeed : R;
  waveWidth : R;
  waveForce : R;
  waveGlowIntensity : R;
  waveForceFalloff : R;
  lastWaveTime : option R;
  waves : list Wave;
  maxBrightness : R;
  depthDarkeningStrength : R;
  glowBrightness : R;
  velocityGlowMultiplier : R;
  explosionEnabled : bool;
  explosionForce : R;
  explosionSpeed : R;
  explosionReturnDelay : R;
  explosionGlowIntensity : R;
  explosionGlowDuration : R;
  explosions : list Explosion
}.

(** [CONFIG] with its fields that change at run time replaced. *)
Definition withRuntime (c : Config) (loading : bool) (start : option R)
    (wEnabled : bool) (lastWave : option R) (ws : list Wave)
    (eEnabled : bool) (es : list Explosion) : Config :=
  mkConfig (particleCount c) (forceStrength c) (interactionRadius c)
    (springConstant c) (damping c) (timeScale c) (pointSize c)
    (sizeVariation c) (autonomousMotionStrength c) (chaosAngle c)
    (chaosStrength c) (tangentialForceRatio c) (zAxisStrength c)
    loading start (loadAnimationDuration c) (loadAnimationEasingCurve c)
    wEnabled (waveInterval c) (waveSpeed c) (waveWidth c) (waveForce c)
    (waveGlowIntensity c) (waveForceFalloff c) lastWave ws
    (maxBrightness c) (depthDarkeningStrength c) (glowBrightness c)
    (velocityGlowMultiplier c) eEnabled (explosionForce c)
    (explosionSpeed c) (explosionReturnDelay c) (explosionGlowIntensity c)
    (explosionGlowDuration c) es.

Definition set_isLoadingAnimation (v : bool) (c : Config) : Config :=
  withRuntime c v (loadAnimationStartTime c) (waveEnabled c) (lastWaveTime c)
    (waves c) (explosionEnabled c) (explosions c).
Definition set_loadAnimationStartTime (v : option R) (c : Config) : Config :=
  withRuntime c (isLoadingAnimation c) v (waveEnabled c) (lastWaveTime c)
    (waves c) (explosionEnabled c) (explosions c).
Definition set_waveEnabled (v : bool) (c : Config) : Config :=
  withRuntime c (isLoadingAnimation c) (loadAnimationStartTime c) v
    (lastWaveTime c) (waves c) (explosionEnabled c) (explosions c).
Definition set_lastWaveTime (v : option R) (c : Config) : Config :=
  withRuntime c (isLoadingAnimation c) (loadAnimationStartTime c)
    (waveEnabled c) v (waves c) (explosionEnabled c) (explosions c).
Definition set_waves (v : list Wave) (c : Config) : Config :=
  withRuntime c (isLoadingAnimation c) (loadAnimationStartTime c)
    (waveEnabled c) (lastWaveTime c) v (explosionEnabled c) (explosions c).
Definition set_explosionEnabled (v : bool) (c : Config) : Config :=
  withRuntime c (isLoadingAnimation c) (loadAnimationStartTime c)
    (waveEnabled c) (lastWaveTime c) (waves c) v (explosions c).
Definition set_explosions (v : list Explosion) (c : Config) : Config :=
  withRuntime c (isLoadingAnimation c) (loadAnimationStartTime c)
    (waveEnabled c) (lastWaveTime c) (waves c) (explosionEnabled c) v.

(** The particle store: the parallel flat arrays of main.js 217-230. *)
Record Store := mkStore {
  positions : list R;
  originalPositions : list R;
  baseOriginalPositions : list R;
  startPositions : list R;
  scrollDirections : list R;
  velocities : list R;
  colors : list R;
  sizes : list R;
  baseSizes : list R;
  glows : list R;
  explosionGlowEndTimes : list R;
  explosionReturnTimes : list R;
  distanceBuffer : list R
}.

Definition set_positions (v : list R) (s : Store) : Store :=
  mkStore v (originalPositions s) (baseOriginalPositions s) (startPositions s)
    (scrollDirections s) (velocities s) (colors s) (sizes s) (baseSizes s)
    (glows s) (explosionGlowEndTimes s) (explosionReturnTimes s)
    (distanceBuffer s).
Definition set_velocities (v : list R) (s : Store) : Store :=
  mkStore (positions s) (originalPositions s) (baseOriginalPositions s)
    (startPositions s) (scrollDirections s) v (colors s) (sizes s)
    (baseSizes s) (glows s) (explosionGlowEndTimes s) (explosionReturnTimes s)
    (distanceBuffer s).
Definition set_colors (v : list R) (s : Store) : Store :=
  mkStore (positions s) (originalPositions s) (baseOriginalPositions s)
    (startPositions s) (scrollDirections s) (velocities s) v (sizes s)
    (baseSizes s) (glows s) (explosionGlowEndTimes s) (explosionReturnTimes s)
    (distanceBuffer s).
Definition set_sizes (v : list R) (s : Store) : Store :=
  mkStore (positions s) (originalPositions s) (baseOriginalPositions s)
    (startPositions s) (scrollDirections s) (velocities s) (colors s) v
    (baseSizes s) (glows s) (explosionGlowEndTimes s) (explosionReturnTimes s)
    (distanceBuffer s).
Definition set_glows (v : list R) (s : Store) : Store :=
  mkStore (positions s) (originalPositions s) (baseOriginalPositions s)
    (startPositions s) (scrollDirections s) (velocities s) (colors s)
    (sizes s) (baseSizes s) v (explosionGlowEndTimes s)
    (explosionReturnTimes s) (distanceBuffer s).
Definition set_explosionGlowEndTimes (v : list R) (s : Store) : Store :=
  mkStore (positions s) (originalPositions s) (baseOriginalPositions s)
    (startPositions s) (scrollDirections s) (velocities s) (colors s)
    (sizes s) (baseSizes s) (glows s) v (explosionReturnTimes s)
    (distanceBuffer s).
Definition set_explosionReturnTimes (v : list R) (s : Store) : Store :=
  mkStore (positions s) (originalPositions s) (baseOriginalPositions s)
    (startPositions s) (scrollDirections s) (velocities s) (colors s)
    (sizes s) (baseSizes s) (glows s) (explosionGlowEndTimes s) v
    (distanceBuffer s).
Definition set_distanceBuffer (v : list R) (s : Store) : Store :=
  mkStore (positions s) (originalPositions s) (baseOriginalPositions s)
    (startPositions s) (scrollDirections s) (velocities s) (colors s)
    (sizes s) (baseSizes s) (glows s) (explosionGlowEndTimes s)
    (explosionReturnTimes s) v.

(** The orthographic camera: its depth and its frustum. *)
Record Camera := mkCamera {
  camZ : R;
  camLeft : R;
  camRight : R;
  camTop : R;
  camBottom : R
}.

(** The pointer state kept by the event handlers. *)
Record Pointer := mkPointer {
  mouse3D : Vec3;
  mouseVelocity : Vec2;
  mouseMovedThisFrame : bool;
  isPointerInsideCanvas : bool;
  isPointerDown : bool
}.

(** The module-level state that [updatePhysics] reads and writes.
    [geometry.attributes.position.array] is [positions] and
    [geometry.attributes.color.array] is [colors] (main.js 1102-1103);
    [hasColorAttr] says whether the geometry has a color attribute.  The
    [needsUpdate] flags of the renderer are not part of the model. *)
Record World := mkWorld {
  CONFIG : Config;
  store : Store;
  pointer : Pointer;
  camera : Camera;
  isInitialized : bool;
  hasGeometry : bool;
  hasColorAttr : bool;
  totalParticleCount : nat;
  cachedGlowBrightness : R;
  cachedVelocityGlowMultiplier : R;
  glowStaticNeedsUpdate : bool;
  wasWaveActive : bool;
  explosionIdCounter : nat;
  randomCalls : nat
}.

(** ** One frame of the simulation *)

(** [a[i] += x] and [a[i] *= x] on a typed array. *)
Definition addAt (a : list R) (i : nat) (x : R) : list R := <[i := rd a i + x]> a.
Definition mulAt (a : list R) (i : nat) (x : R) : list R := <[i := rd a i * x]> a.

(** [waveCenter], main.js 1463. *)
Definition waveCenter : Vec3 := mkVec3 0 0 0.

(** The values that [updatePhysics] computes once per frame, before its
    loops over the particles (main.js 1648-1758).  [waveBounds] is [None]
    while [waveBoundsMin] and [waveBoundsMax] still are [Infinity] and
    [-Infinity]. *)
Record Frame := mkFrame {
  fCfg : Config;
  nowPerf : R;
  fMouse3D : Vec3;
  fCamZ : R;
  forceMultiplier : R;
  interactionRadiusSq : R;
  interactionActive : bool;
  hasExplosions : bool;
  waveActive : bool;
  waveBounds : option (R * R);
  waveCutoffDistance : R;
  waveInvSigma : R
}.

(** [cachedWaveDistance >= waveBoundsMin && cachedWaveDistance <= waveBoundsMax] *)
Definition inWaveBounds (f : Frame) (d : R) : bool :=
  match waveBounds f with
  | None => false
  | Some (lo, hi) => bool_decide (d >= lo) && bool_decide (d <= hi)
  end.

(** The Gaussian factor of one wave at radial distance [d], when the
    particle is within the cutoff of that wave (main.js 1920-1930 and
    2125-2134). *)
Definition waveFactor (f : Frame) (d : R) (w : Wave) : option R :=
  let waveCenterRadius := radius w - waveWidth (fCfg f) / 2 in
  let distanceFromCenter := Rabs (d - waveCenterRadius) in
  if bool_decide (distanceFromCenter <= waveCutoffDistance f) then
    let normalizedDistance := distanceFromCenter * waveInvSigma f in
    let normalizedDistanceSq := normalizedDistance * normalizedDistance in
    Some (exp (- waveForceFalloff (fCfg f) * normalizedDistanceSq))
  else None.

Section Simulation.

(** The successive results of [Math.random()]. *)
Variable rnd : nat -> R.

(** [randomDirection3D], main.js 1466-1502; [k] counts the calls of
    [Math.random()] so far. *)
Definition randomDirection3D (baseDirection : Vec3)
    (maxAngleDegrees chaosStrength : R) (k : nat) : Vec3 * nat :=
  let maxAngle := (maxAngleDegrees * PI) / 180 in
  let angle := rnd k * maxAngle * chaosStrength in
  let azimuth := rnd (k + 1) * PI * 2 in
  let tempPerpendicular :=
    if bool_decide (Rabs (vx baseDirection) < 0.9)
    then mkVec3 1 0 0 else mkVec3 0 1 0 in
  let tempPerpendicular :=
    normalize (crossVectors baseDirection tempPerpendicular) in
  let tempPerpendicular2 :=
    normalize (crossVectors baseDirection tempPerpendicular) in
  let cosAngle := cos angle in
  let sinAngle := sin angle in
  let cosAzimuth := cos azimuth in
  let sinAzimuth := sin azimuth in
  let out :=
    normalize
      (addScaledVector
         (addScaledVector (multiplyScalar baseDirection cosAngle)
            tempPerpendicular (sinAngle * cosAzimuth))
         tempPerpendicular2 (sinAngle * sinAzimuth)) in
  (out, (k + 2)%nat).

(** The pointer force on particle [i], main.js 1774-1841. *)
Definition pointerForce (f : Frame) (i : nat) (s : Store) (k : nat) : Store * nat :=
  let c := fCfg f in
  let i3 := (i * 3)%nat in
  let positionsArray := positions s in
  let tempVector := get3 positionsArray i in
  if interactionActive f then
    let dx := rd positionsArray i3 - vx (fMouse3D f) in
    let dy := rd positionsArray (i3 + 1) - vy (fMouse3D f) in
    let dz := rd positionsArray (i3 + 2) - vz (fMouse3D f) in
    let distanceSq := dx * dx + dy * dy + dz * dz in
    if bool_decide (distanceSq < interactionRadiusSq f) then
      let distance := sqrt distanceSq in
      let baseDirection := normalize (subVectors tempVector (fMouse3D f)) in
      let '(chaoticDirection, k) :=
        randomDirection3D baseDirection (chaosAngle c) (chaosStrength c) k in
      let tangent := crossVectors baseDirection (mkVec3 0 0 1) in
      let tangent :=
        if bool_decide (vlength tangent < 0.1)
        then crossVectors baseDirection (mkVec3 1 0 0) else tangent in
      let tangent := normalize tangent in
      let tangent2 := normalize (crossVectors baseDirection tangent) in
      let tangentialAngle := rnd k * PI * 2 in
      let tangentX := cos tangentialAngle in
      let tangentY := sin tangentialAngle in
      let tangent :=
        addScaledVector (multiplyScalar tangent tangentX) tangent2 tangentY in
      let distanceFactor := 1 - distance / interactionRadius c in
      let baseForce := distanceFactor * forceMultiplier f in
      let forceVariation := 0.7 + rnd (k + 1) * 0.6 in
      let force := baseForce * forceVariation in
      let radialForce := force * (1 - tangentialForceRatio c) in
      let tangentialForce := force * tangentialForceRatio c in
      let zComponent := (rnd (k + 2) - 0.5) * 2 * zAxisStrength c in
      let finalDirection :=
        addScaledVector (multiplyScalar chaoticDirection radialForce)
          tangent tangentialForce in
      let v := velocities s in
      let v := addAt v i3 (vx finalDirection * 0.2 * timeScale c) in
      let v := addAt v (i3 + 1) (vy finalDirection * 0.2 * timeScale c) in
      let v := addAt v (i3 + 2) ((vz finalDirection + zComponent) * 0.2 * timeScale c) in
      (set_velocities v s, (k + 3)%nat)
    else (s, k)
  else (s, k).

(** The autonomous motion of particle [i], main.js 1845-1850. *)
Definition autonomousMotion (f : Frame) (i : nat) (s : Store) (k : nat) : Store * nat :=
  let c := fCfg f in
  let i3 := (i * 3)%nat in
  if bool_decide (autonomousMotionStrength c > 0) then
    if bool_decide (rnd k < 0.3) then
      let randomFactor := autonomousMotionStrength c * 0.3 * timeScale c in
      let v := velocities s in
      let v := addAt v i3 ((rnd (k + 1) - 0.5) * randomFactor) in
      let v := addAt v (i3 + 1) ((rnd (k + 2) - 0.5) * randomFactor) in
      let v := addAt v (i3 + 2) ((rnd (k + 3) - 0.5) * randomFactor) in
      (set_velocities v s, (k + 4)%nat)
    else (s, (k + 1)%nat)
  else (s, k).

(** The body of [for (const explosion of CONFIG.explosions)] for
    particle [i], main.js 1856-1886.  The two timers are kept in
    [Float32Array]s (main.js 228-229, 982-983): a store rounds the value
    with [fround]. *)
Definition explosionImpulse (f : Frame) (i : nat) (sk : Store * nat)
    (explosion : Explosion) : Store * nat :=
  let '(s, k) := sk in
  let c := fCfg f in
  let i3 := (i * 3)%nat in
  if applied explosion then (s, k) else
  let expDirX := rd (scrollDirections s) i3 in
  let expDirY := rd (scrollDirections s) (i3 + 1) in
  let expDirZ := rd (scrollDirections s) (i3 + 2) in
  let randomFactor := 0.2 in
  let randX := (rnd k - 0.5) * randomFactor in
  let randY := (rnd (k + 1) - 0.5) * randomFactor in
  let randZ := (rnd (k + 2) - 0.5) * randomFactor in
  let impulseStrength := explosionForce c * 0.1 in
  let v := velocities s in
  let v := addAt v i3 ((expDirX + randX) * impulseStrength) in
  let v := addAt v (i3 + 1) ((expDirY + randY) * impulseStrength) in
  let v := addAt v (i3 + 2) ((expDirZ + randZ) * impulseStrength) in
  let s := set_velocities v s in
  let returnTime := nowPerf f + explosionReturnDelay c in
  let s :=
    if bool_decide (i < length (explosionReturnTimes s))%nat
    then set_explosionReturnTimes
           (<[i := fround (Rmax (rd (explosionReturnTimes s) i) returnTime)]>
              (explosionReturnTimes s)) s
    else s in
  let glowEndTime := nowPerf f + explosionGlowDuration c in
  let s :=
    if bool_decide (i < length (explosionGlowEndTimes s))%nat
    then set_explosionGlowEndTimes
           (<[i := fround (Rmax (rd (explosionGlowEndTimes s) i) glowEndTime)]>
              (explosionGlowEndTimes s)) s
    else s in
  (s, (k + 3)%nat).

(** The explosion block of particle [i], main.js 1854-1888. *)
Definition explosionForces (f : Frame) (i : nat) (s : Store) (k : nat) : Store * nat :=
  if hasExplosions f
  then fold_left (explosionImpulse f i) (explosions (fCfg f)) (s, k)
  else (s, k).

(** The accumulators of the loop over the waves, main.js 1914-1943:
    the summed force and [totalWaveSizeFactor]. *)
Definition waveAccumulate (f : Frame) (d : R) (directionToParticle : Vec3)
    (acc : Vec3 * R) (w : Wave) : Vec3 * R :=
  match waveFactor f d w with
  | Some forceFactor =>
      let waveForce := waveForce (fCfg f) * forceFactor * timeScale (fCfg f) in
      (mkVec3 (vx (fst acc) + vx directionToParticle * waveForce)
              (vy (fst acc) + vy directionToParticle * waveForce)
              (vz (fst acc) + vz directionToParticle * waveForce),
       snd acc + forceFactor)
  | None => acc
  end.

(** The wave block of particle [i], main.js 1891-1950: the store and
    [totalWaveSizeFactor]. *)
Definition waveForces (f : Frame) (i : nat) (s : Store) : Store * R :=
  let i3 := (i * 3)%nat in
  let positionsArray := positions s in
  if waveActive f then
    let dx := rd positionsArray i3 - vx waveCenter in
    let dy := rd positionsArray (i3 + 1) - vy waveCenter in
    let dz := rd positionsArray (i3 + 2) - vz waveCenter in
    let waveDistanceSq := dx * dx + dy * dy + dz * dz in
    let cachedWaveDistance := sqrt waveDistanceSq in
    if inWaveBounds f cachedWaveDistance then
      let invDistance := 1 / cachedWaveDistance in
      let directionToParticle :=
        mkVec3 (dx * invDistance) (dy * invDistance) (dz * invDistance) in
      let '(total, totalWaveSizeFactor) :=
        fold_left (waveAccumulate f cachedWaveDistance directionToParticle)
          (waves (fCfg f)) (mkVec3 0 0 0, 0) in
      let v := velocities s in
      let v := addAt v i3 (vx total) in
      let v := addAt v (i3 + 1) (vy total) in
      let v := addAt v (i3 + 2) (vz total) in
      (set_velocities v s, totalWaveSizeFactor)
    else (s, 0)
  else (s, 0).

(** [((i * 2654435761) % 2147483647) / 2147483647], main.js 1963. *)
Definition sizeHash (i : nat) : R :=
  IZR ((Z.of_nat i * 2654435761) mod 2147483647) / 2147483647.

(** The size of particle [i] under the waves, main.js 1953-1980. *)
Definition updateSize (f : Frame) (i : nat) (totalWaveSizeFactor : R) (s : Store) : Store :=
  let c := fCfg f in
  if waveActive f && bool_decide (i < length (baseSizes s))%nat then
    let baseSize := rd (baseSizes s) i in
    if bool_decide (baseSize = 0) then
      if bool_decide (totalWaveSizeFactor > 0) then
        let minSize := pointSize c * (1 - sizeVariation c) in
        let maxSize := pointSize c * (1 + sizeVariation c) in
        let hash := sizeHash i in
        let invisibleBaseSize := minSize + hash * (maxSize - minSize) in
        let fadeFactor := Rmin totalWaveSizeFactor 1 in
        set_sizes (<[i := invisibleBaseSize * fadeFactor]> (sizes s)) s
      else set_sizes (<[i := 0]> (sizes s)) s
    else
      let sizeMultiplier := 1 + totalWaveSizeFactor * 0.5 in
      set_sizes (<[i := baseSize * sizeMultiplier]> (sizes s)) s
  else s.

(** [positionsArray[i3..] += velocities[i3..] * CONFIG.timeScale],
    main.js 1982-1984. *)
Definition advance (f : Frame) (i : nat) (s : Store) : Store :=
  let i3 := (i * 3)%nat in
  let ts := timeScale (fCfg f) in
  let p := positions s in
  let p := addAt p i3 (rd (velocities s) i3 * ts) in
  let p := addAt p (i3 + 1) (rd (velocities s) (i3 + 1) * ts) in
  let p := addAt p (i3 + 2) (rd (velocities s) (i3 + 2) * ts) in
  set_positions p s.

(** [explosionReturnTimes[i] > nowPerf], guarded, main.js 2001. *)
Definition isInExplosionFlight (f : Frame) (i : nat) (s : Store) : bool :=
  bool_decide (i < length (explosionReturnTimes s))%nat
  && bool_decide (rd (explosionReturnTimes s) i > nowPerf f).

(** The free flight after an explosion, main.js 2003-2012. *)
Definition explosionFlight (f : Frame) (i : nat) (s : Store) : Store :=
  let c := fCfg f in
  let i3 := (i * 3)%nat in
  let dt := 0.016 * timeScale c * explosionSpeed c in
  let v := velocities s in
  let v := mulAt v i3 0.98 in
  let v := mulAt v (i3 + 1) 0.98 in
  let v := mulAt v (i3 + 2) 0.98 in
  let p := positions s in
  let p := addAt p i3 (rd v i3 * dt) in
  let p := addAt p (i3 + 1) (rd v (i3 + 1) * dt) in
  let p := addAt p (i3 + 2) (rd v (i3 + 2) * dt) in
  set_positions p (set_velocities v s).

(** The rest threshold, main.js 2029-2030. *)
Definition threshold : R := 0.001.
Definition thresholdSq : R := threshold * threshold.

(** The spring and damper of particle [i], main.js 2013-2061. *)
Definition springDamper (f : Frame) (i : nat) (s : Store) : Store :=
  let c := fCfg f in
  let i3 := (i * 3)%nat in
  let tempVector := get3 (positions s) i in
  let tempVector3 := get3 (originalPositions s) i in
  let displacement := subVectors tempVector3 tempVector in
  let displacementLengthSq := lengthSq displacement in
  let v := velocities s in
  let velocityLengthSq :=
    rd v i3 * rd v i3 + rd v (i3 + 1) * rd v (i3 + 1)
    + rd v (i3 + 2) * rd v (i3 + 2) in
  if bool_decide (displacementLengthSq < thresholdSq)
     && bool_decide (velocityLengthSq < thresholdSq) then
    let p := positions s in
    let p := <[i3 := rd (originalPositions s) i3]> p in
    let p := <[(i3 + 1)%nat := rd (originalPositions s) (i3 + 1)]> p in
    let p := <[(i3 + 2)%nat := rd (originalPositions s) (i3 + 2)]> p in
    let v := <[i3 := 0]> v in
    let v := <[(i3 + 1)%nat := 0]> v in
    let v := <[(i3 + 2)%nat := 0]> v in
    set_positions p (set_velocities v s)
  else
    let springForceX := vx displacement * springConstant c in
    let springForceY := vy displacement * springConstant c in
    let springForceZ := vz displacement * springConstant c in
    let dt := 0.016 * timeScale c in
    let v := addAt v i3 (springForceX * dt) in
    let v := addAt v (i3 + 1) (springForceY * dt) in
    let v := addAt v (i3 + 2) (springForceZ * dt) in
    let v := mulAt v i3 (damping c) in
    let v := mulAt v (i3 + 1) (damping c) in
    let v := mulAt v (i3 + 2) (damping c) in
    let p := positions s in
    let p := addAt p i3 (rd v i3 * dt) in
    let p := addAt p (i3 + 1) (rd v (i3 + 1) * dt) in
    let p := addAt p (i3 + 2) (rd v (i3 + 2) * dt) in
    set_positions p (set_velocities v s).

(** The integration of particle [i], main.js 1999-2062. *)
Definition integrate (f : Frame) (i : nat) (s : Store) : Store :=
  if isInExplosionFlight f i s then explosionFlight f i s else springDamper f i s.

(** The body of the loop over the particles, main.js 1763-2066; [None]
    is its [break], the guard of main.js 1994 its [continue]. *)
Definition particleStep (f : Frame) (i : nat) (sk : Store * nat) : option (Store * nat) :=
  let '(s, k) := sk in
  let i3 := (i * 3)%nat in
  if bool_decide (length (positions s) <= i3 + 2)%nat then None else
  let '(s, k) := pointerForce f i s k in
  let '(s, k) := autonomousMotion f i s k in
  let '(s, k) := explosionForces f i s k in
  let '(s, totalWaveSizeFactor) := waveForces f i s in
  let s := updateSize f i totalWaveSizeFactor s in
  let s := advance f i s in
  if bool_decide (length (originalPositions s) <= i3 + 2)%nat
     || bool_decide (length (velocities s) <= i3 + 2)%nat
  then Some (s, k)
  else Some (integrate f i s, k).

(** *** The attribute deriver, main.js 2086-2206 *)

Definition fixedMinDistance : R := 0.
Definition fixedMaxDistance : R := 70.
Definition fixedDistanceRange : R := fixedMaxDistance - fixedMinDistance.

(** The depth term of a particle at [distance] from the camera,
    main.js 2097-2102. *)
Definition depthBrightness (c : Config) (distance : R) : R :=
  let distanceRange := fixedDistanceRange in
  let normalizedDistance :=
    if bool_decide (distanceRange > 0)
    then (distance - fixedMinDistance) / distanceRange else 0 in
  let clampedNormalizedDistance := Rmax 0 (Rmin 1 normalizedDistance) in
  1 - clampedNormalizedDistance * depthDarkeningStrength c.

(** [baseBrightness] after the test of the invisible points,
    main.js 2093-2111. *)
Definition baseBrightness (f : Frame) (i : nat) (s : Store) : R :=
  let distance := rd (distanceBuffer s) i in
  let baseBrightness := depthBrightness (fCfg f) distance in
  if bool_decide (i < length (baseSizes s))%nat
     && bool_decide (rd (baseSizes s) i = 0) then
    let currentSize := rd (sizes s) i in
    if bool_decide (currentSize = 0) then 0 else baseBrightness
  else baseBrightness.

(** [totalWaveGlow], main.js 2114-2145. *)
Definition totalWaveGlow (f : Frame) (i : nat) (s : Store) : R :=
  let c := fCfg f in
  let i3 := (i * 3)%nat in
  let positionsArray := positions s in
  if waveActive f then
    let dx := rd positionsArray i3 - vx waveCenter in
    let dy := rd positionsArray (i3 + 1) - vy waveCenter in
    let dz := rd positionsArray (i3 + 2) - vz waveCenter in
    let cachedWaveDistance := sqrt (dx * dx + dy * dy + dz * dz) in
    if inWaveBounds f cachedWaveDistance then
      let totalWaveGlow :=
        fold_left
          (fun acc w =>
             match waveFactor f cachedWaveDistance w with
             | Some glowFactor => acc + waveGlowIntensity c * glowFactor
             | None => acc
             end)
          (waves c) 0 in
      Rmin totalWaveGlow (waveGlowIntensity c)
    else 0
  else 0.

(** [scaledBrightness] after the dimming of the particles outside the
    formation, main.js 2148-2155. *)
Definition scaledBrightness (f : Frame) (i : nat) (s : Store) : R :=
  let c := fCfg f in
  let brightnessScale := maxBrightness c in
  let scaledBrightness := baseBrightness f i s * brightnessScale in
  let isOutsideSVG := bool_decide (particleCount c <= i)%nat in
  if isOutsideSVG && bool_decide (maxBrightness c < 0.99)
  then scaledBrightness * 0.5 else scaledBrightness.

(** [finalBrightness] as it is written to the three channels,
    main.js 2158-2199. *)
Definition finalBrightness (f : Frame) (i : nat) (s : Store) : R :=
  let c := fCfg f in
  let finalBrightness := scaledBrightness f i s + totalWaveGlow f i s in
  let finalBrightness :=
    if explosionEnabled c
       && bool_decide (i < length (explosionGlowEndTimes s))%nat then
      let glowEndTime := rd (explosionGlowEndTimes s) i in
      if bool_decide (glowEndTime > nowPerf f) then
        let remainingTime := glowEndTime - nowPerf f in
        let fadeFactor := remainingTime / explosionGlowDuration c in
        let explosionGlow := explosionGlowIntensity c * fadeFactor in
        finalBrightness + explosionGlow
      else finalBrightness
    else finalBrightness in
  Rmin finalBrightness 1.

(** The glow of particle [i], main.js 2173-2196. *)
Definition updateGlow (f : Frame) (glowIsDynamic glowStatic : bool) (i : nat)
    (s : Store) : Store :=
  let c := fCfg f in
  let i3 := (i * 3)%nat in
  if glowIsDynamic then
    let particleGlow := glowBrightness c in
    let vx := rd (velocities s) i3 in
    let vy := rd (velocities s) (i3 + 1) in
    let vz := rd (velocities s) (i3 + 2) in
    let velocityMag := sqrt (vx * vx + vy * vy + vz * vz) in
    let particleGlow := particleGlow + velocityMag * velocityGlowMultiplier c in
    let particleGlow := Rmin particleGlow 1 in
    if bool_decide (i < length (glows s))%nat
    then set_glows (<[i := particleGlow]> (glows s)) s else s
  else if glowStatic then
    let particleGlow := Rmin (glowBrightness c) 1 in
    if bool_decide (i < length (glows s))%nat
    then set_glows (<[i := particleGlow]> (glows s)) s else s
  else s.

(** The body of the loop over the colors, main.js 2089-2205. *)
Definition colorStep (f : Frame) (glowIsDynamic glowStatic : bool) (i : nat)
    (s : Store) : option Store :=
  let i3 := (i * 3)%nat in
  if bool_decide (length (colors s) <= i3 + 2)%nat then None else
  let finalBrightness := finalBrightness f i s in
  let s := updateGlow f glowIsDynamic glowStatic i s in
  let colorsArray := colors s in
  let colorsArray := <[i3 := finalBrightness]> colorsArray in
  let colorsArray := <[(i3 + 1)%nat := finalBrightness]> colorsArray in
  let colorsArray := <[(i3 + 2)%nat := finalBrightness]> colorsArray in
  Some (set_colors colorsArray s).

(** *** The loading animation, main.js 1546-1644 *)

(** The interpolation of particle [i], main.js 1567-1585. *)
Definition loadingPosition (easingValue : R) (i : nat) (s : Store) : option Store :=
  let i3 := (i * 3)%nat in
  if bool_decide (length (positions s) <= i3 + 2)%nat then None else
  let startX := rd (startPositions s) i3 in
  let startY := rd (startPositions s) (i3 + 1) in
  let startZ := rd (startPositions s) (i3 + 2) in
  let targetX := rd (originalPositions s) i3 in
  let targetY := rd (originalPositions s) (i3 + 1) in
  let targetZ := rd (originalPositions s) (i3 + 2) in
  let p := positions s in
  let p := <[i3 := startX + (targetX - startX) * easingValue]> p in
  let p := <[(i3 + 1)%nat := startY + (targetY - startY) * easingValue]> p in
  let p := <[(i3 + 2)%nat := startZ + (targetZ - startZ) * easingValue]> p in
  Some (set_positions p s).

(** The color of particle [i] while loading, main.js 1600-1618. *)
Definition loadingColor (c : Config) (camZ : R) (i : nat) (s : Store) : option Store :=
  let i3 := (i * 3)%nat in
  if bool_decide (length (colors s) <= i3 + 2)%nat then None else
  let dz := rd (positions s) (i3 + 2) - camZ in
  let distance := Rabs dz in
  let normalizedDistance := Rmax 0 (Rmin 1 (distance / fixedDistanceRange)) in
  let brightness := 1 - normalizedDistance * depthDarkeningStrength c in
  let clampedBrightness := Rmax 0 (Rmin 1 brightness) in
  let colorsArray := colors s in
  let colorsArray := <[i3 := clampedBrightness]> colorsArray in
  let colorsArray := <[(i3 + 1)%nat := clampedBrightness]> colorsArray in
  let colorsArray := <[(i3 + 2)%nat := clampedBrightness]> colorsArray in
  Some (set_colors colorsArray s).

(** The glow of particle [i] while loading, main.js 1627-1629. *)
Definition loadingGlow (currentGlowValue : R) (i : nat) (s : Store) : option Store :=
  Some (set_glows (<[i := currentGlowValue]> (glows s)) s).

(** [progress] of the loading animation, main.js 1547-1548. *)
Definition loadProgress (nowDate start : R) (c : Config) : R :=
  let elapsed := nowDate - start in
  Rmin 1 (elapsed / loadAnimationDuration c).

(** The end of the loading animation, main.js 1636-1640. *)
Definition finishLoading (nowDate : R) (c : Config) : Config :=
  let c := set_isLoadingAnimation false c in
  match waveEnabled c, lastWaveTime c with
  | true, None => set_lastWaveTime (Some nowDate) c
  | _, _ => c
  end.

(** The loading branch of [updatePhysics], main.js 1546-1644: the new
    [CONFIG], the new store, and whether the function returns at
    main.js 1642. *)
Definition loadingPhase (nowDate : R) (camZ : R) (hasColor : bool)
    (total : nat) (c : Config) (s : Store) : Config * Store * bool :=
  match isLoadingAnimation c, loadAnimationStartTime c with
  | true, Some start =>
      let progress := loadProgress nowDate start c in
      let easingValue := easingOf (loadAnimationEasingCurve c) progress in
      let actualParticleCount :=
        Nat.min total (countOf (length (positions s)) 3) in
      let s := forLoop (loadingPosition easingValue) 0 actualParticleCount s in
      let s :=
        if hasColor
        then forLoop (loadingColor c camZ) 0 actualParticleCount s else s in
      let targetGlow := glowBrightness c in
      let currentGlowValue := targetGlow * easingValue in
      let s :=
        forLoop (loadingGlow currentGlowValue) 0
          (Nat.min actualParticleCount (length (glows s))) s in
      if bool_decide (progress >= 1) then (finishLoading nowDate c, s, false)
      else (c, s, true)
  | _, _ => (c, s, false)
  end.

(** *** The waves, main.js 1648-1698 *)

(** Half the diagonal of the visible area, main.js 1651-1653. *)
Definition maxWaveRadius (cam : Camera) : R :=
  let viewportWidth := camRight cam - camLeft cam in
  let viewportHeight := camTop cam - camBottom cam in
  sqrt (viewportWidth * viewportWidth + viewportHeight * viewportHeight) / 2.

(** The body of the loop over the waves, main.js 1683-1696, on the waves
    kept so far and the bounds so far. *)
Definition growWave (c : Config) (maxRadius cutoff : R) (w : Wave)
    (acc : list Wave * option (R * R)) : list Wave * option (R * R) :=
  let dt := 0.016 in
  let wave :=
    mkWave (radius w + waveSpeed c * dt * timeScale c) (waveStart w) (waveId w) in
  if bool_decide (radius wave >= maxRadius + waveWidth c) then acc
  else
    let waveCenterRadius := radius wave - waveWidth c / 2 in
    let waveMinRadius := waveCenterRadius - cutoff in
    let waveMaxRadius := waveCenterRadius + cutoff in
    (wave :: fst acc,
     Some match snd acc with
          | None => (waveMinRadius, waveMaxRadius)
          | Some (lo, hi) => (Rmin lo waveMinRadius, Rmax hi waveMaxRadius)
          end).

(** A wave after [wave.radius += CONFIG.waveSpeed * dt * CONFIG.timeScale],
    main.js 1684. *)
Definition grownWave (c : Config) (w : Wave) : Wave :=
  mkWave (radius w + waveSpeed c * 0.016 * timeScale c) (waveStart w) (waveId w).

(** The loop [for (i = waves.length - 1; i >= 0; i--)]: the last wave
    is treated first. *)
Definition propagateWaves (c : Config) (maxRadius cutoff : R) (ws : list Wave)
    : list Wave * option (R * R) :=
  fold_right (growWave c maxRadius cutoff) ([], None) ws.

(** The creation of a wave on the interval timer, main.js 1664-1678. *)
Definition spawnWave (now : R) (c : Config) : Config :=
  let c :=
    match lastWaveTime c with
    | None => set_lastWaveTime (Some now) c
    | Some _ => c
    end in
  let timeSinceLastWave := now - default now (lastWaveTime c) in
  if bool_decide (timeSinceLastWave >= waveInterval c)
  then set_lastWaveTime (Some now)
         (set_waves (waves c ++ [mkWave 0 now now]) c)
  else c.

(** The creation and the propagation of the waves, main.js 1663-1698. *)
Definition waveLogic (now : R) (cam : Camera) (c : Config)
    : Config * option (R * R) :=
  let waveSigma := waveWidth c / 2 in
  let cutoff := 2 * waveSigma in
  if waveEnabled c && negb (isLoadingAnimation c) then
    let c := spawnWave now c in
    let '(ws, bounds) := propagateWaves c (maxWaveRadius cam) cutoff (waves c) in
    (set_waves ws c, bounds)
  else (c, None).

(** *** The whole step *)

(** The first loop of the settled branch, main.js 1739-1747. *)
Definition distanceStep (camZ : R) (i : nat) (s : Store) : option Store :=
  let i3 := (i * 3)%nat in
  if bool_decide (length (positions s) <= i3 + 2)%nat then None else
  let dz := rd (positions s) (i3 + 2) - camZ in
  let distance := Rabs dz in
  Some (set_distanceBuffer (<[i := distance]> (distanceBuffer s)) s).

(** [actualParticleCount] of the settled branch, main.js 1703-1716. *)
Definition actualCount (total : nat) (s : Store) : nat :=
  Nat.min total
    (Nat.min (countOf (length (positions s)) 3)
       (Nat.min (countOf (length (originalPositions s)) 3)
          (Nat.min (countOf (length (startPositions s)) 3)
             (Nat.min (countOf (length (velocities s)) 3)
                (countOf (length (colors s)) 3))))).

(** The length of [new Float32Array(actualParticleCount)], main.js 1719:
    the count with its fraction cut off, which is the number of the
    particles that all these arrays hold in full. *)
Definition allocCount (total : nat) (s : Store) : nat :=
  Nat.min total
    (Nat.min (length (positions s) / 3)
       (Nat.min (length (originalPositions s) / 3)
          (Nat.min (length (startPositions s) / 3)
             (Nat.min (length (velocities s) / 3)
                (length (colors s) / 3))))).

(** The per-frame values of main.js 1752-1758. *)
Definition mkFrameOf (c : Config) (ptr : Pointer) (cam : Camera) (nowPerf : R)
    (bounds : option (R * R)) : Frame :=
  let waveSigma := waveWidth c / 2 in
  let waveCutoffDistance := 2 * waveSigma in
  let waveInvSigma := if bool_decide (waveSigma > 0) then 1 / waveSigma else 0 in
  let speed :=
    sqrt (v2x (mouseVelocity ptr) * v2x (mouseVelocity ptr)
          + v2y (mouseVelocity ptr) * v2y (mouseVelocity ptr)) in
  let forceMultiplier :=
    Rmin (speed * forceStrength c) (forceStrength c * 2) in
  let interactionRadiusSq := interactionRadius c * interactionRadius c in
  let interactionActive :=
    isPointerInsideCanvas ptr
    && (isPointerDown ptr || bool_decide (speed > 0.001)) in
  let hasExplosions :=
    explosionEnabled c && bool_decide (0 < length (explosions c))%nat in
  let waveActive := waveEnabled c && bool_decide (0 < length (waves c))%nat in
  mkFrame c nowPerf (mouse3D ptr) (camZ cam) forceMultiplier
    interactionRadiusSq interactionActive hasExplosions waveActive bounds
    waveCutoffDistance waveInvSigma.

(** The reset of the sizes when the waves have stopped,
    main.js 2068-2075. *)
Definition resetSizes (waveActive wasActive : bool) (s : Store) : Store :=
  if negb waveActive && wasActive then
    let count := Nat.min (length (sizes s)) (length (baseSizes s)) in
    if bool_decide (0 < count)%nat
    then set_sizes (take count (baseSizes s) ++ drop count (sizes s)) s
    else s
  else s.

(** The cleanup of the explosions, main.js 2214-2221. *)
Definition cleanupExplosions (c : Config) : Config :=
  if bool_decide (0 < length (explosions c))%nat then
    let marked :=
      map (fun e => mkExplosion (exPosition e) (exStart e) (exId e) true)
        (explosions c) in
    set_explosions (List.filter (fun e => negb (applied e)) marked) c
  else c.

(** The store after the buffer of the distances has been filled,
    main.js 1718-1747. *)
Definition distanceStore (camZ : R) (actualParticleCount allocated : nat)
    (s : Store) : Store :=
  let s :=
    if bool_decide (length (distanceBuffer s) < actualParticleCount)%nat
    then set_distanceBuffer (replicate allocated 0) s else s in
  forLoop (distanceStep camZ) 0 actualParticleCount s.

(** The store after the loop over the particles and the reset of the
    sizes, main.js 1763-2075, with the count of the calls of
    [Math.random()]. *)
Definition physicsStore (f : Frame) (actualParticleCount : nat)
    (wasActive : bool) (s : Store) (k : nat) : Store * nat :=
  let '(s, k) := forLoop (particleStep f) 0 actualParticleCount (s, k) in
  (resetSizes (waveActive f) wasActive s, k).

(** The loop over the colors, main.js 2086-2206. *)
Definition colorStore (f : Frame) (hasColor glowIsDynamic glowStatic : bool)
    (actualParticleCount : nat) (s : Store) : Store :=
  if hasColor
  then forLoop (colorStep f glowIsDynamic glowStatic) 0
         (Nat.min actualParticleCount (length (distanceBuffer s))) s
  else s.

(** The world after a step, with what the step has changed. *)
Definition withStep (w : World) (c : Config) (s : Store) (ptr : Pointer)
    (cachedGlow cachedMult : R) (glowStatic wasActive : bool) (k : nat) : World :=
  mkWorld c s ptr (camera w) (isInitialized w) (hasGeometry w)
    (hasColorAttr w) (totalParticleCount w) cachedGlow cachedMult glowStatic
    wasActive (explosionIdCounter w) k.

(** The settled branch of [updatePhysics], main.js 1645-2233, from the
    [CONFIG], the store and the pointer state that the beginning of the
    function has produced. *)
Definition settledPhase (nowDate nowPerf : R) (w : World) (ptr : Pointer)
    (c : Config) (s : Store) : World :=
  let now := nowDate in
  let '(c, bounds) := waveLogic now (camera w) c in
  let actualParticleCount := actualCount (totalParticleCount w) s in
  let s :=
    distanceStore (camZ (camera w)) actualParticleCount
      (allocCount (totalParticleCount w) s) s in
  let f := mkFrameOf c ptr (camera w) nowPerf bounds in
  let '(s, k) := physicsStore f actualParticleCount (wasWaveActive w) s (randomCalls w) in
  let wasActive := waveActive f in
  let changed :=
    negb (bool_decide (cachedGlowBrightness w = glowBrightness c))
    || negb (bool_decide
               (cachedVelocityGlowMultiplier w = velocityGlowMultiplier c)) in
  let cachedGlow := if changed then glowBrightness c else cachedGlowBrightness w in
  let cachedMult :=
    if changed then velocityGlowMultiplier c
    else cachedVelocityGlowMultiplier w in
  let glowStatic := if changed then true else glowStaticNeedsUpdate w in
  let glowIsDynamic := bool_decide (velocityGlowMultiplier c > 0) in
  let s :=
    colorStore f (hasColorAttr w) glowIsDynamic glowStatic
      actualParticleCount s in
  let glowStatic :=
    if negb glowIsDynamic && glowStatic then false else glowStatic in
  let c := cleanupExplosions c in
  withStep w c s ptr cachedGlow cachedMult glowStatic wasActive k.

(** [updatePhysics], main.js 1529-2233; [nowDate] is [Date.now()] and
    [nowPerf] is [performance.now()]. *)
Definition updatePhysics (nowDate nowPerf : R) (w : World) : World :=
  if negb (isInitialized w) || negb (hasGeometry w) then w else
  let ptr := pointer w in
  let ptr :=
    mkPointer (mouse3D ptr)
      (if negb (mouseMovedThisFrame ptr) then mkVec2 0 0 else mouseVelocity ptr)
      false (isPointerInsideCanvas ptr) (isPointerDown ptr) in
  match loadingPhase nowDate (camZ (camera w)) (hasColorAttr w)
          (totalParticleCount w) (CONFIG w) (store w) with
  | (c, s, true) =>
      withStep w c s ptr (cachedGlowBrightness w)
        (cachedVelocityGlowMultiplier w) (glowStaticNeedsUpdate w)
        (wasWaveActive w) (randomCalls w)
  | (c, s, false) => settledPhase nowDate nowPerf w ptr c s
  end.

End Simulation.

Arguments randomDirection3D : simpl never.
Arguments pointerForce : simpl never.
Arguments autonomousMotion : simpl never.
Arguments explosionImpulse : simpl never.
Arguments explosionForces : simpl never.
Arguments waveForces : simpl never.
Arguments updateSize : simpl never.
Arguments advance : simpl never.
Arguments integrate : simpl never.
Arguments particleStep : simpl never.
Arguments finalBrightness : simpl never.
Arguments updateGlow : simpl never.
Arguments colorStep : simpl never.
Arguments loadingPosition : simpl never.
Arguments loadingColor : simpl never.
Arguments loadingGlow : simpl never.
Arguments distanceStep : simpl never.
Arguments spawnWave : simpl never.
Arguments waveLogic : simpl never.
Arguments mkFrameOf : simpl never.
Arguments actualCount : simpl never.
Arguments allocCount : simpl never.
Arguments countOf : simpl never.
Arguments resetSizes : simpl never.
Arguments cleanupExplosions : simpl never.

(** ** The event handlers that change what the step reads *)

Definition withConfig (c : Config) (w : World) : World :=
  mkWorld c (store w) (pointer w) (camera w) (isInitialized w) (hasGeometry w)
    (hasColorAttr w) (totalParticleCount w) (cachedGlowBrightness w)
    (cachedVelocityGlowMultiplier w) (glowStaticNeedsUpdate w)
    (wasWaveActive w) (explosionIdCounter w) (randomCalls w).

(** [onExplosionClick], main.js 1379-1404, with the position of the click
    on the plane and the value of [performance.now()]. *)
Definition onExplosionClick (clickPosition : Vec3) (nowPerf : R) (w : World) : World :=
  if negb (explosionEnabled (CONFIG w)) then w else
  let explosion := mkExplosion clickPosition nowPerf (explosionIdCounter w) false in
  let c := set_explosions (explosions (CONFIG w) ++ [explosion]) (CONFIG w) in
  mkWorld c (store w) (pointer w) (camera w) (isInitialized w) (hasGeometry w)
    (hasColorAttr w) (totalParticleCount w) (cachedGlowBrightness w)
    (cachedVelocityGlowMultiplier w) (glowStaticNeedsUpdate w)
    (wasWaveActive w) (S (explosionIdCounter w)) (randomCalls w).

(** The handler of the wave checkbox, main.js 2370-2377. *)
Definition onWaveEnabledChange (checked : bool) (w : World) : World :=
  let c := set_waveEnabled checked (CONFIG w) in
  let c := if negb (waveEnabled c) then set_lastWaveTime None (set_waves [] c) else c in
  withConfig c w.

(** The handler of the explosion checkbox, main.js 2412-2418. *)
Definition onExplosionEnabledChange (checked : bool) (w : World) : World :=
  let c := set_explosionEnabled checked (CONFIG w) in
  let c := if negb (explosionEnabled c) then set_explosions [] c else c in
  withConfig c w.

(** ** Names for the intermediate values of a settled step *)

(** The pointer state after the reset of main.js 1537-1540. *)
Definition framePointer (w : World) : Pointer :=
  mkPointer (mouse3D (pointer w))
    (if negb (mouseMovedThisFrame (pointer w))
     then mkVec2 0 0 else mouseVelocity (pointer w))
    false (isPointerInsideCanvas (pointer w)) (isPointerDown (pointer w)).

(** The per-frame values of a settled step that starts from [c]. *)
Definition settledFrame (nowDate nowPerf : R) (cam : Camera) (ptr : Pointer)
    (c : Config) : Frame :=
  mkFrameOf (waveLogic nowDate cam c).1 ptr cam nowPerf
    (waveLogic nowDate cam c).2.

(** The store of a settled step after its loop over the particles, which
    is the store that its loop over the colors reads. *)
Definition settledPhysics (rnd : nat -> R) (nowDate nowPerf : R) (w : World)
    (ptr : Pointer) (c : Config) (s : Store) : Store :=
  let n := actualCount (totalParticleCount w) s in
  (physicsStore rnd (settledFrame nowDate nowPerf (camera w) ptr c) n
     (wasWaveActive w)
     (distanceStore (camZ (camera w)) n (allocCount (totalParticleCount w) s) s)
     (randomCalls w)).1.

(** A world in the settled state, on which [updatePhysics] runs. *)
Definition settled (w : World) : Prop :=
  isInitialized w = true /\ hasGeometry w = true /\
  isLoadingAnimation (CONFIG w) = false.

(** Particle [i] is treated by the loops of a settled step on [s]: it
    is one of the particles that the arrays of the count hold in full. *)
Definition processed (total : nat) (s : Store) (i : nat) : Prop :=
  (i < allocCount total s)%nat.

(** ** Concrete worlds *)

(** [CONFIG] as main.js 65-116 initializes it, after the loading
    animation, for a formation of one particle and with a given strength
    of the autonomous motion. *)
Definition configWith (strength : R) : Config :=
  {| particleCount := 1;
     forceStrength := 100;
     interactionRadius := 5;
     springConstant := 0.35;
     damping := 0.90;
     timeScale := 0.90;
     pointSize := 4;
     sizeVariation := 0.5;
     autonomousMotionStrength := strength;
     chaosAngle := 45;
     chaosStrength := 0.8;
     tangentialForceRatio := 0.4;
     zAxisStrength := 0.6;
     isLoadingAnimation := false;
     loadAnimationStartTime := Some 0;
     loadAnimationDuration := 4000;
     loadAnimationEasingCurve := preset_ease_in_out;
     waveEnabled := false;
     waveInterval := 8000;
     waveSpeed := 6;
     waveWidth := 1.6;
     waveForce := 0.001;
     waveGlowIntensity := 0.75;
     waveForceFalloff := 0.5;
     lastWaveTime := None;
     waves := [];
     maxBrightness := 1;
     depthDarkeningStrength := 1.85;
     glowBrightness := 0.19;
     velocityGlowMultiplier := 0.10;
     explosionEnabled := true;
     explosionForce := 10;
     explosionSpeed := 0.20;
     explosionReturnDelay := 1200;
     explosionGlowIntensity := 0.8;
     explosionGlowDuration := 500;
     explosions := [] |}.

(** The initial strength of the autonomous motion is 0.04. *)
Definition exampleConfig : Config := configWith 0.04.

(** A store of one particle that rests at its target [p]. *)
Definition oneParticle (p : Vec3) (baseSize : R) : Store :=
  {| positions := [vx p; vy p; vz p];
     originalPositions := [vx p; vy p; vz p];
     baseOriginalPositions := [vx p; vy p; vz p];
     startPositions := [vx p; vy p; vz p + 40];
     scrollDirections := [0; 0; 1];
     velocities := [0; 0; 0];
     colors := [1; 1; 1];
     sizes := [baseSize];
     baseSizes := [baseSize];
     glows := [0];
     explosionGlowEndTimes := [0];
     explosionReturnTimes := [0];
     distanceBuffer := [0] |}.

(** The camera of main.js 205 at depth 12, with a frustum of 6 by 8. *)
Definition exampleCamera : Camera :=
  {| camZ := 12; camLeft := -3; camRight := 3; camTop := 4; camBottom := -4 |}.

(** The pointer outside the canvas. *)
Definition idlePointer : Pointer :=
  {| mouse3D := mkVec3 0 0 0;
     mouseVelocity := mkVec2 0 0;
     mouseMovedThisFrame := false;
     isPointerInsideCanvas := false;
     isPointerDown := false |}.

Definition exampleWorld (c : Config) (s : Store) : World :=
  {| CONFIG := c;
     store := s;
     pointer := idlePointer;
     camera := exampleCamera;
     isInitialized := true;
     hasGeometry := true;
     hasColorAttr := true;
     totalParticleCount := 1;
     cachedGlowBrightness := glowBrightness c;
     cachedVelocityGlowMultiplier := velocityGlowMultiplier c;
     glowStaticNeedsUpdate := true;
     wasWaveActive := false;
     explosionIdCounter := 0;
     randomCalls := 0 |}.

(** A visible particle 42 units in front of the camera. *)
Definition farWorld : World :=
  exampleWorld exampleConfig (oneParticle (mkVec3 0 0 (-30)) 4).

(** An invisible particle and one click that waits in the list. *)
Definition clickedWorld : World :=
  exampleWorld
    (set_explosions [mkExplosion (mkVec3 0 0 0) 1000 0 false] exampleConfig)
    (oneParticle (mkVec3 0 0 0) 0).

(** A visible particle at rest, without autonomous motion, and one click
    that waits in the list. *)
Definition blastWorld : World :=
  exampleWorld
    (set_explosions [mkExplosion (mkVec3 0 0 0) 1000 0 false] (configWith 0))
    (oneParticle (mkVec3 1 2 0) 4).

(** A visible particle at its target, without autonomous motion. *)
Definition calmWorld : World :=
  exampleWorld (configWith 0) (oneParticle (mkVec3 1 2 0) 4).

(** A source of random numbers for the examples. *)
Definition halves : nat -> R := fun _ => 0.5.

(** ** Footprints *)

(** [a'] is [a] except possibly at the three entries of particle [j]. *)
Definition same3 (j : nat) (a a' : list R) : Prop :=
  length a' = length a /\
  forall m : nat,
    m <> (j * 3)%nat -> m <> (j * 3 + 1)%nat -> m <> (j * 3 + 2)%nat ->
    a' !! m = a !! m.

(** [a'] is [a] except possibly at entry [j]. *)
Definition same1 (j : nat) (a a' : list R) : Prop :=
  length a' = length a /\ forall m : nat, m <> j -> a' !! m = a !! m.

(** The footprint of one iteration of the loop over the particles: the
    position, the velocity, the size and the two timers of particle [j]. *)
Record physicsFootprint (j : nat) (s s' : Store) : Prop := {
  pf_positions : same3 j (positions s) (positions s');
  pf_velocities : same3 j (velocities s) (velocities s');
  pf_sizes : same1 j (sizes s) (sizes s');
  pf_glowEnd : same1 j (explosionGlowEndTimes s) (explosionGlowEndTimes s');
  pf_return : same1 j (explosionReturnTimes s) (explosionReturnTimes s');
  pf_original : originalPositions s' = originalPositions s;
  pf_baseOriginal : baseOriginalPositions s' = baseOriginalPositions s;
  pf_start : startPositions s' = startPositions s;
  pf_scroll : scrollDirections s' = scrollDirections s;
  pf_colors : colors s' = colors s;
  pf_baseSizes : baseSizes s' = baseSizes s;
  pf_glows : glows s' = glows s;
  pf_distance : distanceBuffer s' = distanceBuffer s
}.

(** The footprint of one iteration of the loop over the colors: the
    color and the glow of particle [j]. *)
Record colorFootprint (j : nat) (s s' : Store) : Prop := {
  cf_colors : same3 j (colors s) (colors s');
  cf_glows : same1 j (glows s) (glows s');
  cf_positions : positions s' = positions s;
  cf_velocities : velocities s' = velocities s;
  cf_sizes : sizes s' = sizes s;
  cf_glowEnd : explosionGlowEndTimes s' = explosionGlowEndTimes s;
  cf_return : explosionReturnTimes s' = explosionReturnTimes s;
  cf_original : originalPositions s' = originalPositions s;
  cf_baseOriginal : baseOriginalPositions s' = baseOriginalPositions s;
  cf_start : startPositions s' = startPositions s;
  cf_scroll : scrollDirections s' = scrollDirections s;
  cf_baseSizes : baseSizes s' = baseSizes s;
  cf_distance : distanceBuffer s' = distanceBuffer s
}.

(** A property of a store that the iterations of the other particles keep. *)
Definition stableAt (i : nat) (Q : Store -> Prop) : Prop :=
  forall j s s', j <> i -> physicsFootprint j s s' -> Q s -> Q s'.

(** The timers of particle [i] after the explosions of the list. *)
Definition timerAfter (f : Frame) (old delay : R) : R :=
  if hasExplosions f
     && existsb (fun e => negb (applied e)) (explosions (fCfg f))
  then fround (Rmax old (nowPerf f + delay)) else old.

(** The term that the explosion adds to [finalBrightness],
    main.js 2161-2170. *)
Definition explosionGlow (f : Frame) (i : nat) (s : Store) : R :=
  if explosionEnabled (fCfg f)
     && bool_decide (i < length (explosionGlowEndTimes s))%nat
     && bool_decide (rd (explosionGlowEndTimes s) i > nowPerf f)
  then explosionGlowIntensity (fCfg f)
       * ((rd (explosionGlowEndTimes s) i - nowPerf f)
          / explosionGlowDuration (fCfg f))
  else 0.

(** An invisible particle, and nothing that happens. *)
Definition hiddenWorld : World :=
  exampleWorld exampleConfig (oneParticle (mkVec3 0 0 0) 0).

(** A visible particle at the depth of the one of [farWorld], elsewhere
    on the screen. *)
Definition sideWorld : World :=
  exampleWorld exampleConfig (oneParticle (mkVec3 5 7 (-30)) 4).

Definition vadd (a b : Vec3) : Vec3 :=
  mkVec3 (vx a + vx b) (vy a + vy b) (vz a + vz b).

(** The impulse of one explosion on a particle of direction [dir], with
    the three results of [Math.random()] from call [k] on,
    main.js 1860-1874. *)
Definition impulseOf (rnd : nat -> R) (c : Config) (dir : Vec3) (k : nat) : Vec3 :=
  mkVec3 ((vx dir + (rnd k - 0.5) * 0.2) * (explosionForce c * 0.1))
         ((vy dir + (rnd (k + 1)%nat - 0.5) * 0.2) * (explosionForce c * 0.1))
         ((vz dir + (rnd (k + 2)%nat - 0.5) * 0.2) * (explosionForce c * 0.1)).

(** The sum of one impulse for each of [n] explosions, the first one
    drawing from call [k] on. *)
Fixpoint impulseSum (rnd : nat -> R) (c : Config) (dir : Vec3) (k n : nat) : Vec3 :=
  match n with
  | O => mkVec3 0 0 0
  | S n' => vadd (impulseOf rnd c dir k) (impulseSum rnd c dir (k + 3)%nat n')
  end.

(** The invariant of the list of the explosions that the handlers and
    the step keep: it is empty while explosions are disabled, and none
    of its entries has been applied. *)
Definition explosionsInv (w : World) : Prop :=
  (explosionEnabled (CONFIG w) = false -> explosions (CONFIG w) = []) /\
  Forall (fun e => applied e = false) (explosions (CONFIG w)).

(** A world in its loading animation, started at time 0. *)
Definition loadingWorld : World :=
  exampleWorld (set_isLoadingAnimation true exampleConfig)
    (oneParticle (mkVec3 1 2 0) 4).

(** The waves that the propagation keeps: those whose grown radius is
    below the limit. *)
Definition keptWaves (c : Config) (limit : R) (ws : list Wave) : list Wave :=
  List.filter (fun w => negb (bool_decide (radius w >= limit)))
    (map (grownWave c) ws).

(** A settled world with waves enabled and one wave of radius 7. *)
Definition waveWorld : World :=
  exampleWorld
    (set_waves [mkWave 7 0 0]
       (set_lastWaveTime (Some 4000) (set_waveEnabled true exampleConfig)))
    (oneParticle (mkVec3 1 2 0) 4).

(** A world at the end of its loading animation, with waves enabled. *)
Definition enteringWorld : World :=
  exampleWorld (set_waveEnabled true (set_isLoadingAnimation true exampleConfig))
    (oneParticle (mkVec3 1 2 0) 4).

(** ** The scroll and the restart of the loading animation *)

Definition set_originalPositions (v : list R) (s : Store) : Store :=
  mkStore (positions s) v (baseOriginalPositions s) (startPositions s)
    (scrollDirections s) (velocities s) (colors s) (sizes s) (baseSizes s)
    (glows s) (explosionGlowEndTimes s) (explosionReturnTimes s)
    (distanceBuffer s).

(** The world with another store. *)
Definition withStore (s : Store) (w : World) : World :=
  mkWorld (CONFIG w) s (pointer w) (camera w) (isInitialized w) (hasGeometry w)
    (hasColorAttr w) (totalParticleCount w) (cachedGlowBrightness w)
    (cachedVelocityGlowMultiplier w) (glowStaticNeedsUpdate w)
    (wasWaveActive w) (explosionIdCounter w) (randomCalls w).

(** [scrollProgress] and [previousScrollProgress], main.js 1409-1410. *)
Record Scroll := mkScroll { scrollProgress : R; previousScrollProgress : R }.

(** The body of the loop of [updateOriginalPositionsFromScroll],
    main.js 1420-1426. *)
Definition scrollTarget (spreadDistance : R) (i : nat) (s : Store) : option Store :=
  let i3 := (i * 3)%nat in
  let b := baseOriginalPositions s in
  let d := scrollDirections s in
  let o := originalPositions s in
  let o := <[i3 := rd b i3 + rd d i3 * spreadDistance]> o in
  let o := <[(i3 + 1)%nat := rd b (i3 + 1) + rd d (i3 + 1) * spreadDistance]> o in
  let o := <[(i3 + 2)%nat := rd b (i3 + 2) + rd d (i3 + 2) * spreadDistance]> o in
  Some (set_originalPositions o s).

(** [updateOriginalPositionsFromScroll], main.js 1413-1427;
    [scrollSpreadForce] is [CONFIG.scrollSpreadForce]. *)
Definition updateOriginalPositionsFromScroll (scrollSpreadForce progress : R)
    (w : World) : World :=
  if negb (isInitialized w)
     || bool_decide (length (baseOriginalPositions (store w)) = 0%nat)
  then w else
  let actualParticleCount :=
    Nat.min (totalParticleCount w)
      (countOf (length (baseOriginalPositions (store w))) 3) in
  let spreadDistance := progress * scrollSpreadForce * 1.0 in
  withStore (forLoop (scrollTarget spreadDistance) 0 actualParticleCount (store w)) w.

(** [scrollProgress] for a scroll offset, main.js 1430-1432;
    [scrollDepth] is [CONFIG.scrollDepth], [innerHeight] and [scrollY]
    are those of the window. *)
Definition scrollProgressOf (scrollDepth innerHeight scrollY : R) : R :=
  let maxScroll := (scrollDepth * innerHeight) / 100 in
  Rmax 0 (Rmin 1 (scrollY / maxScroll)).

(** [updateScrollProgress], main.js 1429-1438. *)
Definition updateScrollProgress (scrollDepth scrollSpreadForce innerHeight scrollY : R)
    (st : Scroll * World) : Scroll * World :=
  let previous := scrollProgress st.1 in
  let progress := scrollProgressOf scrollDepth innerHeight scrollY in
  let sc := mkScroll progress previous in
  if bool_decide (Rabs (progress - previous) > 0.001)
  then (sc, updateOriginalPositionsFromScroll scrollSpreadForce progress st.2)
  else (sc, st.2).

(** A sequence of scroll offsets in which no offset moves the progress
    by more than 0.001 from the progress of the offset before it. *)
Fixpoint slowScroll (scrollDepth innerHeight previous : R) (ys : list R) : Prop :=
  match ys with
  | [] => True
  | y :: ys =>
      Rabs (scrollProgressOf scrollDepth innerHeight y - previous) <= 0.001 /\
      slowScroll scrollDepth innerHeight
        (scrollProgressOf scrollDepth innerHeight y) ys
  end.

(** The body of the first loop of [restartLoadAnimation],
    main.js 2903-2910. *)
Definition restartPosition (i : nat) (s : Store) : option Store :=
  let i3 := (i * 3)%nat in
  if bool_decide (length (positions s) <= i3 + 2)%nat then None else
  let p := positions s in
  let p := <[i3 := rd (startPositions s) i3]> p in
  let p := <[(i3 + 1)%nat := rd (startPositions s) (i3 + 1)]> p in
  let p := <[(i3 + 2)%nat := rd (startPositions s) (i3 + 2)]> p in
  Some (set_positions p s).

(** The body of its second loop, main.js 2913-2915. *)
Definition restartGlow (i : nat) (s : Store) : option Store :=
  Some (set_glows (<[i := 0]> (glows s)) s).

(** [restartLoadAnimation], main.js 2893-2925; [nowDate] is [Date.now()]. *)
Definition restartLoadAnimation (nowDate : R) (w : World) : World :=
  if negb (isInitialized w) || negb (hasGeometry w) then w else
  let s := store w in
  let actualParticleCount :=
    Nat.min (totalParticleCount w) (countOf (length (positions s)) 3) in
  let s := forLoop restartPosition 0 actualParticleCount s in
  let s := forLoop restartGlow 0 (length (glows s)) s in
  let c :=
    set_loadAnimationStartTime (Some nowDate)
      (set_isLoadingAnimation true (CONFIG w)) in
  withStore s (withConfig c w).

(** A world whose particle has left its base position, and a scroll
    that has not begun. *)
Definition scrolledWorld : World :=
  exampleWorld exampleConfig
    (set_originalPositions [5; 5; 5] (oneParticle (mkVec3 1 2 0) 4)).

(** ** The curve editor *)

(** The canvas of the curve editor as the handlers read it:
    [getBoundingClientRect()], [window.devicePixelRatio] and the
    [width] and [height] of the canvas. *)
Record Canvas := mkCanvas {
  rectLeft : R;
  rectTop : R;
  rectRight : R;
  rectBottom : R;
  devicePixelRatio : R;
  canvasWidth : R;
  canvasHeight : R
}.

(** [padding], main.js 2580. *)
Definition padding : R := 20.

(** [window.devicePixelRatio || 1]. *)
Definition dprOf (cv : Canvas) : R :=
  if decide (devicePixelRatio cv = 0) then 1 else devicePixelRatio cv.

(** The result of [getPointFromMouse]. *)
Record MousePoint := mkMousePoint {
  mpX : R;
  mpY : R;
  mpCanvasX : R;
  mpCanvasY : R
}.

(** [getPointFromMouse], main.js 2739-2756. *)
Definition getPointFromMouse (cv : Canvas) (clientX clientY : R) : MousePoint :=
  let dpr := dprOf cv in
  let canvasX := (clientX - rectLeft cv) * dpr in
  let canvasY := (clientY - rectTop cv) * dpr in
  let actualWidth := canvasWidth cv / dpr in
  let actualHeight := canvasHeight cv / dpr in
  let actualDrawWidth := actualWidth - padding * 2 in
  let actualDrawHeight := actualHeight - padding * 2 in
  let bezierX := Rmax 0 (Rmin 1 ((canvasX / dpr - padding) / actualDrawWidth)) in
  let bezierY :=
    Rmax 0 (Rmin 1 (1 - (canvasY / dpr - padding) / actualDrawHeight)) in
  mkMousePoint bezierX bezierY (canvasX / dpr) (canvasY / dpr).

(** Where [drawCurve] and [getPointUnderMouse] place the point [(x, y)]
    of the curve on the canvas, main.js 2634-2637 and 2771-2777. *)
Definition canvasPointOf (cv : Canvas) (x y : R) : R * R :=
  let dpr := dprOf cv in
  let actualWidth := canvasWidth cv / dpr in
  let actualHeight := canvasHeight cv / dpr in
  let actualDrawWidth := actualWidth - padding * 2 in
  let actualDrawHeight := actualHeight - padding * 2 in
  (padding + x * actualDrawWidth,
   padding + actualDrawHeight - y * actualDrawHeight).

(** The control points of the curve: ['p1'] and ['p2']. *)
Inductive Handle := P1 | P2.

(** [getPointUnderMouse], main.js 2759-2784. *)
Definition getPointUnderMouse (cv : Canvas) (c : Curve) (clientX clientY : R)
    : option Handle :=
  let mouse := getPointFromMouse cv clientX clientY in
  let threshold := 10 in
  let '(p1x, p1y) := canvasPointOf cv (p1x c) (p1y c) in
  let dist1 :=
    sqrt ((mpCanvasX mouse - p1x) ^ 2 + (mpCanvasY mouse - p1y) ^ 2) in
  let '(p2x, p2y) := canvasPointOf cv (p2x c) (p2y c) in
  let dist2 :=
    sqrt ((mpCanvasX mouse - p2x) ^ 2 + (mpCanvasY mouse - p2y) ^ 2) in
  if bool_decide (dist1 < threshold) then Some P1
  else if bool_decide (dist2 < threshold) then Some P2
  else None.

(** [isDragging] and [draggedPoint], main.js 2581-2582. *)
Record Editor := mkEditor { isDragging : bool; draggedPoint : option Handle }.

(** [CONFIG.loadAnimationEasingCurve[draggedPoint + 'x'] = x] and the
    same for ['y']. *)
Definition setControlPoint (h : Handle) (x y : R) (c : Curve) : Curve :=
  match h with
  | P1 => {| p1x := x; p1y := y; p2x := p2x c; p2y := p2y c |}
  | P2 => {| p1x := p1x c; p1y := p1y c; p2x := x; p2y := y |}
  end.

(** The handler of [mousedown] on the canvas, main.js 2787-2796. *)
Definition onCurveMouseDown (cv : Canvas) (clientX clientY : R) (c : Curve)
    (e : Editor) : Editor :=
  match getPointUnderMouse cv c clientX clientY with
  | Some point => mkEditor true (Some point)
  | None => e
  end.

(** The handler of [mousemove] on the canvas, main.js 2798-2812: the
    curve after the event. *)
Definition onCurveMouseMove (cv : Canvas) (clientX clientY : R) (e : Editor)
    (c : Curve) : Curve :=
  match isDragging e, draggedPoint e with
  | true, Some h =>
      let mouse := getPointFromMouse cv clientX clientY in
      setControlPoint h (Rmax 0 (Rmin 1 (mpX mouse))) (Rmax 0 (Rmin 1 (mpY mouse))) c
  | _, _ => c
  end.

(** The handler of [mousemove] on the document, main.js 2831-2844. *)
Definition onDocumentMouseMove (cv : Canvas) (clientX clientY : R) (e : Editor)
    (c : Curve) : Curve :=
  match isDragging e, draggedPoint e with
  | true, Some h =>
      if bool_decide (clientX >= rectLeft cv) && bool_decide (clientX <= rectRight cv)
         && bool_decide (clientY >= rectTop cv)
         && bool_decide (clientY <= rectBottom cv)
      then
        let mouse := getPointFromMouse cv clientX clientY in
        setControlPoint h (Rmax 0 (Rmin 1 (mpX mouse)))
          (Rmax 0 (Rmin 1 (mpY mouse))) c
      else c
  | _, _ => c
  end.

(** The handlers of [mouseup] and [mouseleave], main.js 2814-2828. *)
Definition onCurveMouseUp (e : Editor) : Editor := mkEditor false None.

(** A curve whose two control points lie in the unit square. *)
Definition inUnitSquare (c : Curve) : Prop :=
  (0 <= p1x c <= 1 /\ 0 <= p1y c <= 1) /\ (0 <= p2x c <= 1 /\ 0 <= p2y c <= 1).

(** A canvas of 404 by 202 CSS pixels on a display of pixel ratio 2. *)
Definition exampleCanvas : Canvas :=
  {| rectLeft := 100; rectTop := 50; rectRight := 504; rectBottom := 252;
     devicePixelRatio := 2; canvasWidth := 808; canvasHeight := 404 |}.

(** ** The sizes of the particles *)

Definition set_baseSizes (v : list R) (s : Store) : Store :=
  mkStore (positions s) (originalPositions s) (baseOriginalPositions s)
    (startPositions s) (scrollDirections s) (velocities s) (colors s)
    (sizes s) v (glows s) (explosionGlowEndTimes s) (explosionReturnTimes s)
    (distanceBuffer s).

(** [CONFIG] with [pointSize] and [sizeVariation] replaced. *)
Definition withSizes (c : Config) (size variation : R) : Config :=
  mkConfig (particleCount c) (forceStrength c) (interactionRadius c)
    (springConstant c) (damping c) (timeScale c) size variation
    (autonomousMotionStrength c) (chaosAngle c) (chaosStrength c)
    (tangentialForceRatio c) (zAxisStrength c) (isLoadingAnimation c)
    (loadAnimationStartTime c) (loadAnimationDuration c)
    (loadAnimationEasingCurve c) (waveEnabled c) (waveInterval c)
    (waveSpeed c) (waveWidth c) (waveForce c) (waveGlowIntensity c)
    (waveForceFalloff c) (lastWaveTime c) (waves c) (maxBrightness c)
    (depthDarkeningStrength c) (glowBrightness c) (velocityGlowMultiplier c)
    (explosionEnabled c) (explosionForce c) (explosionSpeed c)
    (explosionReturnDelay c) (explosionGlowIntensity c)
    (explosionGlowDuration c) (explosions c).

(** The world with another store and another count of the calls of
    [Math.random()]. *)
Definition withRandom (s : Store) (k : nat) (w : World) : World :=
  mkWorld (CONFIG w) s (pointer w) (camera w) (isInitialized w) (hasGeometry w)
    (hasColorAttr w) (totalParticleCount w) (cachedGlowBrightness w)
    (cachedVelocityGlowMultiplier w) (glowStaticNeedsUpdate w)
    (wasWaveActive w) (explosionIdCounter w) k.

(** [i >= CONFIG.particleCount && baseSizes && baseSizes[i] === 0],
    main.js 257: an invisible particle outside the formation. *)
Definition keepsInvisible (c : Config) (s : Store) (i : nat) : bool :=
  bool_decide (particleCount c <= i)%nat
  && bool_decide (i < length (baseSizes s))%nat
  && bool_decide (rd (baseSizes s) i = 0).

(** The body of the loop of [generateParticleSizes], main.js 255-262. *)
Definition generateSize (rnd : nat -> R) (c : Config) (i : nat)
    (sk : Store * nat) : option (Store * nat) :=
  let '(s, k) := sk in
  let baseSize := pointSize c in
  let variation := sizeVariation c in
  let minSize := baseSize * (1 - variation) in
  let maxSize := baseSize * (1 + variation) in
  if keepsInvisible c s i
  then Some (set_sizes (<[i := 0]> (sizes s)) s, k)
  else Some (set_sizes (<[i := minSize + rnd k * (maxSize - minSize)]> (sizes s)) s,
             (k + 1)%nat).

(** [generateParticleSizes], main.js 244-263. *)
Definition generateParticleSizes (rnd : nat -> R) (w : World) : World :=
  let s := store w in
  let s :=
    if bool_decide (length (sizes s) <> totalParticleCount w)
    then set_sizes (replicate (totalParticleCount w) 0) s else s in
  let '(s, k) :=
    forLoop (generateSize rnd (CONFIG w)) 0 (totalParticleCount w)
      (s, randomCalls w) in
  withRandom s k w.

(** The sliders whose listener regenerates the sizes. *)
Inductive SizeControl := PointSizeControl | SizeVariationControl.

(** The body of the loop of main.js 2352-2356. *)
Definition hideInvisible (i : nat) (s : Store) : option Store :=
  if bool_decide (i < length (baseSizes s))%nat
     && bool_decide (rd (baseSizes s) i = 0)
  then Some (set_sizes (<[i := 0]> (sizes s)) s) else Some s.

(** The listener that [setupControl] installs on the sliders
    ['pointSize'] and ['sizeVariation'], main.js 2294-2363; [value] is
    the value of the slider. *)
Definition onSizeInput (rnd : nat -> R) (id : SizeControl) (value : R)
    (w : World) : World :=
  let c :=
    match id with
    | PointSizeControl => withSizes (CONFIG w) value (sizeVariation (CONFIG w))
    | SizeVariationControl => withSizes (CONFIG w) (pointSize (CONFIG w)) value
    end in
  let w := withConfig c w in
  let s := store w in
  let s :=
    if bool_decide (length (sizes s) <> totalParticleCount w)
    then set_sizes (replicate (totalParticleCount w) 0) s else s in
  let w := generateParticleSizes rnd (withStore s w) in
  let s := store w in
  let s :=
    if bool_decide (length (baseSizes s) = length (sizes s))
    then set_baseSizes (sizes s) s else s in
  let s :=
    if bool_decide (length (baseSizes s) = length (sizes s))
    then forLoop hideInvisible (particleCount c)
           (length (sizes s) - particleCount c) s
    else s in
  withStore s w.

(** A formation of one particle and, outside it, one invisible and one
    visible particle. *)
Definition threeSizes : World :=
  mkWorld exampleConfig
    (set_baseSizes [4; 0; 5] (set_sizes [4; 2; 5] (oneParticle (mkVec3 0 0 0) 4)))
    idlePointer exampleCamera true true true 3
    (glowBrightness exampleConfig) (velocityGlowMultiplier exampleConfig)
    true false 0 0.

(** ** The animation loop *)

(** [PerformanceMonitor], main.js 3032-3149: the fields that [update]
    computes from.  [frameTime], the average formatted with two
    decimals, and the text that [updateDOM] writes are not part of the
    model. *)
Record Monitor := mkMonitor {
  monitorLastFrameTime : R;
  frameTimes : list R;
  fps : R
}.

(** [maxSamples], main.js 3035. *)
Definition maxSamples : nat := 30.

(** [Math.round]: the nearest integer, a half rounded up. *)
Definition mathRound (x : R) : R := IZR (Int_part (x + 0.5)).

(** [PerformanceMonitor.reset], main.js 3039-3042. *)
Definition monitorReset (now : R) (m : Monitor) : Monitor :=
  mkMonitor now [] (fps m).

(** [PerformanceMonitor.update], main.js 3044-3067; [currentTime] is the
    value of [performance.now()] that it reads. *)
Definition monitorUpdate (currentTime : R) (m : Monitor) : Monitor :=
  let frameDelta := currentTime - monitorLastFrameTime m in
  let ft := frameTimes m ++ [frameDelta] in
  let ft := if bool_decide (maxSamples < length ft)%nat then drop 1 ft else ft in
  let fps :=
    if bool_decide (0 < length ft)%nat then
      let avgFrameTime := fold_left Rplus ft 0 / INR (length ft) in
      mathRound (1000 / avgFrameTime)
    else fps m in
  mkMonitor currentTime ft fps.

(** [maxFPS] and [lastFrameTime], main.js 3001-3002, and the monitor. *)
Record Loop := mkLoop {
  maxFPS : R;
  lastFrameTime : R;
  monitor : Monitor
}.

(** [updateMaxFPS], main.js 3008-3017; [sliderMax] is
    [parseInt(maxFPSSlider.max)]. *)
Definition updateMaxFPS (sliderMax value : R) (l : Loop) : Loop :=
  if bool_decide (value >= sliderMax)
  then mkLoop 0 (lastFrameTime l) (monitor l)
  else mkLoop value (lastFrameTime l) (monitor l).

(** The listener of the slider of the frame rate, main.js 3023-3028;
    [nowPerf] and [nowMonitor] are the two values of
    [performance.now()] that it reads. *)
Definition onMaxFPSInput (sliderMax value nowPerf nowMonitor : R) (l : Loop) : Loop :=
  let l := updateMaxFPS sliderMax value l in
  mkLoop (maxFPS l) nowPerf (monitorReset nowMonitor (monitor l)).

(** The values of the clocks that one call of [animate] reads:
    [performance.now()] in [animate], [Date.now()] and
    [performance.now()] in [updatePhysics], [performance.now()] in
    [PerformanceMonitor.update]. *)
Record Tick := mkTick {
  tickTime : R;
  tickDate : R;
  tickPerf : R;
  tickMonitor : R
}.

(** [animate], main.js 3152-3180: the state after the call and whether
    the frame was processed.  The request of the next frame and the
    rendering are not part of the model. *)
Definition animate (rnd : nat -> R) (t : Tick) (st : Loop * World)
    : Loop * World * bool :=
  let l := st.1 in
  let currentTime := tickTime t in
  let deltaTime := currentTime - lastFrameTime l in
  if bool_decide (maxFPS l > 0)
     && bool_decide (deltaTime < 1000 / maxFPS l - 3.0)
  then (st, false)
  else (mkLoop (maxFPS l) currentTime (monitorUpdate (tickMonitor t) (monitor l)),
        updatePhysics rnd (tickDate t) (tickPerf t) st.2, true).

(** The calls of [animate] for a sequence of frames: the state after
    them and the times of the frames that were processed. *)
Fixpoint animateAll (rnd : nat -> R) (ts : list Tick) (st : Loop * World)
    : Loop * World * list R :=
  match ts with
  | [] => (st, [])
  | t :: ts =>
      let r := animate rnd t st in
      let rs := animateAll rnd ts r.1 in
      (rs.1, if r.2 then tickTime t :: rs.2 else rs.2)
  end.

(** Every time of the list is at least [gap] after the one before it,
    the first one after [previous]. *)
Fixpoint spaced (gap previous : R) (times : list R) : Prop :=
  match times with
  | [] => True
  | t :: times => gap <= t - previous /\ spaced gap t times
  end.

(** The calls of [PerformanceMonitor.update] at a sequence of times. *)
Definition monitorUpdates (times : list R) (m : Monitor) : Monitor :=
  fold_left (fun m t => monitorUpdate t m) times m.

(** The differences of the consecutive times, the first one from
    [previous]. *)
Fixpoint deltas (previous : R) (times : list R) : list R :=
  match times with
  | [] => []
  | t :: times => (t - previous) :: deltas t times
  end.

(** A frame at every multiple of 10 ms. *)
Definition tickAt (t : R) : Tick := mkTick t t t t.

(** A loop limited to 50 frames per second, last run at time 0. *)
Definition limitedLoop : Loop := mkLoop 50 0 (mkMonitor 0 [] 60).

(** ** The pointer handlers *)

(** [mouse] and [previousMouse], main.js 1317-1319: the position of the
    pointer in normalized device coordinates. *)
Record MouseState := mkMouseState { mouse : Vec2; previousMouse : Vec2 }.

(** A pointer event: [clientX], [clientY], and the point in which the
    ray of the camera through the pointer meets the plane [z = 0]
    ([raycaster.ray.intersectPlane], main.js 1336-1338). *)
Record PointerEvent := mkPointerEvent {
  clientX : R;
  clientY : R;
  intersectionPoint : Vec3
}.

(** [updateMousePosition], main.js 1326-1340. *)
Definition updateMousePosition (innerWidth innerHeight : R) (event : PointerEvent)
    (st : MouseState * Pointer) : MouseState * Pointer :=
  let previous := mouse st.1 in
  let x := (clientX event / innerWidth) * 2 - 1 in
  let y := - (clientY event / innerHeight) * 2 + 1 in
  (mkMouseState (mkVec2 x y) previous,
   mkPointer (intersectionPoint event)
     (mkVec2 (x - v2x previous) (y - v2y previous))
     true (isPointerInsideCanvas st.2) (isPointerDown st.2)).

(** [onPointerMove], main.js 1345-1348. *)
Definition onPointerMove (innerWidth innerHeight : R) (event : PointerEvent)
    (st : MouseState * Pointer) : MouseState * Pointer :=
  let p := st.2 in
  let p :=
    mkPointer (mouse3D p) (mouseVelocity p) (mouseMovedThisFrame p) true
      (isPointerDown p) in
  updateMousePosition innerWidth innerHeight event (st.1, p).

(** [onPointerDown], main.js 1350-1354. *)
Definition onPointerDown (innerWidth innerHeight : R) (event : PointerEvent)
    (st : MouseState * Pointer) : MouseState * Pointer :=
  let p := st.2 in
  let p :=
    mkPointer (mouse3D p) (mouseVelocity p) (mouseMovedThisFrame p) true true in
  updateMousePosition innerWidth innerHeight event (st.1, p).

(** [onPointerUp], main.js 1356-1358. *)
Definition onPointerUp (st : MouseState * Pointer) : MouseState * Pointer :=
  let p := st.2 in
  (st.1,
   mkPointer (mouse3D p) (mouseVelocity p) (mouseMovedThisFrame p)
     (isPointerInsideCanvas p) false).

(** [onPointerLeave], main.js 1360-1364. *)
Definition onPointerLeave (st : MouseState * Pointer) : MouseState * Pointer :=
  let p := st.2 in
  (st.1,
   mkPointer (mouse3D p) (mkVec2 0 0) (mouseMovedThisFrame p) false
     (isPointerDown p)).

(** [onPointerEnter], main.js 1366-1368. *)
Definition onPointerEnter (st : MouseState * Pointer) : MouseState * Pointer :=
  let p := st.2 in
  (st.1,
   mkPointer (mouse3D p) (mouseVelocity p) (mouseMovedThisFrame p) true
     (isPointerDown p)).

(** The world with another pointer state. *)
Definition withPointer (p : Pointer) (w : World) : World :=
  mkWorld (CONFIG w) (store w) p (camera w) (isInitialized w) (hasGeometry w)
    (hasColorAttr w) (totalParticleCount w) (cachedGlowBrightness w)
    (cachedVelocityGlowMultiplier w) (glowStaticNeedsUpdate w)
    (wasWaveActive w) (explosionIdCounter w) (randomCalls w).

(** [speed] of main.js 1752. *)
Definition pointerSpeed (p : Pointer) : R :=
  sqrt (v2x (mouseVelocity p) * v2x (mouseVelocity p)
        + v2y (mouseVelocity p) * v2y (mouseVelocity p)).

(** The pointer at rest in the middle of the canvas. *)
Definition restingMouse : MouseState * Pointer :=
  (mkMouseState (mkVec2 0 0) (mkVec2 0 0),
   mkPointer (mkVec3 0 0 0) (mkVec2 0 0) false true false).

(** A frame in which the pointer does not act. *)
Definition quietFrame (f : Frame) : Frame :=
  mkFrame (fCfg f) (nowPerf f) (fMouse3D f) (fCamZ f) (forceMultiplier f)
    (interactionRadiusSq f) false (hasExplosions f) (waveActive f)
    (waveBounds f) (waveCutoffDistance f) (waveInvSigma f).

(** A pointer that is pressed inside the canvas, over the origin. *)
Definition pressedPointer : Pointer :=
  {| mouse3D := mkVec3 0 0 0;
     mouseVelocity := mkVec2 0 0;
     mouseMovedThisFrame := false;
     isPointerInsideCanvas := true;
     isPointerDown := true |}.

(** A particle at rest 13 units from the origin. *)
Definition remoteWorld : World :=
  withPointer pressedPointer
    (exampleWorld (configWith 0) (oneParticle (mkVec3 5 12 0) 4)).

(** A settled world whose last wave has just left: an invisible
    particle still has the size that the wave gave it. *)
Definition afterWaveWorld : World :=
  mkWorld exampleConfig
    (set_sizes [3] (oneParticle (mkVec3 0 0 0) 0))
    idlePointer exampleCamera true true true 1
    (glowBrightness exampleConfig) (velocityGlowMultiplier exampleConfig)
    true true 0 0.

(** A settled world with waves enabled and one wave of radius 3. *)
Definition risingWorld : World :=
  exampleWorld
    (set_waves [mkWave 3 0 0]
       (set_lastWaveTime (Some 4000) (set_waveEnabled true exampleConfig)))
    (oneParticle (mkVec3 1 2 0) 0).

(** ** The lengths of the arrays *)

(** Two stores whose arrays, the buffer of the distances apart, have the
    same lengths. *)
Definition sameLengths (s s' : Store) : Prop :=
  length (positions s') = length (positions s) /\
  length (originalPositions s') = length (originalPositions s) /\
  length (baseOriginalPositions s') = length (baseOriginalPositions s) /\
  length (startPositions s') = length (startPositions s) /\
  length (scrollDirections s') = length (scrollDirections s) /\
  length (velocities s') = length (velocities s) /\
  length (colors s') = length (colors s) /\
  length (sizes s') = length (sizes s) /\
  length (baseSizes s') = length (baseSizes s) /\
  length (glows s') = length (glows s) /\
  length (explosionGlowEndTimes s') = length (explosionGlowEndTimes s) /\
  length (explosionReturnTimes s') = length (explosionReturnTimes s).

(** The scalar product, [Vector3.dot]. *)
Definition dotVec (a b : Vec3) : R := vx a * vx b + vy a * vy b + vz a * vz b.

(** The glow that the loop over the colors writes for particle [i],
    main.js 2173-2196. *)
Definition glowOf (f : Frame) (glowIsDynamic : bool) (i : nat) (s : Store) : R :=
  if glowIsDynamic
  then Rmin (glowBrightness (fCfg f)
             + vlength (get3 (velocities s) i) * velocityGlowMultiplier (fCfg f)) 1
  else Rmin (glowBrightness (fCfg f)) 1.

(** [CONFIG] with [glowBrightness] and [velocityGlowMultiplier]
    replaced. *)
Definition withGlow (c : Config) (brightness multiplier : R) : Config :=
  mkConfig (particleCount c) (forceStrength c) (interactionRadius c)
    (springConstant c) (damping c) (timeScale c) (pointSize c)
    (sizeVariation c) (autonomousMotionStrength c) (chaosAngle c)
    (chaosStrength c) (tangentialForceRatio c) (zAxisStrength c)
    (isLoadingAnimation c) (loadAnimationStartTime c)
    (loadAnimationDuration c) (loadAnimationEasingCurve c) (waveEnabled c)
    (waveInterval c) (waveSpeed c) (waveWidth c) (waveForce c)
    (waveGlowIntensity c) (waveForceFalloff c) (lastWaveTime c) (waves c)
    (maxBrightness c) (depthDarkeningStrength c) brightness multiplier
    (explosionEnabled c) (explosionForce c) (explosionSpeed c)
    (explosionReturnDelay c) (explosionGlowIntensity c)
    (explosionGlowDuration c) (explosions c).

(** A settled world without the glow of the speed. *)
Definition steadyGlowWorld : World :=
  exampleWorld (withGlow (configWith 0) 0.19 0) (oneParticle (mkVec3 1 2 0) 4).

(** ** The choice of the particles outside the formation *)

(** A [for] or [while] loop over [i, i + step, ...] below [bound], of
    at most [fuel] iterations; the body answers [None] for [break]. *)
Fixpoint stridedLoop {St : Type} (body : nat -> St -> option St)
    (step bound i fuel : nat) (s : St) : St :=
  match fuel with
  | O => s
  | S fuel' =>
      if bool_decide (i < bound)%nat then
        match body i s with
        | None => s
        | Some s' => stridedLoop body step bound (i + step) fuel' s'
        end
      else s
  end.

(** [filteredOutsidePoints.push(outsidePoints[i]); selected[i] = 1]. *)
Definition selectPoint {A : Type} (outsidePoints : list A) (i : nat)
    (st : list A * list bool) : list A * list bool :=
  match outsidePoints !! i with
  | Some p => (st.1 ++ [p], <[i := true]> st.2)
  | None => st
  end.

(** The body of the loop of main.js 768-772. *)
Definition pickFifth {A : Type} (targetCount : nat) (outsidePoints : list A)
    (i : nat) (st : list A * list bool) : option (list A * list bool) :=
  if bool_decide (targetCount <= length st.1)%nat then None
  else Some (selectPoint outsidePoints i st).

(** The body of the loops of main.js 780-786 and 790-795, whose
    condition on the length is its [break]. *)
Definition pickUnselected {A : Type} (targetCount : nat) (outsidePoints : list A)
    (i : nat) (st : list A * list bool) : option (list A * list bool) :=
  if bool_decide (targetCount <= length st.1)%nat then None
  else if bool_decide (st.2 !! i = Some true) then Some st
  else Some (selectPoint outsidePoints i st).

(** The choice of [targetCount] of the points outside the formation,
    main.js 762-799 in [generateOutsidePointsAsync]. *)
Definition filterOutsidePoints {A : Type} (targetCount : nat)
    (outsidePoints : list A) : list A :=
  let outsideCount := length outsidePoints in
  let st : list A * list bool := ([], replicate outsideCount false) in
  let st :=
    stridedLoop (pickFifth targetCount outsidePoints) 5 outsideCount 0
      outsideCount st in
  let st :=
    if bool_decide (length st.1 < targetCount)%nat
       && bool_decide (0 < outsideCount)%nat
    then
      let remaining := (targetCount - length st.1)%nat in
      let step := Nat.max 1 (outsideCount / remaining) in
      let st :=
        stridedLoop (pickUnselected targetCount outsidePoints) step
          outsideCount 0 outsideCount st in
      if bool_decide (length st.1 < targetCount)%nat
      then stridedLoop (pickUnselected targetCount outsidePoints) 1
             outsideCount 0 outsideCount st
      else st
    else st in
  st.1.

(** The state of the choice: the points chosen are those of the
    indices [idx], each index once, and [selected] marks these indices. *)
Definition chosen {A : Type} (targetCount : nat) (outsidePoints : list A)
    (idx : list nat) (st : list A * list bool) : Prop :=
  NoDup idx /\
  Forall2 (fun i p => outsidePoints !! i = Some p) idx st.1 /\
  length st.2 = length outsidePoints /\
  (forall i, st.2 !! i = Some true <-> i ∈ idx) /\
  (length st.1 <= targetCount)%nat.

(** ** The size of the formation *)

(** [calculateOptimalSVGSize], main.js 696-728, after the size of the
    shape has been measured: [cachedSVGWidth] and [cachedSVGHeight] are
    the width and the height of the shape at size 1, [paddingX] and
    [paddingY] are those of [CONFIG]. *)
Definition calculateOptimalSVGSize (cam : Camera) (paddingX paddingY : R)
    (cachedSVGWidth cachedSVGHeight : R) : R :=
  let visibleWidth := camRight cam - camLeft cam in
  let visibleHeight := camTop cam - camBottom cam in
  let availableWidth := visibleWidth * (1 - 2 * paddingX) in
  let availableHeight := visibleHeight * (1 - 2 * paddingY) in
  let scaleByWidth := availableWidth / cachedSVGWidth in
  let scaleByHeight := availableHeight / cachedSVGHeight in
  let baseScaleFactor := Rmin scaleByWidth scaleByHeight in
  baseScaleFactor.

(** [scaleFactor] of [generateParticlesFromSVG], main.js 816;
    [sphereRadius] is [CONFIG.sphereRadius]. *)
Definition svgScaleFactor (baseScaleFactor sphereRadius : R) : R :=
  Rmin (baseScaleFactor * sphereRadius) baseScaleFactor.

(** ** The creation of the particles *)

Definition set_baseOriginalPositions (v : list R) (s : Store) : Store :=
  mkStore (positions s) (originalPositions s) v (startPositions s)
    (scrollDirections s) (velocities s) (colors s) (sizes s) (baseSizes s)
    (glows s) (explosionGlowEndTimes s) (explosionReturnTimes s)
    (distanceBuffer s).

Definition set_startPositions (v : list R) (s : Store) : Store :=
  mkStore (positions s) (originalPositions s) (baseOriginalPositions s) v
    (scrollDirections s) (velocities s) (colors s) (sizes s) (baseSizes s)
    (glows s) (explosionGlowEndTimes s) (explosionReturnTimes s)
    (distanceBuffer s).

Definition set_scrollDirections (v : list R) (s : Store) : Store :=
  mkStore (positions s) (originalPositions s) (baseOriginalPositions s)
    (startPositions s) v (velocities s) (colors s) (sizes s) (baseSizes s)
    (glows s) (explosionGlowEndTimes s) (explosionReturnTimes s)
    (distanceBuffer s).

(** [a[i3] = v.x; a[i3 + 1] = v.y; a[i3 + 2] = v.z] with [i3 = i * 3]. *)
Definition put3 (a : list R) (i : nat) (v : Vec3) : list R :=
  <[(i * 3 + 2)%nat := vz v]>
    (<[(i * 3 + 1)%nat := vy v]> (<[(i * 3)%nat := vx v]> a)).

(** [new Float32Array(n)]. *)
Definition zeros (n : nat) : list R := replicate n 0.

(** The direction of main.js 872-876, 913-918, 1022-1026 and 1033-1038
    for the draws [r1] of [theta] and [r2] of [phi]; [Math.acos] is
    defined for the draws of [Math.random()], which lie in [[0, 1)]. *)
Definition sphereDirection (r1 r2 : R) : Vec3 :=
  let theta := r1 * PI * 2 in
  let phi := acos (2 * r2 - 1) in
  mkVec3 (sin phi * cos theta) (sin phi * sin theta) (cos phi).

(** The body of the loop of main.js 843-845. *)
Definition tempSize (rnd : nat -> R) (c : Config) (i : nat)
    (sk : Store * nat) : option (Store * nat) :=
  let '(s, k) := sk in
  let baseSize := pointSize c in
  let variation := sizeVariation c in
  let minSize := baseSize * (1 - variation) in
  let maxSize := baseSize * (1 + variation) in
  Some (set_sizes (<[i := minSize + rnd k * (maxSize - minSize)]> (sizes s)) s,
        (k + 1)%nat).

(** The body of the loop of main.js 851-888 over the points of the
    formation; the minima and maxima of main.js 859-861 are not used
    afterwards. *)
Definition insidePoint (rnd : nat -> R) (volumePoints : list Vec3) (i : nat)
    (sk : Store * nat) : option (Store * nat) :=
  let '(s, k) := sk in
  match volumePoints !! i with
  | None => None
  | Some point =>
      let s := set_positions (put3 (positions s) i point) s in
      let s := set_originalPositions (put3 (originalPositions s) i point) s in
      let s :=
        set_baseOriginalPositions (put3 (baseOriginalPositions s) i point) s in
      let direction := sphereDirection (rnd k) (rnd (k + 1)%nat) in
      let s := set_scrollDirections (put3 (scrollDirections s) i direction) s in
      let s := set_velocities (put3 (velocities s) i (mkVec3 0 0 0)) s in
      let s := set_colors (put3 (colors s) i (mkVec3 1.0 1.0 1.0)) s in
      Some (s, (k + 2)%nat)
  end.

(** The body of the loop of main.js 892-897. *)
Definition sumCenter (s : Store) (i : nat) (center : Vec3) : option Vec3 :=
  let b := get3 (baseOriginalPositions s) i in
  Some (mkVec3 (vx center + vx b) (vy center + vy b) (vz center + vz b)).

(** [cloudCenter] after main.js 891-900. *)
Definition cloudCenterOf (s : Store) (particlesCreated : nat) : Vec3 :=
  let center := forLoop (sumCenter s) 0 particlesCreated (mkVec3 0 0 0) in
  if bool_decide (0 < particlesCreated)%nat
  then divideScalar center (INR particlesCreated) else center.

(** The body of the loop of main.js 912-941. *)
Definition insideStart (rnd : nat -> R) (cloudCenter : Vec3) (maxDimension : R)
    (i : nat) (sk : Store * nat) : option (Store * nat) :=
  let '(s, k) := sk in
  let direction := sphereDirection (rnd k) (rnd (k + 1)%nat) in
  let distance := maxDimension * (5 + rnd (k + 2)%nat * 5) in
  let startPos := addScaledVector cloudCenter direction distance in
  let s := set_startPositions (put3 (startPositions s) i startPos) s in
  let s := set_positions (put3 (positions s) i startPos) s in
  Some (s, (k + 3)%nat).

(** The temporary arrays of [generateParticlesFromSVG] when the points
    outside the formation are requested, main.js 828-942: they are the
    arrays of a store whose other arrays are not used.  [volumePoints] is
    the result of [getShapeVolumePoints], [maxDimension] the largest
    extent of the bounding box of the shape (main.js 903-908), [k] the
    number of calls of [Math.random()] so far. *)
Definition insideParticles (rnd : nat -> R) (c : Config)
    (volumePoints : list Vec3) (maxDimension : R) (k : nat) : Store * nat :=
  let n3 := (particleCount c * 3)%nat in
  let n := particleCount c in
  let s :=
    mkStore (zeros n3) (zeros n3) (zeros n3) (zeros n3) (zeros n3) (zeros n3)
      (zeros n3) (zeros n) (zeros n) [] [] [] [] in
  let '(s, k) := forLoop (tempSize rnd c) 0 (particleCount c) (s, k) in
  let s := set_baseSizes (sizes s) s in
  let particlesCreated := Nat.min (particleCount c) (length volumePoints) in
  let '(s, k) := forLoop (insidePoint rnd volumePoints) 0 particlesCreated (s, k) in
  let cloudCenter := cloudCenterOf s particlesCreated in
  forLoop (insideStart rnd cloudCenter maxDimension) 0 particlesCreated (s, k).

(** [target.set(source)] on typed arrays: a [RangeError] when the source
    is longer than the target. *)
Definition typedSet (target source : list R) : option (list R) :=
  if bool_decide (length source <= length target)%nat
  then Some (source ++ drop (length source) target) else None.

(** [a.subarray(0, n)]. *)
Definition subarray (a : list R) (n : nat) : list R := take n a.

(** The body of the loop of main.js 1006-1079 over the points outside
    the formation; [outsideInvisiblePercentage] is that of [CONFIG]. *)
Definition outsidePoint (rnd : nat -> R) (c : Config)
    (outsideInvisiblePercentage maxDimension : R)
    (filteredOutsidePoints : list Vec3) (i : nat)
    (sk : Store * nat) : option (Store * nat) :=
  let '(s, k) := sk in
  let baseIndex := particleCount c in
  let j := (baseIndex + i)%nat in
  match filteredOutsidePoints !! i with
  | None => None
  | Some point =>
      let s := set_positions (put3 (positions s) j point) s in
      let s := set_originalPositions (put3 (originalPositions s) j point) s in
      let s :=
        set_baseOriginalPositions (put3 (baseOriginalPositions s) j point) s in
      let direction := sphereDirection (rnd k) (rnd (k + 1)%nat) in
      let s := set_scrollDirections (put3 (scrollDirections s) j direction) s in
      let startDirection := sphereDirection (rnd (k + 2)%nat) (rnd (k + 3)%nat) in
      let startDistance := maxDimension * (5 + rnd (k + 4)%nat * 5) in
      let startPos := addScaledVector point startDirection startDistance in
      let s := set_startPositions (put3 (startPositions s) j startPos) s in
      let s := set_positions (put3 (positions s) j startPos) s in
      let s := set_velocities (put3 (velocities s) j (mkVec3 0 0 0)) s in
      let baseSize := pointSize c in
      let variation := sizeVariation c in
      let minSize := baseSize * (1 - variation) in
      let maxSize := baseSize * (1 + variation) in
      let invisibleChance := outsideInvisiblePercentage / 100 in
      let shouldBeInvisible := bool_decide (rnd (k + 5)%nat < invisibleChance) in
      let generatedSize :=
        if shouldBeInvisible then 0
        else minSize + rnd (k + 6)%nat * (maxSize - minSize) in
      let k := if shouldBeInvisible then (k + 6)%nat else (k + 7)%nat in
      let s := set_sizes (<[j := generatedSize]> (sizes s)) s in
      let s := set_baseSizes (<[j := generatedSize]> (baseSizes s)) s in
      let s := set_colors (put3 (colors s) j (mkVec3 1.0 1.0 1.0)) s in
      Some (s, k)
  end.

(** The second part of [generateParticlesFromSVG], main.js 964-1113,
    which runs when [filteredOutsidePoints] has been generated: [temp]
    holds the temporary arrays, [w] is the state at that moment.  The
    result is [None] when a [set] throws.  [points] is assigned where
    [geometry] is, so that [geometry && points] is [hasGeometry]; the
    geometry gets its color attribute there (main.js 1103). *)
Definition mergeOutside (rnd : nat -> R)
    (outsideInvisiblePercentage maxDimension : R) (temp : Store)
    (filteredOutsidePoints : list Vec3) (w : World) : option World :=
  let c := CONFIG w in
  let outsidePointsCount := length filteredOutsidePoints in
  let total := (particleCount c + outsidePointsCount)%nat in
  let pointsToCopy := Nat.min (particleCount c) (length (positions temp) / 3) in
  let bytesToCopy := Nat.min (particleCount c * 3) (length (positions temp)) in
  newPositions ← typedSet (zeros (total * 3)) (subarray (positions temp) bytesToCopy);
  newOriginalPositions ←
    typedSet (zeros (total * 3)) (subarray (originalPositions temp) bytesToCopy);
  newBaseOriginalPositions ←
    typedSet (zeros (total * 3)) (subarray (baseOriginalPositions temp) bytesToCopy);
  newStartPositions ←
    typedSet (zeros (total * 3)) (subarray (startPositions temp) bytesToCopy);
  newScrollDirections ←
    typedSet (zeros (total * 3)) (subarray (scrollDirections temp) bytesToCopy);
  newVelocities ←
    typedSet (zeros (total * 3)) (subarray (velocities temp) bytesToCopy);
  newColors ← typedSet (zeros (total * 3)) (subarray (colors temp) bytesToCopy);
  newSizes ← typedSet (zeros total) (subarray (sizes temp) pointsToCopy);
  newBaseSizes ← typedSet (zeros total) (subarray (baseSizes temp) pointsToCopy);
  let s :=
    mkStore newPositions newOriginalPositions newBaseOriginalPositions
      newStartPositions newScrollDirections newVelocities newColors newSizes
      newBaseSizes (glows (store w)) (zeros total) (zeros total) (zeros total) in
  let '(s, k) :=
    forLoop (outsidePoint rnd c outsideInvisiblePercentage maxDimension
               filteredOutsidePoints) 0 outsidePointsCount (s, randomCalls w) in
  let resize := hasGeometry w && bool_decide (length (glows s) <> total) in
  let s := if resize then set_glows (zeros total) s else s in
  Some (mkWorld c s (pointer w) (camera w) (isInitialized w) (hasGeometry w)
          (hasGeometry w || hasColorAttr w) total (cachedGlowBrightness w)
          (cachedVelocityGlowMultiplier w)
          (if resize then true else glowStaticNeedsUpdate w)
          (wasWaveActive w) (explosionIdCounter w) k).

(** [generateParticlesFromSVG], main.js 809-1114, from the points of
    [getShapeVolumePoints] on, when no listener runs while the points
    outside the formation are generated: that generation makes
    [outsideDraws] calls of [Math.random()]. *)
Definition generateParticlesFromSVG (rnd : nat -> R)
    (outsideInvisiblePercentage : R) (volumePoints : list Vec3)
    (maxDimension : R) (outsideDraws : nat)
    (filteredOutsidePoints : list Vec3) (w : World) : option World :=
  let '(temp, k) :=
    insideParticles rnd (CONFIG w) volumePoints maxDimension (randomCalls w) in
  mergeOutside rnd outsideInvisiblePercentage maxDimension temp
    filteredOutsidePoints (withRandom (store w) (k + outsideDraws) w).

(** The initialization, main.js 1287-1315, when the SVG has been loaded;
    [nowDate] is [Date.now()], [scrollSpreadForce] is that of [CONFIG]
    and [progress] is [scrollProgress]. *)
Definition initialize (rnd : nat -> R) (outsideInvisiblePercentage : R)
    (volumePoints : list Vec3) (maxDimension : R) (outsideDraws : nat)
    (filteredOutsidePoints : list Vec3) (nowDate scrollSpreadForce progress : R)
    (w : World) : option World :=
  w ← generateParticlesFromSVG rnd outsideInvisiblePercentage volumePoints
         maxDimension outsideDraws filteredOutsidePoints w;
  let s := store w in
  let s :=
    if bool_decide (length (glows s) <> totalParticleCount w)
    then set_glows (zeros (totalParticleCount w)) s else s in
  let c := set_loadAnimationStartTime (Some nowDate) (CONFIG w) in
  let w :=
    mkWorld c s (pointer w) (camera w) true true true (totalParticleCount w)
      (cachedGlowBrightness w) (cachedVelocityGlowMultiplier w)
      (glowStaticNeedsUpdate w) (wasWaveActive w) (explosionIdCounter w)
      (randomCalls w) in
  Some (updateOriginalPositionsFromScroll scrollSpreadForce progress w).

(** The arrays of [s] hold [n] particles. *)
Definition holds (n : nat) (s : Store) : Prop :=
  length (positions s) = (n * 3)%nat /\
  length (originalPositions s) = (n * 3)%nat /\
  length (baseOriginalPositions s) = (n * 3)%nat /\
  length (startPositions s) = (n * 3)%nat /\
  length (scrollDirections s) = (n * 3)%nat /\
  length (velocities s) = (n * 3)%nat /\
  length (colors s) = (n * 3)%nat /\
  length (sizes s) = n /\
  length (baseSizes s) = n.

(** What the first loop over the points of the formation leaves for the
    particle [i] that it has treated. *)
Definition placed (rnd : nat -> R) (volumePoints : list Vec3) (k : nat)
    (s : Store) (i : nat) : Prop :=
  exists point, volumePoints !! i = Some point /\
    get3 (positions s) i = point /\
    get3 (originalPositions s) i = point /\
    get3 (baseOriginalPositions s) i = point /\
    get3 (scrollDirections s) i
    = sphereDirection (rnd (k + 2 * i)%nat) (rnd (k + 2 * i + 1)%nat) /\
    get3 (velocities s) i = mkVec3 0 0 0 /\
    get3 (colors s) i = mkVec3 1 1 1.

(** The particle [i] has in [s'] the entries it has in [s], in the
    arrays that this loop writes. *)
Definition untouched (s s' : Store) (i : nat) : Prop :=
  get3 (positions s') i = get3 (positions s) i /\
  get3 (originalPositions s') i = get3 (originalPositions s) i /\
  get3 (baseOriginalPositions s') i = get3 (baseOriginalPositions s) i /\
  get3 (scrollDirections s') i = get3 (scrollDirections s) i /\
  get3 (velocities s') i = get3 (velocities s) i /\
  get3 (colors s') i = get3 (colors s) i.

(** What the second loop over the points of the formation leaves for the
    particle [i] that it has treated. *)
Definition started (rnd : nat -> R) (cloudCenter : Vec3) (maxDimension : R)
    (k : nat) (s : Store) (i : nat) : Prop :=
  get3 (startPositions s) i
  = addScaledVector cloudCenter
      (sphereDirection (rnd (k + 3 * i)%nat) (rnd (k + 3 * i + 1)%nat))
      (maxDimension * (5 + rnd (k + 3 * i + 2)%nat * 5)) /\
  get3 (positions s) i = get3 (startPositions s) i.

(** The sum and the mean of a list of points. *)
Definition sumPoints (ps : list Vec3) : Vec3 :=
  fold_left (fun c p => mkVec3 (vx c + vx p) (vy c + vy p) (vz c + vz p)) ps
    (mkVec3 0 0 0).

Definition centroid (ps : list Vec3) : Vec3 :=
  let c := sumPoints ps in
  if bool_decide (0 < length ps)%nat
  then mkVec3 (vx c / INR (length ps)) (vy c / INR (length ps))
         (vz c / INR (length ps))
  else c.

(** A particle of the formation that has got a point of the shape. *)
Definition formed (rnd : nat -> R) (volumePoints : list Vec3)
    (cloudCenter : Vec3) (maxDimension : R) (k1 k2 : nat) (s : Store)
    (i : nat) : Prop :=
  exists point, volumePoints !! i = Some point /\
    get3 (originalPositions s) i = point /\
    get3 (baseOriginalPositions s) i = point /\
    get3 (scrollDirections s) i
    = sphereDirection (rnd (k1 + 2 * i)%nat) (rnd (k1 + 2 * i + 1)%nat) /\
    get3 (velocities s) i = mkVec3 0 0 0 /\
    get3 (colors s) i = mkVec3 1 1 1 /\
    started rnd cloudCenter maxDimension k2 s i.

(** A particle whose entries are all zero. *)
Definition blank (s : Store) (i : nat) : Prop :=
  get3 (positions s) i = mkVec3 0 0 0 /\
  get3 (originalPositions s) i = mkVec3 0 0 0 /\
  get3 (baseOriginalPositions s) i = mkVec3 0 0 0 /\
  get3 (startPositions s) i = mkVec3 0 0 0 /\
  get3 (scrollDirections s) i = mkVec3 0 0 0 /\
  get3 (velocities s) i = mkVec3 0 0 0 /\
  get3 (colors s) i = mkVec3 0 0 0.

Definition sizeOf (c : Config) (r : R) : R :=
  pointSize c * (1 - sizeVariation c)
  + r * (pointSize c * (1 + sizeVariation c) - pointSize c * (1 - sizeVariation c)).

(** Particle [i] has the same entries in [s] and in [s']. *)
Definition sameParticle (s s' : Store) (i : nat) : Prop :=
  get3 (positions s') i = get3 (positions s) i /\
  get3 (originalPositions s') i = get3 (originalPositions s) i /\
  get3 (baseOriginalPositions s') i = get3 (baseOriginalPositions s) i /\
  get3 (startPositions s') i = get3 (startPositions s) i /\
  get3 (scrollDirections s') i = get3 (scrollDirections s) i /\
  get3 (velocities s') i = get3 (velocities s) i /\
  get3 (colors s') i = get3 (colors s) i /\
  rd (sizes s') i = rd (sizes s) i /\
  rd (baseSizes s') i = rd (baseSizes s) i.

(** What the loop over the points outside the formation leaves for the
    particle [j] of the point [i]. *)
Definition scattered (rnd : nat -> R) (c : Config)
    (outsideInvisiblePercentage maxDimension : R)
    (filteredOutsidePoints : list Vec3) (k : nat) (s : Store) (i j : nat) : Prop :=
  exists point ka, (k <= ka)%nat /\
    filteredOutsidePoints !! i = Some point /\
    get3 (originalPositions s) j = point /\
    get3 (baseOriginalPositions s) j = point /\
    get3 (scrollDirections s) j
    = sphereDirection (rnd ka) (rnd (ka + 1)%nat) /\
    get3 (startPositions s) j
    = addScaledVector point
        (sphereDirection (rnd (ka + 2)%nat) (rnd (ka + 3)%nat))
        (maxDimension * (5 + rnd (ka + 4)%nat * 5)) /\
    get3 (positions s) j = get3 (startPositions s) j /\
    get3 (velocities s) j = mkVec3 0 0 0 /\
    get3 (colors s) j = mkVec3 1 1 1 /\
    rd (sizes s) j
    = (if bool_decide (rnd (ka + 5)%nat < outsideInvisiblePercentage / 100)
       then 0 else sizeOf c (rnd (ka + 6)%nat)) /\
    rd (baseSizes s) j = rd (sizes s) j.

(** The state that [generateParticlesFromSVG] produces. *)
Record created (rnd : nat -> R) (pct : R) (volumePoints : list Vec3)
    (maxDimension : R) (outsideDraws : nat) (filtered : list Vec3)
    (w : World) (s : Store) : Prop := {
  created_holds :
    holds (particleCount (CONFIG w) + length filtered) s;
  created_glowEnd :
    length (explosionGlowEndTimes s)
    = (particleCount (CONFIG w) + length filtered)%nat;
  created_return :
    length (explosionReturnTimes s)
    = (particleCount (CONFIG w) + length filtered)%nat;
  created_distance :
    length (distanceBuffer s) = (particleCount (CONFIG w) + length filtered)%nat;
  created_sizes :
    forall i, (i < particleCount (CONFIG w))%nat ->
      rd (sizes s) i = sizeOf (CONFIG w) (rnd (randomCalls w + i)%nat) /\
      rd (baseSizes s) i = rd (sizes s) i;
  created_formed :
    forall i,
      (i < Nat.min (particleCount (CONFIG w)) (length volumePoints))%nat ->
      exists k1 k2,
        formed rnd volumePoints
          (centroid (take (Nat.min (particleCount (CONFIG w))
                             (length volumePoints)) volumePoints))
          maxDimension k1 k2 s i;
  created_blank :
    forall i,
      (Nat.min (particleCount (CONFIG w)) (length volumePoints) <= i)%nat ->
      (i < particleCount (CONFIG w))%nat -> blank s i;
  created_scattered :
    forall i, (i < length filtered)%nat ->
      scattered rnd (CONFIG w) pct maxDimension filtered
        (randomCalls w) s i (particleCount (CONFIG w) + i)
}.

(** The module-level state before the initialization, main.js 217-238,
    1285 and 1377, for a formation of one particle. *)
Definition startingWorld : World :=
  let c := set_isLoadingAnimation true exampleConfig in
  {| CONFIG := c;
     store :=
       mkStore (zeros 3) (zeros 3) (zeros 3) (zeros 3) (zeros 3) (zeros 3)
         (zeros 3) (zeros 1) (zeros 1) (zeros 1) (zeros 1) (zeros 1) (zeros 1);
     pointer := idlePointer;
     camera := exampleCamera;
     isInitialized := false;
     hasGeometry := false;
     hasColorAttr := false;
     totalParticleCount := 1;
     cachedGlowBrightness := glowBrightness c;
     cachedVelocityGlowMultiplier := velocityGlowMultiplier c;
     glowStaticNeedsUpdate := true;
     wasWaveActive := false;
     explosionIdCounter := 0;
     randomCalls := 0 |}.

(** ** The points outside the formation *)

(** [Math.ceil]. *)
Definition mathCeil (x : R) : R := IZR (- Int_part (- x)).

(** The three directions of [isPointInsideMesh], main.js 385-389. *)
Definition rayDirections : list Vec3 :=
  [mkVec3 1 0 0; mkVec3 0 1 0; mkVec3 0 0 1].

(** The body of the loop of main.js 395-404.  [intersectObject] gives
    the number of the intersections of the ray from a point in a
    direction with the mesh, and [None] when the ray cast throws. *)
Definition rayCheck (intersectObject : Vec3 -> Vec3 -> option nat)
    (point direction : Vec3) (st : nat * nat) : option (nat * nat) :=
  let '(insideCount, totalChecks) := st in
  match intersectObject point direction with
  | None => None
  | Some intersects =>
      let isInside := bool_decide (intersects mod 2 = 1)%nat in
      Some (if isInside then S insideCount else insideCount, S totalChecks)
  end.

(** A [for ... of] loop whose body may throw. *)
Fixpoint forOf {A St : Type} (body : A -> St -> option St) (l : list A)
    (s : St) : option St :=
  match l with
  | [] => Some s
  | x :: l' =>
      match body x s with
      | None => None
      | Some s' => forOf body l' s'
      end
  end.

(** [isPointInsideMesh], main.js 381-414: an exception gives [false]. *)
Definition isPointInsideMesh (intersectObject : Vec3 -> Vec3 -> option nat)
    (point : Vec3) : bool :=
  match forOf (rayCheck intersectObject point) rayDirections (0%nat, 0%nat) with
  | Some (insideCount, totalChecks) =>
      let threshold := mathCeil (INR totalChecks * 0.6) in
      bool_decide (INR insideCount >= threshold)
  | None => false
  end.

(** [viewportBounds], main.js 950-955. *)
Record Bounds := mkBounds {
  boundsLeft : R; boundsRight : R; boundsTop : R; boundsBottom : R
}.

(** The body of the loop of main.js 742-753 over the candidates. *)
Definition candidate (rnd : nat -> R)
    (intersectObject : Vec3 -> Vec3 -> option nat) (viewportBounds : Bounds)
    (i : nat) (st : list Vec3 * nat) : option (list Vec3 * nat) :=
  let '(outsidePoints, k) := st in
  let x :=
    boundsLeft viewportBounds
    + rnd k * (boundsRight viewportBounds - boundsLeft viewportBounds) in
  let y :=
    boundsBottom viewportBounds
    + rnd (k + 1)%nat
      * (boundsTop viewportBounds - boundsBottom viewportBounds) in
  let z := 0 in
  let point := mkVec3 x y z in
  if negb (isPointInsideMesh intersectObject point)
  then Some (outsidePoints ++ [point], (k + 2)%nat)
  else Some (outsidePoints, (k + 2)%nat).

(** [processBatch] of [generateOutsidePointsAsync], main.js 739-802, up
    to the choice of the points: the batch number [b] starts at the
    candidate [processed]; [others b] is the number of the calls of
    [Math.random()] that other callbacks make before the next batch
    runs, and [fuel] bounds the number of the batches. *)
Fixpoint processBatch (rnd : nat -> R)
    (intersectObject : Vec3 -> Vec3 -> option nat) (viewportBounds : Bounds)
    (candidateCount batchSize : nat) (others : nat -> nat) (fuel b : nat)
    (processed : nat) (st : list Vec3 * nat) : option (list Vec3 * nat) :=
  match fuel with
  | O => None
  | S fuel' =>
      let batchEnd := Nat.min (processed + batchSize) candidateCount in
      let st :=
        forLoop (candidate rnd intersectObject viewportBounds) processed
          (batchEnd - processed) st in
      let processed := batchEnd in
      if bool_decide (processed < candidateCount)%nat
      then processBatch rnd intersectObject viewportBounds candidateCount
             batchSize others fuel' (S b) processed (st.1, (st.2 + others b)%nat)
      else Some st
  end.

(** [generateOutsidePointsAsync], main.js 731-806: the points and the
    number of the calls of [Math.random()] when the promise resolves. *)
Definition generateOutsidePointsAsync (rnd : nat -> R)
    (intersectObject : Vec3 -> Vec3 -> option nat) (targetCount : nat)
    (viewportBounds : Bounds) (batchSize : nat) (others : nat -> nat)
    (fuel k : nat) : option (list Vec3 * nat) :=
  let candidateCount := (targetCount * 5)%nat in
  match processBatch rnd intersectObject viewportBounds candidateCount
          batchSize others fuel 0 0 ([], k) with
  | Some (outsidePoints, k) =>
      Some (filterOutsidePoints targetCount outsidePoints, k)
  | None => None
  end.

(** A point of the plane of the formation that lies in the viewport. *)
Definition inViewport (viewportBounds : Bounds) (p : Vec3) : Prop :=
  boundsLeft viewportBounds <= vx p <= boundsRight viewportBounds /\
  boundsBottom viewportBounds <= vy p <= boundsTop viewportBounds /\
  vz p = 0.

(** The ray from [point] in the direction [d] meets the mesh an odd
    number of times. *)
Definition oddRay (intersectObject : Vec3 -> Vec3 -> option nat)
    (point d : Vec3) : bool :=
  match intersectObject point d with
  | Some m => bool_decide (m mod 2 = 1)%nat
  | None => false
  end.

(** The number of the directions of [rayDirections] with such a ray. *)
Definition oddRays (intersectObject : Vec3 -> Vec3 -> option nat)
    (point : Vec3) : nat :=
  length (List.filter (oddRay intersectObject point) rayDirections).

(** ** The points of the formation *)

(** A triangle of the shape with its area, main.js 456 and 474. *)
Record Triangle := mkTriangle { v1 : Vec3; v2 : Vec3; v3 : Vec3; area : R }.

(** The body of the loop of main.js 486-489; a vertex that does not
    exist makes [clone] throw, which ends the model's loop. *)
Definition vertexPoint (vertices : list Vec3) (step : R) (i : nat)
    (points : list Vec3) : option (list Vec3) :=
  let index := Z.to_nat (Int_part (INR i * step)) in
  match vertices !! index with
  | Some v => Some (points ++ [v])
  | None => None
  end.

(** The fallback of [getShapeVolumePoints] on the vertices,
    main.js 482-491. *)
Definition vertexPoints (vertices : list Vec3) (count : nat) : list Vec3 :=
  if bool_decide (length vertices <= count)%nat then vertices else
  let step := INR (length vertices) / INR count in
  forLoop (vertexPoint vertices step) 0 count [].

(** The test of main.js 508-516 on a triangle. *)
Definition frontFacing (tri : Triangle) : bool :=
  let tempEdge1 := subVectors (v2 tri) (v1 tri) in
  let tempEdge2 := subVectors (v3 tri) (v1 tri) in
  let normal := crossVectors tempEdge1 tempEdge2 in
  bool_decide (vz normal > 0) && bool_decide (sqrt (lengthSq normal) > 0.0001).

(** The sums of main.js 524-528, from the sum [sum] on. *)
Fixpoint cumulativeAreas (sum : R) (tris : list Triangle) : list R :=
  match tris with
  | [] => []
  | tri :: rest => (sum + area tri) :: cumulativeAreas (sum + area tri) rest
  end.

(** The loop of main.js 539-544: the first index from [j] on whose sum
    reaches [randomArea]. *)
Fixpoint reachedFrom (randomArea : R) (sums : list R) (j : nat) : option nat :=
  match sums with
  | [] => None
  | sum :: rest =>
      if bool_decide (randomArea <= sum) then Some j
      else reachedFrom randomArea rest (S j)
  end.

(** The body of the loop of main.js 535-568. *)
Definition surfacePointOf (rnd : nat -> R) (trianglesToUse : list Triangle)
    (filteredCumulativeAreas : list R) (areaToUse : R) (i : nat)
    (st : list Vec3 * nat) : option (list Vec3 * nat) :=
  let '(surfacePoints, k) := st in
  let randomArea := rnd k * areaToUse in
  let triangleIndex := default 0%nat (reachedFrom randomArea filteredCumulativeAreas 0) in
  match trianglesToUse !! triangleIndex with
  | None => None
  | Some triangle =>
      let u := rnd (k + 1)%nat in
      let v := rnd (k + 2)%nat in
      let '(u, v) := if bool_decide (u + v > 1) then (1 - u, 1 - v) else (u, v) in
      let w := 1 - u - v in
      let surfacePoint :=
        addScaledVector
          (addScaledVector (addScaledVector (mkVec3 0 0 0) (v1 triangle) u)
             (v2 triangle) v)
          (v3 triangle) w in
      let surfacePoint := mkVec3 (vx surfacePoint) (vy surfacePoint) 0 in
      Some (surfacePoints ++ [surfacePoint], (k + 3)%nat)
  end.

(** The body of the loop of main.js 579-582. *)
Definition duplicatePoint (i : nat) (surfacePoints : list Vec3) :
    option (list Vec3) :=
  let index := (i mod length surfacePoints)%nat in
  match surfacePoints !! index with
  | Some p => Some (surfacePoints ++ [p])
  | None => None
  end.

(** [getShapeVolumePoints], main.js 418-590, from the triangles that it
    has collected on (main.js 481): [vertices] and [triangles] are these
    lists, [totalArea] is the sum of the areas, [k] the number of the
    calls of [Math.random()] so far.  The sums of main.js 494-499 are not
    used afterwards. *)
Definition getShapeVolumePoints (rnd : nat -> R) (vertices : list Vec3)
    (triangles : list Triangle) (totalArea : R) (count k : nat) :
    list Vec3 * nat :=
  if bool_decide (length triangles = 0%nat)
  then (vertexPoints vertices count, k) else
  let frontFacingTriangles := List.filter frontFacing triangles in
  let frontFacingArea :=
    fold_left (fun sum tri => sum + area tri) frontFacingTriangles 0 in
  let useFront := bool_decide (0 < length frontFacingTriangles)%nat in
  let trianglesToUse := if useFront then frontFacingTriangles else triangles in
  let areaToUse := if useFront then frontFacingArea else totalArea in
  let filteredCumulativeAreas := cumulativeAreas 0 trianglesToUse in
  let '(surfacePoints, k) :=
    forLoop (surfacePointOf rnd trianglesToUse filteredCumulativeAreas areaToUse)
      0 count ([], k) in
  let surfacePoints :=
    if bool_decide (length surfacePoints = 0%nat) then surfacePoints
    else if bool_decide (length surfacePoints < count)%nat
    then
      let needed := (count - length surfacePoints)%nat in
      forLoop duplicatePoint 0 needed surfacePoints
    else surfacePoints in
  (surfacePoints, k).

(** The point [p] of the plane [z = 0] lies over the triangle [tri]. *)
Definition inTriangle (tri : Triangle) (p : Vec3) : Prop :=
  exists u v w, 0 <= u /\ 0 <= v /\ 0 <= w /\ u + v + w = 1 /\
    vx p = vx (v1 tri) * u + vx (v2 tri) * v + vx (v3 tri) * w /\
    vy p = vy (v1 tri) * u + vy (v2 tri) * v + vy (v3 tri) * w /\
    vz p = 0.

(** A shape of one triangle that faces the viewer. *)
Definition oneTriangle : list Triangle :=
  [mkTriangle (mkVec3 0 0 0) (mkVec3 1 0 0) (mkVec3 0 1 0) 0.5].

(** ** Runs of frames *)

(** A run of frames: [updatePhysics] at the times of the list, each a
    pair of [Date.now()] and [performance.now()]. *)
Definition runFrames (rnd : nat -> R) (ticks : list (R * R)) (w : World) : World :=
  fold_left (fun w t => updatePhysics rnd t.1 t.2 w) ticks w.

(** The settled state between two waves: the timer of the waves stands
    at [t0], no wave is active, and the settings of the waves and the
    camera are those of [c0] and [cam]. *)
Definition waiting (t0 : R) (c0 : Config) (cam : Camera) (w : World) : Prop :=
  settled w /\
  waveEnabled (CONFIG w) = true /\
  lastWaveTime (CONFIG w) = Some t0 /\
  waves (CONFIG w) = [] /\
  waveInterval (CONFIG w) = waveInterval c0 /\
  waveWidth (CONFIG w) = waveWidth c0 /\
  grownWave (CONFIG w) = grownWave c0 /\
  camera w = cam.

(** * Properties *)

(** ** The rounding to float32 *)

Lemma Int_part_bounds y : IZR (Int_part y) <= y < IZR (Int_part y) + 1.
Proof. destruct (base_Int_part y). lra. Qed.

Lemma Int_part_IZR n : Int_part (IZR n) = n.
Proof. symmetry. apply Int_part_spec. lra. Qed.

Lemma Int_part_mono a b : a <= b -> (Int_part a <= Int_part b)%Z.
Proof.
  intros H. pose proof (Int_part_bounds a). pose proof (Int_part_bounds b).
  apply Z.lt_succ_r. apply lt_IZR. rewrite succ_IZR. lra.
Qed.

Lemma nearestEven_IZR n : nearestEven (IZR n) = n.
Proof.
  unfold nearestEven. rewrite Int_part_IZR.
  rewrite bool_decide_true by lra. done.
Qed.

Lemma nearestEven_range y :
  (Int_part y <= nearestEven y <= Int_part y + 1)%Z.
Proof.
  unfold nearestEven. repeat case_bool_decide; try destruct (Z.even _); lia.
Qed.

Lemma nearestEven_mono a b : a <= b -> (nearestEven a <= nearestEven b)%Z.
Proof.
  intros H. pose proof (Int_part_mono a b H) as Hm.
  pose proof (nearestEven_range a). pose proof (nearestEven_range b).
  destruct (decide (Int_part a = Int_part b)) as [E|E]; [|lia].
  unfold nearestEven. rewrite E.
  repeat case_bool_decide; try destruct (Z.even _); try lia;
    rewrite E in *; lra.
Qed.

Lemma nearestEven_opp y : nearestEven (- y) = (- nearestEven y)%Z.
Proof.
  pose proof (Int_part_bounds y) as B.
  destruct (Req_dec y (IZR (Int_part y))) as [E|E].
  - rewrite E at 1 2. rewrite <- opp_IZR, !nearestEven_IZR. done.
  - assert (F : Int_part (- y) = (- Int_part y - 1)%Z).
    { symmetry. apply Int_part_spec. rewrite minus_IZR, opp_IZR. lra. }
    unfold nearestEven. rewrite F, minus_IZR, opp_IZR.
    replace (- Int_part y - 1)%Z with (- (Int_part y + 1))%Z by lia.
    rewrite Z.even_opp, Z.even_add. simpl.
    repeat case_bool_decide; try lra; try lia;
      destruct (Z.even (Int_part y)); simpl; lia.
Qed.

Lemma ln2_pos : 0 < ln 2.
Proof. rewrite <- ln_1. apply ln_increasing; lra. Qed.

Lemma ln_pow2 e : ln (powerRZ 2 e) = IZR e * ln 2.
Proof.
  rewrite powerRZ_Rpower by lra. unfold Rpower. apply ln_exp.
Qed.

Lemma pow2_pos e : 0 < powerRZ 2 e.
Proof. apply powerRZ_lt. lra. Qed.

Lemma pow2_le a b : (a <= b)%Z -> powerRZ 2 a <= powerRZ 2 b.
Proof.
  intros H. replace b with (a + (b - a))%Z by lia.
  rewrite powerRZ_add by lra.
  assert (1 <= powerRZ 2 (b - a)).
  { destruct (b - a)%Z as [|p|p] eqn:E; [simpl; lra| |lia].
    simpl. apply pow_R1_Rle. lra. }
  pose proof (pow2_pos a). nra.
Qed.

Lemma pow2_succ e : powerRZ 2 (e + 1) = 2 * powerRZ 2 e.
Proof. rewrite powerRZ_add by lra. simpl. lra. Qed.

Lemma pow2_IZR z : (0 <= z)%Z -> powerRZ 2 z = IZR (2 ^ z).
Proof.
  intros H. destruct z as [|p|p]; [done| |lia].
  cbn [powerRZ]. rewrite pow_IZR, positive_nat_Z. done.
Qed.

(** The binade of a number other than 0. *)
Lemma log2_bounds x :
  x <> 0 ->
  let e := Int_part (ln (Rabs x) / ln 2) in
  powerRZ 2 e <= Rabs x < powerRZ 2 (e + 1).
Proof.
  intros Hx e. pose proof ln2_pos as L2.
  assert (Hp : 0 < Rabs x) by (by apply Rabs_pos_lt).
  pose proof (Int_part_bounds (ln (Rabs x) / ln 2)) as [B1 B2]. fold e in B1, B2.
  assert (E1 : IZR e * ln 2 <= ln (Rabs x)).
  { apply (Rmult_le_compat_r (ln 2)) in B1; [|lra].
    unfold Rdiv in B1. rewrite Rmult_assoc, Rinv_l, Rmult_1_r in B1; lra. }
  assert (E2 : ln (Rabs x) < (IZR e + 1) * ln 2).
  { apply (Rmult_lt_compat_r (ln 2)) in B2; [|lra].
    unfold Rdiv in B2. rewrite Rmult_assoc, Rinv_l, Rmult_1_r in B2; lra. }
  split.
  - rewrite <- (exp_ln (Rabs x)) by done.
    rewrite <- (exp_ln (powerRZ 2 e)) by apply pow2_pos.
    rewrite ln_pow2. destruct E1 as [E1|E1]; [left; by apply exp_increasing|].
    rewrite E1. lra.
  - rewrite <- (exp_ln (Rabs x)) at 1 by done.
    rewrite <- (exp_ln (powerRZ 2 (e + 1))) by apply pow2_pos.
    rewrite ln_pow2, plus_IZR. by apply exp_increasing.
Qed.


Lemma binadeOf_min x : (-126 <= binadeOf x)%Z.
Proof. unfold binadeOf. case_bool_decide; lia. Qed.

Lemma binadeOf_upper x : Rabs x < powerRZ 2 (binadeOf x + 1).
Proof.
  destruct (Req_dec x 0) as [->|Hx].
  - rewrite Rabs_R0. apply pow2_pos.
  - destruct (log2_bounds x Hx) as [_ H].
    eapply Rlt_le_trans; [exact H|]. apply pow2_le. unfold binadeOf.
    rewrite bool_decide_false by done. lia.
Qed.

Lemma binadeOf_lower x :
  (-126 < binadeOf x)%Z -> powerRZ 2 (binadeOf x) <= Rabs x.
Proof.
  intros H. destruct (Req_dec x 0) as [->|Hx].
  - exfalso. unfold binadeOf in H. rewrite bool_decide_true in H by done. lia.
  - destruct (log2_bounds x Hx) as [L _].
    replace (binadeOf x) with (Int_part (ln (Rabs x) / ln 2)); [done|].
    unfold binadeOf in *. rewrite bool_decide_false in * by done. lia.
Qed.

Lemma binadeOf_le x e :
  (-126 <= e)%Z -> Rabs x < powerRZ 2 (e + 1) -> (binadeOf x <= e)%Z.
Proof.
  intros He H. destruct (Z_le_gt_dec (binadeOf x) e) as [|Hgt]; [done|].
  exfalso. pose proof (binadeOf_lower x ltac:(lia)) as L.
  pose proof (pow2_le (e + 1) (binadeOf x) ltac:(lia)). lra.
Qed.

Lemma binadeOf_mono x y : Rabs x <= Rabs y -> (binadeOf x <= binadeOf y)%Z.
Proof.
  intros H. apply binadeOf_le; [apply binadeOf_min|].
  eapply Rle_lt_trans; [exact H|]. apply binadeOf_upper.
Qed.

Lemma binadeOf_opp x : binadeOf (- x) = binadeOf x.
Proof.
  unfold binadeOf. rewrite Rabs_Ropp.
  destruct (decide (x = 0)) as [->|H].
  - rewrite Ropp_0. done.
  - rewrite !bool_decide_false; [done|done|lra].
Qed.

Lemma fround_opp x : fround (- x) = - fround x.
Proof.
  unfold fround. rewrite binadeOf_opp.
  replace (- x / powerRZ 2 (binadeOf x - 23))
    with (- (x / powerRZ 2 (binadeOf x - 23))) by (unfold Rdiv; ring).
  rewrite nearestEven_opp, opp_IZR. ring.
Qed.

(** A multiple of [2 ^ (e - 23)] below [2 ^ (e + 1)] is a float32 value. *)
Lemma fround_dyadic n e :
  (-126 <= e)%Z ->
  Rabs (IZR n * powerRZ 2 (e - 23)) < powerRZ 2 (e + 1) ->
  fround (IZR n * powerRZ 2 (e - 23)) = IZR n * powerRZ 2 (e - 23).
Proof.
  intros He Hlt. set (x := IZR n * powerRZ 2 (e - 23)) in *.
  pose proof (binadeOf_le x e He Hlt) as Hb.
  unfold fround. set (b := binadeOf x) in *.
  pose proof (pow2_pos (b - 23)) as Pb.
  assert (E : x / powerRZ 2 (b - 23) = IZR (n * 2 ^ (e - b))).
  { unfold x. replace (e - 23)%Z with ((e - b) + (b - 23))%Z by lia.
    rewrite powerRZ_add by lra. rewrite mult_IZR.
    rewrite pow2_IZR by lia. field. lra. }
  rewrite E, nearestEven_IZR, <- E. field. lra.
Qed.

Lemma fround_0 : fround 0 = 0.
Proof.
  replace 0 with (IZR 0 * powerRZ 2 (0 - 23)) by (simpl; lra).
  apply fround_dyadic; [lia|]. rewrite Rmult_0_l, Rabs_R0. apply pow2_pos.
Qed.

(** An integer of a magnitude below [2 ^ 24] is a float32 value. *)
Lemma fround_IZR n : (Z.abs n < 2 ^ 24)%Z -> fround (IZR n) = IZR n.
Proof.
  intros H. replace (IZR n) with (IZR n * powerRZ 2 (23 - 23)) by (simpl; lra).
  apply fround_dyadic; [lia|]. simpl powerRZ at 1. rewrite Rmult_1_r.
  rewrite <- abs_IZR, pow2_IZR by lia. by apply IZR_lt.
Qed.

Lemma pow2_split b : powerRZ 2 (b + 1) = IZR (2 ^ 24) * powerRZ 2 (b - 23).
Proof.
  replace (b + 1)%Z with (24 + (b - 23))%Z by lia.
  rewrite powerRZ_add by lra. rewrite (pow2_IZR 24) by lia. done.
Qed.

Lemma pow2_split_low b : powerRZ 2 b = IZR (2 ^ 23) * powerRZ 2 (b - 23).
Proof.
  replace b with (23 + (b - 23))%Z at 1 by lia.
  rewrite powerRZ_add by lra. rewrite (pow2_IZR 23) by lia. done.
Qed.

(** The multiple that [fround] chooses has at most 24 bits. *)
Lemma fround_multiple x :
  let n := nearestEven (x / powerRZ 2 (binadeOf x - 23)) in
  fround x = IZR n * powerRZ 2 (binadeOf x - 23) /\
  (- 2 ^ 24 <= n <= 2 ^ 24)%Z.
Proof.
  intros n. split; [done|].
  pose proof (pow2_pos (binadeOf x - 23)) as P.
  pose proof (binadeOf_upper x) as U. rewrite pow2_split in U.
  assert (H : - IZR (2 ^ 24) <= x / powerRZ 2 (binadeOf x - 23) <= IZR (2 ^ 24)).
  { apply Rabs_def2 in U as [U1 U2]. split.
    - apply (Rmult_le_reg_r (powerRZ 2 (binadeOf x - 23))); [done|].
      unfold Rdiv. rewrite Rmult_assoc, Rinv_l; lra.
    - apply (Rmult_le_reg_r (powerRZ 2 (binadeOf x - 23))); [done|].
      unfold Rdiv. rewrite Rmult_assoc, Rinv_l; lra. }
  destruct H as [H1 H2]. rewrite <- opp_IZR in H1.
  apply nearestEven_mono in H1, H2. rewrite nearestEven_IZR in H1, H2.
  subst n. lia.
Qed.

(** A value that [fround] returns is a float32 value. *)
Lemma fround_idem x : fround (fround x) = fround x.
Proof.
  destruct (fround_multiple x) as [E [L U]]. cbv zeta in *.
  set (n := nearestEven _) in *. set (b := binadeOf x) in *.
  pose proof (binadeOf_min x) as Hb. fold b in Hb.
  pose proof (pow2_pos (b - 23)) as P.
  rewrite E.
  destruct (decide (Z.abs n < 2 ^ 24)%Z) as [Hlt|Hge].
  - apply fround_dyadic; [done|]. rewrite pow2_split, Rabs_mult.
    rewrite (Rabs_pos_eq (powerRZ 2 (b - 23))) by lra.
    apply Rmult_lt_compat_r; [done|]. rewrite <- abs_IZR. by apply IZR_lt.
  - assert (Hn : n = (2 * (n / 2))%Z).
    { assert (Hc : n = (2 ^ 24)%Z \/ n = (- 2 ^ 24)%Z) by lia.
      destruct Hc as [->| ->]; reflexivity. }
    replace (IZR n * powerRZ 2 (b - 23))
      with (IZR (n / 2) * powerRZ 2 ((b + 1) - 23)).
    + apply fround_dyadic; [lia|].
      replace (b + 1 - 23)%Z with ((b - 23) + 1)%Z by lia.
      rewrite (pow2_split (b + 1)), pow2_succ, Rabs_mult.
      replace (b + 1 - 23)%Z with ((b - 23) + 1)%Z by lia.
      rewrite pow2_succ.
      rewrite (Rabs_pos_eq (2 * powerRZ 2 (b - 23))) by lra.
      apply Rmult_lt_compat_r; [lra|]. rewrite <- abs_IZR. apply IZR_lt.
      assert (Hc : n = (2 ^ 24)%Z \/ n = (- 2 ^ 24)%Z) by lia.
      destruct Hc as [->| ->]; reflexivity.
    + replace (b + 1 - 23)%Z with ((b - 23) + 1)%Z by lia.
      rewrite pow2_succ. rewrite Hn at 2. rewrite mult_IZR. ring.
Qed.

Lemma fround_nonneg x : 0 <= x -> 0 <= fround x.
Proof.
  intros H. unfold fround. pose proof (pow2_pos (binadeOf x - 23)) as P.
  apply Rmult_le_pos; [|lra]. apply IZR_le.
  rewrite <- (nearestEven_IZR 0). apply nearestEven_mono.
  apply Rmult_le_pos; [done|]. left. by apply Rinv_0_lt_compat.
Qed.

Lemma fround_mono_pos x y : 0 <= x -> x <= y -> fround x <= fround y.
Proof.
  intros Hx Hxy.
  assert (Hb : (binadeOf x <= binadeOf y)%Z).
  { apply binadeOf_mono. rewrite !Rabs_pos_eq by lra. done. }
  destruct (decide (binadeOf x = binadeOf y)) as [E|Hne].
  - unfold fround. rewrite E. pose proof (pow2_pos (binadeOf y - 23)) as P.
    apply Rmult_le_compat_r; [lra|]. apply IZR_le, nearestEven_mono.
    apply Rmult_le_compat_r; [|done]. left. by apply Rinv_0_lt_compat.
  - apply Rle_trans with (powerRZ 2 (binadeOf y)).
    + destruct (fround_multiple x) as [E [_ U]]. cbv zeta in *. rewrite E.
      apply Rle_trans with (powerRZ 2 (binadeOf x + 1)); [|apply pow2_le; lia].
      rewrite pow2_split. pose proof (pow2_pos (binadeOf x - 23)).
      apply Rmult_le_compat_r; [lra|]. by apply IZR_le.
    + pose proof (binadeOf_min x).
      pose proof (binadeOf_lower y ltac:(lia)) as L.
      rewrite Rabs_pos_eq in L by lra.
      unfold fround. rewrite pow2_split_low at 1.
      pose proof (pow2_pos (binadeOf y - 23)) as P.
      apply Rmult_le_compat_r; [lra|]. apply IZR_le.
      rewrite <- (nearestEven_IZR (2 ^ 23)). apply nearestEven_mono.
      apply (Rmult_le_reg_r (powerRZ 2 (binadeOf y - 23))); [done|].
      unfold Rdiv. rewrite Rmult_assoc, Rinv_l, Rmult_1_r by lra.
      rewrite <- pow2_split_low. done.
Qed.

(** The rounding keeps the order. *)
Lemma fround_mono x y : x <= y -> fround x <= fround y.
Proof.
  intros H. destruct (Rle_or_lt 0 x) as [Hx|Hx].
  - by apply fround_mono_pos.
  - destruct (Rle_or_lt 0 y) as [Hy|Hy].
    + apply Rle_trans with 0; [|by apply fround_nonneg].
      pose proof (fround_nonneg (- x) ltac:(lra)) as N.
      rewrite fround_opp in N. lra.
    + pose proof (fround_mono_pos (- y) (- x) ltac:(lra) ltac:(lra)) as M.
      rewrite !fround_opp in M. lra.
Qed.

(** Two stores of the later of the old value and the same time. *)
Lemma fround_Rmax_twice a b :
  fround (Rmax (fround (Rmax a b)) b) = fround (Rmax a b).
Proof.
  pose proof (Rmax_r a b) as Hb.
  unfold Rmax at 1. destruct (Rle_dec (fround (Rmax a b)) b) as [H|H].
  - apply Rle_antisym.
    + by apply fround_mono.
    + rewrite <- (fround_idem (Rmax a b)). by apply fround_mono.
  - apply fround_idem.
Qed.



Arguments fround : simpl never.
Arguments binadeOf : simpl never.
Arguments nearestEven : simpl never.

(** ** Arithmetic and arrays *)

Ltac rminmax :=
  repeat first
    [ rewrite Rmin_left by lra | rewrite Rmin_right by lra
    | rewrite Rmax_left by lra | rewrite Rmax_right by lra ].

Ltac decide_true := rewrite bool_decide_true by (first [lra | lia | done]).
Ltac decide_false := rewrite bool_decide_false by (first [lra | lia | done]).

Lemma clamp01_range x : 0 <= clamp01 x <= 1.
Proof.
  unfold clamp01, Rmax, Rmin.
  destruct (Rle_dec 1 x); destruct (Rle_dec 0 _); lra.
Qed.

Lemma clamp01_id x : 0 <= x <= 1 -> clamp01 x = x.
Proof. intros H. unfold clamp01. rminmax. reflexivity. Qed.

Lemma rd_insert_eq (a : list R) i x : (i < length a)%nat -> rd (<[i := x]> a) i = x.
Proof. intros H. unfold rd. by rewrite list_lookup_insert_eq. Qed.

Lemma rd_insert_ne (a : list R) i j x : i <> j -> rd (<[i := x]> a) j = rd a j.
Proof. intros H. unfold rd. by rewrite list_lookup_insert_ne. Qed.

Lemma rd_insert (a : list R) i j x :
  rd (<[i := x]> a) j = if decide (i = j /\ (i < length a)%nat) then x else rd a j.
Proof.
  unfold rd. rewrite list_lookup_insert. destruct (decide (i = j ∧ _)); done.
Qed.

Lemma length_addAt a i x : length (addAt a i x) = length a.
Proof. apply length_insert. Qed.

Lemma length_mulAt a i x : length (mulAt a i x) = length a.
Proof. apply length_insert. Qed.

Lemma rd_addAt_eq a i x : (i < length a)%nat -> rd (addAt a i x) i = rd a i + x.
Proof. apply rd_insert_eq. Qed.

Lemma rd_addAt_ne a i j x : i <> j -> rd (addAt a i x) j = rd a j.
Proof. apply rd_insert_ne. Qed.

Lemma rd_mulAt_eq a i x : (i < length a)%nat -> rd (mulAt a i x) i = rd a i * x.
Proof. apply rd_insert_eq. Qed.

Lemma rd_mulAt_ne a i j x : i <> j -> rd (mulAt a i x) j = rd a j.
Proof. apply rd_insert_ne. Qed.

(** ** Loops *)

Section Loops.
Context {St : Type} (body : nat -> St -> option St).

(** A property kept by every iteration that does not break holds after
    the loop. *)
Lemma forLoop_invariant (P : St -> Prop) (a : nat) :
  (forall j s s', (a <= j)%nat -> P s -> body j s = Some s' -> P s') ->
  forall n b s, (a <= b)%nat -> P s -> P (forLoop body b n s).
Proof.
  intros Hstep n. induction n as [|n IH]; intros b s Hb HP; simpl; [done|].
  destruct (body b s) as [s'|] eqn:E; [|done].
  apply IH; [lia|]. eapply Hstep; eauto.
Qed.

(** What iteration [i] establishes holds after the loop when the
    iterations before [i] keep its precondition and do not break, and
    the iterations after [i] keep its postcondition. *)
Lemma forLoop_at (I Pre Post : St -> Prop) (i : nat) :
  (forall j s, (j <= i)%nat -> I s -> exists s', body j s = Some s' /\ I s') ->
  (forall j s s', (j < i)%nat -> I s -> Pre s -> body j s = Some s' -> Pre s') ->
  (forall s s', I s -> Pre s -> body i s = Some s' -> Post s') ->
  (forall j s s', (i < j)%nat -> Post s -> body j s = Some s' -> Post s') ->
  forall n a s, (a <= i < a + n)%nat -> I s -> Pre s ->
    Post (forLoop body a n s).
Proof.
  intros Hrun Hpre Hat Hpost n.
  induction n as [|n IH]; intros a s Ha HI HP; [lia|]. simpl.
  destruct (Hrun a s) as (s' & E & HI'); [lia|done|]. rewrite E.
  destruct (decide (a = i)) as [->|Hne].
  - apply forLoop_invariant with (a := S i); [|lia|exact (Hat s s' HI HP E)].
    intros j t t' Hj. apply Hpost. lia.
  - apply IH; [lia|done|]. apply (Hpre a s s'); auto. lia.
Qed.
End Loops.

(** ** Footprints of the iterations *)

Lemma same3_refl j a : same3 j a a.
Proof. by split. Qed.

Lemma same1_refl j a : same1 j a a.
Proof. by split. Qed.

Lemma same3_trans j a b c : same3 j a b -> same3 j b c -> same3 j a c.
Proof.
  intros [L1 H1] [L2 H2]. split; [congruence|].
  intros m ???. rewrite H2, H1; auto.
Qed.

Lemma same1_trans j a b c : same1 j a b -> same1 j b c -> same1 j a c.
Proof.
  intros [L1 H1] [L2 H2]. split; [congruence|].
  intros m ?. rewrite H2, H1; auto.
Qed.

Lemma same3_insert j a b m x :
  same3 j a b -> (m = j * 3 \/ m = j * 3 + 1 \/ m = j * 3 + 2)%nat ->
  same3 j a (<[m := x]> b).
Proof.
  intros [L H] Hm. split; [by rewrite length_insert|].
  intros n ???. rewrite list_lookup_insert_ne by lia. auto.
Qed.

Lemma same1_insert j a b x : same1 j a b -> same1 j a (<[j := x]> b).
Proof.
  intros [L H]. split; [by rewrite length_insert|].
  intros n ?. rewrite list_lookup_insert_ne by lia. auto.
Qed.

Lemma same3_rd j a b m :
  same3 j a b -> m <> (j * 3)%nat -> m <> (j * 3 + 1)%nat ->
  m <> (j * 3 + 2)%nat -> rd b m = rd a m.
Proof. intros [_ H] ???. unfold rd. by rewrite H. Qed.

Lemma same3_get3 j i a b : same3 j a b -> i <> j -> get3 b i = get3 a i.
Proof.
  intros H Hne. unfold get3.
  rewrite !(same3_rd j a b) by (done || lia). reflexivity.
Qed.

Lemma same1_rd j a b m : same1 j a b -> m <> j -> rd b m = rd a m.
Proof. intros [_ H] ?. unfold rd. by rewrite H. Qed.

Create HintDb footprint.
#[export] Hint Resolve same3_refl same1_refl : footprint.
#[export] Hint Extern 2 (same3 _ _ (<[_ := _]> _)) =>
  (apply same3_insert; [|lia]) : footprint.
#[export] Hint Extern 2 (same3 _ _ (addAt _ _ _)) =>
  (apply same3_insert; [|lia]) : footprint.
#[export] Hint Extern 2 (same3 _ _ (mulAt _ _ _)) =>
  (apply same3_insert; [|lia]) : footprint.
#[export] Hint Extern 2 (same1 _ _ (<[_ := _]> _)) =>
  (apply same1_insert) : footprint.

Ltac footprint := constructor; simpl; auto 10 with footprint.

Lemma physicsFootprint_refl j s : physicsFootprint j s s.
Proof. footprint. Qed.

Lemma physicsFootprint_trans j s1 s2 s3 :
  physicsFootprint j s1 s2 -> physicsFootprint j s2 s3 ->
  physicsFootprint j s1 s3.
Proof.
  intros [] []. constructor;
    try (eapply same3_trans; eassumption);
    try (eapply same1_trans; eassumption); congruence.
Qed.

Lemma pointerForce_footprint rnd f j s k :
  physicsFootprint j s (pointerForce rnd f j s k).1.
Proof.
  unfold pointerForce.
  destruct (interactionActive f); [|footprint].
  case_bool_decide; [|footprint].
  destruct (randomDirection3D _ _ _ _ _) as [d k']. footprint.
Qed.

Lemma autonomousMotion_footprint rnd f j s k :
  physicsFootprint j s (autonomousMotion rnd f j s k).1.
Proof.
  unfold autonomousMotion. repeat case_bool_decide; footprint.
Qed.

Lemma explosionImpulse_footprint rnd f j sk e :
  physicsFootprint j sk.1 (explosionImpulse rnd f j sk e).1.
Proof.
  destruct sk as [s k]. unfold explosionImpulse.
  destruct (applied e); [footprint|].
  simpl. repeat case_bool_decide; footprint.
Qed.

Lemma explosionForces_footprint rnd f j s k :
  physicsFootprint j s (explosionForces rnd f j s k).1.
Proof.
  unfold explosionForces. destruct (hasExplosions f); [|footprint].
  generalize (explosions (fCfg f)) as es. intros es.
  assert (H : physicsFootprint j s (s, k).1) by footprint.
  revert H. generalize (s, k) as sk. induction es as [|e es IH]; intros sk H; [done|].
  simpl. apply IH. eapply physicsFootprint_trans; [exact H|].
  apply explosionImpulse_footprint.
Qed.

Lemma waveForces_footprint f j s : physicsFootprint j s (waveForces f j s).1.
Proof.
  unfold waveForces. destruct (waveActive f); [|footprint].
  destruct (inWaveBounds _ _); [|footprint].
  destruct (fold_left _ _ _) as [t z]. footprint.
Qed.

Lemma updateSize_footprint f j t s : physicsFootprint j s (updateSize f j t s).
Proof.
  unfold updateSize. destruct (waveActive f); simpl; [|footprint].
  repeat case_bool_decide; footprint.
Qed.

Lemma advance_footprint f j s : physicsFootprint j s (advance f j s).
Proof. unfold advance. footprint. Qed.

Lemma integrate_footprint f j s : physicsFootprint j s (integrate f j s).
Proof.
  unfold integrate, explosionFlight, springDamper.
  destruct (isInExplosionFlight f j s); [footprint|].
  destruct (_ && _); footprint.
Qed.

Lemma particleStep_footprint rnd f j s k s' k' :
  particleStep rnd f j (s, k) = Some (s', k') -> physicsFootprint j s s'.
Proof.
  unfold particleStep. case_bool_decide; [done|].
  pose proof (pointerForce_footprint rnd f j s k) as H1.
  destruct (pointerForce rnd f j s k) as [s1 k1].
  pose proof (autonomousMotion_footprint rnd f j s1 k1) as H2.
  destruct (autonomousMotion rnd f j s1 k1) as [s2 k2].
  pose proof (explosionForces_footprint rnd f j s2 k2) as H3.
  destruct (explosionForces rnd f j s2 k2) as [s3 k3].
  pose proof (waveForces_footprint f j s3) as H4.
  destruct (waveForces f j s3) as [s4 t].
  pose proof (updateSize_footprint f j t s4) as H5.
  pose proof (advance_footprint f j (updateSize f j t s4)) as H6.
  pose proof (integrate_footprint f j (advance f j (updateSize f j t s4))) as H7.
  simpl in *.
  assert (Hadv : physicsFootprint j s (advance f j (updateSize f j t s4))).
  { repeat (eapply physicsFootprint_trans; [|eassumption]).
    apply physicsFootprint_refl. }
  destruct (_ || _); intros [= <- <-]; eauto using physicsFootprint_trans.
Qed.

(** ** The easing evaluator *)

(** The evaluator is the Y-polynomial of the curve at the clamped time:
    the X-coordinates of the control points play no part. *)
Lemma bezierEasing_Y_polynomial t a b c d :
  bezierEasing t a b c d = snd (bezierPointXY (clamp01 t) 0 0 a b c d 1 1).
Proof. unfold bezierEasing, bezierPointXY, clamp01. simpl. lra. Qed.

Lemma bezierEasing_ignores_x t a a' b c c' d :
  bezierEasing t a b c d = bezierEasing t a' b c' d.
Proof. reflexivity. Qed.

(** On the preset [linear] both coordinates of the curve coincide, so
    the timing function of the specification is the identity. *)
Lemma cssCubicBezier_linear t v :
  cssCubicBezier preset_linear t v -> v = clamp01 t.
Proof.
  intros (s & _ & Hx & ->). rewrite <- Hx.
  unfold bezierPointXY, preset_linear; simpl. lra.
Qed.

Lemma easingOf_linear_quarter : easingOf preset_linear 0.25 = 29 / 128.
Proof.
  unfold easingOf, bezierEasing, preset_linear; simpl.
  rminmax. lra.
Qed.

(** C1, at the failing input: with the control points of the preset
    [linear] and progress 1/4 the evaluator returns 29/128, which is not
    a value of the timing function cubic-bezier(0.25, 0.25, 0.75, 0.75)
    at 1/4 (that value is 1/4). *)
Theorem bezierEasing_linear_preset_not_css :
  easingOf preset_linear 0.25 = 29 / 128 /\
  ~ cssCubicBezier preset_linear 0.25 (easingOf preset_linear 0.25).
Proof.
  split; [exact easingOf_linear_quarter|].
  intros H. apply cssCubicBezier_linear in H.
  rewrite easingOf_linear_quarter in H.
  rewrite clamp01_id in H by lra. lra.
Qed.

(** ** The settled step, stage by stage *)

Lemma updatePhysics_settled rnd nowDate nowPerf w :
  settled w ->
  updatePhysics rnd nowDate nowPerf w
  = settledPhase rnd nowDate nowPerf w (framePointer w) (CONFIG w) (store w).
Proof.
  intros (Hi & Hg & Hl). unfold updatePhysics, loadingPhase.
  rewrite Hi, Hg, Hl. reflexivity.
Qed.

Lemma settledPhase_store rnd nowDate nowPerf w ptr c s :
  store (settledPhase rnd nowDate nowPerf w ptr c s)
  = let f := settledFrame nowDate nowPerf (camera w) ptr c in
    let changed :=
      negb (bool_decide (cachedGlowBrightness w = glowBrightness (fCfg f)))
      || negb (bool_decide
                 (cachedVelocityGlowMultiplier w
                  = velocityGlowMultiplier (fCfg f))) in
    colorStore f (hasColorAttr w)
      (bool_decide (velocityGlowMultiplier (fCfg f) > 0))
      (if changed then true else glowStaticNeedsUpdate w)
      (actualCount (totalParticleCount w) s)
      (settledPhysics rnd nowDate nowPerf w ptr c s).
Proof.
  unfold settledPhase, settledPhysics, settledFrame.
  destruct (waveLogic nowDate (camera w) c) as [c' b]. simpl.
  destruct (physicsStore _ _ _ _ _ _) as [s' k]. reflexivity.
Qed.

Lemma settledPhase_CONFIG rnd nowDate nowPerf w ptr c s :
  CONFIG (settledPhase rnd nowDate nowPerf w ptr c s)
  = cleanupExplosions (waveLogic nowDate (camera w) c).1.
Proof.
  unfold settledPhase.
  destruct (waveLogic nowDate (camera w) c) as [c' b]. simpl.
  destruct (physicsStore _ _ _ _ _ _) as [s' k]. reflexivity.
Qed.

Lemma particleStep_some rnd f j s k :
  (j * 3 + 2 < length (positions s))%nat ->
  exists s' k', particleStep rnd f j (s, k) = Some (s', k').
Proof.
  intros H. unfold particleStep. decide_false.
  destruct (pointerForce rnd f j s k) as [s1 k1].
  destruct (autonomousMotion rnd f j s1 k1) as [s2 k2].
  destruct (explosionForces rnd f j s2 k2) as [s3 k3].
  destruct (waveForces f j s3) as [s4 t].
  destruct (_ || _); eauto.
Qed.

Lemma physicsLoop_at rnd f i (Pre Post : Store -> Prop) :
  stableAt i Pre -> stableAt i Post ->
  (forall s k s' k',
     Pre s -> particleStep rnd f i (s, k) = Some (s', k') -> Post s') ->
  forall n s k,
    (i < n)%nat -> (i * 3 + 2 < length (positions s))%nat -> Pre s ->
    Post (forLoop (particleStep rnd f) 0 n (s, k)).1.
Proof.
  intros HPre HPost Hstep n s k Hn Hlen HP.
  apply (forLoop_at (particleStep rnd f)
           (fun sk => length (positions sk.1) = length (positions s))
           (fun sk => Pre sk.1) (fun sk => Post sk.1) i); simpl; try done.
  - intros j [t kt] Hj HL; simpl in *.
    destruct (particleStep_some rnd f j t kt) as (t' & k' & E); [lia|].
    exists (t', k'). split; [done|]. simpl.
    apply particleStep_footprint in E. destruct (pf_positions _ _ _ E). congruence.
  - intros j [t kt] [t' kt'] Hj _ HP' E; simpl in *.
    eapply HPre; [|eapply particleStep_footprint; eassumption|done]. lia.
  - intros [t kt] [t' kt'] _ HP' E; simpl in *. eauto.
  - intros j [t kt] [t' kt'] Hj HP' E; simpl in *.
    eapply HPost; [|eapply particleStep_footprint; eassumption|done]. lia.
  - lia.
Qed.

Lemma physicsLoop_shape rnd f n s k :
  exists p v z g r,
    (forLoop (particleStep rnd f) 0 n (s, k)).1
    = set_positions p (set_velocities v (set_sizes z
        (set_explosionGlowEndTimes g (set_explosionReturnTimes r s)))).
Proof.
  apply (forLoop_invariant (particleStep rnd f)
    (fun sk => exists p v z g r, sk.1 = set_positions p (set_velocities v (set_sizes z
        (set_explosionGlowEndTimes g (set_explosionReturnTimes r s))))) 0%nat); [|lia|].
  - intros j [t kt] [t' kt'] _ (p & v & z & g & r & E) Hs; simpl in *.
    apply particleStep_footprint in Hs. destruct Hs.
    exists (positions t'), (velocities t'), (sizes t'),
      (explosionGlowEndTimes t'), (explosionReturnTimes t').
    subst t. destruct t', s; simpl in *. unfold set_positions. simpl. congruence.
  - exists (positions s), (velocities s), (sizes s),
      (explosionGlowEndTimes s), (explosionReturnTimes s). by destruct s.
Qed.

(** ** The buffer of the distances *)

Lemma allocCount_le total s : (allocCount total s <= actualCount total s)%nat.
Proof.
  unfold allocCount, actualCount, countOf.
  assert (H : forall n, (n / 3 <= (n + (3 - 1)) / 3)%nat)
    by (intros n; apply Nat.Div0.div_le_mono; lia).
  pose proof (H (length (positions s))).
  pose proof (H (length (originalPositions s))).
  pose proof (H (length (startPositions s))).
  pose proof (H (length (velocities s))).
  pose proof (H (length (colors s))). lia.
Qed.

(** A processed particle is within the bound of the loops and has its
    three entries in each array of the count. *)
Lemma processed_bounds total s i :
  processed total s i ->
  (i < actualCount total s)%nat /\
  (i * 3 + 2 < length (positions s))%nat /\
  (i * 3 + 2 < length (originalPositions s))%nat /\
  (i * 3 + 2 < length (velocities s))%nat /\
  (i * 3 + 2 < length (colors s))%nat.
Proof.
  unfold processed. intros H. pose proof (allocCount_le total s) as Hle.
  split; [lia|]. clear Hle. unfold allocCount in H.
  assert (D : forall n, (i < n / 3 -> i * 3 + 2 < n)%nat).
  { intros n Hn. pose proof (Nat.Div0.mul_div_le n 3). lia. }
  repeat split; apply D; lia.
Qed.

Lemma distanceStep_spec camZ j s s' :
  distanceStep camZ j s = Some s' ->
  s' = set_distanceBuffer
         (<[j := Rabs (rd (positions s) (j * 3 + 2) - camZ)]> (distanceBuffer s)) s.
Proof. unfold distanceStep. case_bool_decide; [done|]. by intros [= <-]. Qed.

Lemma distanceStore_shape camZ n m s :
  exists d, distanceStore camZ n m s = set_distanceBuffer d s.
Proof.
  unfold distanceStore.
  apply (forLoop_invariant (distanceStep camZ)
           (fun t => exists d, t = set_distanceBuffer d s) 0%nat); [|lia|].
  - intros j t t' _ [d ->] E. apply distanceStep_spec in E. subst t'. eauto.
  - case_bool_decide; [eauto|]. exists (distanceBuffer s). by destruct s.
Qed.

Lemma distanceStore_at camZ n m s i :
  (i < n)%nat -> (i < m)%nat -> (i * 3 + 2 < length (positions s))%nat ->
  rd (distanceBuffer (distanceStore camZ n m s)) i
  = Rabs (rd (positions s) (i * 3 + 2) - camZ).
Proof.
  intros Hn Hm Hlen. unfold distanceStore.
  set (s0 := if bool_decide (length (distanceBuffer s) < n)%nat
             then set_distanceBuffer (replicate m 0) s else s).
  assert (Hp0 : positions s0 = positions s)
    by (subst s0; case_bool_decide; reflexivity).
  assert (Hd0 : (i < length (distanceBuffer s0))%nat).
  { subst s0. case_bool_decide; simpl; [rewrite length_replicate|]; lia. }
  apply (forLoop_at (distanceStep camZ)
           (fun t => positions t = positions s
                     /\ length (distanceBuffer t) = length (distanceBuffer s0))
           (fun _ => True)
           (fun t => rd (distanceBuffer t) i
                     = Rabs (rd (positions s) (i * 3 + 2) - camZ)) i);
    try done; try lia.
  - intros j t Hj [Hp Hd]. unfold distanceStep. rewrite Hp. decide_false.
    eexists; split; [reflexivity|]. simpl. by rewrite length_insert.
  - intros t t' [Hp Hd] _ E. apply distanceStep_spec in E. subst t'. simpl.
    rewrite rd_insert_eq by lia. by rewrite Hp.
  - intros j t t' Hj Ht E. apply distanceStep_spec in E. subst t'. simpl.
    rewrite rd_insert_ne by lia. done.
Qed.

(** ** The loop over the colors *)

Lemma updateGlow_shape f d g j s :
  exists gs, updateGlow f d g j s = set_glows gs s.
Proof.
  unfold updateGlow.
  destruct d; [|destruct g]; try case_bool_decide; eauto;
    exists (glows s); by destruct s.
Qed.

Lemma colorStep_spec f d g j s s' :
  colorStep f d g j s = Some s' ->
  exists cs gs,
    s' = set_colors cs (set_glows gs s) /\
    same3 j (colors s) cs /\
    rd cs (j * 3) = finalBrightness f j s /\
    rd cs (j * 3 + 1) = finalBrightness f j s /\
    rd cs (j * 3 + 2) = finalBrightness f j s.
Proof.
  unfold colorStep. case_bool_decide as Hlen; [done|]. intros [= <-].
  destruct (updateGlow_shape f d g j s) as [gs ->]. simpl.
  eexists _, gs. split; [reflexivity|]. split; [auto 10 with footprint|].
  rewrite !rd_insert_ne by lia.
  rewrite !rd_insert_eq by (rewrite ?length_insert; lia).
  rewrite !rd_insert_ne by lia.
  rewrite !rd_insert_eq by (rewrite ?length_insert; lia). done.
Qed.

Lemma colorStore_shape f h d g n s :
  exists cs gs, colorStore f h d g n s = set_colors cs (set_glows gs s)
                /\ length cs = length (colors s).
Proof.
  unfold colorStore. destruct h.
  - generalize (Nat.min n (length (distanceBuffer s))) as m. intros m.
    apply (forLoop_invariant (colorStep f d g)
             (fun t => exists cs gs, t = set_colors cs (set_glows gs s)
                                     /\ length cs = length (colors s)) 0%nat);
      [|lia|].
    + intros j t t' _ (cs & gs & -> & L) E.
      apply colorStep_spec in E as (cs' & gs' & -> & [L' _] & _).
      exists cs', gs'. split; [reflexivity|]. simpl in L'. congruence.
    + exists (colors s), (glows s). by destruct s.
  - exists (colors s), (glows s). by destruct s.
Qed.

Lemma colorStore_at f d g n s i :
  (i < Nat.min n (length (distanceBuffer s)))%nat ->
  (i * 3 + 2 < length (colors s))%nat ->
  let t := colorStore f true d g n s in
  rd (colors t) (i * 3) = finalBrightness f i s /\
  rd (colors t) (i * 3 + 1) = finalBrightness f i s /\
  rd (colors t) (i * 3 + 2) = finalBrightness f i s.
Proof.
  intros Hn Hlen. unfold colorStore.
  apply (forLoop_at (colorStep f d g)
           (fun t => exists cs gs, t = set_colors cs (set_glows gs s)
                                   /\ length cs = length (colors s))
           (fun _ => True)
           (fun t => rd (colors t) (i * 3) = finalBrightness f i s /\
                     rd (colors t) (i * 3 + 1) = finalBrightness f i s /\
                     rd (colors t) (i * 3 + 2) = finalBrightness f i s) i);
    try done; try lia.
  - intros j t Hj (cs & gs & -> & L).
    destruct (colorStep f d g j (set_colors cs (set_glows gs s))) as [t'|] eqn:E.
    + exists t'. split; [done|].
      apply colorStep_spec in E as (cs' & gs' & -> & [L' _] & _).
      exists cs', gs'. split; [reflexivity|]. simpl in L'. congruence.
    + unfold colorStep in E. simpl in E. rewrite bool_decide_false in E by lia. done.
  - intros t t' (cs & gs & -> & L) _ E.
    apply colorStep_spec in E as (cs' & gs' & -> & _ & E0 & E1 & E2). simpl. done.
  - intros j t t' Hj (E0 & E1 & E2) E.
    apply colorStep_spec in E as (cs' & gs' & -> & Hs & _). simpl.
    rewrite !(same3_rd j (colors t) cs') by (done || lia). done.
  - exists (colors s), (glows s). by destruct s.
Qed.

(** ** The stages of a settled step *)

Lemma spawnWave_shape now c :
  exists lw ws, spawnWave now c = set_lastWaveTime lw (set_waves ws c).
Proof.
  unfold spawnWave.
  case_bool_decide; destruct (lastWaveTime c) eqn:E; simpl; eauto;
    try (exists (Some now), (waves c); by destruct c).
  exists (Some r), (waves c). destruct c; simpl in *. by subst.
Qed.

Lemma waveLogic_shape now cam c :
  exists lw ws, (waveLogic now cam c).1 = set_lastWaveTime lw (set_waves ws c).
Proof.
  unfold waveLogic. destruct (waveEnabled c && negb (isLoadingAnimation c)).
  - destruct (spawnWave_shape now c) as (lw & ws & ->).
    destruct (propagateWaves _ _ _ _) as [ws' b]. simpl. eauto.
  - exists (lastWaveTime c), (waves c). by destruct c.
Qed.

Lemma resetSizes_shape a b s : exists z, resetSizes a b s = set_sizes z s.
Proof.
  unfold resetSizes. destruct (negb a && b); [case_bool_decide|]; eauto;
    exists (sizes s); by destruct s.
Qed.

Lemma physicsStore_shape rnd f n b s k :
  exists p v z g r,
    (physicsStore rnd f n b s k).1
    = set_positions p (set_velocities v (set_sizes z
        (set_explosionGlowEndTimes g (set_explosionReturnTimes r s)))).
Proof.
  unfold physicsStore.
  destruct (physicsLoop_shape rnd f n s k) as (p & v & z & g & r & E).
  destruct (forLoop _ _ _ _) as [t kt]. simpl in *. subst t.
  destruct (resetSizes_shape (waveActive f) b
    (set_positions p (set_velocities v (set_sizes z
        (set_explosionGlowEndTimes g (set_explosionReturnTimes r s))))))
    as [z' ->].
  by exists p, v, z', g, r.
Qed.

Lemma distanceStore_length camZ n m s :
  (m <= n)%nat ->
  (m <= length (distanceBuffer (distanceStore camZ n m s)))%nat.
Proof.
  intros Hmn. unfold distanceStore.
  apply (forLoop_invariant (distanceStep camZ)
           (fun t => (m <= length (distanceBuffer t))%nat) 0%nat); [|lia|].
  - intros j t t' _ H E. apply distanceStep_spec in E. subst t'. simpl.
    by rewrite length_insert.
  - case_bool_decide; simpl; [rewrite length_replicate|]; lia.
Qed.

Lemma settledPhysics_shape rnd nowDate nowPerf w ptr c s :
  exists p v z g r d,
    settledPhysics rnd nowDate nowPerf w ptr c s
    = set_positions p (set_velocities v (set_sizes z
        (set_explosionGlowEndTimes g (set_explosionReturnTimes r
           (set_distanceBuffer d s))))) /\
    d = distanceBuffer
          (distanceStore (camZ (camera w))
             (actualCount (totalParticleCount w) s)
                 (allocCount (totalParticleCount w) s) s).
Proof.
  unfold settledPhysics.
  destruct (physicsStore_shape rnd
              (settledFrame nowDate nowPerf (camera w) ptr c)
              (actualCount (totalParticleCount w) s) (wasWaveActive w)
              (distanceStore (camZ (camera w))
                 (actualCount (totalParticleCount w) s)
                 (allocCount (totalParticleCount w) s) s) (randomCalls w))
    as (p & v & z & g & r & ->).
  destruct (distanceStore_shape (camZ (camera w))
              (actualCount (totalParticleCount w) s)
                 (allocCount (totalParticleCount w) s) s) as [d E].
  exists p, v, z, g, r, d. rewrite E. simpl. done.
Qed.

(** The buffer entry of a processed particle is its own depth at the
    beginning of the step. *)
Lemma settledPhysics_distance rnd nowDate nowPerf w ptr c s i :
  processed (totalParticleCount w) s i ->
  rd (distanceBuffer (settledPhysics rnd nowDate nowPerf w ptr c s)) i
  = Rabs (rd (positions s) (i * 3 + 2) - camZ (camera w)).
Proof.
  intros Hp. destruct (processed_bounds _ _ _ Hp) as (Hn & Hlen & _).
  destruct (settledPhysics_shape rnd nowDate nowPerf w ptr c s)
    as (p & v & z & g & r & d & -> & ->). simpl.
  by apply distanceStore_at.
Qed.

(** The three channels of a processed particle receive
    [finalBrightness]. *)
Lemma settledPhase_colors rnd nowDate nowPerf w ptr c s i :
  hasColorAttr w = true ->
  processed (totalParticleCount w) s i ->
  let f := settledFrame nowDate nowPerf (camera w) ptr c in
  let b := finalBrightness f i (settledPhysics rnd nowDate nowPerf w ptr c s) in
  let t := store (settledPhase rnd nowDate nowPerf w ptr c s) in
  rd (colors t) (i * 3) = b /\
  rd (colors t) (i * 3 + 1) = b /\
  rd (colors t) (i * 3 + 2) = b.
Proof.
  intros Hc Hp. destruct (processed_bounds _ _ _ Hp) as (Hn & _ & _ & _ & Hcol).
  rewrite settledPhase_store. simpl. rewrite Hc.
  apply colorStore_at.
  - destruct (settledPhysics_shape rnd nowDate nowPerf w ptr c s)
      as (p & v & z & g & r & d & -> & ->). simpl.
    pose proof (distanceStore_length (camZ (camera w))
                  (actualCount (totalParticleCount w) s)
                  (allocCount (totalParticleCount w) s) s
                  (allocCount_le _ _)).
    unfold processed in Hp. lia.
  - destruct (settledPhysics_shape rnd nowDate nowPerf w ptr c s)
      as (p & v & z & g & r & d & -> & ->). simpl. done.
Qed.

(** ** What the parts of an iteration write *)

Lemma pointerForce_shape rnd f j s k :
  exists v, (pointerForce rnd f j s k).1 = set_velocities v s.
Proof.
  unfold pointerForce.
  destruct (interactionActive f); [case_bool_decide|];
    try (exists (velocities s); by destruct s).
  destruct (randomDirection3D _ _ _ _ _) as [d k']. simpl. eauto.
Qed.

Lemma autonomousMotion_shape rnd f j s k :
  exists v, (autonomousMotion rnd f j s k).1 = set_velocities v s.
Proof.
  unfold autonomousMotion. repeat case_bool_decide; simpl; eauto;
    exists (velocities s); by destruct s.
Qed.

Lemma waveForces_shape f j s :
  exists v, (waveForces f j s).1 = set_velocities v s.
Proof.
  unfold waveForces.
  destruct (waveActive f); [destruct (inWaveBounds _ _)|];
    try (exists (velocities s); by destruct s).
  destruct (fold_left _ _ _) as [t z]. simpl. eauto.
Qed.

Lemma updateSize_shape f j t s : exists z, updateSize f j t s = set_sizes z s.
Proof.
  unfold updateSize. destruct (waveActive f); simpl;
    repeat case_bool_decide; eauto; exists (sizes s); by destruct s.
Qed.

Lemma advance_shape f j s : exists p, advance f j s = set_positions p s.
Proof. unfold advance. eauto. Qed.

Lemma integrate_shape f j s :
  exists p v, integrate f j s = set_positions p (set_velocities v s).
Proof.
  unfold integrate, explosionFlight, springDamper.
  destruct (isInExplosionFlight f j s); [eauto|].
  destruct (_ && _); eauto.
Qed.

Lemma explosionImpulse_timers rnd f i s k e :
  let r := (explosionImpulse rnd f i (s, k) e).1 in
  (i < length (explosionReturnTimes s))%nat ->
  (i < length (explosionGlowEndTimes s))%nat ->
  rd (explosionReturnTimes r) i
  = (if applied e then rd (explosionReturnTimes s) i
     else fround (Rmax (rd (explosionReturnTimes s) i)
                    (nowPerf f + explosionReturnDelay (fCfg f)))) /\
  rd (explosionGlowEndTimes r) i
  = (if applied e then rd (explosionGlowEndTimes s) i
     else fround (Rmax (rd (explosionGlowEndTimes s) i)
                    (nowPerf f + explosionGlowDuration (fCfg f)))) /\
  length (explosionReturnTimes r) = length (explosionReturnTimes s) /\
  length (explosionGlowEndTimes r) = length (explosionGlowEndTimes s).
Proof.
  intros r Hr Hg. subst r. unfold explosionImpulse.
  destruct (applied e); [done|]. simpl.
  rewrite (bool_decide_true (i < length (explosionReturnTimes s))%nat) by done.
  simpl.
  rewrite (bool_decide_true (i < length (explosionGlowEndTimes s))%nat) by done.
  simpl. rewrite !rd_insert_eq by done. rewrite !length_insert. done.
Qed.

Lemma explosionForces_timers rnd f i s k :
  let r := (explosionForces rnd f i s k).1 in
  (i < length (explosionReturnTimes s))%nat ->
  (i < length (explosionGlowEndTimes s))%nat ->
  rd (explosionReturnTimes r) i
  = timerAfter f (rd (explosionReturnTimes s) i)
      (explosionReturnDelay (fCfg f)) /\
  rd (explosionGlowEndTimes r) i
  = timerAfter f (rd (explosionGlowEndTimes s) i)
      (explosionGlowDuration (fCfg f)).
Proof.
  intros r Hr Hg. subst r. unfold explosionForces, timerAfter.
  destruct (hasExplosions f); simpl; [|done].
  generalize (explosions (fCfg f)) as es. intros es.
  revert s k Hr Hg. induction es as [|e es IH]; intros s k Hr Hg; [done|].
  simpl.
  destruct (explosionImpulse_timers rnd f i s k e Hr Hg) as (E1 & E2 & L1 & L2).
  destruct (explosionImpulse rnd f i (s, k) e) as [s1 k1]. simpl in *.
  destruct (IH s1 k1) as [I1 I2]; [lia|lia|].
  rewrite I1, I2, E1, E2.
  destruct (applied e); simpl; [done|].
  destruct (existsb _ es); [by rewrite !fround_Rmax_twice|done].
Qed.

Lemma particleStep_timers rnd f i s k s' k' :
  particleStep rnd f i (s, k) = Some (s', k') ->
  (i < length (explosionReturnTimes s))%nat ->
  (i < length (explosionGlowEndTimes s))%nat ->
  rd (explosionReturnTimes s') i
  = timerAfter f (rd (explosionReturnTimes s) i)
      (explosionReturnDelay (fCfg f)) /\
  rd (explosionGlowEndTimes s') i
  = timerAfter f (rd (explosionGlowEndTimes s) i)
      (explosionGlowDuration (fCfg f)).
Proof.
  unfold particleStep. case_bool_decide; [done|]. intros E Hr Hg. revert E.
  destruct (pointerForce_shape rnd f i s k) as [v1 E1].
  destruct (pointerForce rnd f i s k) as [s1 k1]. simpl in E1. subst s1.
  destruct (autonomousMotion_shape rnd f i (set_velocities v1 s) k1) as [v2 E2].
  destruct (autonomousMotion rnd f i _ k1) as [s2 k2]. simpl in E2. subst s2.
  pose proof (explosionForces_timers rnd f i
                (set_velocities v2 (set_velocities v1 s)) k2 Hr Hg) as [T1 T2].
  destruct (explosionForces rnd f i _ k2) as [s3 k3]. simpl in T1, T2.
  destruct (waveForces_shape f i s3) as [v4 E4].
  destruct (waveForces f i s3) as [s4 t]. simpl in E4. subst s4.
  destruct (updateSize_shape f i t (set_velocities v4 s3)) as [z ->].
  destruct (advance_shape f i (set_sizes z (set_velocities v4 s3))) as [p ->].
  destruct (integrate_shape f i
              (set_positions p (set_sizes z (set_velocities v4 s3))))
    as (p' & v' & ->).
  destruct (_ || _); intros [= <- <-]; simpl; done.
Qed.

Lemma settledPhysics_at rnd nowDate nowPerf w ptr c s i (Pre Post : Store -> Prop) :
  stableAt i Pre -> stableAt i Post ->
  (forall t d, Pre t -> Pre (set_distanceBuffer d t)) ->
  (forall t z, Post t -> Post (set_sizes z t)) ->
  (forall t k t' k',
     Pre t ->
     particleStep rnd (settledFrame nowDate nowPerf (camera w) ptr c) i (t, k)
     = Some (t', k') -> Post t') ->
  processed (totalParticleCount w) s i -> Pre s ->
  Post (settledPhysics rnd nowDate nowPerf w ptr c s).
Proof.
  intros HPre HPost Hd Hz Hstep Hp HP.
  destruct (processed_bounds _ _ _ Hp) as (Hn & Hlen & _).
  unfold settledPhysics, physicsStore.
  destruct (distanceStore_shape (camZ (camera w))
              (actualCount (totalParticleCount w) s)
                 (allocCount (totalParticleCount w) s) s) as [d E].
  rewrite E.
  pose proof (physicsLoop_at rnd
                (settledFrame nowDate nowPerf (camera w) ptr c) i Pre Post
                HPre HPost Hstep (actualCount (totalParticleCount w) s)
                (set_distanceBuffer d s) (randomCalls w) Hn Hlen (Hd s d HP))
    as H.
  destruct (forLoop _ _ _ _) as [t kt]. cbn [fst] in *.
  destruct (resetSizes_shape
              (waveActive (settledFrame nowDate nowPerf (camera w) ptr c))
              (wasWaveActive w) t) as [z ->].
  by apply Hz.
Qed.

Lemma settledPhysics_timers rnd nowDate nowPerf w ptr c s i :
  processed (totalParticleCount w) s i ->
  (i < length (explosionReturnTimes s))%nat ->
  (i < length (explosionGlowEndTimes s))%nat ->
  let f := settledFrame nowDate nowPerf (camera w) ptr c in
  let t := settledPhysics rnd nowDate nowPerf w ptr c s in
  rd (explosionReturnTimes t) i
  = timerAfter f (rd (explosionReturnTimes s) i)
      (explosionReturnDelay (fCfg f)) /\
  rd (explosionGlowEndTimes t) i
  = timerAfter f (rd (explosionGlowEndTimes s) i)
      (explosionGlowDuration (fCfg f)).
Proof.
  intros Hp Hr Hg f t. subst t.
  apply (settledPhysics_at rnd nowDate nowPerf w ptr c s i
    (fun t => rd (explosionReturnTimes t) i = rd (explosionReturnTimes s) i /\
              rd (explosionGlowEndTimes t) i = rd (explosionGlowEndTimes s) i /\
              (i < length (explosionReturnTimes t))%nat /\
              (i < length (explosionGlowEndTimes t))%nat)
    (fun t => rd (explosionReturnTimes t) i
              = timerAfter f (rd (explosionReturnTimes s) i)
                  (explosionReturnDelay (fCfg f)) /\
              rd (explosionGlowEndTimes t) i
              = timerAfter f (rd (explosionGlowEndTimes s) i)
                  (explosionGlowDuration (fCfg f)))); try done.
  - intros j t t' Hj Hf (E1 & E2 & L1 & L2).
    pose proof (pf_return _ _ _ Hf) as Sr.
    pose proof (pf_glowEnd _ _ _ Hf) as Sg.
    rewrite (same1_rd j _ _ i Sr), (same1_rd j _ _ i Sg) by done.
    destruct Sr as [-> _], Sg as [-> _]. done.
  - intros j t t' Hj Hf (E1 & E2).
    rewrite (same1_rd j _ _ i (pf_return _ _ _ Hf)) by done.
    rewrite (same1_rd j _ _ i (pf_glowEnd _ _ _ Hf)) by done. done.
  - intros t k t' k' (E1 & E2 & L1 & L2) E.
    destruct (particleStep_timers rnd f i t k t' k' E L1 L2) as [T1 T2].
    rewrite T1, T2, E1, E2. done.
Qed.

Lemma settledFrame_cfg nowDate nowPerf cam ptr c :
  exists lw ws,
    fCfg (settledFrame nowDate nowPerf cam ptr c)
    = set_lastWaveTime lw (set_waves ws c).
Proof. apply waveLogic_shape. Qed.

Lemma settledFrame_hasExplosions nowDate nowPerf cam ptr c :
  hasExplosions (settledFrame nowDate nowPerf cam ptr c)
  = explosionEnabled c && bool_decide (0 < length (explosions c))%nat.
Proof.
  unfold settledFrame, mkFrameOf. simpl.
  destruct (waveLogic_shape nowDate cam c) as (lw & ws & ->). reflexivity.
Qed.

Lemma settledFrame_nowPerf nowDate nowPerf0 cam ptr c :
  nowPerf (settledFrame nowDate nowPerf0 cam ptr c) = nowPerf0.
Proof. reflexivity. Qed.


Lemma timerAfter_pending f old delay :
  hasExplosions f = true ->
  explosions (fCfg f) <> [] ->
  Forall (fun e => applied e = false) (explosions (fCfg f)) ->
  timerAfter f old delay = fround (Rmax old (nowPerf f + delay)).
Proof.
  intros Hh Hne Hall. unfold timerAfter. rewrite Hh. simpl.
  destruct (explosions (fCfg f)) as [|e es]; [done|].
  apply Forall_cons in Hall as [He _]. simpl. by rewrite He.
Qed.


(** ** The rest state *)

Ltac rd_simpl :=
  repeat first
    [ rewrite rd_insert_eq by (rewrite ?length_insert; lia)
    | rewrite rd_insert_ne by lia ].

Lemma get3_insert3 a i x y z :
  (i * 3 + 2 < length a)%nat ->
  get3 (<[(i * 3 + 2)%nat := z]> (<[(i * 3 + 1)%nat := y]> (<[(i * 3)%nat := x]> a))) i
  = mkVec3 x y z.
Proof.
  intros H. unfold get3. rd_simpl. reflexivity.
Qed.

(** The snap of main.js 2031-2037. *)
Lemma integrate_rest f i s :
  (i * 3 + 2 < length (positions s))%nat ->
  (i * 3 + 2 < length (velocities s))%nat ->
  isInExplosionFlight f i s = false ->
  lengthSq (subVectors (get3 (originalPositions s) i) (get3 (positions s) i))
  < thresholdSq ->
  lengthSq (get3 (velocities s) i) < thresholdSq ->
  get3 (positions (integrate f i s)) i = get3 (originalPositions s) i /\
  get3 (velocities (integrate f i s)) i = mkVec3 0 0 0 /\
  originalPositions (integrate f i s) = originalPositions s.
Proof.
  intros Hp Hv Hfl Hd Hvel. unfold integrate. rewrite Hfl.
  unfold springDamper.
  rewrite (bool_decide_true _ Hd).
  rewrite bool_decide_true by exact Hvel. simpl.
  rewrite !get3_insert3 by done. done.
Qed.

Lemma addAt_zero a i x : x = 0 -> addAt a i x = <[i := rd a i]> a.
Proof. intros ->. unfold addAt. f_equal. lra. Qed.

Lemma get3_components a i :
  get3 a i = mkVec3 (rd a (i * 3)) (rd a (i * 3 + 1)) (rd a (i * 3 + 2)).
Proof. reflexivity. Qed.

(** An iteration without forces on a particle at rest at its target. *)
Lemma particleStep_rest rnd f i s k s' k' :
  particleStep rnd f i (s, k) = Some (s', k') ->
  interactionActive f = false ->
  autonomousMotionStrength (fCfg f) <= 0 ->
  hasExplosions f = false ->
  waveActive f = false ->
  (i * 3 + 2 < length (velocities s))%nat ->
  (i * 3 + 2 < length (originalPositions s))%nat ->
  isInExplosionFlight f i s = false ->
  get3 (positions s) i = get3 (originalPositions s) i ->
  get3 (velocities s) i = mkVec3 0 0 0 ->
  get3 (positions s') i = get3 (originalPositions s) i /\
  get3 (velocities s') i = mkVec3 0 0 0 /\
  originalPositions s' = originalPositions s /\
  explosionReturnTimes s' = explosionReturnTimes s.
Proof.
  unfold particleStep. case_bool_decide as Hp; [done|].
  intros E Hi Ha He Hw Hv Ho Hfl Hpos Hvel. revert E.
  unfold pointerForce. rewrite Hi.
  unfold autonomousMotion. rewrite bool_decide_false by lra.
  unfold explosionForces. rewrite He.
  unfold waveForces. rewrite Hw.
  unfold updateSize. rewrite Hw. simpl.
  unfold advance. simpl.
  rewrite ?length_addAt.
  rewrite !bool_decide_false by lia. simpl.
  intros [= <- <-].
  injection Hvel as V0 V1 V2. injection Hpos as P0 P1 P2.
  set (s1 := set_positions _ s).
  assert (Hg : get3 (positions s1) i = get3 (originalPositions s) i).
  { subst s1. simpl. unfold addAt.
    rewrite V0, V1, V2. rewrite !Rmult_0_l, !Rplus_0_r.
    rewrite !rd_insert_ne by lia.
    rewrite get3_insert3 by lia. rewrite get3_components. congruence. }
  destruct (integrate_rest f i s1) as (R1 & R2 & R3); subst s1; simpl;
    rewrite ?length_addAt; try done; try lia.
  - simpl in Hg. rewrite Hg. unfold subVectors, lengthSq, thresholdSq, threshold.
    simpl. lra.
  - rewrite get3_components, V0, V1, V2.
    unfold lengthSq, thresholdSq, threshold. simpl. lra.
  - split; [by rewrite R1|]. split; [done|]. split; [done|].
    destruct (integrate_shape f i
      (set_positions
         (addAt (addAt (addAt (positions s) (i * 3)
            (rd (velocities s) (i * 3) * timeScale (fCfg f))) (i * 3 + 1)
            (rd (velocities s) (i * 3 + 1) * timeScale (fCfg f))) (i * 3 + 2)
            (rd (velocities s) (i * 3 + 2) * timeScale (fCfg f))) s))
      as (p & v & ->). done.
Qed.

Lemma settledPhase_motion rnd nowDate nowPerf w ptr c s :
  let t := store (settledPhase rnd nowDate nowPerf w ptr c s) in
  let u := settledPhysics rnd nowDate nowPerf w ptr c s in
  positions t = positions u /\ velocities t = velocities u /\
  originalPositions t = originalPositions u /\ sizes t = sizes u /\
  baseSizes t = baseSizes u.
Proof.
  intros t u. subst t u. rewrite settledPhase_store. cbv zeta.
  destruct (colorStore_shape (settledFrame nowDate nowPerf (camera w) ptr c)
              (hasColorAttr w)
              (bool_decide
                 (velocityGlowMultiplier
                    (fCfg (settledFrame nowDate nowPerf (camera w) ptr c)) > 0))
              (if negb (bool_decide
                          (cachedGlowBrightness w
                           = glowBrightness
                               (fCfg (settledFrame nowDate nowPerf (camera w) ptr c))))
                  || negb (bool_decide
                             (cachedVelocityGlowMultiplier w
                              = velocityGlowMultiplier
                                  (fCfg (settledFrame nowDate nowPerf (camera w) ptr c))))
               then true else glowStaticNeedsUpdate w)
              (actualCount (totalParticleCount w) s)
              (settledPhysics rnd nowDate nowPerf w ptr c s))
    as (cs & gs & -> & _).
  done.
Qed.

Lemma isInExplosionFlight_stable f i j t t' :
  j <> i -> physicsFootprint j t t' ->
  isInExplosionFlight f i t' = isInExplosionFlight f i t.
Proof.
  intros Hj Hf. unfold isInExplosionFlight.
  rewrite (same1_rd j _ _ i (pf_return _ _ _ Hf)) by done.
  destruct (pf_return _ _ _ Hf) as [-> _]. done.
Qed.

(** A particle at rest at its target stays there through a settled step
    without forces. *)
Lemma rest_state_phase rnd nowDate nowPerf w ptr c s i :
  let f := settledFrame nowDate nowPerf (camera w) ptr c in
  processed (totalParticleCount w) s i ->
  interactionActive f = false ->
  autonomousMotionStrength c <= 0 ->
  hasExplosions f = false ->
  waveActive f = false ->
  isInExplosionFlight f i s = false ->
  get3 (positions s) i = get3 (originalPositions s) i ->
  get3 (velocities s) i = mkVec3 0 0 0 ->
  let t := store (settledPhase rnd nowDate nowPerf w ptr c s) in
  get3 (positions t) i = get3 (originalPositions s) i /\
  get3 (velocities t) i = mkVec3 0 0 0 /\
  originalPositions t = originalPositions s.
Proof.
  intros f Hp Hi Ha He Hw Hfl Hpos Hvel t. subst t.
  destruct (processed_bounds _ _ _ Hp) as (_ & _ & Hlo & Hlv & _).
  destruct (settledPhase_motion rnd nowDate nowPerf w ptr c s)
    as (-> & -> & -> & _).
  apply (settledPhysics_at rnd nowDate nowPerf w ptr c s i
    (fun t => get3 (positions t) i = get3 (originalPositions s) i /\
              get3 (velocities t) i = mkVec3 0 0 0 /\
              length (velocities t) = length (velocities s) /\
              originalPositions t = originalPositions s /\
              isInExplosionFlight f i t = false)
    (fun t => get3 (positions t) i = get3 (originalPositions s) i /\
              get3 (velocities t) i = mkVec3 0 0 0 /\
              originalPositions t = originalPositions s)); try done.
  - intros j t t' Hj Hf (E1 & E2 & L & Eo & Er).
    rewrite (same3_get3 j i _ _ (pf_positions _ _ _ Hf)) by done.
    rewrite (same3_get3 j i _ _ (pf_velocities _ _ _ Hf)) by done.
    destruct (pf_velocities _ _ _ Hf) as [-> _].
    rewrite (pf_original _ _ _ Hf).
    by rewrite (isInExplosionFlight_stable f i j t t').
  - intros j t t' Hj Hf (E1 & E2 & Eo).
    rewrite (same3_get3 j i _ _ (pf_positions _ _ _ Hf)) by done.
    rewrite (same3_get3 j i _ _ (pf_velocities _ _ _ Hf)) by done.
    by rewrite (pf_original _ _ _ Hf).
  - intros t k t' k' (E1 & E2 & L & Eo & Er) E.
    destruct (settledFrame_cfg nowDate nowPerf (camera w) ptr c)
      as (lw & ws & Ec).
    destruct (particleStep_rest rnd f i t k t' k' E) as (R1 & R2 & R3 & _);
      try done.
    + fold f in Ec. rewrite Ec. done.
    + lia.
    + rewrite Eo. lia.
    + by rewrite Eo.
    + rewrite R1, R3, Eo. done.
Qed.

Lemma processed_one c p b : processed 1 (store (exampleWorld c (oneParticle p b))) 0.
Proof. unfold processed, allocCount. simpl. lia. Qed.

Lemma settled_example c p b :
  isLoadingAnimation c = false -> settled (exampleWorld c (oneParticle p b)).
Proof. by intros H. Qed.





(** C6: for a particle outside the free flight whose squared
    displacement from its target and squared velocity are below the rest
    threshold, the integration sets the position to the target and the
    velocity to zero; and a particle at its target with zero velocity
    stays there, with zero velocity, through a settled step in which no
    force acts (no pointer interaction, no autonomous motion, no
    explosion, no wave). *)
Theorem rest_state_idempotent rnd :
  (forall f i s,
     (i * 3 + 2 < length (positions s))%nat ->
     (i * 3 + 2 < length (velocities s))%nat ->
     isInExplosionFlight f i s = false ->
     lengthSq (subVectors (get3 (originalPositions s) i) (get3 (positions s) i))
     < thresholdSq ->
     lengthSq (get3 (velocities s) i) < thresholdSq ->
     get3 (positions (integrate f i s)) i = get3 (originalPositions s) i /\
     get3 (velocities (integrate f i s)) i = mkVec3 0 0 0) /\
  (forall nowDate nowPerf w i,
     let f := settledFrame nowDate nowPerf (camera w) (framePointer w) (CONFIG w) in
     settled w ->
     processed (totalParticleCount w) (store w) i ->
     interactionActive f = false ->
     autonomousMotionStrength (CONFIG w) <= 0 ->
     hasExplosions f = false ->
     waveActive f = false ->
     isInExplosionFlight f i (store w) = false ->
     get3 (positions (store w)) i = get3 (originalPositions (store w)) i ->
     get3 (velocities (store w)) i = mkVec3 0 0 0 ->
     let t := store (updatePhysics rnd nowDate nowPerf w) in
     get3 (positions t) i = get3 (originalPositions t) i /\
     get3 (velocities t) i = mkVec3 0 0 0 /\
     originalPositions t = originalPositions (store w)).
Proof.
  split.
  - intros f i s Hp Hv Hfl Hd Hvel.
    destruct (integrate_rest f i s Hp Hv Hfl Hd Hvel) as (R1 & R2 & _). done.
  - intros nowDate nowPerf w i f Hs Hp Hi Ha He Hw Hfl Hpos Hvel t.
    subst t. rewrite updatePhysics_settled by done.
    destruct (rest_state_phase rnd nowDate nowPerf w (framePointer w)
                (CONFIG w) (store w) i Hp Hi Ha He Hw Hfl Hpos Hvel)
      as (R1 & R2 & R3).
    rewrite R1, R2, R3. done.
Qed.

Lemma rest_state_idempotent_witness :
  (let s := oneParticle (mkVec3 1 2 0) 4 in
   let f := settledFrame 5000 5000 exampleCamera idlePointer (configWith 0) in
   get3 (positions (integrate f 0 s)) 0 = mkVec3 1 2 0 /\
   get3 (velocities (integrate f 0 s)) 0 = mkVec3 0 0 0) /\
  (let t := store (updatePhysics halves 5000 5000 calmWorld) in
   get3 (positions t) 0 = get3 (originalPositions t) 0 /\
   get3 (velocities t) 0 = mkVec3 0 0 0 /\
   originalPositions t = [1; 2; 0]).
Proof.
  destruct (rest_state_idempotent halves) as [H1 H2]. split.
  - apply H1; simpl; try lia.
    + unfold isInExplosionFlight. simpl. unfold rd. simpl.
      rewrite (bool_decide_false (0 > 5000)) by lra. reflexivity.
    + unfold get3, rd, subVectors, lengthSq, thresholdSq, threshold. simpl. lra.
    + unfold get3, rd, lengthSq, thresholdSq, threshold. simpl. lra.
  - apply (H2 5000 5000 calmWorld 0%nat).
    + by apply settled_example.
    + apply processed_one.
    + reflexivity.
    + simpl. lra.
    + reflexivity.
    + reflexivity.
    + unfold isInExplosionFlight. simpl. unfold rd. simpl.
      rewrite (bool_decide_false (0 > 5000)) by lra. reflexivity.
    + reflexivity.
    + reflexivity.
Defined.

(** ** The attribute deriver *)

Lemma finalBrightness_sum f i s :
  finalBrightness f i s
  = Rmin (scaledBrightness f i s + totalWaveGlow f i s + explosionGlow f i s) 1.
Proof.
  unfold finalBrightness, explosionGlow.
  destruct (explosionEnabled (fCfg f)); simpl; [|f_equal; lra].
  case_bool_decide; simpl; [|f_equal; lra].
  case_bool_decide; f_equal; lra.
Qed.

Lemma finalBrightness_le_1 f i s : finalBrightness f i s <= 1.
Proof. unfold finalBrightness. apply Rmin_r. Qed.

Lemma depthBrightness_formula c d :
  depthBrightness c d = 1 - clamp01 (d / 70) * depthDarkeningStrength c.
Proof.
  unfold depthBrightness, fixedDistanceRange, fixedMaxDistance,
    fixedMinDistance, clamp01.
  rewrite bool_decide_true by lra.
  replace ((d - 0) / (70 - 0)) with (d / 70) by lra. reflexivity.
Qed.

Lemma scaledBrightness_invisible f i s :
  (i < length (baseSizes s))%nat -> rd (baseSizes s) i = 0 ->
  rd (sizes s) i = 0 -> scaledBrightness f i s = 0.
Proof.
  intros Hl Hb Hz. unfold scaledBrightness, baseBrightness.
  rewrite (bool_decide_true _ Hl), (bool_decide_true _ Hb). simpl.
  rewrite (bool_decide_true _ Hz). destruct (_ && _); lra.
Qed.

Lemma totalWaveGlow_idle f i s : waveActive f = false -> totalWaveGlow f i s = 0.
Proof. intros H. unfold totalWaveGlow. by rewrite H. Qed.

Lemma explosionForces_shape rnd f i s k :
  exists v g r,
    (explosionForces rnd f i s k).1
    = set_velocities v (set_explosionGlowEndTimes g
        (set_explosionReturnTimes r s)).
Proof.
  unfold explosionForces. destruct (hasExplosions f).
  - generalize (explosions (fCfg f)) as es. intros es.
    assert (H : exists v g r,
               (s, k).1 = set_velocities v (set_explosionGlowEndTimes g
                            (set_explosionReturnTimes r s))).
    { exists (velocities s), (explosionGlowEndTimes s), (explosionReturnTimes s).
      by destruct s. }
    revert H. generalize (s, k) as sk.
    induction es as [|e es IH]; intros sk H; [done|].
    simpl. apply IH. destruct sk as [t kt], H as (v & g & r & E).
    simpl in E. subst t. unfold explosionImpulse.
    destruct (applied e); [by exists v, g, r|]. simpl.
    repeat case_bool_decide; simpl; eauto.
  - exists (velocities s), (explosionGlowEndTimes s), (explosionReturnTimes s).
    by destruct s.
Qed.

(** Without active waves the loop over the particles leaves the sizes. *)
Lemma particleStep_sizes_idle rnd f i s k s' k' :
  waveActive f = false ->
  particleStep rnd f i (s, k) = Some (s', k') -> sizes s' = sizes s.
Proof.
  intros Hw. unfold particleStep. case_bool_decide; [done|].
  destruct (pointerForce_shape rnd f i s k) as [v1 E1].
  destruct (pointerForce rnd f i s k) as [s1 k1]. simpl in E1. subst s1.
  destruct (autonomousMotion_shape rnd f i (set_velocities v1 s) k1) as [v2 E2].
  destruct (autonomousMotion rnd f i _ k1) as [s2 k2]. simpl in E2. subst s2.
  destruct (explosionForces_shape rnd f i
              (set_velocities v2 (set_velocities v1 s)) k2)
    as (v3 & g3 & r3 & E3).
  destruct (explosionForces rnd f i _ k2) as [s3 k3]. simpl in E3. subst s3.
  destruct (waveForces_shape f i
              (set_velocities v3 (set_explosionGlowEndTimes g3
                 (set_explosionReturnTimes r3
                    (set_velocities v2 (set_velocities v1 s))))))
    as [v4 E4].
  destruct (waveForces f i _) as [s4 t]. simpl in E4. subst s4.
  unfold updateSize. rewrite Hw. simpl.
  destruct (advance_shape f i
              (set_velocities v4 (set_velocities v3
                 (set_explosionGlowEndTimes g3 (set_explosionReturnTimes r3
                    (set_velocities v2 (set_velocities v1 s)))))))
    as [p ->].
  destruct (integrate_shape f i
              (set_positions p (set_velocities v4 (set_velocities v3
                 (set_explosionGlowEndTimes g3 (set_explosionReturnTimes r3
                    (set_velocities v2 (set_velocities v1 s))))))))
    as (p' & v' & ->).
  destruct (_ || _); intros [= <- <-]; reflexivity.
Qed.

Lemma settledPhysics_sizes_idle rnd nowDate nowPerf w ptr c s :
  waveActive (settledFrame nowDate nowPerf (camera w) ptr c) = false ->
  wasWaveActive w = false ->
  sizes (settledPhysics rnd nowDate nowPerf w ptr c s) = sizes s.
Proof.
  intros Hw Hwas. unfold settledPhysics, physicsStore.
  destruct (distanceStore_shape (camZ (camera w))
              (actualCount (totalParticleCount w) s)
                 (allocCount (totalParticleCount w) s) s) as [d ->].
  pose proof (forLoop_invariant
    (particleStep rnd (settledFrame nowDate nowPerf (camera w) ptr c))
    (fun sk => sizes sk.1 = sizes s) 0%nat) as H.
  specialize (H ltac:(intros j [t kt] [t' kt'] _ Ht E; cbn [fst] in *;
                       rewrite <- Ht;
                       eapply particleStep_sizes_idle; eassumption)).
  specialize (H (actualCount (totalParticleCount w) s) 0%nat
                (set_distanceBuffer d s, randomCalls w) ltac:(lia) eq_refl).
  destruct (forLoop _ _ _ _) as [t kt]. cbn [fst] in *.
  unfold resetSizes. rewrite Hw, Hwas. done.
Qed.

Lemma settledPhysics_baseSizes rnd nowDate nowPerf w ptr c s :
  baseSizes (settledPhysics rnd nowDate nowPerf w ptr c s) = baseSizes s.
Proof.
  destruct (settledPhysics_shape rnd nowDate nowPerf w ptr c s)
    as (p & v & z & g & r & d & -> & _). reflexivity.
Qed.

Lemma waveLogic_disabled now cam c :
  waveEnabled c = false -> waveLogic now cam c = (c, None).
Proof. intros H. unfold waveLogic. by rewrite H. Qed.

Lemma settledFrame_disabled nowDate nowPerf cam ptr c :
  waveEnabled c = false ->
  fCfg (settledFrame nowDate nowPerf cam ptr c) = c /\
  waveActive (settledFrame nowDate nowPerf cam ptr c) = false.
Proof.
  intros H. unfold settledFrame. rewrite waveLogic_disabled by done.
  unfold mkFrameOf. simpl. by rewrite H.
Qed.

Lemma timerAfter_none f old delay :
  hasExplosions f = false -> timerAfter f old delay = old.
Proof. intros H. unfold timerAfter. by rewrite H. Qed.

(** C2, at the failing input: with the initial configuration a visible
    particle 42 units in front of the camera receives the brightness
    -0.11 on its three channels. *)
Theorem settled_brightness_below_zero rnd :
  let t := store (updatePhysics rnd 5000 5000 farWorld) in
  rd (colors t) 0 = -0.11 /\ rd (colors t) 1 = -0.11 /\ rd (colors t) 2 = -0.11.
Proof.
  intros t. subst t.
  rewrite updatePhysics_settled by (by apply settled_example).
  pose proof (settledPhase_colors rnd 5000 5000 farWorld (framePointer farWorld)
                (CONFIG farWorld) (store farWorld) 0 eq_refl
                (processed_one _ _ _)) as H.
  cbv zeta in H. cbn [Nat.mul Nat.add] in H.
  destruct H as (-> & -> & ->).
  set (f := settledFrame 5000 5000 (camera farWorld) (framePointer farWorld)
              (CONFIG farWorld)).
  set (u := settledPhysics rnd 5000 5000 farWorld (framePointer farWorld)
              (CONFIG farWorld) (store farWorld)).
  assert (Hb : finalBrightness f 0 u = -0.11); [|by rewrite Hb].
  destruct (settledFrame_disabled 5000 5000 (camera farWorld)
              (framePointer farWorld) (CONFIG farWorld) eq_refl) as [Ec Hw].
  fold f in Ec, Hw.
  rewrite finalBrightness_sum, totalWaveGlow_idle by done.
  assert (Hg : explosionGlow f 0 u = 0).
  { unfold explosionGlow.
    destruct (settledPhysics_timers rnd 5000 5000 farWorld
                (framePointer farWorld) (CONFIG farWorld) (store farWorld) 0
                (processed_one _ _ _) ltac:(simpl; lia) ltac:(simpl; lia))
      as [_ Hg].
    fold f u in Hg. rewrite Hg, timerAfter_none.
    - rewrite (bool_decide_false (_ > _)); [by rewrite andb_false_r|].
      unfold rd; simpl. lra.
    - unfold f. rewrite settledFrame_hasExplosions. reflexivity. }
  rewrite Hg. unfold scaledBrightness, baseBrightness.
  unfold u. rewrite settledPhysics_distance by apply processed_one.
  rewrite settledPhysics_baseSizes. rewrite Ec, depthBrightness_formula.
  simpl. unfold rd; simpl.
  rewrite (bool_decide_false (4 = 0)) by lra. simpl.
  rewrite Rabs_left by lra.
  rewrite clamp01_id by lra. rminmax. lra.
Qed.

Lemma physicsLoop_lengths rnd f n s k :
  let t := (forLoop (particleStep rnd f) 0 n (s, k)).1 in
  length (explosionGlowEndTimes t) = length (explosionGlowEndTimes s) /\
  length (explosionReturnTimes t) = length (explosionReturnTimes s) /\
  length (positions t) = length (positions s) /\
  length (velocities t) = length (velocities s).
Proof.
  apply (forLoop_invariant (particleStep rnd f)
    (fun sk =>
       length (explosionGlowEndTimes sk.1) = length (explosionGlowEndTimes s) /\
       length (explosionReturnTimes sk.1) = length (explosionReturnTimes s) /\
       length (positions sk.1) = length (positions s) /\
       length (velocities sk.1) = length (velocities s)) 0%nat); [|lia|done].
  intros j [t kt] [t' kt'] _ (L1 & L2 & L3 & L4) E. cbn [fst] in *.
  apply particleStep_footprint in E.
  destruct (pf_glowEnd _ _ _ E) as [-> _], (pf_return _ _ _ E) as [-> _],
    (pf_positions _ _ _ E) as [-> _], (pf_velocities _ _ _ E) as [-> _].
  done.
Qed.

Lemma settledPhysics_lengths rnd nowDate nowPerf w ptr c s :
  let t := settledPhysics rnd nowDate nowPerf w ptr c s in
  length (explosionGlowEndTimes t) = length (explosionGlowEndTimes s) /\
  length (explosionReturnTimes t) = length (explosionReturnTimes s) /\
  length (positions t) = length (positions s) /\
  length (velocities t) = length (velocities s).
Proof.
  unfold settledPhysics, physicsStore.
  destruct (distanceStore_shape (camZ (camera w))
              (actualCount (totalParticleCount w) s)
                 (allocCount (totalParticleCount w) s) s) as [d ->].
  pose proof (physicsLoop_lengths rnd
                (settledFrame nowDate nowPerf (camera w) ptr c)
                (actualCount (totalParticleCount w) s)
                (set_distanceBuffer d s) (randomCalls w)) as H.
  destruct (forLoop _ _ _ _) as [t kt]. cbn [fst] in *.
  destruct (resetSizes_shape
              (waveActive (settledFrame nowDate nowPerf (camera w) ptr c))
              (wasWaveActive w) t) as [z ->].
  exact H.
Qed.

(** C3, as amended: for a processed particle whose base size is 0 and
    whose derived size is 0, the depth term and the dimming contribute
    exactly 0, and the brightness written to the three channels is
    [min(wave glow + explosion glow, 1)]; it is 0 when neither glow
    reaches the particle. *)
Theorem invisible_point_brightness rnd nowDate nowPerf w i :
  settled w ->
  hasColorAttr w = true ->
  processed (totalParticleCount w) (store w) i ->
  let f := settledFrame nowDate nowPerf (camera w) (framePointer w) (CONFIG w) in
  let u := settledPhysics rnd nowDate nowPerf w (framePointer w) (CONFIG w)
             (store w) in
  let t := store (updatePhysics rnd nowDate nowPerf w) in
  (i < length (baseSizes u))%nat ->
  rd (baseSizes u) i = 0 ->
  rd (sizes u) i = 0 ->
  let b := Rmin (totalWaveGlow f i u + explosionGlow f i u) 1 in
  scaledBrightness f i u = 0 /\
  rd (colors t) (i * 3) = b /\
  rd (colors t) (i * 3 + 1) = b /\
  rd (colors t) (i * 3 + 2) = b /\
  (totalWaveGlow f i u = 0 -> explosionGlow f i u = 0 -> b = 0).
Proof.
  intros Hs Hc Hp f u t Hb Hb0 Hz b. subst t.
  rewrite updatePhysics_settled by done.
  destruct (settledPhase_colors rnd nowDate nowPerf w (framePointer w)
              (CONFIG w) (store w) i Hc Hp) as (-> & -> & ->).
  fold f u. rewrite finalBrightness_sum.
  rewrite (scaledBrightness_invisible f i u Hb Hb0 Hz).
  subst b. rewrite Rplus_assoc, Rplus_0_l.
  repeat split; try done.
  intros -> ->. rewrite Rplus_0_l. apply Rmin_left. lra.
Qed.

Lemma clickedWorld_frame :
  let f := settledFrame 1016 1016 (camera clickedWorld)
             (framePointer clickedWorld) (CONFIG clickedWorld) in
  fCfg f = CONFIG clickedWorld /\ waveActive f = false /\
  hasExplosions f = true /\ nowPerf f = 1016.
Proof.
  destruct (settledFrame_disabled 1016 1016 (camera clickedWorld)
              (framePointer clickedWorld) (CONFIG clickedWorld) eq_refl)
    as [Ec Hw].
  cbv zeta. rewrite settledFrame_hasExplosions. done.
Qed.

(** C3, the counterexample: an invisible particle that no wave reveals
    (base size 0, derived size 0) receives the brightness 0.8 in the
    frame that processes a click. *)
Lemma invisible_point_lit_by_explosion :
  let t := store (updatePhysics halves 1016 1016 clickedWorld) in
  rd (baseSizes t) 0 = 0 /\ rd (sizes t) 0 = 0 /\
  rd (colors t) 0 = 0.8 /\ rd (colors t) 0 <> 0.
Proof.
  cbv zeta.
  rewrite updatePhysics_settled by (by apply settled_example).
  set (f := settledFrame 1016 1016 (camera clickedWorld)
              (framePointer clickedWorld) (CONFIG clickedWorld)).
  set (u := settledPhysics halves 1016 1016 clickedWorld
              (framePointer clickedWorld) (CONFIG clickedWorld)
              (store clickedWorld)).
  destruct clickedWorld_frame as (Ec & Hw & He & Hn). fold f in Ec, Hw, He, Hn.
  destruct (settledPhase_motion halves 1016 1016 clickedWorld
              (framePointer clickedWorld) (CONFIG clickedWorld)
              (store clickedWorld)) as (_ & _ & _ & Ez & Eb).
  fold u in Ez, Eb. rewrite Ez, Eb.
  assert (Hz : sizes u = [0])
    by (unfold u; rewrite settledPhysics_sizes_idle; done).
  assert (Hb : baseSizes u = [0])
    by (unfold u; rewrite settledPhysics_baseSizes; done).
  rewrite Hz, Hb.
  pose proof (settledPhase_colors halves 1016 1016 clickedWorld
                (framePointer clickedWorld) (CONFIG clickedWorld)
                (store clickedWorld) 0 eq_refl (processed_one _ _ _))
    as (Hc & _).
  cbn [Nat.mul] in Hc. rewrite Hc. fold f u.
  assert (Hfb : finalBrightness f 0 u = 0.8).
  { rewrite finalBrightness_sum, scaledBrightness_invisible,
      totalWaveGlow_idle; try done;
      try (rewrite ?Hz, ?Hb; simpl; first [lia|reflexivity]).
    destruct (settledPhysics_timers halves 1016 1016 clickedWorld
                (framePointer clickedWorld) (CONFIG clickedWorld)
                (store clickedWorld) 0 (processed_one _ _ _)
                ltac:(simpl; lia) ltac:(simpl; lia)) as [_ Hg].
    destruct (settledPhysics_lengths halves 1016 1016 clickedWorld
                (framePointer clickedWorld) (CONFIG clickedWorld)
                (store clickedWorld)) as (Lg & _).
    fold f u in Hg, Lg.
    rewrite timerAfter_pending in Hg
      by (rewrite ?Ec; simpl; try done; repeat constructor).
    rewrite Hn, Ec in Hg. simpl in Hg. unfold rd in Hg at 2. simpl in Hg.
    rewrite Rmax_right in Hg by lra.
    replace (1016 + 500) with (IZR 1516) in Hg by lra.
    rewrite fround_IZR in Hg by lia.
    unfold explosionGlow. rewrite Hg, Lg, Hn, Ec. simpl.
    rewrite bool_decide_true by lra. rewrite Rmin_left by lra. lra. }
  rewrite Hfb. unfold rd; simpl. repeat split; lra.
Qed.

Lemma invisible_point_brightness_witness :
  let t := store (updatePhysics halves 5000 5000 hiddenWorld) in
  rd (colors t) 0 = 0 /\ rd (colors t) 1 = 0 /\ rd (colors t) 2 = 0.
Proof.
  assert (Hs : settled hiddenWorld) by (by apply settled_example).
  set (f := settledFrame 5000 5000 (camera hiddenWorld)
              (framePointer hiddenWorld) (CONFIG hiddenWorld)).
  set (u := settledPhysics halves 5000 5000 hiddenWorld
              (framePointer hiddenWorld) (CONFIG hiddenWorld)
              (store hiddenWorld)).
  destruct (settledFrame_disabled 5000 5000 (camera hiddenWorld)
              (framePointer hiddenWorld) (CONFIG hiddenWorld) eq_refl)
    as [Ec Hw].
  fold f in Ec, Hw.
  assert (Hz : sizes u = [0])
    by (unfold u; rewrite settledPhysics_sizes_idle; done).
  assert (Hb : baseSizes u = [0])
    by (unfold u; rewrite settledPhysics_baseSizes; done).
  assert (Hg : explosionGlow f 0 u = 0).
  { unfold explosionGlow.
    destruct (settledPhysics_timers halves 5000 5000 hiddenWorld
                (framePointer hiddenWorld) (CONFIG hiddenWorld)
                (store hiddenWorld) 0 (processed_one _ _ _)
                ltac:(simpl; lia) ltac:(simpl; lia)) as [_ Hg].
    fold f u in Hg. rewrite Hg, timerAfter_none.
    - rewrite (bool_decide_false (_ > _)); [by rewrite andb_false_r|].
      unfold rd; simpl. lra.
    - unfold f. rewrite settledFrame_hasExplosions. reflexivity. }
  destruct (invisible_point_brightness halves 5000 5000 hiddenWorld 0 Hs
              eq_refl (processed_one _ _ _))
    as (_ & E0 & E1 & E2 & E3).
  - fold u. rewrite Hb. simpl. lia.
  - fold u. by rewrite Hb.
  - fold u. by rewrite Hz.
  - cbn [Nat.mul Nat.add] in E0, E1, E2. fold f u in E0, E1, E2, E3.
    cbv zeta. rewrite E0, E1, E2, E3; [done| |done].
    by apply totalWaveGlow_idle.
Defined.

(** C9: two settled steps, on worlds that agree on the depth of the
    camera, on the darkening strength, the maximal brightness and the
    size of the formation, and on the depth, the base size and the
    derived size of particle [i], give particle [i] the same depth
    brightness, whatever the other particles and the other coordinates
    are.  That brightness, [scaledBrightness] of the step, is
    [maxBrightness * (1 - clamp(|z - camZ| / 70, 0, 1) * depthDarkeningStrength)]
    for the depth [z] of the particle at the beginning of the step, but 0
    for an invisible particle and half of it for a particle outside the
    formation under a reduced maximal brightness; it is the term of the
    color that the step writes besides the two glows. *)
Theorem depth_brightness_own_depth rnd nowDate1 nowPerf1 w1 nowDate2 nowPerf2 w2 i :
  let f1 := settledFrame nowDate1 nowPerf1 (camera w1) (framePointer w1) (CONFIG w1) in
  let u1 := settledPhysics rnd nowDate1 nowPerf1 w1 (framePointer w1) (CONFIG w1)
              (store w1) in
  let f2 := settledFrame nowDate2 nowPerf2 (camera w2) (framePointer w2) (CONFIG w2) in
  let u2 := settledPhysics rnd nowDate2 nowPerf2 w2 (framePointer w2) (CONFIG w2)
              (store w2) in
  let z := rd (positions (store w1)) (i * 3 + 2) in
  processed (totalParticleCount w1) (store w1) i ->
  processed (totalParticleCount w2) (store w2) i ->
  camZ (camera w1) = camZ (camera w2) ->
  depthDarkeningStrength (CONFIG w1) = depthDarkeningStrength (CONFIG w2) ->
  maxBrightness (CONFIG w1) = maxBrightness (CONFIG w2) ->
  particleCount (CONFIG w1) = particleCount (CONFIG w2) ->
  rd (positions (store w2)) (i * 3 + 2) = z ->
  ((i < length (baseSizes (store w1)))%nat
   <-> (i < length (baseSizes (store w2)))%nat) ->
  rd (baseSizes (store w1)) i = rd (baseSizes (store w2)) i ->
  rd (sizes u1) i = rd (sizes u2) i ->
  let depth :=
    maxBrightness (CONFIG w1)
    * (1 - clamp01 (Rabs (z - camZ (camera w1)) / 70)
           * depthDarkeningStrength (CONFIG w1)) in
  let invisible :=
    bool_decide (i < length (baseSizes (store w1)))%nat
    && bool_decide (rd (baseSizes (store w1)) i = 0)
    && bool_decide (rd (sizes u1) i = 0) in
  let dimmed :=
    bool_decide (particleCount (CONFIG w1) <= i)%nat
    && bool_decide (maxBrightness (CONFIG w1) < 0.99) in
  scaledBrightness f1 i u1 = scaledBrightness f2 i u2 /\
  depthBrightness (fCfg f1) (rd (distanceBuffer u1) i) * maxBrightness (fCfg f1)
  = depth /\
  scaledBrightness f1 i u1
  = (if invisible then 0 else depth) * (if dimmed then 0.5 else 1) /\
  (invisible = false -> dimmed = false -> scaledBrightness f1 i u1 = depth) /\
  (settled w1 -> hasColorAttr w1 = true ->
   let t := store (updatePhysics rnd nowDate1 nowPerf1 w1) in
   let b :=
     Rmin (scaledBrightness f1 i u1 + totalWaveGlow f1 i u1
           + explosionGlow f1 i u1) 1 in
   rd (colors t) (i * 3) = b /\
   rd (colors t) (i * 3 + 1) = b /\
   rd (colors t) (i * 3 + 2) = b).
Proof.
  intros f1 u1 f2 u2 z Hp1 Hp2 Hcam Hd Hm Hn Hz Hbl Hb Hs depth invisible dimmed.
  destruct (settledFrame_cfg nowDate1 nowPerf1 (camera w1) (framePointer w1)
              (CONFIG w1)) as (lw1 & ws1 & E1).
  destruct (settledFrame_cfg nowDate2 nowPerf2 (camera w2) (framePointer w2)
              (CONFIG w2)) as (lw2 & ws2 & E2).
  fold f1 in E1. fold f2 in E2.
  assert (D1 : rd (distanceBuffer u1) i = Rabs (z - camZ (camera w1)))
    by (unfold u1; by rewrite settledPhysics_distance).
  assert (D2 : rd (distanceBuffer u2) i = Rabs (z - camZ (camera w1)))
    by (unfold u2; rewrite settledPhysics_distance, Hz, Hcam; done).
  assert (B1 : baseSizes u1 = baseSizes (store w1))
    by (unfold u1; apply settledPhysics_baseSizes).
  assert (F : scaledBrightness f1 i u1
              = (if invisible then 0 else depth) * (if dimmed then 0.5 else 1)).
  { unfold scaledBrightness, baseBrightness.
    rewrite D1, B1, E1, depthBrightness_formula. simpl.
    subst invisible dimmed depth.
    destruct (bool_decide (i < length (baseSizes (store w1)))%nat); cbn [andb];
      destruct (bool_decide (rd (baseSizes (store w1)) i = 0)); cbn [andb];
      destruct (bool_decide (rd (sizes u1) i = 0)); cbn [andb];
      destruct (bool_decide (particleCount (CONFIG w1) <= i)%nat); cbn [andb];
      destruct (bool_decide (maxBrightness (CONFIG w1) < 0.99)); lra. }
  split; [|split; [|split; [|split]]].
  - unfold scaledBrightness, baseBrightness.
    rewrite D1, D2. unfold u1, u2. rewrite !settledPhysics_baseSizes.
    fold u1 u2. rewrite Hs, Hb, E1, E2, !depthBrightness_formula. simpl.
    rewrite Hd, Hm, Hn. rewrite (bool_decide_ext _ _ Hbl). reflexivity.
  - subst depth. rewrite D1, E1, depthBrightness_formula. simpl. lra.
  - exact F.
  - intros Hi Hdm. rewrite F, Hi, Hdm. lra.
  - intros Hst Hc t b. subst t b.
    rewrite updatePhysics_settled by done.
    destruct (settledPhase_colors rnd nowDate1 nowPerf1 w1 (framePointer w1)
                (CONFIG w1) (store w1) i Hc Hp1) as (-> & -> & ->).
    fold f1 u1. rewrite finalBrightness_sum. done.
Qed.

Lemma depth_brightness_own_depth_witness :
  let f1 := settledFrame 5000 5000 exampleCamera idlePointer exampleConfig in
  scaledBrightness f1 0
    (settledPhysics halves 5000 5000 farWorld idlePointer exampleConfig
       (store farWorld))
  = scaledBrightness f1 0
      (settledPhysics halves 5000 5000 sideWorld idlePointer exampleConfig
         (store sideWorld)).
Proof.
  destruct (settledFrame_disabled 5000 5000 exampleCamera idlePointer
              exampleConfig eq_refl) as [Ec Hw].
  apply (depth_brightness_own_depth halves 5000 5000 farWorld 5000 5000
           sideWorld 0); try reflexivity; try apply processed_one.
  rewrite !settledPhysics_sizes_idle; done.
Defined.

(** ** The explosions *)

Lemma vadd_assoc a b c : vadd (vadd a b) c = vadd a (vadd b c).
Proof. unfold vadd. simpl. f_equal; lra. Qed.

Lemma vadd_zero a : vadd a (mkVec3 0 0 0) = a.
Proof. destruct a. unfold vadd. simpl. f_equal; lra. Qed.

Lemma explosionImpulse_velocity rnd f i s k e :
  applied e = false ->
  (i * 3 + 2 < length (velocities s))%nat ->
  let r := explosionImpulse rnd f i (s, k) e in
  get3 (velocities r.1) i
  = vadd (get3 (velocities s) i)
      (impulseOf rnd (fCfg f) (get3 (scrollDirections s) i) k) /\
  r.2 = (k + 3)%nat /\
  scrollDirections r.1 = scrollDirections s /\
  length (velocities r.1) = length (velocities s).
Proof.
  intros Ha Hl r. subst r. unfold explosionImpulse. rewrite Ha. simpl.
  repeat case_bool_decide; simpl; unfold addAt;
    rewrite !length_insert; (split; [|done]);
    rewrite get3_insert3 by done; unfold vadd, impulseOf, get3; simpl;
    rd_simpl; reflexivity.
Qed.

Lemma explosionForces_velocity rnd f i s k :
  hasExplosions f = true ->
  Forall (fun e => applied e = false) (explosions (fCfg f)) ->
  (i * 3 + 2 < length (velocities s))%nat ->
  let r := explosionForces rnd f i s k in
  get3 (velocities r.1) i
  = vadd (get3 (velocities s) i)
      (impulseSum rnd (fCfg f) (get3 (scrollDirections s) i) k
         (length (explosions (fCfg f)))) /\
  r.2 = (k + 3 * length (explosions (fCfg f)))%nat.
Proof.
  intros Hh Hall Hl r. subst r. unfold explosionForces. rewrite Hh.
  revert Hall. generalize (explosions (fCfg f)) as es. intros es.
  revert s k Hl. induction es as [|e es IH]; intros s k Hl Hall.
  - simpl. rewrite vadd_zero. split; [done|lia].
  - apply Forall_cons in Hall as [Ha Hall]. simpl.
    destruct (explosionImpulse_velocity rnd f i s k e Ha Hl)
      as (E1 & E2 & E3 & E4).
    destruct (explosionImpulse rnd f i (s, k) e) as [s1 k1]. simpl in *.
    subst k1. destruct (IH s1 (k + 3)%nat) as [I1 I2]; [lia|done|].
    rewrite I1, I2, E1, E3, vadd_assoc. split; [done|lia].
Qed.

Lemma cleanupExplosions_empty c : explosions (cleanupExplosions c) = [].
Proof.
  unfold cleanupExplosions. case_bool_decide as H.
  - simpl. induction (explosions c) as [|e es IH]; [done|]. simpl.
    destruct es; [done|]. apply IH. simpl. lia.
  - destruct (explosions c); [done|]. simpl in H. lia.
Qed.

Lemma explosionForces_none rnd f i s k :
  hasExplosions f = false -> explosionForces rnd f i s k = (s, k).
Proof. intros H. unfold explosionForces. by rewrite H. Qed.

(** An iteration in which only the explosions act: the particle leaves
    in free flight with 98% of its velocity after the impulses. *)
Lemma particleStep_explosion rnd f i s k s' k' :
  particleStep rnd f i (s, k) = Some (s', k') ->
  interactionActive f = false ->
  autonomousMotionStrength (fCfg f) <= 0 ->
  hasExplosions f = true ->
  explosions (fCfg f) <> [] ->
  Forall (fun e => applied e = false) (explosions (fCfg f)) ->
  waveActive f = false ->
  nowPerf f
  < fround (Rmax (rd (explosionReturnTimes s) i)
              (nowPerf f + explosionReturnDelay (fCfg f))) ->
  (i * 3 + 2 < length (velocities s))%nat ->
  (i * 3 + 2 < length (originalPositions s))%nat ->
  (i < length (explosionReturnTimes s))%nat ->
  (i < length (explosionGlowEndTimes s))%nat ->
  get3 (velocities s') i
  = multiplyScalar
      (vadd (get3 (velocities s) i)
         (impulseSum rnd (fCfg f) (get3 (scrollDirections s) i) k
            (length (explosions (fCfg f))))) 0.98 /\
  k' = (k + 3 * length (explosions (fCfg f)))%nat.
Proof.
  unfold particleStep. case_bool_decide as Hp; [done|].
  intros E Hi Ha He Hne Hall Hw Hdelay Hv Ho Hr Hg. revert E.
  unfold pointerForce. rewrite Hi.
  unfold autonomousMotion. rewrite bool_decide_false by lra.
  destruct (explosionForces_velocity rnd f i s k He Hall Hv) as [V K].
  destruct (explosionForces_timers rnd f i s k Hr Hg) as [T _].
  rewrite timerAfter_pending in T by done.
  pose proof (explosionForces_footprint rnd f i s k) as Hf.
  destruct (explosionForces rnd f i s k) as [s3 k3]. simpl in V, K, T, Hf.
  subst k3.
  destruct (pf_velocities _ _ _ Hf) as [Lv _].
  destruct (pf_return _ _ _ Hf) as [Lr _].
  pose proof (pf_original _ _ _ Hf) as Eo.
  unfold waveForces. rewrite Hw.
  unfold updateSize. rewrite Hw. simpl.
  unfold advance. simpl. rewrite Eo.
  rewrite !bool_decide_false by lia. simpl.
  unfold integrate, isInExplosionFlight. simpl.
  rewrite bool_decide_true by lia.
  rewrite bool_decide_true by (rewrite T; lra).
  simpl. intros [= <- <-]. split; [|done].
  unfold explosionFlight. simpl. unfold mulAt.
  rewrite !rd_insert_ne by lia.
  rewrite get3_insert3 by lia. rewrite <- V. reflexivity.
Qed.

(** A settled step in which only the explosions act on particle [i]. *)
Lemma explosion_impulse_phase rnd nowDate nowPerf w ptr c s i :
  let f := settledFrame nowDate nowPerf (camera w) ptr c in
  processed (totalParticleCount w) s i ->
  (i < length (explosionReturnTimes s))%nat ->
  (i < length (explosionGlowEndTimes s))%nat ->
  interactionActive f = false ->
  autonomousMotionStrength c <= 0 ->
  waveActive f = false ->
  explosionEnabled c = true ->
  explosions c <> [] ->
  Forall (fun e => applied e = false) (explosions c) ->
  nowPerf
  < fround (Rmax (rd (explosionReturnTimes s) i)
              (nowPerf + explosionReturnDelay c)) ->
  exists k,
    get3 (velocities (store (settledPhase rnd nowDate nowPerf w ptr c s))) i
    = multiplyScalar
        (vadd (get3 (velocities s) i)
           (impulseSum rnd c (get3 (scrollDirections s) i) k
              (length (explosions c)))) 0.98.
Proof.
  intros f Hp Hr Hg Hi Ha Hw He Hne Hall Hdelay.
  destruct (processed_bounds _ _ _ Hp) as (_ & _ & Hlo & Hlv & _).
  destruct (settledPhase_motion rnd nowDate nowPerf w ptr c s)
    as (_ & -> & _).
  destruct (settledFrame_cfg nowDate nowPerf (camera w) ptr c)
    as (lw & ws & Ec).
  pose proof (settledFrame_hasExplosions nowDate nowPerf (camera w) ptr c)
    as Hh.
  fold f in Ec, Hh.
  assert (Hlen : (0 < length (explosions c))%nat)
    by (destruct (explosions c); simpl; [done|lia]).
  rewrite He, bool_decide_true in Hh by done.
  assert (Esum : forall d k m,
             impulseSum rnd (fCfg f) d k m = impulseSum rnd c d k m).
  { intros d k m. revert k. induction m as [|m IH]; intros k; [done|].
    cbn [impulseSum]. rewrite IH. unfold impulseOf. by rewrite Ec. }
  apply (settledPhysics_at rnd nowDate nowPerf w ptr c s i
    (fun t => get3 (velocities t) i = get3 (velocities s) i /\
              scrollDirections t = scrollDirections s /\
              length (velocities t) = length (velocities s) /\
              originalPositions t = originalPositions s /\
              (i < length (explosionReturnTimes t))%nat /\
              (i < length (explosionGlowEndTimes t))%nat /\
              rd (explosionReturnTimes t) i = rd (explosionReturnTimes s) i)
    (fun t => exists k,
       get3 (velocities t) i
       = multiplyScalar
           (vadd (get3 (velocities s) i)
              (impulseSum rnd c (get3 (scrollDirections s) i) k
                 (length (explosions c)))) 0.98)); try done.
  - intros j t t' Hj Hf (E1 & E2 & L & Eo & Lr & Lg & Er).
    rewrite (same3_get3 j i _ _ (pf_velocities _ _ _ Hf)) by done.
    rewrite (same1_rd j _ _ i (pf_return _ _ _ Hf)) by done.
    destruct (pf_velocities _ _ _ Hf) as [-> _].
    destruct (pf_return _ _ _ Hf) as [-> _].
    destruct (pf_glowEnd _ _ _ Hf) as [-> _].
    rewrite (pf_original _ _ _ Hf), (pf_scroll _ _ _ Hf). done.
  - intros j t t' Hj Hf [k E]. exists k.
    by rewrite (same3_get3 j i _ _ (pf_velocities _ _ _ Hf)).
  - intros t k t' k' (E1 & E2 & L & Eo & Lr & Lg & Er) E.
    destruct (particleStep_explosion rnd f i t k t' k' E) as [V _];
      try done; rewrite ?Ec, ?L, ?Eo, ?Er, ?settledFrame_nowPerf; try done.
    exists k. rewrite V, Esum, E1, E2, Ec. done.
Qed.

(** C8: after a settled step the list of the explosions is empty; and
    in that step the explosion block of a particle, wherever the loop
    reaches it, adds to the velocity of the particle the sum of one
    impulse for each explosion that was in the list at the beginning of
    the step, drawing three random numbers for each; a processed
    particle on which nothing else acts, and whose return timer as the
    explosions store it (rounded to float32) is later than the clock,
    leaves the step in free flight with 98% of its old velocity plus
    that sum. *)
Theorem explosions_single_frame rnd nowDate nowPerf w :
  settled w ->
  explosionsInv w ->
  let f := settledFrame nowDate nowPerf (camera w) (framePointer w) (CONFIG w) in
  let n := length (explosions (CONFIG w)) in
  explosions (CONFIG (updatePhysics rnd nowDate nowPerf w)) = [] /\
  explosions (fCfg f) = explosions (CONFIG w) /\
  (forall i s k,
    (i * 3 + 2 < length (velocities s))%nat ->
    get3 (velocities (explosionForces rnd f i s k).1) i
    = vadd (get3 (velocities s) i)
        (impulseSum rnd (CONFIG w) (get3 (scrollDirections s) i) k n) /\
    (explosionForces rnd f i s k).2 = (k + 3 * n)%nat) /\
  (forall i,
     processed (totalParticleCount w) (store w) i ->
     (i < length (explosionReturnTimes (store w)))%nat ->
     (i < length (explosionGlowEndTimes (store w)))%nat ->
     interactionActive f = false ->
     autonomousMotionStrength (CONFIG w) <= 0 ->
     waveActive f = false ->
     explosionEnabled (CONFIG w) = true ->
     explosions (CONFIG w) <> [] ->
     nowPerf
     < fround (Rmax (rd (explosionReturnTimes (store w)) i)
                 (nowPerf + explosionReturnDelay (CONFIG w))) ->
     exists k,
       get3 (velocities (store (updatePhysics rnd nowDate nowPerf w))) i
       = multiplyScalar
           (vadd (get3 (velocities (store w)) i)
              (impulseSum rnd (CONFIG w)
                 (get3 (scrollDirections (store w)) i) k n)) 0.98).
Proof.
  intros Hs [Hoff Hall] f n.
  split; [|split; [|split]]; cycle 3.
  { intros i Hp Hr Hg Hi Ha Hw He Hne Hdelay.
    rewrite updatePhysics_settled by done.
    by apply explosion_impulse_phase. }
  - rewrite updatePhysics_settled by done.
    rewrite settledPhase_CONFIG. apply cleanupExplosions_empty.
  - destruct (settledFrame_cfg nowDate nowPerf (camera w) (framePointer w)
                (CONFIG w)) as (lw & ws & Ec).
    fold f in Ec. by rewrite Ec.
  - intros i s k Hl.
    destruct (settledFrame_cfg nowDate nowPerf (camera w) (framePointer w)
                (CONFIG w)) as (lw & ws & Ec).
    pose proof (settledFrame_hasExplosions nowDate nowPerf (camera w)
                  (framePointer w) (CONFIG w)) as Hh.
    fold f in Ec, Hh.
    assert (Esum : forall d m,
               impulseSum rnd (fCfg f) d k m = impulseSum rnd (CONFIG w) d k m).
    { intros d m. revert k. induction m as [|m IH]; intros k; [done|].
      cbn [impulseSum]. rewrite IH. unfold impulseOf. by rewrite Ec. }
    destruct (hasExplosions f) eqn:Ef.
    + destruct (explosionForces_velocity rnd f i s k Ef) as [E1 E2];
        [by rewrite Ec|done|].
      rewrite E1, E2, Esum, Ec. done.
    + rewrite explosionForces_none by done. simpl.
      assert (Hn : n = 0%nat).
      { subst n. symmetry in Hh. apply andb_false_iff in Hh as [Hh|Hh].
        - by rewrite Hoff.
        - apply bool_decide_eq_false in Hh.
          destruct (explosions (CONFIG w)); simpl in *; [done|lia]. }
      rewrite Hn. simpl. rewrite vadd_zero. split; [done|lia].
Qed.

Lemma blastWorld_inv : explosionsInv blastWorld.
Proof. split; [done|]. repeat constructor. Qed.

Lemma explosions_single_frame_witness :
  explosions (CONFIG (updatePhysics halves 1016 1016 blastWorld)) = [] /\
  (let f := settledFrame 1016 1016 exampleCamera idlePointer
              (CONFIG blastWorld) in
   get3 (velocities (explosionForces halves f 0 (store blastWorld) 0).1) 0
   = mkVec3 0 0 1) /\
  get3 (velocities (store (updatePhysics halves 1016 1016 blastWorld))) 0
  = mkVec3 0 0 0.98.
Proof.
  destruct (explosions_single_frame halves 1016 1016 blastWorld)
    as (H1 & _ & H3 & H4).
  - by apply settled_example.
  - apply blastWorld_inv.
  - split; [exact H1|]. split.
    + cbv zeta.
      destruct (H3 0%nat (store blastWorld) 0%nat) as [E _]; [simpl; lia|].
      change (framePointer blastWorld) with idlePointer in E.
      change (camera blastWorld) with exampleCamera in E.
      rewrite E. unfold vadd, impulseSum, impulseOf, get3, rd, halves. simpl.
      f_equal; lra.
    + destruct (H4 0%nat) as [k E]; try reflexivity; try (simpl; lia);
        try (simpl; lra); try discriminate.
      * apply processed_one.
      * rewrite Rmax_right by (simpl; unfold rd; simpl; lra).
        replace (1016 + explosionReturnDelay (CONFIG blastWorld))
          with (IZR 2216) by (simpl; lra).
        rewrite fround_IZR by lia. lra.
      * rewrite E.
        unfold multiplyScalar, vadd, impulseSum, impulseOf, get3, rd, halves.
        simpl. f_equal; lra.
Defined.

(** The invariant of the explosions *)

Lemma loadingPhase_returns nowDate camZ hc total c s c' s' :
  loadingPhase nowDate camZ hc total c s = (c', s', true) -> c' = c.
Proof.
  unfold loadingPhase.
  destruct (isLoadingAnimation c); [|by intros [= <- <-]].
  destruct (loadAnimationStartTime c); [|by intros [= <- <-]].
  case_bool_decide; by intros [= <- <-].
Qed.

Lemma updatePhysics_explosionsInv rnd nowDate nowPerf w :
  explosionsInv w -> explosionsInv (updatePhysics rnd nowDate nowPerf w).
Proof.
  intros Hinv. unfold updatePhysics.
  destruct (negb (isInitialized w) || negb (hasGeometry w)); [done|].
  destruct (loadingPhase _ _ _ _ _ _) as [[c s] [|]] eqn:E.
  - apply loadingPhase_returns in E. subst c. exact Hinv.
  - unfold explosionsInv. rewrite settledPhase_CONFIG.
    rewrite cleanupExplosions_empty. split; [done|constructor].
Qed.

Lemma onExplosionClick_explosionsInv p now w :
  explosionsInv w -> explosionsInv (onExplosionClick p now w).
Proof.
  intros [Hoff Hall]. unfold onExplosionClick.
  destruct (explosionEnabled (CONFIG w)) eqn:E; simpl;
    [|split; [intros _; by apply Hoff|done]].
  split; simpl; [congruence|].
  apply Forall_app. split; [done|]. by repeat constructor.
Qed.

Lemma onExplosionEnabledChange_explosionsInv b w :
  explosionsInv w -> explosionsInv (onExplosionEnabledChange b w).
Proof.
  intros [Hoff Hall]. unfold onExplosionEnabledChange.
  destruct b; simpl; split; simpl; try done; try constructor.
Qed.

Lemma onWaveEnabledChange_explosionsInv b w :
  explosionsInv w -> explosionsInv (onWaveEnabledChange b w).
Proof.
  intros [Hoff Hall]. unfold onWaveEnabledChange.
  destruct b; simpl; split; simpl; done.
Qed.

(** ** The loading animation *)

Lemma loadingPhase_shape nowDate camZ hc total c s :
  exists p cs gs,
    (loadingPhase nowDate camZ hc total c s).1.2
    = set_positions p (set_colors cs (set_glows gs s)).
Proof.
  assert (Hid : exists p cs gs, s = set_positions p (set_colors cs (set_glows gs s)))
    by (exists (positions s), (colors s), (glows s); by destruct s).
  unfold loadingPhase.
  destruct (isLoadingAnimation c); [|done].
  destruct (loadAnimationStartTime c) as [start|]; [|done].
  set (e := easingOf _ _). set (n := Nat.min total _).
  assert (H1 : exists p, forLoop (loadingPosition e) 0 n s = set_positions p s).
  { apply (forLoop_invariant (loadingPosition e)
             (fun t => exists p, t = set_positions p s) 0%nat); [|lia|].
    - intros j t t' _ [p ->]. unfold loadingPosition.
      case_bool_decide; [done|]. intros [= <-]. simpl. eauto.
    - exists (positions s). by destruct s. }
  destruct H1 as [p ->].
  set (s1 := set_positions p s).
  assert (H2 : exists cs,
             (if hc then forLoop (loadingColor c camZ) 0 n s1 else s1)
             = set_colors cs s1).
  { destruct hc; [|exists (colors s1); by destruct s].
    apply (forLoop_invariant (loadingColor c camZ)
             (fun t => exists cs, t = set_colors cs s1) 0%nat); [|lia|].
    - intros j t t' _ [cs ->]. unfold loadingColor.
      case_bool_decide; [done|]. intros [= <-]. simpl. eauto.
    - exists (colors s1). by destruct s. }
  destruct H2 as [cs ->].
  set (s2 := set_colors cs s1). set (g := glowBrightness c * e).
  assert (H3 : exists gs,
             forLoop (loadingGlow g) 0 (Nat.min n (length (glows s2))) s2
             = set_glows gs s2).
  { apply (forLoop_invariant (loadingGlow g)
             (fun t => exists gs, t = set_glows gs s2) 0%nat); [|lia|].
    - intros j t t' _ [gs ->]. unfold loadingGlow. intros [= <-]. simpl. eauto.
    - exists (glows s2). by destruct s. }
  destruct H3 as [gs ->].
  exists p, cs, gs. case_bool_decide; by destruct s.
Qed.

(** C10: a step during the loading animation (progress below 1) leaves
    the velocities, the target, base and start positions, the scroll
    directions, the sizes, the base sizes and the two explosion timers
    of all particles as they were, leaves [CONFIG] as it was and does
    not call [Math.random()]: only positions, colors and glows change. *)
Theorem loading_frame_effect rnd nowDate nowPerf w start :
  isInitialized w = true ->
  hasGeometry w = true ->
  isLoadingAnimation (CONFIG w) = true ->
  loadAnimationStartTime (CONFIG w) = Some start ->
  loadAnimationDuration (CONFIG w) <> 0 ->
  loadProgress nowDate start (CONFIG w) < 1 ->
  let w' := updatePhysics rnd nowDate nowPerf w in
  velocities (store w') = velocities (store w) /\
  originalPositions (store w') = originalPositions (store w) /\
  baseOriginalPositions (store w') = baseOriginalPositions (store w) /\
  startPositions (store w') = startPositions (store w) /\
  scrollDirections (store w') = scrollDirections (store w) /\
  sizes (store w') = sizes (store w) /\
  baseSizes (store w') = baseSizes (store w) /\
  explosionGlowEndTimes (store w') = explosionGlowEndTimes (store w) /\
  explosionReturnTimes (store w') = explosionReturnTimes (store w) /\
  CONFIG w' = CONFIG w /\
  randomCalls w' = randomCalls w.
Proof.
  intros Hi Hg Hl Hs Hd Hp w'. subst w'. unfold updatePhysics.
  rewrite Hi, Hg. simpl.
  destruct (loadingPhase_shape nowDate (camZ (camera w)) (hasColorAttr w)
              (totalParticleCount w) (CONFIG w) (store w))
    as (p & cs & gs & E).
  assert (R : (loadingPhase nowDate (camZ (camera w)) (hasColorAttr w)
                 (totalParticleCount w) (CONFIG w) (store w)).2 = true
              /\ (loadingPhase nowDate (camZ (camera w)) (hasColorAttr w)
                    (totalParticleCount w) (CONFIG w) (store w)).1.1 = CONFIG w).
  { unfold loadingPhase. rewrite Hl, Hs.
    rewrite bool_decide_false by lra. done. }
  destruct R as [R1 R2].
  destruct (loadingPhase _ _ _ _ _ _) as [[c s] b]. simpl in *. subst b c s.
  simpl. done.
Qed.

Lemma loading_frame_effect_witness :
  let w' := updatePhysics halves 1000 1000 loadingWorld in
  velocities (store w') = [0; 0; 0] /\
  originalPositions (store w') = [1; 2; 0] /\
  explosionReturnTimes (store w') = [0] /\
  CONFIG w' = CONFIG loadingWorld.
Proof.
  destruct (loading_frame_effect halves 1000 1000 loadingWorld 0)
    as (V & O & _ & _ & _ & _ & _ & _ & T & C & _); try reflexivity.
  - simpl. lra.
  - unfold loadProgress. simpl. rewrite Rmin_right by lra. lra.
  - cbv zeta. rewrite V, O, T, C. done.
Defined.

(** ** The waves *)

Lemma propagateWaves_kept c m cut ws :
  (propagateWaves c m cut ws).1 = keptWaves c (m + waveWidth c) ws.
Proof.
  unfold propagateWaves, keptWaves.
  induction ws as [|w ws IH]; [done|]. simpl.
  unfold growWave at 1. fold (grownWave c w). simpl.
  change (radius w + waveSpeed c * 0.016 * timeScale c)
    with (radius (grownWave c w)).
  case_bool_decide; simpl; [done|]. by rewrite IH.
Qed.

Lemma waveLogic_waves now cam c :
  waveEnabled c = true -> isLoadingAnimation c = false ->
  waves (waveLogic now cam c).1
  = keptWaves c (maxWaveRadius cam + waveWidth c) (waves (spawnWave now c)) /\
  lastWaveTime (waveLogic now cam c).1 = lastWaveTime (spawnWave now c).
Proof.
  intros He Hl. unfold waveLogic. rewrite He, Hl. simpl.
  pose proof (propagateWaves_kept (spawnWave now c) (maxWaveRadius cam)
                (2 * (waveWidth c / 2)) (waves (spawnWave now c))) as H.
  destruct (propagateWaves _ _ _ _) as [ws b]. simpl in *. subst ws.
  destruct (spawnWave_shape now c) as (lw & ws & ->). simpl. done.
Qed.

Lemma cleanupExplosions_waves c :
  waves (cleanupExplosions c) = waves c /\
  lastWaveTime (cleanupExplosions c) = lastWaveTime c /\
  isLoadingAnimation (cleanupExplosions c) = isLoadingAnimation c /\
  waveEnabled (cleanupExplosions c) = waveEnabled c /\
  waveInterval (cleanupExplosions c) = waveInterval c.
Proof. unfold cleanupExplosions. case_bool_decide; repeat split; done. Qed.

Lemma spawnWave_wait now c t0 :
  lastWaveTime c = Some t0 -> now - t0 < waveInterval c -> spawnWave now c = c.
Proof.
  intros H Hlt. unfold spawnWave. rewrite H. cbv zeta. rewrite H. simpl.
  by rewrite bool_decide_false by lra.
Qed.

Lemma spawnWave_fire now c t0 :
  lastWaveTime c = Some t0 -> now - t0 >= waveInterval c ->
  spawnWave now c
  = set_lastWaveTime (Some now) (set_waves (waves c ++ [mkWave 0 now now]) c).
Proof.
  intros H Hge. unfold spawnWave. rewrite H. cbv zeta. rewrite H. simpl.
  by rewrite bool_decide_true by lra.
Qed.

(** C5, as amended, on the settled branch. *)
Lemma wave_growth_phase rnd nowDate nowPerf w ptr c s :
  waveEnabled c = true -> isLoadingAnimation c = false ->
  let limit := maxWaveRadius (camera w) + waveWidth c in
  waves (CONFIG (settledPhase rnd nowDate nowPerf w ptr c s))
  = keptWaves c limit (waves (spawnWave nowDate c)).
Proof.
  intros He Hl limit. rewrite settledPhase_CONFIG.
  destruct (cleanupExplosions_waves (waveLogic nowDate (camera w) c).1)
    as (-> & _).
  by destruct (waveLogic_waves nowDate (camera w) c He Hl) as [-> _].
Qed.

(** C5, as amended: in a settled step with waves enabled every wave of
    the list (with the one created in this step, if any) grows by
    [waveSpeed * 0.016 * timeScale], strictly when
    [waveSpeed * timeScale] is positive, and is kept exactly when its
    grown radius is below half the diagonal of the visible area plus
    the wave width. *)
Theorem wave_growth_and_removal rnd nowDate nowPerf w :
  settled w ->
  waveEnabled (CONFIG w) = true ->
  let c := CONFIG w in
  let viewportWidth := camRight (camera w) - camLeft (camera w) in
  let viewportHeight := camTop (camera w) - camBottom (camera w) in
  let limit :=
    sqrt (viewportWidth * viewportWidth + viewportHeight * viewportHeight) / 2
    + waveWidth c in
  waves (CONFIG (updatePhysics rnd nowDate nowPerf w))
  = List.filter (fun w' => negb (bool_decide (radius w' >= limit)))
      (map (grownWave c) (waves (spawnWave nowDate c))) /\
  (forall w0, radius (grownWave c w0)
              = radius w0 + waveSpeed c * 0.016 * timeScale c) /\
  (0 < waveSpeed c * timeScale c ->
   forall w0, radius w0 < radius (grownWave c w0)).
Proof.
  intros Hs He c vw vh limit.
  split; [|split].
  - rewrite updatePhysics_settled by done.
    destruct Hs as (_ & _ & Hl).
    by rewrite wave_growth_phase.
  - done.
  - intros Hpos w0. simpl. nra.
Qed.

Lemma exampleCamera_diagonal :
  sqrt ((camRight exampleCamera - camLeft exampleCamera)
        * (camRight exampleCamera - camLeft exampleCamera)
        + (camTop exampleCamera - camBottom exampleCamera)
          * (camTop exampleCamera - camBottom exampleCamera)) = 10.
Proof.
  simpl. replace ((3 - -3) * (3 - -3) + (4 - -4) * (4 - -4)) with (10 * 10) by lra.
  apply sqrt_square. lra.
Qed.

Lemma maxWaveRadius_example : maxWaveRadius exampleCamera = 5.
Proof. unfold maxWaveRadius. cbv zeta. rewrite exampleCamera_diagonal. lra. Qed.

(** C5, the counterexample: in a visible area of 6 by 8, whose diagonal
    is 10, a wave of width 1.6 that has grown to the radius 7.0864 is
    removed, long before the diagonal plus the width. *)
Lemma wave_removed_before_diagonal :
  let cam := camera waveWorld in
  let c := CONFIG waveWorld in
  let diagonal :=
    sqrt ((camRight cam - camLeft cam) * (camRight cam - camLeft cam)
          + (camTop cam - camBottom cam) * (camTop cam - camBottom cam)) in
  waves c = [mkWave 7 0 0] /\
  waves (CONFIG (updatePhysics halves 5000 5000 waveWorld)) = [] /\
  radius (grownWave c (mkWave 7 0 0)) < diagonal + waveWidth c.
Proof.
  cbv zeta. split; [done|]. split.
  - rewrite updatePhysics_settled by (by apply settled_example).
    rewrite wave_growth_phase by done.
    rewrite (spawnWave_wait 5000 (CONFIG waveWorld) 4000) by (simpl; done || lra).
    change (camera waveWorld) with exampleCamera.
    rewrite maxWaveRadius_example. unfold keptWaves. simpl.
    rewrite bool_decide_true by lra. done.
  - change (camera waveWorld) with exampleCamera.
    rewrite exampleCamera_diagonal. simpl. lra.
Qed.

Lemma wave_growth_and_removal_witness :
  waves (CONFIG (updatePhysics halves 5000 5000 waveWorld))
  = List.filter (fun w' => negb (bool_decide (radius w' >= 5 + 1.6)))
      [mkWave (7 + 6 * 0.016 * 0.90) 0 0].
Proof.
  destruct (wave_growth_and_removal halves 5000 5000 waveWorld) as (H & _ & _).
  - by apply settled_example.
  - reflexivity.
  - rewrite H.
    rewrite (spawnWave_wait 5000 (CONFIG waveWorld) 4000) by (simpl; done || lra).
    change (camera waveWorld) with exampleCamera.
    rewrite exampleCamera_diagonal.
    replace (10 / 2) with 5 by lra. reflexivity.
Defined.

(** ** The end of the loading animation *)

Lemma updatePhysics_static rnd nowDate nowPerf w :
  let w' := updatePhysics rnd nowDate nowPerf w in
  isInitialized w' = isInitialized w /\ hasGeometry w' = hasGeometry w /\
  camera w' = camera w.
Proof.
  cbv zeta. unfold updatePhysics.
  destruct (negb (isInitialized w) || negb (hasGeometry w)); [done|].
  destruct (loadingPhase _ _ _ _ _ _) as [[c s] [|]]; [done|].
  unfold settledPhase.
  destruct (waveLogic _ _ _) as [c' b].
  destruct (physicsStore _ _ _ _ _ _) as [s' k]. done.
Qed.

Lemma updatePhysics_transition_CONFIG rnd nowDate nowPerf w start :
  isInitialized w = true -> hasGeometry w = true ->
  isLoadingAnimation (CONFIG w) = true ->
  loadAnimationStartTime (CONFIG w) = Some start ->
  loadProgress nowDate start (CONFIG w) >= 1 ->
  CONFIG (updatePhysics rnd nowDate nowPerf w)
  = cleanupExplosions
      (waveLogic nowDate (camera w) (finishLoading nowDate (CONFIG w))).1.
Proof.
  intros Hi Hg Hl Hs Hp. unfold updatePhysics. rewrite Hi, Hg. simpl.
  assert (R : (loadingPhase nowDate (camZ (camera w)) (hasColorAttr w)
                 (totalParticleCount w) (CONFIG w) (store w)).2 = false
              /\ (loadingPhase nowDate (camZ (camera w)) (hasColorAttr w)
                    (totalParticleCount w) (CONFIG w) (store w)).1.1
                 = finishLoading nowDate (CONFIG w)).
  { unfold loadingPhase. rewrite Hl, Hs. by rewrite bool_decide_true. }
  destruct R as [R1 R2].
  destruct (loadingPhase _ _ _ _ _ _) as [[c s] b]. simpl in *. subst b c.
  apply settledPhase_CONFIG.
Qed.

(** C4, as amended, for any step that ends the loading animation. *)
Lemma first_wave_phase rnd nowDate nowPerf w start :
  isInitialized w = true -> hasGeometry w = true ->
  isLoadingAnimation (CONFIG w) = true ->
  loadAnimationStartTime (CONFIG w) = Some start ->
  loadProgress nowDate start (CONFIG w) >= 1 ->
  waveEnabled (CONFIG w) = true ->
  lastWaveTime (CONFIG w) = None ->
  waves (CONFIG w) = [] ->
  0 < waveInterval (CONFIG w) ->
  let c := CONFIG w in
  let w1 := updatePhysics rnd nowDate nowPerf w in
  let limit := maxWaveRadius (camera w) + waveWidth c in
  isLoadingAnimation (CONFIG w1) = false /\
  lastWaveTime (CONFIG w1) = Some nowDate /\
  waves (CONFIG w1) = [] /\
  (forall nowDate2 nowPerf2,
     nowDate2 - nowDate < waveInterval c ->
     waves (CONFIG (updatePhysics rnd nowDate2 nowPerf2 w1)) = []) /\
  (forall nowDate2 nowPerf2,
     nowDate2 - nowDate >= waveInterval c ->
     waves (CONFIG (updatePhysics rnd nowDate2 nowPerf2 w1))
     = keptWaves c limit [mkWave 0 nowDate2 nowDate2]).
Proof.
  intros Hi Hg Hl Hs Hp He Hlw Hws Hint c w1 limit.
  set (c1 := set_lastWaveTime (Some nowDate) (set_isLoadingAnimation false c)).
  assert (Hfin : finishLoading nowDate c = c1).
  { unfold finishLoading. simpl. subst c. by rewrite He, Hlw. }
  assert (Hc1 : CONFIG w1 = cleanupExplosions (set_waves [] c1)).
  { subst w1.
    rewrite (updatePhysics_transition_CONFIG rnd nowDate nowPerf w start)
      by done.
    fold c. rewrite Hfin. f_equal.
    unfold waveLogic.
    replace (waveEnabled c1 && negb (isLoadingAnimation c1)) with true
      by (subst c1 c; simpl; by rewrite He).
    rewrite (spawnWave_wait nowDate c1 nowDate)
      by (subst c1 c; simpl; first [done|lra]).
    pose proof (propagateWaves_kept c1 (maxWaveRadius (camera w))
                  (2 * (waveWidth c1 / 2)) (waves c1)) as H.
    destruct (propagateWaves _ _ _ _) as [ws b]. simpl in *. subst ws.
    subst c1 c. simpl. by rewrite Hws. }
  assert (Hfacts : isLoadingAnimation (CONFIG w1) = false /\
                   lastWaveTime (CONFIG w1) = Some nowDate /\
                   waves (CONFIG w1) = [] /\
                   waveEnabled (CONFIG w1) = true /\
                   waveInterval (CONFIG w1) = waveInterval c /\
                   waveWidth (CONFIG w1) = waveWidth c /\
                   grownWave (CONFIG w1) = grownWave c).
  { rewrite Hc1. unfold cleanupExplosions, grownWave.
    case_bool_decide; subst c1 c; simpl; by rewrite He. }
  destruct Hfacts as (F1 & F2 & F3 & F4 & F5 & F6 & F7).
  destruct (updatePhysics_static rnd nowDate nowPerf w) as (S1 & S2 & S3).
  fold w1 in S1, S2, S3.
  assert (Hset : settled w1) by (split; [|split]; congruence).
  split; [done|]. split; [done|]. split; [done|]. split.
  - intros nowDate2 nowPerf2 Hlt.
    rewrite updatePhysics_settled, wave_growth_phase by done.
    rewrite (spawnWave_wait nowDate2 (CONFIG w1) nowDate) by (done || lra).
    by rewrite F3.
  - intros nowDate2 nowPerf2 Hge.
    rewrite updatePhysics_settled, wave_growth_phase by done.
    rewrite (spawnWave_fire nowDate2 (CONFIG w1) nowDate) by (done || lra).
    simpl. rewrite F3, F6, S3. unfold keptWaves. rewrite F7. done.
Qed.

(** A settled step before the interval has passed keeps the timer and
    creates no wave. *)
Lemma waiting_step rnd nowDate nowPerf t0 c0 cam w :
  waiting t0 c0 cam w ->
  nowDate - t0 < waveInterval c0 ->
  waiting t0 c0 cam (updatePhysics rnd nowDate nowPerf w).
Proof.
  intros (Hs & He & Hl & Hw & Hi & Hwd & Hg & Hc) Hlt.
  destruct (updatePhysics_static rnd nowDate nowPerf w) as (S1 & S2 & S3).
  destruct Hs as (H1 & H2 & H3).
  assert (Hcfg : CONFIG (updatePhysics rnd nowDate nowPerf w)
                 = cleanupExplosions (set_waves [] (CONFIG w))).
  { rewrite updatePhysics_settled by done. rewrite settledPhase_CONFIG.
    f_equal. unfold waveLogic. rewrite He, H3. simpl.
    rewrite (spawnWave_wait nowDate (CONFIG w) t0) by (done || lra).
    pose proof (propagateWaves_kept (CONFIG w) (maxWaveRadius (camera w))
                  (2 * (waveWidth (CONFIG w) / 2)) (waves (CONFIG w))) as K.
    destruct (propagateWaves _ _ _ _) as [ws b]. simpl in *. subst ws.
    by rewrite Hw. }
  assert (F : isLoadingAnimation (CONFIG (updatePhysics rnd nowDate nowPerf w))
              = false /\
              waveEnabled (CONFIG (updatePhysics rnd nowDate nowPerf w)) = true /\
              lastWaveTime (CONFIG (updatePhysics rnd nowDate nowPerf w))
              = Some t0 /\
              waves (CONFIG (updatePhysics rnd nowDate nowPerf w)) = [] /\
              waveInterval (CONFIG (updatePhysics rnd nowDate nowPerf w))
              = waveInterval c0 /\
              waveWidth (CONFIG (updatePhysics rnd nowDate nowPerf w))
              = waveWidth c0 /\
              grownWave (CONFIG (updatePhysics rnd nowDate nowPerf w))
              = grownWave c0).
  { rewrite Hcfg, <- Hg. unfold cleanupExplosions, grownWave.
    case_bool_decide; simpl; rewrite ?H3, ?He, ?Hl, ?Hi, ?Hwd; done. }
  destruct F as (F1 & F2 & F3 & F4 & F5 & F6 & F7).
  split; [split; [|split]; congruence|]. repeat split; try done. congruence.
Qed.

(** Frames that all come before the interval has passed keep the timer
    and create no wave, however many they are. *)
Lemma waiting_run rnd t0 c0 cam ticks :
  Forall (fun t => t.1 - t0 < waveInterval c0) ticks ->
  forall w, waiting t0 c0 cam w -> waiting t0 c0 cam (runFrames rnd ticks w).
Proof.
  induction 1 as [|t ticks Ht _ IH]; intros w Hw; [done|].
  cbn [runFrames fold_left]. apply IH. by apply waiting_step.
Qed.

(** The first settled step at or after the end of the interval creates
    a wave and restarts the timer. *)
Lemma waiting_fire rnd nowDate nowPerf t0 c0 cam w :
  waiting t0 c0 cam w ->
  nowDate - t0 >= waveInterval c0 ->
  let w' := updatePhysics rnd nowDate nowPerf w in
  waves (CONFIG w')
  = keptWaves c0 (maxWaveRadius cam + waveWidth c0) [mkWave 0 nowDate nowDate] /\
  lastWaveTime (CONFIG w') = Some nowDate.
Proof.
  intros (Hs & He & Hl & Hw & Hi & Hwd & Hg & Hc) Hge w'. subst w'.
  destruct Hs as (H1 & H2 & H3).
  rewrite updatePhysics_settled by done. split.
  - rewrite wave_growth_phase by done.
    rewrite (spawnWave_fire nowDate (CONFIG w) t0) by (done || lra).
    simpl. rewrite Hw, Hwd, Hc. unfold keptWaves. rewrite Hg. done.
  - rewrite settledPhase_CONFIG.
    destruct (cleanupExplosions_waves (waveLogic nowDate (camera w) (CONFIG w)).1)
      as (_ & -> & _).
    destruct (waveLogic_waves nowDate (camera w) (CONFIG w) He H3) as [_ ->].
    rewrite (spawnWave_fire nowDate (CONFIG w) t0) by (done || lra). done.
Qed.

(** The step that ends the loading animation leaves the state that
    waits for the first wave. *)
Lemma transition_waiting rnd nowDate nowPerf w start :
  isInitialized w = true -> hasGeometry w = true ->
  isLoadingAnimation (CONFIG w) = true ->
  loadAnimationStartTime (CONFIG w) = Some start ->
  loadProgress nowDate start (CONFIG w) >= 1 ->
  waveEnabled (CONFIG w) = true ->
  lastWaveTime (CONFIG w) = None ->
  waves (CONFIG w) = [] ->
  0 < waveInterval (CONFIG w) ->
  waiting nowDate (CONFIG w) (camera w) (updatePhysics rnd nowDate nowPerf w).
Proof.
  intros Hi Hg Hl Hs Hp He Hlw Hws Hint.
  set (c := CONFIG w). set (w1 := updatePhysics rnd nowDate nowPerf w).
  set (c1 := set_lastWaveTime (Some nowDate) (set_isLoadingAnimation false c)).
  assert (Hfin : finishLoading nowDate c = c1).
  { unfold finishLoading. simpl. subst c. by rewrite He, Hlw. }
  assert (Hc1 : CONFIG w1 = cleanupExplosions (set_waves [] c1)).
  { subst w1.
    rewrite (updatePhysics_transition_CONFIG rnd nowDate nowPerf w start)
      by done.
    fold c. rewrite Hfin. f_equal.
    unfold waveLogic.
    replace (waveEnabled c1 && negb (isLoadingAnimation c1)) with true
      by (subst c1 c; simpl; by rewrite He).
    rewrite (spawnWave_wait nowDate c1 nowDate)
      by (subst c1 c; simpl; first [done|lra]).
    pose proof (propagateWaves_kept c1 (maxWaveRadius (camera w))
                  (2 * (waveWidth c1 / 2)) (waves c1)) as H.
    destruct (propagateWaves _ _ _ _) as [ws b]. simpl in *. subst ws.
    subst c1 c. simpl. by rewrite Hws. }
  assert (Hfacts : isLoadingAnimation (CONFIG w1) = false /\
                   lastWaveTime (CONFIG w1) = Some nowDate /\
                   waves (CONFIG w1) = [] /\
                   waveEnabled (CONFIG w1) = true /\
                   waveInterval (CONFIG w1) = waveInterval c /\
                   waveWidth (CONFIG w1) = waveWidth c /\
                   grownWave (CONFIG w1) = grownWave c).
  { rewrite Hc1. unfold cleanupExplosions, grownWave.
    case_bool_decide; subst c1 c; simpl; by rewrite He. }
  destruct Hfacts as (F1 & F2 & F3 & F4 & F5 & F6 & F7).
  destruct (updatePhysics_static rnd nowDate nowPerf w) as (S1 & S2 & S3).
  fold w1 in S1, S2, S3.
  split; [split; [|split]; congruence|]. repeat split; done.
Qed.

(** C4, as amended: the step in which the progress of the loading
    animation reaches 1, with waves enabled, no wave timer and a
    positive interval, sets the wave timer to the time of that step and
    creates no wave.  However many frames follow before a full
    [waveInterval] has passed since then, none of them creates a wave
    and all of them keep the timer; the first frame at or after that
    moment creates the first wave and restarts the timer. *)
Theorem first_wave_after_one_interval rnd nowDate nowPerf w start :
  isInitialized w = true -> hasGeometry w = true ->
  isLoadingAnimation (CONFIG w) = true ->
  loadAnimationStartTime (CONFIG w) = Some start ->
  loadAnimationDuration (CONFIG w) <> 0 ->
  loadProgress nowDate start (CONFIG w) >= 1 ->
  waveEnabled (CONFIG w) = true ->
  lastWaveTime (CONFIG w) = None ->
  waves (CONFIG w) = [] ->
  0 < waveInterval (CONFIG w) ->
  let c := CONFIG w in
  let w1 := updatePhysics rnd nowDate nowPerf w in
  let limit := maxWaveRadius (camera w) + waveWidth c in
  isLoadingAnimation (CONFIG w1) = false /\
  lastWaveTime (CONFIG w1) = Some nowDate /\
  waves (CONFIG w1) = [] /\
  (forall nowDate2 nowPerf2,
     nowDate2 - nowDate < waveInterval c ->
     waves (CONFIG (updatePhysics rnd nowDate2 nowPerf2 w1)) = []) /\
  (forall nowDate2 nowPerf2,
     nowDate2 - nowDate >= waveInterval c ->
     waves (CONFIG (updatePhysics rnd nowDate2 nowPerf2 w1))
     = keptWaves c limit [mkWave 0 nowDate2 nowDate2]) /\
  (forall ticks,
     Forall (fun t => t.1 - nowDate < waveInterval c) ticks ->
     let wn := runFrames rnd ticks w1 in
     waves (CONFIG wn) = [] /\
     lastWaveTime (CONFIG wn) = Some nowDate /\
     isLoadingAnimation (CONFIG wn) = false /\
     waveEnabled (CONFIG wn) = true /\
     forall nowDate2 nowPerf2,
       nowDate2 - nowDate >= waveInterval c ->
       let w' := updatePhysics rnd nowDate2 nowPerf2 wn in
       waves (CONFIG w') = keptWaves c limit [mkWave 0 nowDate2 nowDate2] /\
       lastWaveTime (CONFIG w') = Some nowDate2).
Proof.
  intros Hi Hg Hl Hs _ Hp He Hlw Hws Hint c w1 limit.
  destruct (first_wave_phase rnd nowDate nowPerf w start Hi Hg Hl Hs Hp He
              Hlw Hws Hint) as (P1 & P2 & P3 & P4 & P5).
  do 5 (split; [done|]).
  intros ticks Hticks wn.
  pose proof (transition_waiting rnd nowDate nowPerf w start Hi Hg Hl Hs Hp
                He Hlw Hws Hint) as W1.
  pose proof (waiting_run rnd nowDate c (camera w) ticks Hticks _ W1) as Wn.
  fold w1 in Wn. fold wn in Wn.
  pose proof Wn as ((_ & _ & Hload) & Hen & Hlast & Hwaves & _).
  do 4 (split; [done|]).
  intros nowDate2 nowPerf2 Hge. by apply (waiting_fire rnd _ _ nowDate c).
Qed.

Lemma enteringWorld_progress : loadProgress 4000 0 (CONFIG enteringWorld) >= 1.
Proof. unfold loadProgress. simpl. rewrite Rmin_left by lra. lra. Qed.

(** C4, the counterexample: with the initial interval of 8000 ms the
    list of the waves is empty after the frame that ends the loading
    animation and after the next frame. *)
Lemma no_wave_at_settling :
  let w1 := updatePhysics halves 4000 4000 enteringWorld in
  let w2 := updatePhysics halves 4016 4016 w1 in
  isLoadingAnimation (CONFIG enteringWorld) = true /\
  waveEnabled (CONFIG enteringWorld) = true /\
  isLoadingAnimation (CONFIG w1) = false /\
  waves (CONFIG w1) = [] /\ waves (CONFIG w2) = [].
Proof.
  destruct (first_wave_phase halves 4000 4000 enteringWorld 0)
    as (H1 & _ & H3 & H4 & _); try reflexivity.
  - apply enteringWorld_progress.
  - simpl. lra.
  - cbv zeta. repeat split; try done. apply H4. simpl. lra.
Qed.

Lemma first_wave_after_one_interval_witness :
  let w1 := updatePhysics halves 4000 4000 enteringWorld in
  let wn := runFrames halves [(4016, 4016); (8000, 8000); (11999, 11999)] w1 in
  lastWaveTime (CONFIG w1) = Some 4000 /\
  waves (CONFIG (updatePhysics halves 11999 11999 w1)) = [] /\
  waves (CONFIG (updatePhysics halves 12000 12000 w1))
  = [mkWave (0 + 6 * 0.016 * 0.90) 12000 12000] /\
  waves (CONFIG wn) = [] /\ lastWaveTime (CONFIG wn) = Some 4000 /\
  waves (CONFIG (updatePhysics halves 12000 12000 wn))
  = [mkWave (0 + 6 * 0.016 * 0.90) 12000 12000].
Proof.
  destruct (first_wave_after_one_interval halves 4000 4000 enteringWorld 0)
    as (_ & H2 & _ & H4 & H5 & H6); try reflexivity.
  - simpl. lra.
  - apply enteringWorld_progress.
  - simpl. lra.
  - cbv zeta.
    assert (K : keptWaves (CONFIG enteringWorld)
                  (maxWaveRadius (camera enteringWorld)
                   + waveWidth (CONFIG enteringWorld))
                  [mkWave 0 12000 12000]
                = [mkWave (0 + 6 * 0.016 * 0.90) 12000 12000]).
    { change (camera enteringWorld) with exampleCamera.
      rewrite maxWaveRadius_example. unfold keptWaves. simpl.
      rewrite bool_decide_false by lra. done. }
    split; [done|]. split; [apply H4; simpl; lra|].
    split; [rewrite H5 by (simpl; lra); exact K|].
    destruct (H6 [(4016, 4016); (8000, 8000); (11999, 11999)])
      as (R1 & R2 & _ & _ & R5).
    { repeat constructor; simpl; lra. }
    split; [done|]. split; [done|].
    destruct (R5 12000 12000) as [R _]; [simpl; lra|].
    rewrite R. exact K.
Defined.

(** ** The scroll and the restart of the loading animation *)

Arguments scrollTarget : simpl never.
Arguments restartPosition : simpl never.
Arguments restartGlow : simpl never.

Lemma scrollLoop_shape d n a s :
  exists o, forLoop (scrollTarget d) a n s = set_originalPositions o s /\
            length o = length (originalPositions s).
Proof.
  apply (forLoop_invariant (scrollTarget d)
           (fun s' => exists o, s' = set_originalPositions o s /\
                                length o = length (originalPositions s)) a);
    [|lia|].
  - intros j t t' _ (o & -> & L) [= <-]. eexists. split; [reflexivity|].
    simpl. by rewrite !length_insert.
  - exists (originalPositions s). by destruct s.
Qed.

Lemma scrollLoop_at d i n a s :
  (a <= i < a + n)%nat ->
  (i * 3 + 2 < length (originalPositions s))%nat ->
  get3 (originalPositions (forLoop (scrollTarget d) a n s)) i
  = addScaledVector (get3 (baseOriginalPositions s) i)
      (get3 (scrollDirections s) i) d.
Proof.
  intros Hi Hl.
  set (I := fun s' : Store =>
              exists o, s' = set_originalPositions o s /\
                        length o = length (originalPositions s)).
  set (Post := fun s' : Store =>
              I s' /\
              get3 (originalPositions s') i
              = addScaledVector (get3 (baseOriginalPositions s) i)
                  (get3 (scrollDirections s) i) d).
  assert (H : Post (forLoop (scrollTarget d) a n s)); [|by destruct H].
  apply (forLoop_at (scrollTarget d) I (fun _ => True) Post i); try done.
  - intros j t _ (o & -> & L). eexists. split; [reflexivity|].
    eexists. split; [reflexivity|]. simpl. by rewrite !length_insert.
  - intros t t' (o & -> & L) _ [= <-]. split.
    + eexists. split; [reflexivity|]. simpl. by rewrite !length_insert.
    + simpl. rewrite get3_insert3 by lia. reflexivity.
  - intros j t t' Hj [(o & -> & L) E] [= <-]. split.
    + eexists. split; [reflexivity|]. simpl. by rewrite !length_insert.
    + simpl in *. rewrite <- E. unfold get3.
      rewrite !rd_insert_ne by lia. reflexivity.
  - exists (originalPositions s). by destruct s.
Qed.

Lemma countOf_full len i : (i * 3 + 2 < len)%nat -> (i < countOf len 3)%nat.
Proof.
  intros H. unfold countOf. change (3 - 1)%nat with 2%nat.
  pose proof (Nat.div_mod_eq (len + 2) 3) as E.
  pose proof (Nat.mod_upper_bound (len + 2) 3) as U. lia.
Qed.

(** The scroll writes the target of every particle that its arrays hold
    in full: the base position plus the scroll direction times
    [scrollProgress * scrollSpreadForce]; it writes nothing else. *)
Theorem scroll_moves_targets force progress w i :
  isInitialized w = true ->
  (i < totalParticleCount w)%nat ->
  (i * 3 + 2 < length (baseOriginalPositions (store w)))%nat ->
  (i * 3 + 2 < length (scrollDirections (store w)))%nat ->
  (i * 3 + 2 < length (originalPositions (store w)))%nat ->
  let w' := updateOriginalPositionsFromScroll force progress w in
  get3 (originalPositions (store w')) i
  = addScaledVector (get3 (baseOriginalPositions (store w)) i)
      (get3 (scrollDirections (store w)) i) (progress * force) /\
  length (originalPositions (store w')) = length (originalPositions (store w)) /\
  store w' = set_originalPositions (originalPositions (store w')) (store w) /\
  w' = withStore (store w') w.
Proof.
  intros Hi Ht Hb Hd Ho w'. subst w'. unfold updateOriginalPositionsFromScroll.
  rewrite Hi. rewrite bool_decide_false by lia. simpl.
  split; [|split; [|split]].
  - rewrite scrollLoop_at; [| |done].
    + unfold addScaledVector. f_equal; lra.
    + split; [lia|]. apply Nat.min_glb_lt; [lia|by apply countOf_full].
  - destruct (scrollLoop_shape (progress * force * 1.0)
                (Nat.min (totalParticleCount w)
                   (countOf (length (baseOriginalPositions (store w))) 3))
                0 (store w)) as (o & -> & L).
    done.
  - destruct (scrollLoop_shape (progress * force * 1.0)
                (Nat.min (totalParticleCount w)
                   (countOf (length (baseOriginalPositions (store w))) 3))
                0 (store w)) as (o & -> & L).
    done.
  - reflexivity.
Qed.

Lemma scroll_moves_targets_witness :
  get3 (originalPositions
          (store (updateOriginalPositionsFromScroll 75 0.5 scrolledWorld))) 0
  = mkVec3 1 2 37.5.
Proof.
  destruct (scroll_moves_targets 75 0.5 scrolledWorld 0) as [E _];
    try reflexivity; try (simpl; lia).
  cbv zeta in E. rewrite E.
  unfold addScaledVector, get3, rd. simpl. f_equal; lra.
Defined.

Lemma scrollProgressOf_range depth h y : 0 <= scrollProgressOf depth h y <= 1.
Proof. apply clamp01_range. Qed.

Lemma scrollProgressOf_example y :
  0 <= y <= 3000 -> scrollProgressOf 300 1000 y = y / 3000.
Proof.
  intros H. unfold scrollProgressOf.
  replace (y / (300 * 1000 / 100)) with (y / 3000) by (field; lra).
  rminmax. reflexivity.
Qed.

(** The progress of the scroll stays within [[0, 1]], and the targets
    follow it only on a change of more than 0.001: a sequence of scroll
    events of which none moves the progress by more than 0.001 from the
    event before it leaves every target where it was, however far the
    progress has moved in total. *)
Theorem slow_scroll_keeps_targets depth force innerHeight ys sc w :
  depth * innerHeight <> 0 ->
  slowScroll depth innerHeight (scrollProgress sc) ys ->
  let st :=
    fold_left
      (fun st y => updateScrollProgress depth force innerHeight y st)
      ys (sc, w) in
  st.2 = w /\
  scrollProgress st.1
  = default (scrollProgress sc)
      (last (map (scrollProgressOf depth innerHeight) ys)) /\
  (forall y, 0 <= scrollProgressOf depth innerHeight y <= 1) /\
  (forall y,
     Rabs (scrollProgressOf depth innerHeight y - scrollProgress sc) > 0.001 ->
     (updateScrollProgress depth force innerHeight y (sc, w)).2
     = updateOriginalPositionsFromScroll force
         (scrollProgressOf depth innerHeight y) w).
Proof.
  intros _ Hslow st. subst st.
  split; [|split; [|split]].
  - revert sc Hslow. induction ys as [|y ys IH]; intros sc Hslow; [done|].
    destruct Hslow as [H1 H2]. simpl.
    unfold updateScrollProgress at 2. simpl.
    rewrite bool_decide_false by lra. by apply IH.
  - revert sc Hslow. induction ys as [|y ys IH]; intros sc Hslow; [done|].
    destruct Hslow as [H1 H2]. simpl.
    unfold updateScrollProgress at 2. simpl.
    rewrite bool_decide_false by lra.
    rewrite IH by done. simpl.
    destruct ys as [|y' ys]; [done|]. cbn [map]. rewrite last_cons_cons.
    destruct (last _) eqn:E; [done|]. by apply last_None in E.
  - intros y. apply scrollProgressOf_range.
  - intros y Hy. unfold updateScrollProgress. simpl.
    by rewrite bool_decide_true by lra.
Qed.

Lemma slow_scroll_keeps_targets_witness :
  let st :=
    fold_left (fun st y => updateScrollProgress 300 75 1000 y st)
      [3; 6; 9] (mkScroll 0 0, scrolledWorld) in
  st.2 = scrolledWorld /\ scrollProgress st.1 = 9 / 3000.
Proof.
  destruct (slow_scroll_keeps_targets 300 75 1000 [3; 6; 9] (mkScroll 0 0)
              scrolledWorld) as (E1 & E2 & _).
  - lra.
  - simpl. rewrite !scrollProgressOf_example by lra.
    repeat split; apply Rabs_le; lra.
  - cbv zeta in *. split; [exact E1|]. rewrite E2. simpl.
    apply scrollProgressOf_example. lra.
Defined.

Lemma restartLoop_shape n a s :
  exists p, forLoop restartPosition a n s = set_positions p s /\
            length p = length (positions s).
Proof.
  apply (forLoop_invariant restartPosition
           (fun s' => exists p, s' = set_positions p s /\
                                length p = length (positions s)) a);
    [|lia|].
  - intros j t t' _ (p & -> & L). unfold restartPosition.
    case_bool_decide; [done|]. intros [= <-].
    eexists. split; [reflexivity|]. simpl. by rewrite !length_insert.
  - exists (positions s). by destruct s.
Qed.

Lemma restartLoop_at i n a s :
  (a <= i < a + n)%nat ->
  (i * 3 + 2 < length (positions s))%nat ->
  get3 (positions (forLoop restartPosition a n s)) i
  = get3 (startPositions s) i.
Proof.
  intros Hi Hl.
  set (I := fun s' : Store =>
              exists p, s' = set_positions p s /\
                        length p = length (positions s)).
  set (Post := fun s' : Store =>
              I s' /\ get3 (positions s') i = get3 (startPositions s) i).
  assert (H : Post (forLoop restartPosition a n s)); [|by destruct H].
  apply (forLoop_at restartPosition I (fun _ => True) Post i); try done.
  - intros j t Hj (p & -> & L). unfold restartPosition. simpl.
    rewrite bool_decide_false by lia. eexists. split; [reflexivity|].
    eexists. split; [reflexivity|]. simpl. by rewrite !length_insert.
  - intros t t' (p & -> & L) _. unfold restartPosition. simpl.
    case_bool_decide; [done|]. intros [= <-]. split.
    + eexists. split; [reflexivity|]. simpl. by rewrite !length_insert.
    + simpl. rewrite get3_insert3 by lia. reflexivity.
  - intros j t t' Hj [(p & -> & L) E]. unfold restartPosition. simpl.
    case_bool_decide; [done|]. intros [= <-]. split.
    + eexists. split; [reflexivity|]. simpl. by rewrite !length_insert.
    + simpl in *. rewrite <- E. unfold get3.
      rewrite !rd_insert_ne by lia. reflexivity.
  - exists (positions s). by destruct s.
Qed.

Lemma restartGlowLoop n : forall a s,
  (a + n <= length (glows s))%nat ->
  (forall m, (m < a)%nat -> glows s !! m = Some 0) ->
  exists g, forLoop restartGlow a n s = set_glows g s /\
            length g = length (glows s) /\
            forall m, (m < a + n)%nat -> g !! m = Some 0.
Proof.
  induction n as [|n IH]; intros a s Hl Hz.
  - exists (glows s). simpl. split; [by destruct s|]. split; [done|].
    intros m Hm. apply Hz. lia.
  - simpl.
    change (restartGlow a s) with (Some (set_glows (<[a := 0]> (glows s)) s)).
    cbv iota beta.
    destruct (IH (S a) (set_glows (<[a := 0]> (glows s)) s)) as (g & E & L & Z).
    + simpl. rewrite length_insert. lia.
    + intros m Hm. simpl. destruct (decide (m = a)) as [->|Hne].
      * apply list_lookup_insert_eq. lia.
      * rewrite list_lookup_insert_ne by done. apply Hz. lia.
    + exists g. rewrite E. simpl in *. rewrite length_insert in L.
      split; [done|]. split; [done|]. intros m Hm. apply Z. lia.
Qed.

(** The restart of the loading animation puts every particle that the
    position array holds in full on its start position, sets every glow
    to 0 and starts the animation at the time of the call; the
    velocities, the targets, the sizes, the timers of the explosions, the
    waves and the explosions are left as they were. *)
Theorem restart_returns_to_start nowDate w :
  isInitialized w = true ->
  hasGeometry w = true ->
  let w' := restartLoadAnimation nowDate w in
  (forall i,
     (i < totalParticleCount w)%nat ->
     (i * 3 + 2 < length (positions (store w)))%nat ->
     (i * 3 + 2 < length (startPositions (store w)))%nat ->
     get3 (positions (store w')) i = get3 (startPositions (store w)) i) /\
  glows (store w') = replicate (length (glows (store w))) 0 /\
  store w'
  = set_glows (glows (store w')) (set_positions (positions (store w')) (store w)) /\
  length (positions (store w')) = length (positions (store w)) /\
  isLoadingAnimation (CONFIG w') = true /\
  loadAnimationStartTime (CONFIG w') = Some nowDate /\
  waves (CONFIG w') = waves (CONFIG w) /\
  lastWaveTime (CONFIG w') = lastWaveTime (CONFIG w) /\
  explosions (CONFIG w') = explosions (CONFIG w).
Proof.
  intros Hi Hg w'. subst w'. unfold restartLoadAnimation.
  rewrite Hi, Hg. simpl.
  set (n := Nat.min (totalParticleCount w)
              (countOf (length (positions (store w))) 3)).
  destruct (restartLoop_shape n 0 (store w)) as (p & E & L).
  destruct (restartGlowLoop (length (glows (forLoop restartPosition 0 n (store w))))
              0 (forLoop restartPosition 0 n (store w)))
    as (g & Eg & Lg & Zg); [simpl; lia|intros m Hm; lia|].
  rewrite Eg. simpl. split; [|split; [|split; [|split]]]; try done.
  - intros i Ht Hp Hs. rewrite <- (restartLoop_at i n 0 (store w)); [done| |done].
    split; [lia|]. apply Nat.min_glb_lt; [done|by apply countOf_full].
  - symmetry. apply replicate_as_Forall. rewrite E in Lg, Zg. simpl in *.
    split; [done|]. apply Forall_lookup. intros m x Hx.
    rewrite Zg in Hx; [congruence|].
    apply lookup_lt_Some in Hx. lia.
  - rewrite E. done.
  - rewrite E. simpl. done.
Qed.

Lemma restart_returns_to_start_witness :
  let w' := restartLoadAnimation 9000 calmWorld in
  get3 (positions (store w')) 0 = mkVec3 1 2 40 /\
  glows (store w') = [0] /\
  velocities (store w') = [0; 0; 0] /\
  isLoadingAnimation (CONFIG w') = true.
Proof.
  destruct (restart_returns_to_start 9000 calmWorld)
    as (P & G & S & _ & L & _); try reflexivity.
  cbv zeta in *. split; [|split; [|split]].
  - rewrite P by (simpl; lia). unfold get3, rd. simpl. f_equal; lra.
  - rewrite G. reflexivity.
  - rewrite S. reflexivity.
  - exact L.
Defined.

(** ** The values of the loading animation *)

Lemma loadingPositionLoop_at e i n a s :
  (a <= i < a + n)%nat ->
  (i * 3 + 2 < length (positions s))%nat ->
  let s' := forLoop (loadingPosition e) a n s in
  get3 (positions s') i
  = addScaledVector (get3 (startPositions s) i)
      (subVectors (get3 (originalPositions s) i) (get3 (startPositions s) i)) e /\
  s' = set_positions (positions s') s /\
  length (positions s') = length (positions s).
Proof.
  intros Hi Hl.
  set (I := fun s' : Store =>
              s' = set_positions (positions s') s /\
              length (positions s') = length (positions s)).
  set (Post := fun s' : Store =>
              I s' /\
              get3 (positions s') i
              = addScaledVector (get3 (startPositions s) i)
                  (subVectors (get3 (originalPositions s) i)
                     (get3 (startPositions s) i)) e).
  assert (H : Post (forLoop (loadingPosition e) a n s)).
  { apply (forLoop_at (loadingPosition e) I (fun _ => True) Post i); try done.
    - intros j t Hj [E L]. unfold loadingPosition.
      rewrite bool_decide_false by lia. eexists. split; [reflexivity|].
      split; simpl; [by rewrite E|]. by rewrite !length_insert.
    - intros t t' [E L] _. unfold loadingPosition.
      case_bool_decide; [done|]. intros [= <-]. split; [split|]; simpl.
      + by rewrite E.
      + by rewrite !length_insert.
      + rewrite get3_insert3 by lia. rewrite E. reflexivity.
    - intros j t t' Hj [[E L] P]. unfold loadingPosition.
      case_bool_decide; [done|]. intros [= <-]. split; [split|]; simpl.
      + by rewrite E.
      + by rewrite !length_insert.
      + rewrite <- P. unfold get3. rewrite !rd_insert_ne by lia. reflexivity.
    - split; [by destruct s|done]. }
  destruct H as [[E L] P]. done.
Qed.

Lemma loadingColorLoop_at c camZ i n a s :
  (a <= i < a + n)%nat ->
  (i * 3 + 2 < length (colors s))%nat ->
  let s' := forLoop (loadingColor c camZ) a n s in
  let b :=
    clamp01
      (1 - clamp01 (Rabs (rd (positions s) (i * 3 + 2) - camZ) / 70)
           * depthDarkeningStrength c) in
  get3 (colors s') i = mkVec3 b b b /\
  s' = set_colors (colors s') s.
Proof.
  intros Hi Hl s' b. subst s'.
  set (I := fun s' : Store =>
              s' = set_colors (colors s') s /\
              length (colors s') = length (colors s)).
  set (Post := fun s' : Store => I s' /\ get3 (colors s') i = mkVec3 b b b).
  assert (H : Post (forLoop (loadingColor c camZ) a n s)).
  { apply (forLoop_at (loadingColor c camZ) I (fun _ => True) Post i); try done.
    - intros j t Hj [E L]. unfold loadingColor.
      rewrite bool_decide_false by lia. eexists. split; [reflexivity|].
      split; simpl; [by rewrite E|]. by rewrite !length_insert.
    - intros t t' [E L] _. unfold loadingColor.
      case_bool_decide; [done|]. intros [= <-]. split; [split|]; simpl.
      + by rewrite E.
      + by rewrite !length_insert.
      + rewrite get3_insert3 by lia. rewrite E. simpl. subst b.
        unfold clamp01, fixedDistanceRange, fixedMaxDistance, fixedMinDistance.
        replace (70 - 0) with 70 by lra. reflexivity.
    - intros j t t' Hj [[E L] P]. unfold loadingColor.
      case_bool_decide; [done|]. intros [= <-]. split; [split|]; simpl.
      + by rewrite E.
      + by rewrite !length_insert.
      + rewrite <- P. unfold get3. rewrite !rd_insert_ne by lia. reflexivity.
    - split; [by destruct s|done]. }
  destruct H as [[E L] P]. done.
Qed.

Lemma loadingGlowLoop_at g i n a s :
  (a <= i < a + n)%nat ->
  (i < length (glows s))%nat ->
  let s' := forLoop (loadingGlow g) a n s in
  rd (glows s') i = g /\ s' = set_glows (glows s') s.
Proof.
  intros Hi Hl s'. subst s'.
  set (I := fun s' : Store =>
              s' = set_glows (glows s') s /\
              length (glows s') = length (glows s)).
  set (Post := fun s' : Store => I s' /\ rd (glows s') i = g).
  assert (H : Post (forLoop (loadingGlow g) a n s)).
  { apply (forLoop_at (loadingGlow g) I (fun _ => True) Post i); try done.
    - intros j t Hj [E L]. unfold loadingGlow.
      eexists. split; [reflexivity|].
      split; simpl; [by rewrite E|]. by rewrite !length_insert.
    - intros t t' [E L] _. unfold loadingGlow. intros [= <-].
      split; [split|]; simpl.
      + by rewrite E.
      + by rewrite !length_insert.
      + rewrite rd_insert_eq by lia. reflexivity.
    - intros j t t' Hj [[E L] P]. unfold loadingGlow. intros [= <-].
      split; [split|]; simpl.
      + by rewrite E.
      + by rewrite !length_insert.
      + rewrite <- P. rewrite rd_insert_ne by lia. reflexivity.
    - split; [by destruct s|done]. }
  destruct H as [[E L] P]. done.
Qed.

Lemma loadingStep_values rnd nowDate nowPerf w start i :
  isInitialized w = true ->
  hasGeometry w = true ->
  isLoadingAnimation (CONFIG w) = true ->
  loadAnimationStartTime (CONFIG w) = Some start ->
  loadAnimationDuration (CONFIG w) <> 0 ->
  loadProgress nowDate start (CONFIG w) < 1 ->
  (i < totalParticleCount w)%nat ->
  (i * 3 + 2 < length (positions (store w)))%nat ->
  (i * 3 + 2 < length (startPositions (store w)))%nat ->
  (i * 3 + 2 < length (originalPositions (store w)))%nat ->
  let c := CONFIG w in
  let s := store w in
  let e := easingOf (loadAnimationEasingCurve c) (loadProgress nowDate start c) in
  let t := store (updatePhysics rnd nowDate nowPerf w) in
  get3 (positions t) i
  = addScaledVector (get3 (startPositions s) i)
      (subVectors (get3 (originalPositions s) i) (get3 (startPositions s) i)) e /\
  ((i < length (glows s))%nat -> rd (glows t) i = glowBrightness c * e) /\
  (hasColorAttr w = true -> (i * 3 + 2 < length (colors s))%nat ->
   let b :=
     clamp01
       (1 - clamp01 (Rabs (vz (get3 (positions t) i) - camZ (camera w)) / 70)
            * depthDarkeningStrength c) in
   get3 (colors t) i = mkVec3 b b b /\ 0 <= b <= 1).
Proof.
  intros Hi Hg Hl Hst Hd Hp Ht Lp Ls Lo c s e t. subst t.
  unfold updatePhysics. rewrite Hi, Hg. simpl.
  unfold loadingPhase. rewrite Hl, Hst.
  rewrite bool_decide_false by lra. simpl. fold c s e.
  set (n := Nat.min (totalParticleCount w) (countOf (length (positions s)) 3)).
  assert (Hn : (0 <= i < 0 + n)%nat).
  { split; [lia|]. apply Nat.min_glb_lt; [done|by apply countOf_full]. }
  destruct (loadingPositionLoop_at e i n 0 s Hn Lp) as (P1 & E1 & L1).
  set (s1 := forLoop (loadingPosition e) 0 n s) in *.
  set (s2 := if hasColorAttr w
             then forLoop (loadingColor c (camZ (camera w))) 0 n s1 else s1).
  assert (E2 : s2 = set_colors (colors s2) s1).
  { subst s2. destruct (hasColorAttr w); [|by destruct s1].
    destruct (Nat.le_gt_cases n 0) as [Hz|Hz]; [lia|].
    apply (forLoop_invariant (loadingColor c (camZ (camera w)))
             (fun t => t = set_colors (colors t) s1) 0%nat); [|lia|by destruct s1].
    intros j u u' _ E. unfold loadingColor.
    case_bool_decide; [done|]. intros [= <-]. simpl. by rewrite E. }
  set (g := glowBrightness c * e).
  set (m := Nat.min n (length (glows s2))).
  set (s3 := forLoop (loadingGlow g) 0 m s2).
  assert (E3 : s3 = set_glows (glows s3) s2).
  { subst s3.
    apply (forLoop_invariant (loadingGlow g)
             (fun t => t = set_glows (glows t) s2) 0%nat); [|lia|by destruct s2].
    intros j u u' _ E. unfold loadingGlow. intros [= <-]. simpl. by rewrite E. }
  assert (Ep : positions s3 = positions s1) by (rewrite E3, E2; done).
  assert (Eg : glows s2 = glows s) by (rewrite E2, E1; done).
  split; [|split].
  - rewrite Ep. exact P1.
  - intros Lg.
    destruct (loadingGlowLoop_at g i m 0 s2) as [G _];
      [subst m; rewrite Eg; lia|rewrite Eg; lia|exact G].
  - intros Hc Lc.
    assert (Ec : colors s3 = colors s2) by (rewrite E3; done).
    rewrite Ec. subst s2. rewrite Hc in *.
    destruct (loadingColorLoop_at c (camZ (camera w)) i n 0 s1 Hn) as [C _].
    { rewrite E1. simpl. done. }
    split; [|apply clamp01_range].
    rewrite C. rewrite Ep. reflexivity.
Qed.

(** ** The curve editor *)

Lemma bezierEasing_low t a b c d : t <= 0 -> bezierEasing t a b c d = 0.
Proof.
  intros H. unfold bezierEasing.
  assert (E : Rmax 0 (Rmin 1 t) = 0).
  { rewrite Rmin_right by lra. apply Rmax_left. lra. }
  rewrite E. lra.
Qed.

Lemma bezierEasing_high t a b c d : 1 <= t -> bezierEasing t a b c d = 1.
Proof.
  intros H. unfold bezierEasing.
  assert (E : Rmax 0 (Rmin 1 t) = 1).
  { rewrite Rmin_left by lra. apply Rmax_right. lra. }
  rewrite E. lra.
Qed.

Lemma bezierEasing_unit t a b c d :
  0 <= b <= 1 -> 0 <= d <= 1 -> 0 <= bezierEasing t a b c d <= 1.
Proof.
  intros Hb Hd. unfold bezierEasing.
  pose proof (clamp01_range t) as Hu. unfold clamp01 in Hu.
  set (u := Rmax 0 (Rmin 1 t)) in *.
  assert (H1 : 0 <= (1 - u) * (1 - u) * u) by (apply Rmult_le_pos; nra).
  assert (H2 : 0 <= (1 - u) * (u * u)) by (apply Rmult_le_pos; nra).
  assert (H3 : 0 <= u * u * u) by (apply Rmult_le_pos; nra).
  assert (H4 : 0 <= (1 - u) * (1 - u) * (1 - u)) by (apply Rmult_le_pos; nra).
  split.
  - assert (0 <= (1 - u) * (1 - u) * u * b) by (apply Rmult_le_pos; lra).
    assert (0 <= (1 - u) * (u * u) * d) by (apply Rmult_le_pos; lra).
    lra.
  - assert ((1 - u) * (1 - u) * u * b <= (1 - u) * (1 - u) * u) by nra.
    assert ((1 - u) * (u * u) * d <= (1 - u) * (u * u)) by nra.
    nra.
Qed.

(** The evaluator is 0 up to progress 0 and 1 from progress 1 on,
    whatever the control points are; with the Y-coordinates of both
    control points in [[0, 1]] its value lies in [[0, 1]] at every
    progress. *)
Theorem bezierEasing_range :
  (forall t a b c d, t <= 0 -> bezierEasing t a b c d = 0) /\
  (forall t a b c d, 1 <= t -> bezierEasing t a b c d = 1) /\
  (forall t a b c d,
     0 <= b <= 1 -> 0 <= d <= 1 -> 0 <= bezierEasing t a b c d <= 1).
Proof.
  split; [|split].
  - apply bezierEasing_low.
  - apply bezierEasing_high.
  - apply bezierEasing_unit.
Qed.

Lemma bezierEasing_range_witness :
  bezierEasing (-1) 0.42 0 0.58 1 = 0 /\
  bezierEasing 3 0.42 0 0.58 1 = 1 /\
  0 <= bezierEasing 0.3 0.42 0 0.58 1 <= 1.
Proof.
  destruct bezierEasing_range as (L & H & U).
  split; [apply L; lra|]. split; [apply H; lra|]. apply U; lra.
Defined.

(** A step during the loading animation puts every particle that the
    arrays hold in full at [start + (target - start) * easing(progress)],
    sets its glow to [glowBrightness * easing(progress)] and writes to
    its three color channels the depth term of its new position,
    clamped to [[0, 1]] at both ends. *)
Theorem loading_interpolates rnd nowDate nowPerf w start i :
  isInitialized w = true ->
  hasGeometry w = true ->
  isLoadingAnimation (CONFIG w) = true ->
  loadAnimationStartTime (CONFIG w) = Some start ->
  loadAnimationDuration (CONFIG w) <> 0 ->
  loadProgress nowDate start (CONFIG w) < 1 ->
  (i < totalParticleCount w)%nat ->
  (i * 3 + 2 < length (positions (store w)))%nat ->
  (i * 3 + 2 < length (startPositions (store w)))%nat ->
  (i * 3 + 2 < length (originalPositions (store w)))%nat ->
  let c := CONFIG w in
  let s := store w in
  let e := easingOf (loadAnimationEasingCurve c) (loadProgress nowDate start c) in
  let t := store (updatePhysics rnd nowDate nowPerf w) in
  get3 (positions t) i
  = addScaledVector (get3 (startPositions s) i)
      (subVectors (get3 (originalPositions s) i) (get3 (startPositions s) i)) e /\
  ((i < length (glows s))%nat -> rd (glows t) i = glowBrightness c * e) /\
  (hasColorAttr w = true -> (i * 3 + 2 < length (colors s))%nat ->
   let b :=
     clamp01
       (1 - clamp01 (Rabs (vz (get3 (positions t) i) - camZ (camera w)) / 70)
            * depthDarkeningStrength c) in
   get3 (colors t) i = mkVec3 b b b /\ 0 <= b <= 1).
Proof. apply loadingStep_values. Qed.

Lemma loading_interpolates_witness :
  let e := easingOf preset_ease_in_out (1 / 4) in
  let t := store (updatePhysics halves 1000 1000 loadingWorld) in
  get3 (positions t) 0 = mkVec3 1 2 (40 - 40 * e) /\
  rd (glows t) 0 = 0.19 * e.
Proof.
  assert (P : loadProgress 1000 0 (CONFIG loadingWorld) = 1 / 4).
  { unfold loadProgress. simpl. rewrite Rmin_right by lra. lra. }
  destruct (loading_interpolates halves 1000 1000 loadingWorld 0 0)
    as (E1 & E2 & _); try reflexivity; try (simpl; lia).
  - simpl. lra.
  - rewrite P. lra.
  - cbv zeta in *. rewrite P in E1, E2. split.
    + rewrite E1. unfold addScaledVector, subVectors, get3, rd. simpl.
      f_equal; lra.
    + rewrite E2 by (simpl; lia). reflexivity.
Defined.

Lemma between_lerp a b e :
  0 <= e <= 1 -> Rmin a b <= a + (b - a) * e <= Rmax a b.
Proof.
  intros He. unfold Rmin, Rmax. destruct (Rle_dec a b); nra.
Qed.

(** With the control points of the curve in the unit square, a step
    during the loading animation leaves every coordinate of a particle
    between its start and its target: the animation does not overshoot. *)
Theorem loading_never_overshoots rnd nowDate nowPerf w start i :
  isInitialized w = true ->
  hasGeometry w = true ->
  isLoadingAnimation (CONFIG w) = true ->
  loadAnimationStartTime (CONFIG w) = Some start ->
  loadAnimationDuration (CONFIG w) <> 0 ->
  loadProgress nowDate start (CONFIG w) < 1 ->
  inUnitSquare (loadAnimationEasingCurve (CONFIG w)) ->
  (i < totalParticleCount w)%nat ->
  (i * 3 + 2 < length (positions (store w)))%nat ->
  (i * 3 + 2 < length (startPositions (store w)))%nat ->
  (i * 3 + 2 < length (originalPositions (store w)))%nat ->
  let a := get3 (startPositions (store w)) i in
  let b := get3 (originalPositions (store w)) i in
  let p := get3 (positions (store (updatePhysics rnd nowDate nowPerf w))) i in
  Rmin (vx a) (vx b) <= vx p <= Rmax (vx a) (vx b) /\
  Rmin (vy a) (vy b) <= vy p <= Rmax (vy a) (vy b) /\
  Rmin (vz a) (vz b) <= vz p <= Rmax (vz a) (vz b).
Proof.
  intros Hi Hg Hl Hst Hd Hp Hc Ht Lp Ls Lo a b p. subst p.
  destruct (loadingStep_values rnd nowDate nowPerf w start i
              Hi Hg Hl Hst Hd Hp Ht Lp Ls Lo) as [E _].
  cbv zeta in E. rewrite E. fold a b.
  destruct Hc as [[_ H1] [_ H2]].
  pose proof (bezierEasing_unit (loadProgress nowDate start (CONFIG w))
                (p1x (loadAnimationEasingCurve (CONFIG w)))
                (p1y (loadAnimationEasingCurve (CONFIG w)))
                (p2x (loadAnimationEasingCurve (CONFIG w)))
                (p2y (loadAnimationEasingCurve (CONFIG w))) H1 H2) as He.
  fold (easingOf (loadAnimationEasingCurve (CONFIG w))
          (loadProgress nowDate start (CONFIG w))) in He.
  unfold addScaledVector, subVectors. simpl.
  repeat split; apply between_lerp; exact He.
Qed.

Lemma loading_never_overshoots_witness :
  let p := get3 (positions (store (updatePhysics halves 1000 1000 loadingWorld))) 0 in
  0 <= vz p <= 40.
Proof.
  assert (P : loadProgress 1000 0 (CONFIG loadingWorld) = 1 / 4).
  { unfold loadProgress. simpl. rewrite Rmin_right by lra. lra. }
  destruct (loading_never_overshoots halves 1000 1000 loadingWorld 0 0)
    as (_ & _ & Z); try reflexivity; try (simpl; lia).
  - simpl. lra.
  - rewrite P. lra.
  - unfold inUnitSquare. simpl. repeat split; lra.
  - cbv zeta in *.
    set (p := get3 (positions (store (updatePhysics halves 1000 1000 loadingWorld))) 0) in *.
    change (vz (get3 (startPositions (store loadingWorld)) 0)) with (0 + 40) in Z.
    change (vz (get3 (originalPositions (store loadingWorld)) 0)) with 0 in Z.
    rewrite Rmin_right in Z by lra. rewrite Rmax_left in Z by lra. lra.
Defined.

Arguments canvasPointOf : simpl never.
Arguments getPointFromMouse : simpl never.

Lemma dprOf_nonzero cv : dprOf cv <> 0.
Proof. unfold dprOf. destruct (decide _); lra. Qed.

Lemma getPointFromMouse_canvasPointOf cv x y :
  canvasWidth cv / dprOf cv - padding * 2 <> 0 ->
  canvasHeight cv / dprOf cv - padding * 2 <> 0 ->
  0 <= x <= 1 -> 0 <= y <= 1 ->
  getPointFromMouse cv (rectLeft cv + (canvasPointOf cv x y).1)
    (rectTop cv + (canvasPointOf cv x y).2)
  = mkMousePoint x y (canvasPointOf cv x y).1 (canvasPointOf cv x y).2.
Proof.
  intros Hw Hh Hx Hy. pose proof (dprOf_nonzero cv) as Hd.
  unfold getPointFromMouse, canvasPointOf. simpl.
  set (W := canvasWidth cv / dprOf cv - padding * 2) in *.
  set (H := canvasHeight cv / dprOf cv - padding * 2) in *.
  assert (E1 : (rectLeft cv + (padding + x * W) - rectLeft cv) * dprOf cv / dprOf cv
               = padding + x * W) by (field; done).
  assert (E2 : (rectTop cv + (padding + H - y * H) - rectTop cv) * dprOf cv / dprOf cv
               = padding + H - y * H) by (field; done).
  rewrite E1, E2.
  assert (E3 : (padding + x * W - padding) / W = x) by (field; done).
  assert (E4 : 1 - (padding + H - y * H - padding) / H = y) by (field; done).
  rewrite E3, E4. rminmax. reflexivity.
Qed.

Lemma setControlPoint_same h c :
  setControlPoint h
    (match h with P1 => p1x c | P2 => p2x c end)
    (match h with P1 => p1y c | P2 => p2y c end) c = c.
Proof. destruct h, c; reflexivity. Qed.

Lemma sqrt_sq_zero a b : sqrt ((a - a) ^ 2 + (b - b) ^ 2) = 0.
Proof.
  replace ((a - a) ^ 2 + (b - b) ^ 2) with 0 by ring. apply sqrt_0.
Qed.

(** The editor reads a control point back from where it draws it: a
    press on the drawn position of [p1] grabs [p1], and a move of the
    mouse that stays there leaves the curve as it is; the same holds for
    [p2] when it is drawn 10 pixels or more away from [p1]. *)
Theorem curve_editor_round_trip cv c e :
  canvasWidth cv / dprOf cv - padding * 2 <> 0 ->
  canvasHeight cv / dprOf cv - padding * 2 <> 0 ->
  inUnitSquare c ->
  let at1 := canvasPointOf cv (p1x c) (p1y c) in
  let at2 := canvasPointOf cv (p2x c) (p2y c) in
  let x1 := rectLeft cv + at1.1 in
  let y1 := rectTop cv + at1.2 in
  let x2 := rectLeft cv + at2.1 in
  let y2 := rectTop cv + at2.2 in
  (mpX (getPointFromMouse cv x1 y1) = p1x c /\
   mpY (getPointFromMouse cv x1 y1) = p1y c /\
   onCurveMouseDown cv x1 y1 c e = mkEditor true (Some P1) /\
   onCurveMouseMove cv x1 y1 (onCurveMouseDown cv x1 y1 c e) c = c) /\
  (10 <= sqrt ((at2.1 - at1.1) ^ 2 + (at2.2 - at1.2) ^ 2) ->
   mpX (getPointFromMouse cv x2 y2) = p2x c /\
   mpY (getPointFromMouse cv x2 y2) = p2y c /\
   onCurveMouseDown cv x2 y2 c e = mkEditor true (Some P2) /\
   onCurveMouseMove cv x2 y2 (onCurveMouseDown cv x2 y2 c e) c = c).
Proof.
  intros Hw Hh [[H1x H1y] [H2x H2y]] at1 at2 x1 y1 x2 y2.
  pose proof (getPointFromMouse_canvasPointOf cv (p1x c) (p1y c) Hw Hh H1x H1y) as E1.
  pose proof (getPointFromMouse_canvasPointOf cv (p2x c) (p2y c) Hw Hh H2x H2y) as E2.
  fold at1 x1 y1 in E1. fold at2 x2 y2 in E2.
  assert (D1 : getPointUnderMouse cv c x1 y1 = Some P1).
  { unfold getPointUnderMouse. rewrite E1. fold at1 at2.
    destruct at1 as [a b]. destruct at2 as [a' b'].
    cbn [fst snd mpCanvasX mpCanvasY].
    rewrite sqrt_sq_zero. by rewrite bool_decide_true by lra. }
  split.
  - rewrite E1. cbn [mpX mpY]. split; [done|]. split; [done|].
    unfold onCurveMouseDown. rewrite D1. split; [done|].
    unfold onCurveMouseMove. cbn [isDragging draggedPoint].
    rewrite E1. cbn [mpX mpY].
    rminmax. apply (setControlPoint_same P1).
  - intros Hfar.
    assert (D2 : getPointUnderMouse cv c x2 y2 = Some P2).
    { unfold getPointUnderMouse. rewrite E2. fold at1 at2. revert Hfar.
      destruct at1 as [a b]. destruct at2 as [a' b'].
      cbn [fst snd mpCanvasX mpCanvasY]. intros Hfar.
      rewrite sqrt_sq_zero.
      rewrite bool_decide_false by lra. by rewrite bool_decide_true by lra. }
    rewrite E2. cbn [mpX mpY]. split; [done|]. split; [done|].
    unfold onCurveMouseDown. rewrite D2. split; [done|].
    unfold onCurveMouseMove. cbn [isDragging draggedPoint].
    rewrite E2. cbn [mpX mpY].
    rminmax. apply (setControlPoint_same P2).
Qed.

Lemma curve_editor_round_trip_witness :
  onCurveMouseDown exampleCanvas 272.88 232 preset_ease_in_out
    (mkEditor false None)
  = mkEditor true (Some P1) /\
  onCurveMouseMove exampleCanvas 272.88 232
    (onCurveMouseDown exampleCanvas 272.88 232 preset_ease_in_out
       (mkEditor false None)) preset_ease_in_out
  = preset_ease_in_out.
Proof.
  assert (Hd : dprOf exampleCanvas = 2).
  { unfold dprOf. simpl. destruct (decide _); lra. }
  destruct (curve_editor_round_trip exampleCanvas preset_ease_in_out
              (mkEditor false None)) as [(_ & _ & D & M) _].
  - rewrite Hd. unfold padding. simpl. lra.
  - rewrite Hd. unfold padding. simpl. lra.
  - unfold inUnitSquare. simpl. repeat split; lra.
  - cbv zeta in D, M. unfold canvasPointOf in D, M. rewrite Hd in D, M.
    unfold padding in D, M. simpl in D, M.
    replace (100 + (20 + 0.42 * (808 / 2 - 20 * 2))) with 272.88 in D, M by lra.
    replace (50 + (20 + (404 / 2 - 20 * 2) - 0 * (404 / 2 - 20 * 2))) with 232
      in D, M by lra.
    split; [exact D|exact M].
Defined.

(** A move of the mouse while a control point is dragged puts that
    control point at the mouse position clamped to the unit square and
    leaves the other control point; a curve in the unit square stays in
    it, and its easing value lies in [[0, 1]] at every progress.
    Without a drag the curve is left as it is. *)
Theorem drag_keeps_curve_in_unit_square cv clientX clientY e c :
  inUnitSquare c ->
  let c1 := onCurveMouseMove cv clientX clientY e c in
  let c2 := onDocumentMouseMove cv clientX clientY e c in
  inUnitSquare c1 /\ inUnitSquare c2 /\
  (forall progress,
     0 <= easingOf c1 progress <= 1 /\ 0 <= easingOf c2 progress <= 1) /\
  (forall h, isDragging e = true -> draggedPoint e = Some h ->
     c1 = setControlPoint h
            (clamp01 (mpX (getPointFromMouse cv clientX clientY)))
            (clamp01 (mpY (getPointFromMouse cv clientX clientY))) c) /\
  (isDragging e = false \/ draggedPoint e = None -> c1 = c /\ c2 = c).
Proof.
  intros Hc c1 c2.
  assert (Hset : forall h x y, inUnitSquare (setControlPoint h (clamp01 x) (clamp01 y) c)).
  { intros h x y. pose proof (clamp01_range x). pose proof (clamp01_range y).
    destruct Hc as [[? ?] [? ?]]. destruct h; repeat split; simpl; lra. }
  assert (H1 : inUnitSquare c1).
  { subst c1. unfold onCurveMouseMove.
    destruct (isDragging e); [|done]. destruct (draggedPoint e); [|done].
    apply Hset. }
  assert (H2 : inUnitSquare c2).
  { subst c2. unfold onDocumentMouseMove.
    destruct (isDragging e); [|done]. destruct (draggedPoint e); [|done].
    destruct (_ && _); [|done]. apply Hset. }
  split; [done|]. split; [done|]. split; [|split].
  - intros p. destruct H1 as [[_ A1] [_ B1]]. destruct H2 as [[_ A2] [_ B2]].
    split; apply bezierEasing_unit; done.
  - intros h Hd Hp. subst c1. unfold onCurveMouseMove. by rewrite Hd, Hp.
  - intros [Hd|Hp]; subst c1 c2; unfold onCurveMouseMove, onDocumentMouseMove.
    + by rewrite Hd.
    + rewrite Hp. by destruct (isDragging e).
Qed.

Lemma drag_keeps_curve_in_unit_square_witness :
  inUnitSquare
    (onCurveMouseMove exampleCanvas 900 (-30) (mkEditor true (Some P2))
       preset_ease_in_out).
Proof.
  destruct (drag_keeps_curve_in_unit_square exampleCanvas 900 (-30)
              (mkEditor true (Some P2)) preset_ease_in_out) as [H _].
  - unfold inUnitSquare. simpl. repeat split; lra.
  - exact H.
Defined.

(** ** The sizes of the particles *)

Arguments generateSize : simpl never.
Arguments hideInvisible : simpl never.
Arguments keepsInvisible : simpl never.

Lemma generateSizeLoop_at rnd c i n a s k :
  (a <= i < a + n)%nat ->
  (i < length (sizes s))%nat ->
  let r := forLoop (generateSize rnd c) a n (s, k) in
  r.1 = set_sizes (sizes r.1) s /\
  length (sizes r.1) = length (sizes s) /\
  (k <= r.2)%nat /\
  (if keepsInvisible c s i then rd (sizes r.1) i = 0
   else exists k0, (k <= k0 < r.2)%nat /\
          rd (sizes r.1) i
          = pointSize c * (1 - sizeVariation c)
            + rnd k0 * (pointSize c * (1 + sizeVariation c)
                        - pointSize c * (1 - sizeVariation c))).
Proof.
  intros Hi Hl r. subst r.
  set (I := fun r : Store * nat =>
              r.1 = set_sizes (sizes r.1) s /\
              length (sizes r.1) = length (sizes s) /\ (k <= r.2)%nat).
  set (Q := fun r : Store * nat =>
              if keepsInvisible c s i then rd (sizes r.1) i = 0
              else exists k0, (k <= k0 < r.2)%nat /\
                     rd (sizes r.1) i
                     = pointSize c * (1 - sizeVariation c)
                       + rnd k0 * (pointSize c * (1 + sizeVariation c)
                                   - pointSize c * (1 - sizeVariation c))).
  assert (Hk : forall t, t = set_sizes (sizes t) s ->
                 forall j, keepsInvisible c t j = keepsInvisible c s j).
  { intros t E j. unfold keepsInvisible. by rewrite E. }
  assert (H : (fun r => I r /\ Q r) (forLoop (generateSize rnd c) a n (s, k))).
  { apply (forLoop_at (generateSize rnd c) I (fun _ => True)
             (fun r => I r /\ Q r) i); try done.
    - intros j [t kt] _ (E & L & K). unfold generateSize. simpl in *.
      destruct (keepsInvisible c t j); eexists; (split; [reflexivity|]);
        unfold I; simpl; rewrite length_insert; repeat split; try done;
        try lia; by rewrite E.
    - intros [t kt] [t' kt'] (E & L & K) _. unfold generateSize. simpl in *.
      rewrite (Hk t E i). unfold Q, I.
      destruct (keepsInvisible c s i); intros [= <- <-]; simpl;
        rewrite length_insert, rd_insert_eq by lia;
        (split; [repeat split; try done; try lia; by rewrite E|]).
      + reflexivity.
      + exists kt. split; [lia|reflexivity].
    - intros j [t kt] [t' kt'] Hj [(E & L & K) HQ]. unfold generateSize.
      simpl in *. unfold Q, I in *.
      destruct (keepsInvisible c t j); intros [= <- <-]; simpl in *;
        rewrite length_insert, rd_insert_ne by lia;
        (split; [repeat split; try done; try lia; by rewrite E|]).
      + exact HQ.
      + destruct (keepsInvisible c s i); [done|].
        destruct HQ as (k0 & ? & ?). exists k0. split; [lia|done].
    - unfold I. simpl. split; [by destruct s|]. split; [done|lia]. }
  destruct H as [(E & L & K) HQ]. done.
Qed.

Lemma hideInvisibleLoop_id n a s :
  baseSizes s = sizes s -> forLoop hideInvisible a n s = s.
Proof.
  intros E. revert a. induction n as [|n IH]; intros a; [done|]. simpl.
  assert (H : hideInvisible a s = Some s).
  { unfold hideInvisible. destruct (_ && _) eqn:B; [|done].
    apply andb_true_iff in B as [B1 B2].
    apply bool_decide_eq_true in B1, B2. f_equal.
    rewrite E in B1, B2. unfold rd in B2.
    destruct (sizes s !! a) as [x|] eqn:Ex.
    - simpl in B2. subst x. rewrite list_insert_id by done. by destruct s.
    - apply lookup_ge_None in Ex. lia. }
  rewrite H. apply IH.
Qed.

Lemma generateParticleSizes_at rnd w i :
  (i < totalParticleCount w)%nat ->
  let w' := generateParticleSizes rnd w in
  let c := CONFIG w in
  store w' = set_sizes (sizes (store w')) (store w) /\
  length (sizes (store w')) = totalParticleCount w /\
  CONFIG w' = c /\
  totalParticleCount w' = totalParticleCount w /\
  (if keepsInvisible c (store w) i then rd (sizes (store w')) i = 0
   else exists k0,
          rd (sizes (store w')) i
          = pointSize c * (1 - sizeVariation c)
            + rnd k0 * (pointSize c * (1 + sizeVariation c)
                        - pointSize c * (1 - sizeVariation c))).
Proof.
  intros Hi w' c. subst w'. unfold generateParticleSizes.
  set (s0 := if bool_decide (length (sizes (store w)) <> totalParticleCount w)
             then set_sizes (replicate (totalParticleCount w) 0) (store w)
             else store w).
  assert (E0 : s0 = set_sizes (sizes s0) (store w)).
  { subst s0. case_bool_decide; [done|by destruct (store w)]. }
  assert (L0 : length (sizes s0) = totalParticleCount w).
  { subst s0. case_bool_decide; simpl; [by rewrite length_replicate|].
    destruct (decide (length (sizes (store w)) = totalParticleCount w)); done. }
  destruct (generateSizeLoop_at rnd (CONFIG w) i (totalParticleCount w) 0 s0
              (randomCalls w)) as (E & L & K & Q); [lia|lia|].
  destruct (forLoop _ _ _ _) as [s1 k1]. cbn [fst snd] in *.
  cbn [store withRandom CONFIG totalParticleCount].
  split; [rewrite E, E0; done|]. split; [lia|]. split; [done|]. split; [done|].
  replace (keepsInvisible c (store w) i) with (keepsInvisible c s0 i)
    by (unfold keepsInvisible; by rewrite E0).
  fold c in Q. destruct (keepsInvisible c s0 i); [done|].
  destruct Q as (k0 & _ & Q). by exists k0.
Qed.

Lemma keepsInvisible_withSizes c a b s i :
  keepsInvisible (withSizes c a b) s i = keepsInvisible c s i.
Proof. reflexivity. Qed.

Lemma onSizeInput_sizes rnd id value w i :
  (i < totalParticleCount w)%nat ->
  let w' := onSizeInput rnd id value w in
  let c' := CONFIG w' in
  c' = match id with
       | PointSizeControl => withSizes (CONFIG w) value (sizeVariation (CONFIG w))
       | SizeVariationControl => withSizes (CONFIG w) (pointSize (CONFIG w)) value
       end /\
  length (sizes (store w')) = totalParticleCount w /\
  (length (baseSizes (store w)) = totalParticleCount w ->
   baseSizes (store w') = sizes (store w')) /\
  (length (baseSizes (store w)) <> totalParticleCount w ->
   baseSizes (store w') = baseSizes (store w)) /\
  store w'
  = set_baseSizes (baseSizes (store w'))
      (set_sizes (sizes (store w')) (store w)) /\
  (if keepsInvisible (CONFIG w) (store w) i then rd (sizes (store w')) i = 0
   else exists k0,
          rd (sizes (store w')) i
          = pointSize c' * (1 - sizeVariation c')
            + rnd k0 * (pointSize c' * (1 + sizeVariation c')
                        - pointSize c' * (1 - sizeVariation c'))).
Proof.
  intros Hi w' c'. subst c' w'. unfold onSizeInput.
  set (c := match id with
            | PointSizeControl => withSizes (CONFIG w) value (sizeVariation (CONFIG w))
            | SizeVariationControl => withSizes (CONFIG w) (pointSize (CONFIG w)) value
            end).
  cbn [store withConfig totalParticleCount].
  set (s0 := if bool_decide (length (sizes (store w)) <> totalParticleCount w)
             then set_sizes (replicate (totalParticleCount w) 0) (store w)
             else store w).
  assert (E0 : s0 = set_sizes (sizes s0) (store w)).
  { subst s0. case_bool_decide; [done|by destruct (store w)]. }
  set (w0 := withStore s0 (withConfig c w)).
  destruct (generateParticleSizes_at rnd w0 i) as (E & L & C & T & Q); [done|].
  set (w1 := generateParticleSizes rnd w0) in *.
  unfold w0 in E, L, C, T, Q.
  cbn [store withStore CONFIG withConfig totalParticleCount] in E, L, C, T, Q.
  assert (Eb : baseSizes (store w1) = baseSizes (store w))
    by (rewrite E; simpl; rewrite E0; done).
  assert (Kc : keepsInvisible c s0 i = keepsInvisible (CONFIG w) (store w) i).
  { unfold keepsInvisible. rewrite E0. by destruct id. }
  rewrite Kc in Q.
  set (s2 := if bool_decide (length (baseSizes (store w1)) = length (sizes (store w1)))
             then set_baseSizes (sizes (store w1)) (store w1) else store w1).
  assert (S2 : sizes s2 = sizes (store w1)) by (subst s2; by case_bool_decide).
  set (s3 := if bool_decide (length (baseSizes s2) = length (sizes s2))
             then forLoop hideInvisible (particleCount c)
                    (length (sizes s2) - particleCount c) s2
             else s2).
  assert (E3 : s3 = s2).
  { subst s3. case_bool_decide as Hb; [|done].
    apply hideInvisibleLoop_id. subst s2. revert Hb.
    case_bool_decide as Hc; [done|]. simpl. intros Hb. done. }
  cbn [store withStore CONFIG]. rewrite E3, S2, C.
  split; [done|]. split; [done|]. split; [|split; [|split]].
  - intros Hb. subst s2. rewrite bool_decide_true by (rewrite Eb; lia). done.
  - intros Hb. subst s2. rewrite bool_decide_false by (rewrite Eb; lia). done.
  - subst s2. case_bool_decide; simpl; rewrite E; simpl; rewrite E0; done.
  - exact Q.
Qed.

(** A change of [pointSize] or of [sizeVariation] draws a new size for
    every particle between [pointSize * (1 - sizeVariation)] and
    [pointSize * (1 + sizeVariation)], except that an invisible particle
    outside the formation (base size 0) keeps the size 0; the base sizes
    become the new sizes when both arrays hold all particles. *)
Theorem size_input_regenerates rnd id value w i :
  (forall k, 0 <= rnd k < 1) ->
  (i < totalParticleCount w)%nat ->
  let w' := onSizeInput rnd id value w in
  let c' := CONFIG w' in
  let lo := pointSize c' * (1 - sizeVariation c') in
  let hi := pointSize c' * (1 + sizeVariation c') in
  match id with
  | PointSizeControl =>
      pointSize c' = value /\ sizeVariation c' = sizeVariation (CONFIG w)
  | SizeVariationControl =>
      pointSize c' = pointSize (CONFIG w) /\ sizeVariation c' = value
  end /\
  length (sizes (store w')) = totalParticleCount w /\
  (length (baseSizes (store w)) = totalParticleCount w ->
   baseSizes (store w') = sizes (store w')) /\
  (keepsInvisible (CONFIG w) (store w) i = true ->
   rd (sizes (store w')) i = 0) /\
  (keepsInvisible (CONFIG w) (store w) i = false -> lo <= hi ->
   lo <= rd (sizes (store w')) i <= hi).
Proof.
  intros Hr Hi w' c' lo hi.
  destruct (onSizeInput_sizes rnd id value w i Hi) as (C & L & B & _ & _ & Q).
  fold w' c' in C, L, B, Q.
  split; [rewrite C; by destruct id|]. split; [done|]. split; [done|].
  destruct (keepsInvisible (CONFIG w) (store w) i); split; try done.
  intros _ Hlh. destruct Q as (k0 & ->). fold lo hi.
  pose proof (Hr k0). nra.
Qed.

Lemma size_input_regenerates_witness :
  let w' := onSizeInput halves PointSizeControl 6 threeSizes in
  rd (sizes (store w')) 1 = 0 /\
  3 <= rd (sizes (store w')) 2 <= 9 /\
  baseSizes (store w') = sizes (store w').
Proof.
  assert (Hr : forall k : nat, 0 <= halves k < 1) by (intros k; unfold halves; lra).
  destruct (size_input_regenerates halves PointSizeControl 6 threeSizes 1 Hr)
    as ((P & V) & _ & B & Z & _); [simpl; lia|].
  destruct (size_input_regenerates halves PointSizeControl 6 threeSizes 2 Hr)
    as (_ & _ & _ & _ & S); [simpl; lia|].
  cbv zeta in *. rewrite P, V in S. simpl in S.
  split; [|split].
  - apply Z. unfold keepsInvisible, rd. simpl.
    rewrite !bool_decide_true by (lia || lra). done.
  - assert (H : 6 * (1 - 0.5) <= rd (sizes (store (onSizeInput halves PointSizeControl 6 threeSizes))) 2
                <= 6 * (1 + 0.5)).
    { apply S; [|lra]. unfold keepsInvisible.
      apply andb_false_iff. right. apply bool_decide_eq_false.
      unfold rd. simpl. lra. }
    lra.
  - apply B. reflexivity.
Defined.

(** ** The animation loop *)

Arguments monitorUpdate : simpl never.
Arguments animate : simpl never.

Lemma animate_skip rnd t st :
  maxFPS st.1 > 0 ->
  tickTime t - lastFrameTime st.1 < 1000 / maxFPS st.1 - 3 ->
  animate rnd t st = (st, false).
Proof.
  intros H1 H2. unfold animate.
  rewrite (bool_decide_true (maxFPS st.1 > 0)) by done.
  rewrite bool_decide_true; [done|]. lra.
Qed.

Lemma animate_run rnd t st :
  maxFPS st.1 <= 0 \/ 1000 / maxFPS st.1 - 3 <= tickTime t - lastFrameTime st.1 ->
  animate rnd t st
  = (mkLoop (maxFPS st.1) (tickTime t)
       (monitorUpdate (tickMonitor t) (monitor st.1)),
     updatePhysics rnd (tickDate t) (tickPerf t) st.2, true).
Proof.
  intros H. unfold animate. destruct H as [H|H].
  - by rewrite (bool_decide_false (maxFPS st.1 > 0)) by lra.
  - rewrite (bool_decide_false (_ < _)) by lra. by rewrite andb_false_r.
Qed.

Lemma animate_cases rnd t st :
  (animate rnd t st = (st, false) /\
   maxFPS st.1 > 0 /\
   tickTime t - lastFrameTime st.1 < 1000 / maxFPS st.1 - 3) \/
  (animate rnd t st
   = (mkLoop (maxFPS st.1) (tickTime t)
        (monitorUpdate (tickMonitor t) (monitor st.1)),
      updatePhysics rnd (tickDate t) (tickPerf t) st.2, true) /\
   (maxFPS st.1 <= 0 \/
    1000 / maxFPS st.1 - 3 <= tickTime t - lastFrameTime st.1)).
Proof.
  destruct (Rle_dec (maxFPS st.1) 0) as [H|H].
  - right. split; [apply animate_run|]; by left.
  - destruct (Rlt_dec (tickTime t - lastFrameTime st.1) (1000 / maxFPS st.1 - 3))
      as [H'|H'].
    + left. split; [apply animate_skip; lra|]. split; lra.
    + right. split; [apply animate_run|]; right; lra.
Qed.

(** With a limit of the frame rate, two frames that are processed one
    after the other are at least [1000 / maxFPS - 3] ms apart; a frame
    that is not processed changes nothing, and the limit itself is kept. *)
Theorem frame_limiter_spacing rnd ts l w :
  maxFPS l > 0 ->
  let r := animateAll rnd ts (l, w) in
  spaced (1000 / maxFPS l - 3) (lastFrameTime l) r.2 /\
  maxFPS r.1.1 = maxFPS l /\
  lastFrameTime r.1.1 = default (lastFrameTime l) (last r.2) /\
  (r.2 = [] -> r.1 = (l, w)).
Proof.
  intros Hm. revert l w Hm. induction ts as [|t ts IH]; intros l w Hm r.
  - subst r. simpl. done.
  - subst r. cbn [animateAll].
    destruct (animate_cases rnd t (l, w)) as [(E & _ & _)|(E & Hgap)].
    + rewrite E. cbn [fst snd]. apply IH. done.
    + rewrite E. cbn [fst snd] in *.
      set (l' := mkLoop (maxFPS l) (tickTime t)
                   (monitorUpdate (tickMonitor t) (monitor l))).
      destruct (IH l' (updatePhysics rnd (tickDate t) (tickPerf t) w))
        as (S & M & L & _); [done|].
      cbv zeta in *. cbn [maxFPS lastFrameTime l'] in S, M, L.
      split; [|split; [|split]].
      * simpl. split; [lra|done].
      * done.
      * rewrite L. rewrite last_cons. by destruct (last _).
      * done.
Qed.

Lemma frame_limiter_spacing_witness :
  let times :=
    (animateAll halves [tickAt 10; tickAt 20; tickAt 30; tickAt 40]
       (limitedLoop, calmWorld)).2 in
  spaced (1000 / 50 - 3) 0 times /\ times = [20; 40].
Proof.
  assert (S1 : forall t st, lastFrameTime st.1 = t - 10 -> maxFPS st.1 = 50 ->
             animate halves (tickAt t) st = (st, false)).
  { intros t st L M. apply animate_skip; rewrite ?M, ?L; simpl; lra. }
  assert (S2 : forall t st, lastFrameTime st.1 = t - 20 -> maxFPS st.1 = 50 ->
             animate halves (tickAt t) st
             = (mkLoop (maxFPS st.1) t (monitorUpdate t (monitor st.1)),
                updatePhysics halves t t st.2, true)).
  { intros t st L M. rewrite animate_run; [done|]. right.
    rewrite M, L. simpl. lra. }
  destruct (frame_limiter_spacing halves
              [tickAt 10; tickAt 20; tickAt 30; tickAt 40] limitedLoop calmWorld)
    as (S & _); [simpl; lra|].
  split; [exact S|].
  cbn [animateAll].
  rewrite (S1 10) by (simpl; lra). cbn [fst snd].
  rewrite (S2 20) by (simpl; lra). cbn [fst snd].
  rewrite (S1 30) by (simpl; lra). cbn [fst snd].
  rewrite (S2 40) by (simpl; lra). cbn [fst snd].
  reflexivity.
Defined.

(** The slider of the frame rate at its maximum switches the limit off,
    and every frame is processed; a limit of [1000 / 3] frames per
    second or more never drops a frame either, because of the tolerance
    of 3 ms.  The change restarts the timer of the frames and empties the
    samples of the monitor. *)
Theorem frame_limiter_off rnd sliderMax value nowPerf nowMonitor t l w :
  let l' := onMaxFPSInput sliderMax value nowPerf nowMonitor l in
  lastFrameTime l' = nowPerf /\
  frameTimes (monitor l') = [] /\
  (value >= sliderMax ->
   maxFPS l' = 0 /\ (animate rnd t (l', w)).2 = true) /\
  (value < sliderMax ->
   maxFPS l' = value /\
   (1000 / 3 <= value -> nowPerf <= tickTime t ->
    (animate rnd t (l', w)).2 = true)).
Proof.
  intros l'. subst l'. unfold onMaxFPSInput, updateMaxFPS.
  split; [done|]. split; [done|]. split.
  - intros H. rewrite bool_decide_true by done. simpl. split; [done|].
    rewrite animate_run; [done|]. left. simpl. lra.
  - intros H. rewrite bool_decide_false by lra. simpl. split; [done|].
    intros Hv Ht. rewrite animate_run; [done|]. right. simpl.
    assert (E : 1000 / value * value = 1000) by (field; lra).
    assert (1000 / value <= 3) by nra. lra.
Qed.

Lemma frame_limiter_off_witness :
  (animate halves (tickAt 1) (onMaxFPSInput 120 120 0 0 limitedLoop, calmWorld)).2
  = true /\
  (animate halves (tickAt 1) (onMaxFPSInput 1000 500 0 0 limitedLoop, calmWorld)).2
  = true.
Proof.
  destruct (frame_limiter_off halves 120 120 0 0 (tickAt 1) limitedLoop calmWorld)
    as (_ & _ & H1 & _).
  destruct (frame_limiter_off halves 1000 500 0 0 (tickAt 1) limitedLoop calmWorld)
    as (_ & _ & _ & H2).
  split.
  - apply H1. lra.
  - apply H2; simpl; lra.
Defined.

Lemma monitorUpdate_fields t m :
  monitorLastFrameTime (monitorUpdate t m) = t /\
  frameTimes (monitorUpdate t m)
  = (if bool_decide (maxSamples < length (frameTimes m ++ [(t - monitorLastFrameTime m)%R]))%nat
     then drop 1 (frameTimes m ++ [t - monitorLastFrameTime m])
     else frameTimes m ++ [t - monitorLastFrameTime m]) /\
  fps (monitorUpdate t m)
  = mathRound
      (1000 / (fold_left Rplus (frameTimes (monitorUpdate t m)) 0
               / INR (length (frameTimes (monitorUpdate t m))))).
Proof.
  unfold monitorUpdate. cbn [monitorLastFrameTime frameTimes fps].
  split; [done|]. split; [done|].
  rewrite bool_decide_true; [done|].
  case_bool_decide; rewrite ?length_drop, !length_app; simpl; unfold maxSamples in *;
    rewrite ?length_app in *; simpl in *; lia.
Qed.

Lemma monitorUpdates_window times : forall m,
  (length (frameTimes m) <= maxSamples)%nat ->
  let all := frameTimes m ++ deltas (monitorLastFrameTime m) times in
  frameTimes (monitorUpdates times m) = drop (length all - maxSamples) all /\
  monitorLastFrameTime (monitorUpdates times m)
  = default (monitorLastFrameTime m) (last times).
Proof.
  induction times as [|t ts IH]; intros m Hl all; subst all.
  - simpl. rewrite app_nil_r. split; [|done].
    replace (length (frameTimes m) - maxSamples)%nat with 0%nat by lia. done.
  - cbn [monitorUpdates fold_left deltas].
    destruct (monitorUpdate_fields t m) as (E1 & E2 & _).
    set (d := t - monitorLastFrameTime m) in *.
    fold (monitorUpdates ts (monitorUpdate t m)).
    destruct (IH (monitorUpdate t m)) as [F L].
    { rewrite E2. case_bool_decide; rewrite ?length_drop, length_app in *;
        simpl in *; unfold maxSamples in *; lia. }
    rewrite F, L, E1, E2. split.
    + replace (frameTimes m ++ d :: deltas t ts)
        with ((frameTimes m ++ [d]) ++ deltas t ts)
        by (by rewrite <- app_assoc).
      case_bool_decide as Hs; [|done].
      rewrite length_app in Hs. simpl in Hs.
      assert (Hne : (0 < length (frameTimes m ++ [d]))%nat)
        by (rewrite length_app; simpl; lia).
      rewrite <- (drop_app_le (frameTimes m ++ [d]) (deltas t ts) 1) by lia.
      rewrite drop_drop. rewrite length_drop. f_equal.
      rewrite !length_app in *. simpl in *. unfold maxSamples in *. lia.
    + rewrite last_cons. by destruct (last ts).
Qed.

(** After a reset the monitor holds the times between the frames that
    it has seen, at most the 30 most recent ones, and its rate is 1000
    over their average, rounded, when that average is not 0. *)
Theorem monitor_window times now m :
  times <> [] ->
  let m' := monitorUpdates times (monitorReset now m) in
  let d := deltas now times in
  frameTimes m' = drop (length d - maxSamples) d /\
  (length (frameTimes m') <= maxSamples)%nat /\
  monitorLastFrameTime m' = default now (last times) /\
  (fold_left Rplus (frameTimes m') 0 <> 0 ->
   fps m'
   = mathRound
       (1000 / (fold_left Rplus (frameTimes m') 0 / INR (length (frameTimes m'))))).
Proof.
  intros Hne m' d. subst m' d.
  destruct (monitorUpdates_window times (monitorReset now m)) as [F L];
    [simpl; lia|]. simpl in F, L.
  split; [done|]. split; [|split; [done|]].
  - rewrite F, length_drop. lia.
  - intros _. destruct (exists_last Hne) as (ts & t & ->).
    unfold monitorUpdates. rewrite fold_left_app. simpl.
    apply monitorUpdate_fields.
Qed.

Lemma monitor_window_witness :
  frameTimes (monitorUpdates [16; 33; 49] (monitorReset 0 (mkMonitor 5 [7; 7] 60)))
  = [16; 17; 16].
Proof.
  destruct (monitor_window [16; 33; 49] 0 (mkMonitor 5 [7; 7] 60)) as [F _];
    [done|].
  cbv zeta in F. rewrite F. simpl. f_equal; [lra|]. f_equal; [lra|].
  f_equal; lra.
Defined.

(** ** The pointer *)

Lemma settledFrame_interactionActive nowDate nowPerf cam ptr c :
  interactionActive (settledFrame nowDate nowPerf cam ptr c)
  = isPointerInsideCanvas ptr
    && (isPointerDown ptr || bool_decide (pointerSpeed ptr > 0.001)).
Proof. reflexivity. Qed.

Lemma updatePhysics_pointer rnd nowDate nowPerf w :
  isInitialized w = true -> hasGeometry w = true ->
  pointer (updatePhysics rnd nowDate nowPerf w) = framePointer w.
Proof.
  intros Hi Hg. unfold updatePhysics. rewrite Hi, Hg. simpl.
  destruct (loadingPhase _ _ _ _ _ _) as [[c s] [|]]; [done|].
  unfold settledPhase.
  destruct (waveLogic _ _ _) as [c' b].
  destruct (physicsStore _ _ _ _ _ _) as [s' k]. done.
Qed.

Lemma pointerSpeed_zero p : mouseVelocity p = mkVec2 0 0 -> pointerSpeed p = 0.
Proof.
  intros E. unfold pointerSpeed. rewrite E. simpl.
  replace (0 * 0 + 0 * 0) with 0 by ring. apply sqrt_0.
Qed.

(** The pointer acts on the particles of a frame only while it is
    inside the canvas and either pressed or moving: after
    [pointerleave] no frame is interactive; a frame that follows another
    frame without a pointer event in between is interactive exactly when
    the pointer is inside and pressed; and a frame after a move of more
    than 0.001 (in normalized device coordinates) is interactive. *)
Theorem pointer_needs_motion_or_press rnd nowDate nowPerf nowDate' nowPerf' w c :
  isInitialized w = true ->
  hasGeometry w = true ->
  (forall m,
     let p := (onPointerLeave (m, pointer w)).2 in
     interactionActive
       (settledFrame nowDate nowPerf (camera w) (framePointer (withPointer p w)) c)
     = false) /\
  (let w1 := updatePhysics rnd nowDate nowPerf w in
   mouseVelocity (framePointer w1) = mkVec2 0 0 /\
   interactionActive
     (settledFrame nowDate' nowPerf' (camera w1) (framePointer w1) c)
   = isPointerInsideCanvas (pointer w) && isPointerDown (pointer w)) /\
  (forall innerWidth innerHeight event m,
     let st := onPointerMove innerWidth innerHeight event (m, pointer w) in
     let dx := v2x (mouse st.1) - v2x (mouse m) in
     let dy := v2y (mouse st.1) - v2y (mouse m) in
     0.001 * 0.001 < dx * dx + dy * dy ->
     interactionActive
       (settledFrame nowDate nowPerf (camera w) (framePointer (withPointer st.2 w)) c)
     = true).
Proof.
  intros Hi Hg. split; [|split].
  - intros m p. rewrite settledFrame_interactionActive. done.
  - intros w1.
    pose proof (updatePhysics_pointer rnd nowDate nowPerf w Hi Hg) as P.
    fold w1 in P.
    assert (E : mouseVelocity (framePointer w1) = mkVec2 0 0).
    { unfold framePointer. rewrite P. done. }
    split; [done|].
    rewrite settledFrame_interactionActive.
    rewrite (pointerSpeed_zero _ E).
    rewrite bool_decide_false by lra.
    unfold framePointer. rewrite P.
    cbn [framePointer isPointerInsideCanvas isPointerDown pointer].
    by rewrite orb_false_r.
  - intros iw ih ev m st dx dy Hd.
    rewrite settledFrame_interactionActive.
    cbn [framePointer withPointer pointer isPointerInsideCanvas isPointerDown].
    subst st. cbn [onPointerMove updateMousePosition snd fst
                   isPointerInsideCanvas mouseMovedThisFrame negb].
    cbn [andb]. apply orb_true_iff. right. apply bool_decide_eq_true.
    unfold pointerSpeed.
    cbn [mouseVelocity v2x v2y mouse fst snd onPointerMove updateMousePosition]
      in *.
    apply Rlt_gt.
    replace 0.001 with (sqrt (0.001 * 0.001))
      by (rewrite sqrt_square; lra).
    apply sqrt_lt_1_alt. split; [nra|]. subst dx dy.
    cbn [onPointerMove updateMousePosition mouse fst v2x v2y] in Hd. exact Hd.
Qed.

Lemma pointer_needs_motion_or_press_witness :
  interactionActive
    (settledFrame 5000 5000 exampleCamera
       (framePointer
          (withPointer
             (onPointerMove 1000 500 (mkPointerEvent 510 250 (mkVec3 0.1 0 0))
                restingMouse).2 calmWorld))
       exampleConfig)
  = true /\
  interactionActive
    (settledFrame 5016 5016 exampleCamera
       (framePointer (updatePhysics halves 5000 5000 calmWorld)) exampleConfig)
  = false.
Proof.
  destruct (pointer_needs_motion_or_press halves 5000 5000 5016 5016 calmWorld
              exampleConfig) as (_ & (_ & B) & C); try reflexivity.
  split.
  - apply (C 1000 500 (mkPointerEvent 510 250 (mkVec3 0.1 0 0))
             (mkMouseState (mkVec2 0 0) (mkVec2 0 0))).
    simpl. lra.
  - exact B.
Defined.

(** ** The reach of the pointer *)

Lemma particleStep_far rnd f i s k :
  interactionRadiusSq f <= lengthSq (subVectors (get3 (positions s) i) (fMouse3D f)) ->
  particleStep rnd f i (s, k) = particleStep rnd (quietFrame f) i (s, k).
Proof.
  intros Hfar. unfold particleStep. case_bool_decide; [done|].
  assert (E : pointerForce rnd f i s k = (s, k)).
  { unfold pointerForce. destruct (interactionActive f); [|done].
    rewrite bool_decide_false; [done|].
    unfold lengthSq, subVectors, get3 in Hfar. simpl in Hfar. lra. }
  rewrite E. reflexivity.
Qed.

Lemma settledFrame_mouse nowDate nowPerf cam ptr c :
  fMouse3D (settledFrame nowDate nowPerf cam ptr c) = mouse3D ptr /\
  interactionRadiusSq (settledFrame nowDate nowPerf cam ptr c)
  = interactionRadius c * interactionRadius c.
Proof.
  unfold settledFrame, mkFrameOf. simpl.
  destruct (waveLogic_shape nowDate cam c) as (lw & ws & ->). done.
Qed.

Lemma far_particle_phase rnd nowDate nowPerf w ptr c s i :
  let f := settledFrame nowDate nowPerf (camera w) ptr c in
  processed (totalParticleCount w) s i ->
  interactionRadius c * interactionRadius c
  <= lengthSq (subVectors (get3 (originalPositions s) i) (mouse3D ptr)) ->
  autonomousMotionStrength c <= 0 ->
  hasExplosions f = false ->
  waveActive f = false ->
  isInExplosionFlight f i s = false ->
  get3 (positions s) i = get3 (originalPositions s) i ->
  get3 (velocities s) i = mkVec3 0 0 0 ->
  let t := store (settledPhase rnd nowDate nowPerf w ptr c s) in
  get3 (positions t) i = get3 (originalPositions s) i /\
  get3 (velocities t) i = mkVec3 0 0 0 /\
  originalPositions t = originalPositions s.
Proof.
  intros f Hp Hfar Ha He Hw Hfl Hpos Hvel t. subst t.
  destruct (processed_bounds _ _ _ Hp) as (_ & _ & Hlo & Hlv & _).
  destruct (settledFrame_mouse nowDate nowPerf (camera w) ptr c) as [Em Er].
  fold f in Em, Er.
  destruct (settledPhase_motion rnd nowDate nowPerf w ptr c s)
    as (-> & -> & -> & _).
  apply (settledPhysics_at rnd nowDate nowPerf w ptr c s i
    (fun t => get3 (positions t) i = get3 (originalPositions s) i /\
              get3 (velocities t) i = mkVec3 0 0 0 /\
              length (velocities t) = length (velocities s) /\
              originalPositions t = originalPositions s /\
              isInExplosionFlight f i t = false)
    (fun t => get3 (positions t) i = get3 (originalPositions s) i /\
              get3 (velocities t) i = mkVec3 0 0 0 /\
              originalPositions t = originalPositions s)); try done.
  - intros j t t' Hj Hf (E1 & E2 & L & Eo & Ef).
    rewrite (same3_get3 j i _ _ (pf_positions _ _ _ Hf)) by done.
    rewrite (same3_get3 j i _ _ (pf_velocities _ _ _ Hf)) by done.
    destruct (pf_velocities _ _ _ Hf) as [-> _].
    rewrite (pf_original _ _ _ Hf).
    by rewrite (isInExplosionFlight_stable f i j t t').
  - intros j t t' Hj Hf (E1 & E2 & Eo).
    rewrite (same3_get3 j i _ _ (pf_positions _ _ _ Hf)) by done.
    rewrite (same3_get3 j i _ _ (pf_velocities _ _ _ Hf)) by done.
    by rewrite (pf_original _ _ _ Hf).
  - intros t k t' k' (E1 & E2 & L & Eo & Ef) E.
    destruct (settledFrame_cfg nowDate nowPerf (camera w) ptr c)
      as (lw & ws & Ec).
    fold f in E, Ec. rewrite particleStep_far in E by (rewrite E1, Em, Er; done).
    destruct (particleStep_rest rnd (quietFrame f) i t k t' k' E)
      as (R1 & R2 & R3 & _); try done.
    + cbn [quietFrame fCfg]. rewrite Ec. done.
    + lia.
    + rewrite Eo. lia.
    + by rewrite Eo.
    + rewrite R1, R3, Eo. done.
Qed.

(** The pointer does not reach a particle that is an interaction radius
    or more away from it: such a particle, at rest on its target, stays
    at rest through a settled step in which nothing else acts, also while
    the pointer is pressed or moving. *)
Theorem far_particle_ignores_pointer rnd nowDate nowPerf w i :
  let f := settledFrame nowDate nowPerf (camera w) (framePointer w) (CONFIG w) in
  settled w ->
  processed (totalParticleCount w) (store w) i ->
  interactionRadius (CONFIG w) * interactionRadius (CONFIG w)
  <= lengthSq (subVectors (get3 (originalPositions (store w)) i)
                 (mouse3D (pointer w))) ->
  autonomousMotionStrength (CONFIG w) <= 0 ->
  hasExplosions f = false ->
  waveActive f = false ->
  isInExplosionFlight f i (store w) = false ->
  get3 (positions (store w)) i = get3 (originalPositions (store w)) i ->
  get3 (velocities (store w)) i = mkVec3 0 0 0 ->
  let t := store (updatePhysics rnd nowDate nowPerf w) in
  get3 (positions t) i = get3 (originalPositions (store w)) i /\
  get3 (velocities t) i = mkVec3 0 0 0.
Proof.
  intros f Hs Hp Hfar Ha He Hw Hfl Hpos Hvel t. subst t.
  rewrite updatePhysics_settled by done.
  destruct (far_particle_phase rnd nowDate nowPerf w (framePointer w)
              (CONFIG w) (store w) i Hp Hfar Ha He Hw Hfl Hpos Hvel)
    as (R1 & R2 & _).
  done.
Qed.

Lemma far_particle_ignores_pointer_witness :
  interactionActive
    (settledFrame 5000 5000 (camera remoteWorld) (framePointer remoteWorld)
       (CONFIG remoteWorld)) = true /\
  get3 (positions (store (updatePhysics halves 5000 5000 remoteWorld))) 0
  = mkVec3 5 12 0.
Proof.
  split; [reflexivity|].
  destruct (settledFrame_disabled 5000 5000 (camera remoteWorld)
              (framePointer remoteWorld) (CONFIG remoteWorld) eq_refl)
    as [Ec Hw].
  destruct (far_particle_ignores_pointer halves 5000 5000 remoteWorld 0)
    as [P _]; try done.
  - apply processed_one.
  - unfold lengthSq, subVectors, get3, rd. simpl. lra.
  - unfold isInExplosionFlight. rewrite settledFrame_nowPerf.
    unfold rd. simpl.
    rewrite (bool_decide_false (0 > 5000)) by lra. done.
Defined.

(** ** The sizes when the waves stop *)

Lemma settledPhase_wasWaveActive rnd nowDate nowPerf w ptr c s :
  wasWaveActive (settledPhase rnd nowDate nowPerf w ptr c s)
  = waveActive (settledFrame nowDate nowPerf (camera w) ptr c).
Proof.
  unfold settledPhase, settledFrame.
  destruct (waveLogic nowDate (camera w) c) as [c' b]. simpl.
  destruct (physicsStore _ _ _ _ _ _) as [s' k]. reflexivity.
Qed.

Lemma settledPhysics_sizes_reset rnd nowDate nowPerf w ptr c s :
  waveActive (settledFrame nowDate nowPerf (camera w) ptr c) = false ->
  wasWaveActive w = true ->
  let n := Nat.min (length (sizes s)) (length (baseSizes s)) in
  sizes (settledPhysics rnd nowDate nowPerf w ptr c s)
  = take n (baseSizes s) ++ drop n (sizes s).
Proof.
  intros Hw Hwas n. subst n. unfold settledPhysics, physicsStore.
  destruct (distanceStore_shape (camZ (camera w))
              (actualCount (totalParticleCount w) s)
                 (allocCount (totalParticleCount w) s) s) as [d ->].
  pose proof (forLoop_invariant
    (particleStep rnd (settledFrame nowDate nowPerf (camera w) ptr c))
    (fun sk => sizes sk.1 = sizes s /\ baseSizes sk.1 = baseSizes s) 0%nat) as H.
  specialize (H ltac:(intros j [t kt] [t' kt'] _ [Ht Hb] E; cbn [fst] in *;
                       rewrite <- Ht, <- Hb; split;
                       [eapply particleStep_sizes_idle; eassumption
                       |apply particleStep_footprint in E;
                        apply (pf_baseSizes _ _ _ E)])).
  specialize (H (actualCount (totalParticleCount w) s) 0%nat
                (set_distanceBuffer d s, randomCalls w) ltac:(lia)
                (conj eq_refl eq_refl)).
  destruct (forLoop _ _ _ _) as [t kt]. cbn [fst] in *. destruct H as [Hs Hb].
  unfold resetSizes. rewrite Hw, Hwas. simpl. rewrite Hs, Hb.
  case_bool_decide as Hn; [done|].
  assert (Hz : Nat.min (length (sizes s)) (length (baseSizes s)) = 0%nat) by lia.
  rewrite Hz. simpl. by rewrite drop_0.
Qed.

(** In a settled step without an active wave the base sizes are left as
    they are; the sizes are left as they are when the step before had no
    active wave either, and are set back to the base sizes when it had
    one: an invisible particle that a wave has revealed gets its size 0
    back when the last wave is gone. *)
Theorem sizes_restored_when_waves_end rnd nowDate nowPerf w :
  settled w ->
  waveActive (settledFrame nowDate nowPerf (camera w) (framePointer w) (CONFIG w))
  = false ->
  let w' := updatePhysics rnd nowDate nowPerf w in
  let n := Nat.min (length (sizes (store w))) (length (baseSizes (store w))) in
  wasWaveActive w' = false /\
  baseSizes (store w') = baseSizes (store w) /\
  (wasWaveActive w = false -> sizes (store w') = sizes (store w)) /\
  (wasWaveActive w = true ->
   sizes (store w') = take n (baseSizes (store w)) ++ drop n (sizes (store w))) /\
  (wasWaveActive w = true ->
   length (sizes (store w)) = length (baseSizes (store w)) ->
   sizes (store w') = baseSizes (store w)).
Proof.
  intros Hs Hw w' n. subst w' n.
  rewrite updatePhysics_settled by done.
  rewrite settledPhase_wasWaveActive.
  destruct (settledPhase_motion rnd nowDate nowPerf w (framePointer w)
              (CONFIG w) (store w)) as (_ & _ & _ & -> & ->).
  rewrite settledPhysics_baseSizes.
  split; [done|]. split; [done|]. split; [|split].
  - intros Hwas. by apply settledPhysics_sizes_idle.
  - intros Hwas. by apply settledPhysics_sizes_reset.
  - intros Hwas Hl. rewrite settledPhysics_sizes_reset by done.
    rewrite Hl, Nat.min_id. rewrite firstn_all. rewrite <- Hl.
    rewrite drop_all. by rewrite app_nil_r.
Qed.

Lemma sizes_restored_when_waves_end_witness :
  sizes (store (updatePhysics halves 9000 9000 afterWaveWorld)) = [0].
Proof.
  destruct (settledFrame_disabled 9000 9000 (camera afterWaveWorld)
              (framePointer afterWaveWorld) (CONFIG afterWaveWorld) eq_refl)
    as [_ Hw].
  destruct (sizes_restored_when_waves_end halves 9000 9000 afterWaveWorld)
    as (_ & _ & _ & _ & R); [done|exact Hw|].
  rewrite R; done.
Defined.

(** ** The brightness and the size under the waves *)

Lemma clamp01_mono x y : x <= y -> clamp01 x <= clamp01 y.
Proof.
  intros H. unfold clamp01, Rmax, Rmin.
  repeat destruct (Rle_dec _ _); lra.
Qed.

(** The depth term does not grow with the distance from the camera when
    [depthDarkeningStrength] is not negative: it is 1 at distance 0 or
    less, [1 - depthDarkeningStrength] at distance 70 or more, and
    between the two in between. *)
Theorem depth_darkening_monotone c d1 d2 :
  0 <= depthDarkeningStrength c ->
  d1 <= d2 ->
  depthBrightness c d2 <= depthBrightness c d1 /\
  1 - depthDarkeningStrength c <= depthBrightness c d1 <= 1 /\
  (d1 <= 0 -> depthBrightness c d1 = 1) /\
  (70 <= d1 -> depthBrightness c d1 = 1 - depthDarkeningStrength c).
Proof.
  intros Hs Hd. rewrite !depthBrightness_formula.
  pose proof (clamp01_range (d1 / 70)) as R1.
  assert (M : clamp01 (d1 / 70) <= clamp01 (d2 / 70))
    by (apply clamp01_mono; lra).
  split; [nra|]. split; [nra|]. split.
  - intros H0. unfold clamp01. rewrite Rmin_right by lra.
    rewrite Rmax_left by lra. lra.
  - intros H70. unfold clamp01. rewrite Rmin_left by lra.
    rewrite Rmax_right by lra. lra.
Qed.

Lemma depth_darkening_monotone_witness :
  depthBrightness exampleConfig 42 <= depthBrightness exampleConfig 12 /\
  depthBrightness exampleConfig 80 = 1 - 1.85.
Proof.
  destruct (depth_darkening_monotone exampleConfig 12 42) as [M _];
    [simpl; lra|lra|].
  destruct (depth_darkening_monotone exampleConfig 80 80) as (_ & _ & _ & S);
    [simpl; lra|lra|].
  split; [exact M|]. apply S. lra.
Defined.

Lemma waveFactor_pos f d w x : waveFactor f d w = Some x -> 0 < x.
Proof.
  unfold waveFactor. case_bool_decide; [|done]. intros [= <-]. apply exp_pos.
Qed.

Lemma waveGlow_fold_nonneg f d ws : forall acc,
  0 <= waveGlowIntensity (fCfg f) -> 0 <= acc ->
  0 <= fold_left
         (fun acc w =>
            match waveFactor f d w with
            | Some glowFactor => acc + waveGlowIntensity (fCfg f) * glowFactor
            | None => acc
            end) ws acc.
Proof.
  induction ws as [|w ws IH]; intros acc Hi Ha; [done|]. simpl.
  apply IH; [done|].
  destruct (waveFactor f d w) as [x|] eqn:E; [|done].
  apply waveFactor_pos in E. nra.
Qed.

(** The glow that the waves add to the brightness of a particle lies
    between 0 and [waveGlowIntensity], however many waves overlap. *)
Theorem wave_glow_bounded f i s :
  0 <= waveGlowIntensity (fCfg f) ->
  0 <= totalWaveGlow f i s <= waveGlowIntensity (fCfg f).
Proof.
  intros Hi. unfold totalWaveGlow.
  destruct (waveActive f); [|lra].
  destruct (inWaveBounds f _); [|lra].
  split.
  - apply Rmin_glb; [|done]. apply waveGlow_fold_nonneg; lra.
  - apply Rmin_r.
Qed.

Lemma waveAccumulate_nonneg f d dir ws : forall acc,
  0 <= acc.2 -> 0 <= (fold_left (waveAccumulate f d dir) ws acc).2.
Proof.
  induction ws as [|w ws IH]; intros acc Ha; [done|]. simpl.
  apply IH. unfold waveAccumulate.
  destruct (waveFactor f d w) as [x|] eqn:E; [|done].
  apply waveFactor_pos in E. simpl. lra.
Qed.

Lemma waveForces_factor_nonneg f i s : 0 <= (waveForces f i s).2.
Proof.
  unfold waveForces. destruct (waveActive f); [|simpl; lra].
  destruct (inWaveBounds f _); [|simpl; lra].
  match goal with
  | |- context [fold_left (waveAccumulate f ?d ?dir) ?ws ?a] =>
      pose proof (waveAccumulate_nonneg f d dir ws a) as H;
      destruct (fold_left (waveAccumulate f d dir) ws a) as [tot z]
  end.
  simpl in *. apply H. lra.
Qed.

Lemma sizeHash_range i : 0 <= sizeHash i < 1.
Proof.
  unfold sizeHash.
  pose proof (Z.mod_pos_bound (Z.of_nat i * 2654435761) 2147483647 eq_refl)
    as [H0 H1].
  apply IZR_le in H0. apply IZR_lt in H1.
  set (h := IZR ((Z.of_nat i * 2654435761) mod 2147483647)) in *.
  split.
  - apply Rmult_le_pos; [done|]. apply Rlt_le, Rinv_0_lt_compat. lra.
  - apply Rmult_lt_reg_r with 2147483647; [lra|].
    unfold Rdiv. rewrite Rmult_assoc, Rinv_l by lra. lra.
Qed.

(** The size of a particle under the waves: a visible particle grows
    from its base size by half the sum of the wave factors, and an
    invisible one gets a size between 0 and
    [pointSize * (1 + sizeVariation)], which is 0 when no wave is near
    it; that sum is never negative. *)
Theorem revealed_size_bounds f i s :
  waveActive f = true ->
  (i < length (baseSizes s))%nat ->
  (i < length (sizes s))%nat ->
  0 <= pointSize (fCfg f) ->
  0 <= sizeVariation (fCfg f) <= 1 ->
  let t := (waveForces f i s).2 in
  let s' := updateSize f i t (waveForces f i s).1 in
  0 <= t /\
  (rd (baseSizes s) i <> 0 ->
   rd (sizes s') i = rd (baseSizes s) i * (1 + t * 0.5)) /\
  (rd (baseSizes s) i = 0 ->
   0 <= rd (sizes s') i <= pointSize (fCfg f) * (1 + sizeVariation (fCfg f)) /\
   (t = 0 -> rd (sizes s') i = 0)).
Proof.
  intros Hw Lb Ls Hp Hv t s'.
  pose proof (waveForces_factor_nonneg f i s) as Ht. fold t in Ht.
  destruct (waveForces_shape f i s) as [v E].
  subst s'. rewrite E. unfold updateSize. rewrite Hw. simpl.
  rewrite bool_decide_true by done. simpl.
  split; [done|]. split.
  - intros Hb. rewrite bool_decide_false by done. simpl.
    by rewrite rd_insert_eq by done.
  - intros Hb. rewrite bool_decide_true by done.
    pose proof (sizeHash_range i) as Hh.
    case_bool_decide as Hpos; simpl; rewrite rd_insert_eq by done.
    + split; [|lra].
      assert (Hf : 0 < Rmin t 1 <= 1).
      { unfold Rmin. destruct (Rle_dec t 1); lra. }
      set (m := Rmin t 1) in *. set (h := sizeHash i) in *.
      set (P := pointSize (fCfg f)) in *.
      set (V := sizeVariation (fCfg f)) in *.
      assert (HPV : 0 <= P * V) by (apply Rmult_le_pos; lra).
      assert (H1 : 0 <= h * (P * V)) by (apply Rmult_le_pos; lra).
      assert (H2 : h * (P * V) <= P * V) by nra.
      assert (H3 : 0 <= P * (1 - V)) by (apply Rmult_le_pos; lra).
      assert (B : 0 <= P * (1 - V) + h * (P * (1 + V) - P * (1 - V))
                  <= P * (1 + V)).
      { replace (h * (P * (1 + V) - P * (1 - V))) with (2 * (h * (P * V)))
          by ring. lra. }
      set (x := P * (1 - V) + h * (P * (1 + V) - P * (1 - V))) in *.
      split; [apply Rmult_le_pos; lra|nra].
    + split; [|done]. split; [lra|nra].
Qed.

Lemma risingWorld_frame :
  let f := settledFrame 4016 4016 exampleCamera idlePointer (CONFIG risingWorld) in
  fCfg f = set_waves (waves (fCfg f)) (CONFIG risingWorld) /\
  waveActive f = true.
Proof.
  cbv zeta. unfold settledFrame.
  assert (W : (waveLogic 4016 exampleCamera (CONFIG risingWorld)).1
              = set_waves [grownWave (CONFIG risingWorld) (mkWave 3 0 0)]
                  (CONFIG risingWorld)).
  { unfold waveLogic. cbn [waveEnabled isLoadingAnimation CONFIG risingWorld
      exampleWorld set_waves set_lastWaveTime set_waveEnabled withRuntime
      exampleConfig configWith andb negb].
    rewrite (spawnWave_wait 4016 _ 4000) by (first [reflexivity|simpl; lra]).
    pose proof (propagateWaves_kept
      (set_waves [mkWave 3 0 0]
         (set_lastWaveTime (Some 4000) (set_waveEnabled true exampleConfig)))
      (maxWaveRadius exampleCamera) (2 * (1.6 / 2)) [mkWave 3 0 0]) as K.
    cbn [waves set_waves withRuntime] in *.
    destruct (propagateWaves _ _ _ _) as [ws b]. cbn [fst snd] in *.
    subst ws. unfold keptWaves. cbn [map List.filter].
    rewrite bool_decide_false; [done|].
    unfold grownWave. cbn [radius waveSpeed timeScale waveWidth
      set_waves set_lastWaveTime set_waveEnabled withRuntime exampleConfig
      configWith].
    rewrite maxWaveRadius_example. lra. }
  unfold mkFrameOf. rewrite W. simpl. done.
Qed.

Lemma revealed_size_bounds_witness :
  let f := settledFrame 4016 4016 exampleCamera idlePointer (CONFIG risingWorld) in
  let s := store risingWorld in
  0 <= rd (sizes (updateSize f 0 (waveForces f 0 s).2 (waveForces f 0 s).1)) 0 <= 6.
Proof.
  intros f s. destruct risingWorld_frame as [Ec Hw]. fold f in Ec, Hw.
  destruct (revealed_size_bounds f 0 s) as (_ & _ & B); try done.
  - simpl. lia.
  - simpl. lia.
  - rewrite Ec. simpl. lra.
  - rewrite Ec. simpl. lra.
  - destruct B as [B _]; [done|]. rewrite Ec in B. simpl in B. lra.
Defined.

(** ** The lengths of the arrays *)

Lemma sameLengths_refl s : sameLengths s s.
Proof. repeat split. Qed.

Lemma sameLengths_trans s1 s2 s3 :
  sameLengths s1 s2 -> sameLengths s2 s3 -> sameLengths s1 s3.
Proof.
  unfold sameLengths. intros H1 H2.
  destruct H1 as (?&?&?&?&?&?&?&?&?&?&?&?).
  destruct H2 as (?&?&?&?&?&?&?&?&?&?&?&?).
  repeat split; congruence.
Qed.

Lemma physicsFootprint_lengths j s s' : physicsFootprint j s s' -> sameLengths s s'.
Proof.
  intros [[L1 _] [L2 _] [L3 _] [L4 _] [L5 _] E1 E2 E3 E4 E5 E6 E7 E8].
  unfold sameLengths. rewrite E1, E2, E3, E4, E5, E6, E7. done.
Qed.

Lemma resetSizes_lengths a b s : sameLengths s (resetSizes a b s).
Proof.
  unfold resetSizes. destruct (negb a && b); [|apply sameLengths_refl].
  case_bool_decide; [|apply sameLengths_refl].
  unfold sameLengths. simpl. repeat split; try done.
  rewrite length_app, length_take, length_drop. lia.
Qed.

Lemma distanceStore_lengths camZ n m s : sameLengths s (distanceStore camZ n m s).
Proof.
  destruct (distanceStore_shape camZ n m s) as [d ->]. repeat split.
Qed.

Lemma physicsStore_lengths rnd f n b s k : sameLengths s (physicsStore rnd f n b s k).1.
Proof.
  unfold physicsStore.
  pose proof (forLoop_invariant (particleStep rnd f)
                (fun sk => sameLengths s sk.1) 0%nat) as H.
  specialize (H ltac:(intros j [t kt] [t' kt'] _ Ht E; cbn [fst] in *;
                       eapply sameLengths_trans; [exact Ht|];
                       eapply physicsFootprint_lengths, particleStep_footprint;
                       eassumption)).
  specialize (H n 0%nat (s, k) ltac:(lia) (sameLengths_refl s)).
  destruct (forLoop _ _ _ _) as [t kt]. cbn [fst] in *.
  eapply sameLengths_trans; [exact H|apply resetSizes_lengths].
Qed.

Lemma updateGlow_lengths f d g j s : sameLengths s (updateGlow f d g j s).
Proof.
  unfold updateGlow.
  destruct d; [|destruct g]; try case_bool_decide;
    try apply sameLengths_refl;
    unfold sameLengths; simpl; rewrite ?length_insert; repeat split.
Qed.

Lemma colorStore_lengths f h d g n s : sameLengths s (colorStore f h d g n s).
Proof.
  unfold colorStore. destruct h; [|apply sameLengths_refl].
  apply (forLoop_invariant (colorStep f d g) (fun t => sameLengths s t) 0%nat);
    [|lia|apply sameLengths_refl].
  intros j t t' _ Ht. unfold colorStep. case_bool_decide; [done|].
  intros [= <-]. eapply sameLengths_trans; [exact Ht|].
  eapply sameLengths_trans; [apply (updateGlow_lengths f d g j t)|].
  unfold sameLengths. simpl. rewrite !length_insert. repeat split.
Qed.

Lemma loadingPhase_lengths nowDate camZ hc total c s :
  sameLengths s (loadingPhase nowDate camZ hc total c s).1.2.
Proof.
  unfold loadingPhase.
  destruct (isLoadingAnimation c); [|apply sameLengths_refl].
  destruct (loadAnimationStartTime c) as [start|]; [|apply sameLengths_refl].
  set (e := easingOf _ _). set (n := Nat.min total _).
  assert (H1 : sameLengths s (forLoop (loadingPosition e) 0 n s)).
  { apply (forLoop_invariant (loadingPosition e) (fun t => sameLengths s t) 0%nat);
      [|lia|apply sameLengths_refl].
    intros j t t' _ Ht. unfold loadingPosition. case_bool_decide; [done|].
    intros [= <-]. eapply sameLengths_trans; [exact Ht|].
    unfold sameLengths. simpl. rewrite !length_insert. repeat split. }
  set (s1 := forLoop (loadingPosition e) 0 n s) in *.
  assert (H2 : sameLengths s
                 (if hc then forLoop (loadingColor c camZ) 0 n s1 else s1)).
  { destruct hc; [|done].
    apply (forLoop_invariant (loadingColor c camZ) (fun t => sameLengths s t) 0%nat);
      [|lia|done].
    intros j t t' _ Ht. unfold loadingColor. case_bool_decide; [done|].
    intros [= <-]. eapply sameLengths_trans; [exact Ht|].
    unfold sameLengths. simpl. rewrite !length_insert. repeat split. }
  set (s2 := if hc then _ else _) in *.
  set (g := glowBrightness c * e).
  assert (H3 : sameLengths s
                 (forLoop (loadingGlow g) 0 (Nat.min n (length (glows s2))) s2)).
  { apply (forLoop_invariant (loadingGlow g) (fun t => sameLengths s t) 0%nat);
      [|lia|done].
    intros j t t' _ Ht. unfold loadingGlow. intros [= <-].
    eapply sameLengths_trans; [exact Ht|].
    unfold sameLengths. simpl. rewrite !length_insert. repeat split. }
  by case_bool_decide.
Qed.

Lemma settledPhase_lengths rnd nowDate nowPerf w ptr c s :
  sameLengths s (store (settledPhase rnd nowDate nowPerf w ptr c s)).
Proof.
  rewrite settledPhase_store. cbv zeta.
  eapply sameLengths_trans; [|apply colorStore_lengths].
  unfold settledPhysics.
  eapply sameLengths_trans; [|apply physicsStore_lengths].
  apply distanceStore_lengths.
Qed.

Lemma settledPhase_total rnd nowDate nowPerf w ptr c s :
  totalParticleCount (settledPhase rnd nowDate nowPerf w ptr c s)
  = totalParticleCount w.
Proof.
  unfold settledPhase.
  destruct (waveLogic nowDate (camera w) c) as [c' b].
  destruct (physicsStore _ _ _ _ _ _) as [s' k]. reflexivity.
Qed.

(** A step never changes the length of an array of the particles (only
    the buffer of the distances may be allocated anew), nor the count of
    the particles: the particles that the loops treat are the same in
    every frame. *)
Theorem step_keeps_array_lengths rnd nowDate nowPerf w :
  let w' := updatePhysics rnd nowDate nowPerf w in
  sameLengths (store w) (store w') /\
  totalParticleCount w' = totalParticleCount w /\
  allocCount (totalParticleCount w') (store w')
  = allocCount (totalParticleCount w) (store w) /\
  (forall i, processed (totalParticleCount w') (store w') i <->
             processed (totalParticleCount w) (store w) i).
Proof.
  intros w'.
  assert (H : sameLengths (store w) (store w') /\
              totalParticleCount w' = totalParticleCount w).
  { subst w'. unfold updatePhysics.
    destruct (negb (isInitialized w) || negb (hasGeometry w));
      [split; [apply sameLengths_refl|done]|].
    pose proof (loadingPhase_lengths nowDate (camZ (camera w)) (hasColorAttr w)
                  (totalParticleCount w) (CONFIG w) (store w)) as L.
    destruct (loadingPhase _ _ _ _ _ _) as [[c s] [|]]; cbn [fst snd] in L.
    - split; done.
    - split; [|apply settledPhase_total].
      eapply sameLengths_trans; [exact L|apply settledPhase_lengths]. }
  destruct H as [H T]. split; [done|]. split; [done|].
  assert (A : allocCount (totalParticleCount w') (store w')
              = allocCount (totalParticleCount w) (store w)).
  { rewrite T. unfold allocCount.
    destruct H as (-> & -> & _ & -> & _ & -> & -> & _). done. }
  split; [done|]. intros i. unfold processed. by rewrite A.
Qed.

(** ** The random direction *)

Lemma normalize_spec a :
  0 < lengthSq a ->
  exists L, 0 < L /\ L * L = lengthSq a /\ normalize a = multiplyScalar a (1 / L).
Proof.
  intros H. exists (vlength a). unfold vlength.
  assert (Hs : 0 < sqrt (lengthSq a)) by (apply sqrt_lt_R0; done).
  split; [done|]. split; [apply sqrt_sqrt; lra|].
  unfold normalize, divideScalar, vlength.
  destruct (decide (sqrt (lengthSq a) = 0)); [lra|done].
Qed.

Lemma lengthSq_scaled a r : lengthSq (multiplyScalar a r) = r * r * lengthSq a.
Proof. unfold lengthSq, multiplyScalar. simpl. ring. Qed.

Lemma normalize_lengthSq a : 0 < lengthSq a -> lengthSq (normalize a) = 1.
Proof.
  intros H. destruct (normalize_spec a H) as (L & HL & E & ->).
  rewrite lengthSq_scaled, <- E. field. lra.
Qed.

Lemma normalize_dot a b :
  0 < lengthSq a -> dotVec a b = 0 -> dotVec (normalize a) b = 0.
Proof.
  intros H D. destruct (normalize_spec a H) as (L & HL & E & ->).
  unfold dotVec, multiplyScalar in *. simpl.
  replace (vx a * (1 / L) * vx b + vy a * (1 / L) * vy b + vz a * (1 / L) * vz b)
    with ((vx a * vx b + vy a * vy b + vz a * vz b) * (1 / L)) by ring.
  rewrite D. ring.
Qed.

Lemma normalize_unit a : lengthSq a = 1 -> normalize a = a.
Proof.
  intros H. unfold normalize, divideScalar, vlength. rewrite H, sqrt_1.
  destruct (decide (1 = 0)); [lra|].
  unfold multiplyScalar. destruct a as [x y z]. simpl. f_equal; field.
Qed.

Lemma cross_dot_left a b : dotVec (crossVectors a b) a = 0.
Proof. unfold dotVec, crossVectors. simpl. ring. Qed.

Lemma cross_dot_right a b : dotVec (crossVectors a b) b = 0.
Proof. unfold dotVec, crossVectors. simpl. ring. Qed.

Lemma cross_lengthSq a b :
  lengthSq (crossVectors a b)
  = lengthSq a * lengthSq b - dotVec a b * dotVec a b.
Proof. unfold lengthSq, dotVec, crossVectors. simpl. ring. Qed.

Lemma dotVec_comm a b : dotVec a b = dotVec b a.
Proof. unfold dotVec. ring. Qed.

Lemma combination_lengthSq b p q x y z :
  lengthSq b = 1 -> lengthSq p = 1 -> lengthSq q = 1 ->
  dotVec p b = 0 -> dotVec q b = 0 -> dotVec q p = 0 ->
  let v := addScaledVector (addScaledVector (multiplyScalar b x) p y) q z in
  lengthSq v = x * x + y * y + z * z /\ dotVec v b = x.
Proof.
  intros Hb Hp Hq Dpb Dqb Dqp v. subst v.
  set (v := addScaledVector (addScaledVector (multiplyScalar b x) p y) q z).
  assert (E1 : lengthSq v
               = x * x * lengthSq b + y * y * lengthSq p + z * z * lengthSq q
                 + 2 * x * y * dotVec p b + 2 * x * z * dotVec q b
                 + 2 * y * z * dotVec q p).
  { unfold v, lengthSq, dotVec, addScaledVector, multiplyScalar. simpl. ring. }
  assert (E2 : dotVec v b = x * lengthSq b + y * dotVec p b + z * dotVec q b).
  { unfold v, lengthSq, dotVec, addScaledVector, multiplyScalar. simpl. ring. }
  rewrite E1, E2, Hb, Hp, Hq, Dpb, Dqb, Dqp. split; ring.
Qed.

(** For a base direction of length 1 the random direction has length 1
    and makes with the base direction exactly the angle
    [random * maxAngleDegrees * PI / 180 * chaosStrength]: its scalar
    product with the base direction is the cosine of that angle.  Two
    random numbers are drawn. *)
Theorem randomDirection3D_in_cone rnd baseDirection maxAngleDegrees chaosStrength k :
  lengthSq baseDirection = 1 ->
  let r := randomDirection3D rnd baseDirection maxAngleDegrees chaosStrength k in
  let angle := rnd k * (maxAngleDegrees * PI / 180) * chaosStrength in
  lengthSq r.1 = 1 /\
  dotVec r.1 baseDirection = cos angle /\
  r.2 = (k + 2)%nat.
Proof.
  intros Hb r angle. subst r. unfold randomDirection3D. cbn [fst snd].
  set (e := if bool_decide (Rabs (vx baseDirection) < 0.9)
            then mkVec3 1 0 0 else mkVec3 0 1 0).
  assert (He : lengthSq e = 1 /\ dotVec baseDirection e * dotVec baseDirection e < 1).
  { subst e. case_bool_decide as Hx.
    - split; [unfold lengthSq; simpl; ring|].
      unfold dotVec. simpl.
      apply Rabs_def2 in Hx. nra.
    - split; [unfold lengthSq; simpl; ring|].
      unfold dotVec. simpl.
      assert (0.9 <= Rabs (vx baseDirection)) by lra.
      assert (0.81 <= vx baseDirection * vx baseDirection).
      { unfold Rabs in H. destruct (Rcase_abs _); nra. }
      unfold lengthSq in Hb. nra. }
  destruct He as [He Hd].
  set (c1 := crossVectors baseDirection e).
  assert (H1 : 0 < lengthSq c1).
  { subst c1. rewrite cross_lengthSq, Hb, He. lra. }
  set (p := normalize c1).
  assert (Hp : lengthSq p = 1) by (apply normalize_lengthSq; done).
  assert (Dpb : dotVec p baseDirection = 0).
  { apply normalize_dot; [done|]. apply cross_dot_left. }
  set (c2 := crossVectors baseDirection p).
  assert (H2 : lengthSq c2 = 1).
  { subst c2. rewrite cross_lengthSq, Hb, Hp.
    rewrite (dotVec_comm baseDirection p), Dpb. ring. }
  assert (Eq : normalize c2 = c2) by (apply normalize_unit; done).
  rewrite Eq.
  assert (Dqb : dotVec c2 baseDirection = 0) by apply cross_dot_left.
  assert (Dqp : dotVec c2 p = 0) by apply cross_dot_right.
  set (A := rnd k * (maxAngleDegrees * PI / 180) * chaosStrength) in *.
  replace (rnd k * (maxAngleDegrees * PI / 180) * chaosStrength) with A by done.
  set (Z := rnd (k + 1)%nat * PI * 2).
  destruct (combination_lengthSq baseDirection p c2 (cos A)
              (sin A * cos Z) (sin A * sin Z) Hb Hp H2 Dpb Dqb Dqp) as [L D].
  cbv zeta in L, D.
  assert (L1 : lengthSq
                 (addScaledVector
                    (addScaledVector (multiplyScalar baseDirection (cos A)) p
                       (sin A * cos Z)) c2 (sin A * sin Z)) = 1).
  { rewrite L. pose proof (sin2_cos2 A) as SA. pose proof (sin2_cos2 Z) as SZ.
    unfold Rsqr in *. nra. }
  rewrite (normalize_unit _ L1). split; [done|]. split; [done|]. done.
Qed.

Lemma randomDirection3D_in_cone_witness :
  lengthSq (randomDirection3D halves (mkVec3 0 0 1) 45 0.8 0).1 = 1 /\
  dotVec (randomDirection3D halves (mkVec3 0 0 1) 45 0.8 0).1 (mkVec3 0 0 1)
  = cos (0.5 * (45 * PI / 180) * 0.8).
Proof.
  destruct (randomDirection3D_in_cone halves (mkVec3 0 0 1) 45 0.8 0) as (L & D & _).
  - unfold lengthSq. simpl. ring.
  - split; [exact L|exact D].
Defined.

(** ** The glow *)

Lemma colorStep_glow f d g j s s' :
  colorStep f d g j s = Some s' ->
  velocities s' = velocities s /\
  length (glows s') = length (glows s) /\
  length (colors s') = length (colors s) /\
  (forall m, m <> j -> rd (glows s') m = rd (glows s) m) /\
  (d || g = true -> (j < length (glows s))%nat ->
   rd (glows s') j = glowOf f d j s) /\
  (d || g = false -> glows s' = glows s).
Proof.
  unfold colorStep. case_bool_decide; [done|]. intros [= <-].
  unfold updateGlow, glowOf. simpl.
  destruct d; [|destruct g]; simpl.
  - case_bool_decide; simpl; rewrite ?length_insert;
      repeat split; try done; try lia.
    + intros m Hm. by rewrite rd_insert_ne.
    + intros _ _. by rewrite rd_insert_eq.
  - case_bool_decide; simpl; rewrite ?length_insert;
      repeat split; try done; try lia.
    + intros m Hm. by rewrite rd_insert_ne.
    + intros _ _. by rewrite rd_insert_eq.
  - rewrite !length_insert. repeat split; done.
Qed.

Lemma colorStore_glow_at f d g n s i :
  d || g = true ->
  (i < Nat.min n (length (distanceBuffer s)))%nat ->
  (i * 3 + 2 < length (colors s))%nat ->
  (i < length (glows s))%nat ->
  rd (glows (colorStore f true d g n s)) i = glowOf f d i s.
Proof.
  intros Hdg Hn Hc Hg. unfold colorStore.
  set (I := fun t : Store =>
              velocities t = velocities s /\
              length (glows t) = length (glows s) /\
              length (colors t) = length (colors s)).
  assert (H : (fun t => I t /\ rd (glows t) i = glowOf f d i s)
                (forLoop (colorStep f d g) 0
                   (Nat.min n (length (distanceBuffer s))) s));
    [|by destruct H].
  apply (forLoop_at (colorStep f d g) I (fun _ => True)
           (fun t => I t /\ rd (glows t) i = glowOf f d i s) i);
    try done; try lia.
  - intros j t Hj (V & G & C).
    destruct (colorStep f d g j t) as [t'|] eqn:E.
    + exists t'. split; [done|].
      apply colorStep_glow in E as (V' & G' & C' & _). unfold I.
      repeat split; congruence.
    + unfold colorStep in E. rewrite bool_decide_false in E by lia. done.
  - intros t t' (V & G & C) _ E.
    apply colorStep_glow in E as (V' & G' & C' & _ & Hi & _).
    split; [unfold I; repeat split; congruence|].
    rewrite Hi by (done || lia). unfold glowOf. by rewrite V.
  - intros j t t' Hj [(V & G & C) P] E.
    apply colorStep_glow in E as (V' & G' & C' & Hm & _).
    split; [unfold I; repeat split; congruence|].
    rewrite Hm by lia. done.
Qed.

Lemma colorStore_glow_static f h n s :
  glows (colorStore f h false false n s) = glows s.
Proof.
  unfold colorStore. destruct h; [|done].
  apply (forLoop_invariant (colorStep f false false)
           (fun t => glows t = glows s) 0%nat); [|lia|done].
  intros j t t' _ Ht E.
  apply colorStep_glow in E as (_ & _ & _ & _ & _ & Hs). rewrite Hs; done.
Qed.

Lemma settledFrame_glowConfig nowDate nowPerf cam ptr c :
  glowBrightness (fCfg (settledFrame nowDate nowPerf cam ptr c)) = glowBrightness c /\
  velocityGlowMultiplier (fCfg (settledFrame nowDate nowPerf cam ptr c))
  = velocityGlowMultiplier c.
Proof.
  destruct (settledFrame_cfg nowDate nowPerf cam ptr c) as (lw & ws & ->). done.
Qed.

Lemma settledPhase_glowCache rnd nowDate nowPerf w ptr c s :
  let w' := settledPhase rnd nowDate nowPerf w ptr c s in
  cachedGlowBrightness w' = glowBrightness c /\
  cachedVelocityGlowMultiplier w' = velocityGlowMultiplier c /\
  glowBrightness (CONFIG w') = glowBrightness c /\
  velocityGlowMultiplier (CONFIG w') = velocityGlowMultiplier c /\
  isLoadingAnimation (CONFIG w') = isLoadingAnimation c /\
  (velocityGlowMultiplier c <= 0 -> glowStaticNeedsUpdate w' = false).
Proof.
  cbv zeta.
  assert (E : exists lw ws es,
             CONFIG (settledPhase rnd nowDate nowPerf w ptr c s)
             = set_explosions es (set_lastWaveTime lw (set_waves ws c))).
  { rewrite settledPhase_CONFIG.
    destruct (waveLogic_shape nowDate (camera w) c) as (lw & ws & ->).
    unfold cleanupExplosions. case_bool_decide; eauto.
    exists lw, ws, (explosions c). by destruct c. }
  destruct E as (lw & ws & es & E). rewrite E.
  destruct (waveLogic_shape nowDate (camera w) c) as (lw' & ws' & Ew).
  unfold settledPhase.
  destruct (waveLogic nowDate (camera w) c) as [c' b]. simpl in Ew. subst c'.
  destruct (physicsStore _ _ _ _ _ _) as [s' k]. simpl.
  split; [|split; [|split; [done|split; [done|split; [done|]]]]].
  - repeat case_bool_decide; simpl; congruence.
  - repeat case_bool_decide; simpl; congruence.
  - intros Hm. rewrite (bool_decide_false (_ > 0)) by lra. simpl.
    by destruct (_ || _), (glowStaticNeedsUpdate w).
Qed.

Lemma settledPhase_glow rnd nowDate nowPerf w ptr c s i :
  hasColorAttr w = true ->
  processed (totalParticleCount w) s i ->
  (i < length (glows s))%nat ->
  let f := settledFrame nowDate nowPerf (camera w) ptr c in
  let t := store (settledPhase rnd nowDate nowPerf w ptr c s) in
  let d := bool_decide (velocityGlowMultiplier c > 0) in
  let g := negb (bool_decide (cachedGlowBrightness w = glowBrightness c))
           || negb (bool_decide (cachedVelocityGlowMultiplier w
                                 = velocityGlowMultiplier c))
           || glowStaticNeedsUpdate w in
  velocities t = velocities (settledPhysics rnd nowDate nowPerf w ptr c s) /\
  (d || g = true -> rd (glows t) i = glowOf f d i t) /\
  (d || g = false -> glows t = glows s).
Proof.
  intros Hc Hp Hg f t d g. subst t.
  destruct (processed_bounds _ _ _ Hp) as (Hn & _ & _ & _ & Hcol).
  destruct (settledPhase_motion rnd nowDate nowPerf w ptr c s)
    as (_ & Ev & _).
  split; [exact Ev|].
  destruct (settledFrame_glowConfig nowDate nowPerf (camera w) ptr c) as [G1 G2].
  fold f in G1, G2.
  assert (Eg : glowOf f d i (store (settledPhase rnd nowDate nowPerf w ptr c s))
               = glowOf f d i (settledPhysics rnd nowDate nowPerf w ptr c s)).
  { unfold glowOf. by rewrite Ev. }
  rewrite Eg. rewrite settledPhase_store. cbv zeta. fold f.
  rewrite G1, G2, Hc. fold d.
  set (g' := if _ || _ then true else glowStaticNeedsUpdate w).
  assert (Egg : g' = g).
  { subst g' g. by destruct (negb _ || negb _), (glowStaticNeedsUpdate w). }
  rewrite Egg.
  destruct (settledPhysics_shape rnd nowDate nowPerf w ptr c s)
    as (p & v & z & gl & r & db & Es & Ed).
  split.
  - intros Hdg. apply colorStore_glow_at; try done.
    + rewrite Es. simpl. rewrite Ed.
      pose proof (distanceStore_length (camZ (camera w))
                    (actualCount (totalParticleCount w) s)
                    (allocCount (totalParticleCount w) s) s
                    (allocCount_le _ _)).
      unfold processed in Hp. lia.
    + rewrite Es. simpl. done.
    + rewrite Es. simpl. done.
  - intros Hdg. apply orb_false_iff in Hdg as [-> ->].
    rewrite colorStore_glow_static. rewrite Es. done.
Qed.

(** With a positive [velocityGlowMultiplier] every settled step writes
    to the glow of a particle [glowBrightness] plus its speed after the
    step times the multiplier, at most 1. *)
Theorem glow_follows_speed rnd nowDate nowPerf w i :
  settled w ->
  hasColorAttr w = true ->
  processed (totalParticleCount w) (store w) i ->
  (i < length (glows (store w)))%nat ->
  velocityGlowMultiplier (CONFIG w) > 0 ->
  let t := store (updatePhysics rnd nowDate nowPerf w) in
  rd (glows t) i
  = Rmin (glowBrightness (CONFIG w)
          + vlength (get3 (velocities t) i) * velocityGlowMultiplier (CONFIG w)) 1.
Proof.
  intros Hs Hc Hp Hg Hm t. subst t.
  rewrite updatePhysics_settled by done.
  destruct (settledPhase_glow rnd nowDate nowPerf w (framePointer w) (CONFIG w)
              (store w) i Hc Hp Hg) as (_ & D & _).
  rewrite bool_decide_true in D by done. rewrite D by done.
  unfold glowOf.
  destruct (settledFrame_glowConfig nowDate nowPerf (camera w) (framePointer w)
              (CONFIG w)) as [-> ->].
  done.
Qed.

Lemma glow_follows_speed_witness :
  rd (glows (store (updatePhysics halves 5000 5000 farWorld))) 0
  = Rmin (0.19 + vlength (get3 (velocities
            (store (updatePhysics halves 5000 5000 farWorld))) 0) * 0.10) 1.
Proof.
  apply (glow_follows_speed halves 5000 5000 farWorld 0); try done.
  - apply processed_one.
  - simpl. lia.
  - simpl. lra.
Defined.

(** Without the glow of the speed ([velocityGlowMultiplier] not
    positive) the glow is written only when [glowBrightness] or the
    multiplier has changed since the step before, or on the first step:
    that step writes [min(glowBrightness, 1)] and remembers the two
    values, and the next step leaves the glows as they are. *)
Theorem static_glow_is_cached rnd nowDate nowPerf nowDate' nowPerf' w :
  settled w ->
  velocityGlowMultiplier (CONFIG w) <= 0 ->
  let w1 := updatePhysics rnd nowDate nowPerf w in
  let w2 := updatePhysics rnd nowDate' nowPerf' w1 in
  glowStaticNeedsUpdate w1 = false /\
  cachedGlowBrightness w1 = glowBrightness (CONFIG w) /\
  cachedVelocityGlowMultiplier w1 = velocityGlowMultiplier (CONFIG w) /\
  glows (store w2) = glows (store w1) /\
  (forall i,
     hasColorAttr w = true ->
     processed (totalParticleCount w) (store w) i ->
     (i < length (glows (store w)))%nat ->
     glowStaticNeedsUpdate w = true \/
     cachedGlowBrightness w <> glowBrightness (CONFIG w) \/
     cachedVelocityGlowMultiplier w <> velocityGlowMultiplier (CONFIG w) ->
     rd (glows (store w1)) i = Rmin (glowBrightness (CONFIG w)) 1).
Proof.
  intros Hs Hm w1 w2.
  assert (E1 : w1 = settledPhase rnd nowDate nowPerf w (framePointer w)
                      (CONFIG w) (store w))
    by (subst w1; by apply updatePhysics_settled).
  destruct (settledPhase_glowCache rnd nowDate nowPerf w (framePointer w)
              (CONFIG w) (store w)) as (C1 & C2 & C3 & C4 & C5 & C6).
  cbv zeta in *. rewrite <- E1 in C1, C2, C3, C4, C5, C6.
  assert (Hs1 : settled w1).
  { destruct Hs as (Hi & Hg & Hl).
    destruct (updatePhysics_static rnd nowDate nowPerf w) as (I1 & I2 & _).
    fold w1 in I1, I2. repeat split; congruence. }
  split; [by apply C6|]. split; [done|]. split; [done|]. split.
  - subst w2. rewrite updatePhysics_settled by done.
    rewrite settledPhase_store. cbv zeta.
    destruct (settledFrame_glowConfig nowDate' nowPerf' (camera w1)
                (framePointer w1) (CONFIG w1)) as [-> ->].
    rewrite C1, C2, C3, C4, C6 by done.
    rewrite (bool_decide_false (_ > 0)) by lra.
    rewrite !bool_decide_true by done. simpl.
    rewrite colorStore_glow_static.
    destruct (settledPhysics_shape rnd nowDate' nowPerf' w1 (framePointer w1)
                (CONFIG w1) (store w1)) as (p & v & z & gl & r & db & -> & _).
    done.
  - intros i Hc Hp Hg Hch. rewrite E1.
    destruct (settledPhase_glow rnd nowDate nowPerf w (framePointer w) (CONFIG w)
                (store w) i Hc Hp Hg) as (_ & D & _).
    rewrite (bool_decide_false (_ > 0)) in D by lra.
    rewrite D.
    + unfold glowOf.
      destruct (settledFrame_glowConfig nowDate nowPerf (camera w) (framePointer w)
                  (CONFIG w)) as [-> _]. done.
    + simpl. destruct Hch as [->|[H|H]].
      * apply orb_true_r.
      * by rewrite (bool_decide_false _ H).
      * rewrite (bool_decide_false _ H).
        by destruct (bool_decide _), (glowStaticNeedsUpdate w).
Qed.

Lemma static_glow_is_cached_witness :
  let w1 := updatePhysics halves 5000 5000 steadyGlowWorld in
  glowStaticNeedsUpdate w1 = false /\
  glows (store (updatePhysics halves 5016 5016 w1)) = glows (store w1).
Proof.
  destruct (static_glow_is_cached halves 5000 5000 5016 5016 steadyGlowWorld)
    as (F & _ & _ & G & _); [done|simpl; lra|].
  split; [exact F|exact G].
Defined.

(** ** The choice of the particles outside the formation *)

Section Choice.
Context {A : Type} (targetCount : nat) (outsidePoints : list A).

Lemma stridedLoop_invariant {St : Type} (body : nat -> St -> option St)
    (P : St -> Prop) step bound :
  (forall j s s', (j < bound)%nat -> P s -> body j s = Some s' -> P s') ->
  forall fuel i s, P s -> P (stridedLoop body step bound i fuel s).
Proof.
  intros Hstep fuel. induction fuel as [|fuel IH]; intros i s HP; simpl; [done|].
  case_bool_decide; [|done].
  destruct (body i s) as [s'|] eqn:E; [|done].
  apply IH. eapply Hstep; eauto.
Qed.

(** The fuel of the loops of the choice is enough: with a step of 1 or
    more, more fuel than the distance to the bound changes nothing. *)
Lemma stridedLoop_enough_fuel {St : Type} (body : nat -> St -> option St)
    step bound :
  (1 <= step)%nat ->
  forall fuel fuel' i s,
    (bound <= i + fuel)%nat -> (fuel <= fuel')%nat ->
    stridedLoop body step bound i fuel' s = stridedLoop body step bound i fuel s.
Proof.
  intros Hstep fuel.
  induction fuel as [|fuel IH]; intros fuel' i s Hb Hf.
  - destruct fuel' as [|fuel']; [done|]. simpl.
    by rewrite bool_decide_false by lia.
  - destruct fuel' as [|fuel']; [lia|]. simpl.
    case_bool_decide; [|done].
    destruct (body i s) as [s'|]; [|done].
    apply IH; lia.
Qed.

Lemma stridedLoop_indexed {St : Type} (body : nat -> St -> option St)
    (P : nat -> St -> Prop) step bound :
  (forall j s s', (j < bound)%nat -> P j s -> body j s = Some s' ->
                  P (j + step)%nat s') ->
  forall fuel i s, P i s -> exists j, P j (stridedLoop body step bound i fuel s).
Proof.
  intros Hstep fuel. induction fuel as [|fuel IH]; intros i s HP; simpl;
    [by exists i|].
  case_bool_decide; [|by exists i].
  destruct (body i s) as [s'|] eqn:E; [|by exists i].
  apply IH. eapply Hstep; eauto.
Qed.

Lemma selectPoint_chosen idx i st :
  chosen targetCount outsidePoints idx st ->
  (length st.1 < targetCount)%nat ->
  st.2 !! i <> Some true ->
  exists idx', chosen targetCount outsidePoints idx' (selectPoint outsidePoints i st).
Proof.
  intros (Hn & Hf & Hl & Hs & Ht) Hlt Hsel. unfold selectPoint.
  destruct (outsidePoints !! i) as [p|] eqn:E; [|by exists idx].
  exists (idx ++ [i]). unfold chosen. simpl.
  assert (Hi : i ∉ idx) by (intros H; by apply Hs in H).
  assert (Hlen : (i < length st.2)%nat).
  { rewrite Hl. by apply lookup_lt_Some in E. }
  split; [|split; [|split; [|split]]].
  - apply NoDup_app. split; [done|]. split; [|apply NoDup_singleton].
    intros x Hx Hx'. apply list_elem_of_singleton in Hx'. by subst.
  - apply Forall2_app; [done|]. by constructor.
  - by rewrite length_insert.
  - intros j. rewrite elem_of_app, list_elem_of_singleton.
    destruct (decide (j = i)) as [->|Hne].
    + rewrite list_lookup_insert_eq by done. split; [by right|done].
    + rewrite list_lookup_insert_ne by done. rewrite Hs. split; [by left|].
      by intros [?|?].
  - rewrite length_app. simpl. lia.
Qed.

Lemma pickFifth_chosen j st st' :
  (exists idx, chosen targetCount outsidePoints idx st /\
               forall i, i ∈ idx -> (i < j)%nat) ->
  pickFifth targetCount outsidePoints j st = Some st' ->
  exists idx, chosen targetCount outsidePoints idx st' /\
              forall i, i ∈ idx -> (i < j + 5)%nat.
Proof.
  intros (idx & Hc & Hb). unfold pickFifth. case_bool_decide; [done|].
  intros [= <-]. unfold selectPoint.
  destruct (outsidePoints !! j) as [p|] eqn:E.
  - destruct Hc as (Hn & Hf & Hl & Hs & Ht).
    exists (idx ++ [j]). split.
    + assert (Hi : j ∉ idx) by (intros H'; apply Hb in H'; lia).
      assert (Hlen : (j < length st.2)%nat).
      { rewrite Hl. by apply lookup_lt_Some in E. }
      unfold chosen. simpl. split; [|split; [|split; [|split]]].
      * apply NoDup_app. split; [done|]. split; [|apply NoDup_singleton].
        intros x Hx Hx'. apply list_elem_of_singleton in Hx'. by subst.
      * apply Forall2_app; [done|]. by constructor.
      * by rewrite length_insert.
      * intros i. rewrite elem_of_app, list_elem_of_singleton.
        destruct (decide (i = j)) as [->|Hne].
        -- rewrite list_lookup_insert_eq by done. split; [by right|done].
        -- rewrite list_lookup_insert_ne by done. rewrite Hs.
           split; [by left|]. by intros [?|?].
      * rewrite length_app. simpl. lia.
    + intros i Hi. apply elem_of_app in Hi as [Hi|Hi].
      * apply Hb in Hi. lia.
      * apply list_elem_of_singleton in Hi. lia.
  - exists idx. split; [done|]. intros i Hi. apply Hb in Hi. lia.
Qed.

Lemma pickUnselected_chosen j st st' :
  (exists idx, chosen targetCount outsidePoints idx st) ->
  pickUnselected targetCount outsidePoints j st = Some st' ->
  exists idx, chosen targetCount outsidePoints idx st'.
Proof.
  intros (idx & Hc). unfold pickUnselected. case_bool_decide; [done|].
  case_bool_decide as Hsel.
  - intros [= <-]. by exists idx.
  - intros [= <-]. eapply selectPoint_chosen; [done|lia|done].
Qed.

Lemma chosen_length idx st :
  chosen targetCount outsidePoints idx st ->
  length st.1 = length idx /\ (length idx <= length outsidePoints)%nat.
Proof.
  intros (Hn & Hf & Hl & Hs & Ht).
  split; [symmetry; by eapply Forall2_length|].
  assert (Hsub : idx ⊆+ seq 0 (length outsidePoints)).
  { apply NoDup_submseteq; [done|]. intros i Hi.
    apply Hs in Hi. apply lookup_lt_Some in Hi. rewrite Hl in Hi.
    apply elem_of_seq. lia. }
  apply submseteq_length in Hsub. by rewrite length_seq in Hsub.
Qed.

Lemma chosen_all idx st :
  chosen targetCount outsidePoints idx st ->
  (forall i, (i < length outsidePoints)%nat -> st.2 !! i = Some true) ->
  length st.1 = length outsidePoints.
Proof.
  intros Hc Hall. destruct (chosen_length idx st Hc) as [E Hle].
  destruct Hc as (Hn & Hf & Hl & Hs & Ht).
  assert (Hsub : seq 0 (length outsidePoints) ⊆+ idx).
  { apply NoDup_submseteq; [apply NoDup_seq|]. intros i Hi.
    apply elem_of_seq in Hi. apply Hs, Hall. lia. }
  apply submseteq_length in Hsub. rewrite length_seq in Hsub. lia.
Qed.

Lemma linearPick_complete fuel : forall a st,
  (a + fuel = length outsidePoints)%nat ->
  (exists idx, chosen targetCount outsidePoints idx st) ->
  (forall i, (i < a)%nat -> st.2 !! i = Some true) ->
  (targetCount
   <= length (stridedLoop (pickUnselected targetCount outsidePoints) 1
                (length outsidePoints) a fuel st).1)%nat \/
  (forall i, (i < length outsidePoints)%nat ->
     (stridedLoop (pickUnselected targetCount outsidePoints) 1
        (length outsidePoints) a fuel st).2 !! i = Some true).
Proof.
  induction fuel as [|fuel IH]; intros a st Ha Hc Hsel.
  - right. intros i Hi. apply Hsel. lia.
  - simpl. rewrite bool_decide_true by lia.
    destruct (pickUnselected targetCount outsidePoints a st) as [s'|] eqn:E.
    + assert (Hlook : is_Some (outsidePoints !! a))
        by (apply lookup_lt_is_Some; lia).
      destruct Hlook as [p Ep].
      assert (Hc' : exists idx, chosen targetCount outsidePoints idx s')
        by (eapply pickUnselected_chosen; eauto).
      apply (IH (a + 1)%nat s'); [lia|done|].
      intros i Hi. revert E. unfold pickUnselected.
      case_bool_decide; [done|]. case_bool_decide as Hs; intros [= <-].
      * destruct (decide (i = a)) as [->|]; [done|]. apply Hsel. lia.
      * unfold selectPoint. rewrite Ep. simpl.
        destruct Hc as (idx & _ & _ & Hl & _).
        destruct (decide (i = a)) as [->|].
        -- apply list_lookup_insert_eq. lia.
        -- rewrite list_lookup_insert_ne by done. apply Hsel. lia.
    + left. revert E. unfold pickUnselected.
      case_bool_decide; [done|]. by case_bool_decide.
Qed.

End Choice.

Lemma filterOutsidePoints_chosen {A : Type} (targetCount : nat)
    (outsidePoints : list A) :
  let r := filterOutsidePoints targetCount outsidePoints in
  length r = Nat.min targetCount (length outsidePoints) /\
  exists idx,
    NoDup idx /\ Forall2 (fun i p => outsidePoints !! i = Some p) idx r.
Proof.
  intros r. subst r. unfold filterOutsidePoints.
  set (n := length outsidePoints).
  set (st0 := (([] : list A), replicate n false)).
  assert (H0 : chosen targetCount outsidePoints [] st0).
  { unfold chosen, st0. simpl. split; [constructor|].
    split; [constructor|]. split; [by rewrite length_replicate|].
    split; [|lia]. intros i. split; [|by intros ?%elem_of_nil].
    intros H. apply lookup_replicate in H as [? _]. done. }
  set (st1 := stridedLoop (pickFifth targetCount outsidePoints) 5 n 0 n st0).
  assert (H1 : exists idx, chosen targetCount outsidePoints idx st1).
  { destruct (stridedLoop_indexed (pickFifth targetCount outsidePoints)
                (fun j st => exists idx, chosen targetCount outsidePoints idx st /\
                                         forall i, i ∈ idx -> (i < j)%nat)
                5 n) with (fuel := n) (i := 0%nat) (s := st0)
      as (j & idx & Hc & _).
    - intros j s s' _ HP E. eapply pickFifth_chosen; eauto.
    - exists []. split; [done|]. by intros i ?%elem_of_nil.
    - by exists idx. }
  set (P := fun st : list A * list bool =>
              exists idx, chosen targetCount outsidePoints idx st).
  assert (Hun : forall step i fuel st, P st ->
            P (stridedLoop (pickUnselected targetCount outsidePoints) step n i
                 fuel st)).
  { intros step i fuel st HP.
    apply (stridedLoop_invariant (pickUnselected targetCount outsidePoints) P);
      [|done].
    intros j s s' _ Hs E. eapply pickUnselected_chosen; eauto. }
  set (st2 := if bool_decide (length st1.1 < targetCount)%nat
                 && bool_decide (0 < n)%nat
              then _ else st1).
  assert (H2 : P st2 /\
               ((targetCount <= length st2.1)%nat \/
                length st2.1 = n)).
  { subst st2.
    destruct (decide (length st1.1 < targetCount)%nat) as [B1|B1];
      [destruct (decide (0 < n)%nat) as [B2|B2]|].
    - rewrite (bool_decide_true _ B1), (bool_decide_true _ B2). simpl.
      set (st' := stridedLoop (pickUnselected targetCount outsidePoints)
                    (Nat.max 1 (n / (targetCount - length st1.1))) n 0 n st1).
      assert (H' : P st') by (by apply Hun).
      destruct (decide (length st'.1 < targetCount)%nat) as [B3|B3].
      + rewrite (bool_decide_true _ B3).
        split; [by apply Hun|].
        destruct (linearPick_complete targetCount outsidePoints n 0 st')
          as [Hfull|Hall]; [done|done|intros i Hi; lia|by left|].
        right. fold n in Hall.
        destruct (Hun 1%nat 0%nat n st' H') as [idx Hc].
        by apply (chosen_all targetCount outsidePoints idx _ Hc).
      + rewrite (bool_decide_false _ B3). split; [done|]. left. lia.
    - rewrite (bool_decide_true _ B1), (bool_decide_false _ B2). simpl.
      split; [done|]. right.
      destruct H1 as [idx Hc].
      destruct (chosen_length targetCount outsidePoints idx st1 Hc) as [E Hle].
      fold n in Hle. lia.
    - rewrite (bool_decide_false _ B1). simpl. split; [done|]. left. lia. }
  destruct H2 as [[idx Hc] Hlen].
  destruct (chosen_length targetCount outsidePoints idx st2 Hc) as [E Hle].
  fold n in Hle.
  split.
  - destruct Hc as (_ & _ & _ & _ & Ht). lia.
  - exists idx. by destruct Hc as (Hn & Hf & _).
Qed.

(** The choice returns [targetCount] of the points outside the
    formation, or all of them when there are fewer; every point that it
    returns is one of them, and none is taken twice. *)
Theorem filterOutsidePoints_exact {A : Type} (targetCount : nat)
    (outsidePoints : list A) :
  let r := filterOutsidePoints targetCount outsidePoints in
  length r = Nat.min targetCount (length outsidePoints) /\
  exists idx,
    NoDup idx /\ Forall2 (fun i p => outsidePoints !! i = Some p) idx r.
Proof. apply filterOutsidePoints_chosen. Qed.

Lemma wave_glow_bounded_witness :
  let f := settledFrame 4016 4016 exampleCamera idlePointer (CONFIG risingWorld) in
  0 <= totalWaveGlow f 0 (store risingWorld) <= 0.75.
Proof.
  intros f. destruct risingWorld_frame as [Ec _]. fold f in Ec.
  assert (E : waveGlowIntensity (fCfg f) = 0.75) by (rewrite Ec; reflexivity).
  destruct (wave_glow_bounded f 0 (store risingWorld)) as [L U].
  - rewrite E. lra.
  - rewrite E in U. split; [exact L|exact U].
Defined.

(** ** The size of the formation *)

(** The shape scaled by the factor of [calculateOptimalSVGSize] fits
    into the visible area without its paddings and fills it in one of the
    two directions; [sphereRadius] can only make the shape smaller than
    that: a value of 1 or more has no effect. *)
Theorem formation_fits_viewport cam paddingX paddingY w h sphereRadius :
  0 < w -> 0 < h ->
  camLeft cam < camRight cam -> camBottom cam < camTop cam ->
  paddingX < 1 / 2 -> paddingY < 1 / 2 ->
  let availableWidth := (camRight cam - camLeft cam) * (1 - 2 * paddingX) in
  let availableHeight := (camTop cam - camBottom cam) * (1 - 2 * paddingY) in
  let base := calculateOptimalSVGSize cam paddingX paddingY w h in
  let scale := svgScaleFactor base sphereRadius in
  0 < base /\
  w * base <= availableWidth /\ h * base <= availableHeight /\
  (w * base = availableWidth \/ h * base = availableHeight) /\
  scale <= base /\
  w * scale <= availableWidth /\ h * scale <= availableHeight /\
  (1 <= sphereRadius -> scale = base).
Proof.
  intros Hw Hh Hx Hy Hpx Hpy aw ah base scale.
  assert (Haw : 0 < aw) by (subst aw; apply Rmult_lt_0_compat; lra).
  assert (Hah : 0 < ah) by (subst ah; apply Rmult_lt_0_compat; lra).
  assert (E : base = Rmin (aw / w) (ah / h)) by reflexivity.
  assert (Ew : w * (aw / w) = aw) by (field; lra).
  assert (Eh : h * (ah / h) = ah) by (field; lra).
  assert (Pw : 0 < aw / w) by (apply Rdiv_lt_0_compat; lra).
  assert (Ph : 0 < ah / h) by (apply Rdiv_lt_0_compat; lra).
  assert (Hb : 0 < base /\ w * base <= aw /\ h * base <= ah /\
               (w * base = aw \/ h * base = ah)).
  { rewrite E. unfold Rmin. destruct (Rle_dec (aw / w) (ah / h)) as [H|H].
    - split; [done|]. split; [lra|]. split; [|by left].
      rewrite <- Eh. apply Rmult_le_compat_l; lra.
    - split; [done|]. split; [|split; [lra|by right]].
      rewrite <- Ew. apply Rmult_le_compat_l; lra. }
  destruct Hb as (B0 & B1 & B2 & B3).
  assert (Hs : scale <= base) by (subst scale; apply Rmin_r).
  split; [done|]. split; [done|]. split; [done|]. split; [done|].
  split; [done|]. split; [|split].
  - apply Rle_trans with (w * base); [|done]. apply Rmult_le_compat_l; lra.
  - apply Rle_trans with (h * base); [|done]. apply Rmult_le_compat_l; lra.
  - intros H1. subst scale. unfold svgScaleFactor. apply Rmin_right. nra.
Qed.

Lemma formation_fits_viewport_witness :
  calculateOptimalSVGSize exampleCamera 0.15 0.30 1 0.5 = 4.2 /\
  svgScaleFactor (calculateOptimalSVGSize exampleCamera 0.15 0.30 1 0.5) 3 = 4.2.
Proof.
  destruct (formation_fits_viewport exampleCamera 0.15 0.30 1 0.5 3)
    as (_ & B1 & _ & B3 & _ & _ & _ & S); try (simpl; lra).
  cbv zeta in *. simpl in B1, B3.
  assert (E : calculateOptimalSVGSize exampleCamera 0.15 0.30 1 0.5 = 4.2).
  { destruct B3 as [B3|B3]; [lra|].
    exfalso. lra. }
  split; [exact E|]. rewrite S by lra. exact E.
Defined.

(** ** The creation of the particles *)

Section Indexed.
Context {St : Type} (body : nat -> St -> option St).

Lemma forLoop_indexed_inv (I : nat -> St -> Prop) (b : nat) :
  (forall j s, (j < b)%nat -> I j s ->
     exists s', body j s = Some s' /\ I (S j) s') ->
  forall n a s, (a + n <= b)%nat -> I a s ->
    I (a + n)%nat (forLoop body a n s).
Proof.
  intros Hstep n. induction n as [|n IH]; intros a s Hb HI; simpl.
  - by rewrite Nat.add_0_r.
  - destruct (Hstep a s) as (s' & -> & HI'); [lia|done|].
    replace (a + S n)%nat with (S a + n)%nat by lia. apply IH; [lia|done].
Qed.
End Indexed.

Arguments put3 : simpl never.
Arguments get3 : simpl never.
Arguments zeros : simpl never.

Ltac store_simpl :=
  cbn [fst snd positions originalPositions baseOriginalPositions
       startPositions scrollDirections velocities colors sizes baseSizes glows
       explosionGlowEndTimes explosionReturnTimes distanceBuffer
       set_positions set_originalPositions set_baseOriginalPositions
       set_startPositions set_scrollDirections set_velocities set_colors
       set_sizes set_baseSizes set_glows] in *.

Lemma length_put3 a i v : length (put3 a i v) = length a.
Proof. unfold put3. by rewrite !length_insert. Qed.

Lemma get3_put3_eq a i v : (i * 3 + 2 < length a)%nat -> get3 (put3 a i v) i = v.
Proof. intros H. unfold put3. rewrite get3_insert3 by done. by destruct v. Qed.

Lemma get3_put3_ne a i j v : i <> j -> get3 (put3 a i v) j = get3 a j.
Proof.
  intros H. unfold put3, get3. rewrite !rd_insert_ne by lia. reflexivity.
Qed.

Lemma rd_zeros n i : rd (zeros n) i = 0.
Proof.
  unfold rd, zeros. destruct (replicate n 0 !! i) as [x|] eqn:E; [|done].
  apply lookup_replicate in E. by destruct E as [-> _].
Qed.

Lemma get3_zeros n i : get3 (zeros n) i = mkVec3 0 0 0.
Proof. unfold get3. by rewrite !rd_zeros. Qed.

Lemma length_zeros n : length (zeros n) = n.
Proof. apply length_replicate. Qed.

Lemma tempSizeLoop rnd c n s k :
  let r := forLoop (tempSize rnd c) 0 n (s, k) in
  r.2 = (k + n)%nat /\
  r.1 = set_sizes (sizes r.1) s /\
  length (sizes r.1) = length (sizes s) /\
  forall i, (i < n)%nat -> (i < length (sizes s))%nat ->
    rd (sizes r.1) i
    = pointSize c * (1 - sizeVariation c)
      + rnd (k + i)%nat * (pointSize c * (1 + sizeVariation c)
                           - pointSize c * (1 - sizeVariation c)).
Proof.
  intros r. subst r.
  set (I := fun (j : nat) (r : Store * nat) =>
    r.2 = (k + j)%nat /\
    r.1 = set_sizes (sizes r.1) s /\
    length (sizes r.1) = length (sizes s) /\
    forall i, (i < j)%nat -> (i < length (sizes s))%nat ->
      rd (sizes r.1) i
      = pointSize c * (1 - sizeVariation c)
        + rnd (k + i)%nat * (pointSize c * (1 + sizeVariation c)
                             - pointSize c * (1 - sizeVariation c))).
  apply (forLoop_indexed_inv (tempSize rnd c) I n) with (n := n) (a := 0%nat);
    [|lia|].
  - intros j [t kt] _ (K & E & L & V). simpl in *. subst kt.
    eexists. split; [reflexivity|]. unfold I. simpl.
    rewrite length_insert. split; [lia|]. split; [by rewrite E|].
    split; [done|]. intros i Hi Hl.
    destruct (decide (i = j)) as [->|Hne].
    + rewrite rd_insert_eq by lia. reflexivity.
    + rewrite rd_insert_ne by done. apply V; [lia|done].
  - unfold I. simpl. split; [lia|]. split; [by destruct s|].
    split; [done|]. intros i Hi. lia.
Qed.

Lemma insidePointLoop rnd volumePoints total n s k :
  holds total s -> (n <= length volumePoints)%nat -> (n <= total)%nat ->
  let r := forLoop (insidePoint rnd volumePoints) 0 n (s, k) in
  r.2 = (k + 2 * n)%nat /\
  holds total r.1 /\
  startPositions r.1 = startPositions s /\
  sizes r.1 = sizes s /\ baseSizes r.1 = baseSizes s /\
  (forall i, (i < n)%nat -> placed rnd volumePoints k r.1 i) /\
  (forall i, (n <= i)%nat -> untouched s r.1 i).
Proof.
  intros Hs Hn Ht r. subst r.
  set (I := fun (j : nat) (r : Store * nat) =>
    r.2 = (k + 2 * j)%nat /\
    holds total r.1 /\
    startPositions r.1 = startPositions s /\
    sizes r.1 = sizes s /\ baseSizes r.1 = baseSizes s /\
    (forall i, (i < j)%nat -> placed rnd volumePoints k r.1 i) /\
    (forall i, (j <= i)%nat -> untouched s r.1 i)).
  apply (forLoop_indexed_inv (insidePoint rnd volumePoints) I n)
    with (n := n) (a := 0%nat); [|lia|].
  - intros j [t kt] Hj (K & H & S1 & S2 & S3 & P & U). store_simpl. subst kt.
    destruct (lookup_lt_is_Some_2 volumePoints j) as [point Ep]; [lia|].
    unfold insidePoint. rewrite Ep. eexists. split; [reflexivity|].
    destruct H as (L1 & L2 & L3 & L4 & L5 & L6 & L7 & L8 & L9).
    unfold I, holds, placed, untouched. store_simpl. split; [lia|]. split.
    { rewrite !length_put3. done. }
    split; [done|]. split; [done|]. split; [done|]. split.
    + intros i Hi. destruct (decide (i = j)) as [->|Hne].
      * exists point. rewrite !get3_put3_eq by lia.
        repeat split; try done. f_equal; lra.
      * destruct (P i) as (q & Eq & Q); [lia|]. exists q.
        rewrite !get3_put3_ne by done. done.
    + intros i Hi.
      rewrite !get3_put3_ne by lia. apply U. lia.
  - unfold I. store_simpl. split; [lia|]. split; [done|].
    repeat split; try done. intros i Hi. lia.
Qed.

Lemma insideStartLoop rnd cloudCenter maxDimension total n s k :
  holds total s -> (n <= total)%nat ->
  let r := forLoop (insideStart rnd cloudCenter maxDimension) 0 n (s, k) in
  r.2 = (k + 3 * n)%nat /\
  holds total r.1 /\
  originalPositions r.1 = originalPositions s /\
  baseOriginalPositions r.1 = baseOriginalPositions s /\
  scrollDirections r.1 = scrollDirections s /\
  velocities r.1 = velocities s /\
  colors r.1 = colors s /\
  sizes r.1 = sizes s /\ baseSizes r.1 = baseSizes s /\
  (forall i, (i < n)%nat -> started rnd cloudCenter maxDimension k r.1 i) /\
  (forall i, (n <= i)%nat ->
     get3 (startPositions r.1) i = get3 (startPositions s) i /\
     get3 (positions r.1) i = get3 (positions s) i).
Proof.
  intros Hs Ht r. subst r.
  set (I := fun (j : nat) (r : Store * nat) =>
    r.2 = (k + 3 * j)%nat /\
    holds total r.1 /\
    originalPositions r.1 = originalPositions s /\
    baseOriginalPositions r.1 = baseOriginalPositions s /\
    scrollDirections r.1 = scrollDirections s /\
    velocities r.1 = velocities s /\
    colors r.1 = colors s /\
    sizes r.1 = sizes s /\ baseSizes r.1 = baseSizes s /\
    (forall i, (i < j)%nat -> started rnd cloudCenter maxDimension k r.1 i) /\
    (forall i, (j <= i)%nat ->
       get3 (startPositions r.1) i = get3 (startPositions s) i /\
       get3 (positions r.1) i = get3 (positions s) i)).
  apply (forLoop_indexed_inv (insideStart rnd cloudCenter maxDimension) I n)
    with (n := n) (a := 0%nat); [|lia|].
  - intros j [t kt] Hj (K & H & S1 & S2 & S3 & S4 & S5 & S6 & S7 & P & U).
    store_simpl. subst kt.
    unfold insideStart. eexists. split; [reflexivity|].
    destruct H as (L1 & L2 & L3 & L4 & L5 & L6 & L7 & L8 & L9).
    unfold I, holds, started. store_simpl. split; [lia|]. split.
    { rewrite !length_put3. done. }
    do 7 (split; [done|]). split.
    + intros i Hi. destruct (decide (i = j)) as [->|Hne].
      * rewrite !get3_put3_eq by lia. done.
      * rewrite !get3_put3_ne by done. apply P. lia.
    + intros i Hi. rewrite !get3_put3_ne by lia. apply U. lia.
  - unfold I. store_simpl. split; [lia|]. split; [done|].
    do 7 (split; [done|]). split; [|done]. intros i Hi. lia.
Qed.

Lemma sumCenterLoop s (ps : list Vec3) :
  forall n a c,
    (forall i, (a <= i < a + n)%nat ->
       ps !! i = Some (get3 (baseOriginalPositions s) i)) ->
    forLoop (sumCenter s) a n c
    = fold_left (fun c p => mkVec3 (vx c + vx p) (vy c + vy p) (vz c + vz p))
        (take n (drop a ps)) c.
Proof.
  induction n as [|n IH]; intros a c H; [done|].
  cbn [forLoop sumCenter].
  assert (E : drop a ps = get3 (baseOriginalPositions s) a :: drop (S a) ps).
  { apply drop_S. apply H. lia. }
  rewrite E. cbn [take fold_left]. rewrite IH; [done|].
  intros i Hi. apply H. lia.
Qed.

Lemma cloudCenterOf_centroid s (ps : list Vec3) n :
  (n <= length ps)%nat ->
  (forall i, (i < n)%nat -> ps !! i = Some (get3 (baseOriginalPositions s) i)) ->
  cloudCenterOf s n = centroid (take n ps).
Proof.
  intros Hn H. unfold cloudCenterOf, centroid, sumPoints.
  rewrite (sumCenterLoop s ps n 0) by (intros i Hi; apply H; lia).
  rewrite drop_0, length_take, Nat.min_l by done.
  case_bool_decide; [|done].
  unfold divideScalar, multiplyScalar. f_equal; unfold Rdiv; ring.
Qed.

Lemma sphereDirection_unit r1 r2 : lengthSq (sphereDirection r1 r2) = 1.
Proof.
  unfold sphereDirection, lengthSq. cbn [vx vy vz].
  set (theta := r1 * PI * 2). set (phi := acos (2 * r2 - 1)).
  pose proof (sin2_cos2 theta) as T. pose proof (sin2_cos2 phi) as P.
  unfold Rsqr in *.
  replace (sin phi * cos theta * (sin phi * cos theta)
           + sin phi * sin theta * (sin phi * sin theta) + cos phi * cos phi)
    with (sin phi * sin phi * (sin theta * sin theta + cos theta * cos theta)
          + cos phi * cos phi) by ring.
  rewrite T. lra.
Qed.

Lemma addScaled_distance c d t :
  lengthSq d = 1 -> 0 <= t ->
  sqrt (lengthSq (subVectors (addScaledVector c d t) c)) = t.
Proof.
  intros Hd Ht.
  replace (lengthSq (subVectors (addScaledVector c d t) c)) with (t * t).
  - by apply sqrt_square.
  - unfold lengthSq, subVectors, addScaledVector in *. cbn [vx vy vz] in *.
    replace ((vx c + vx d * t - vx c) * (vx c + vx d * t - vx c)
             + (vy c + vy d * t - vy c) * (vy c + vy d * t - vy c)
             + (vz c + vz d * t - vz c) * (vz c + vz d * t - vz c))
      with (t * t * (vx d * vx d + vy d * vy d + vz d * vz d)) by ring.
    rewrite Hd. ring.
Qed.

Lemma insideParticles_spec rnd c volumePoints maxDimension k :
  let pc := particleCount c in
  let created := Nat.min pc (length volumePoints) in
  let r := insideParticles rnd c volumePoints maxDimension k in
  let k1 := (k + pc)%nat in
  let k2 := (k1 + 2 * created)%nat in
  r.2 = (k2 + 3 * created)%nat /\
  holds pc r.1 /\
  baseSizes r.1 = sizes r.1 /\
  (forall i, (i < pc)%nat -> rd (sizes r.1) i = sizeOf c (rnd (k + i)%nat)) /\
  (forall i, (i < created)%nat ->
     formed rnd volumePoints (centroid (take created volumePoints))
       maxDimension k1 k2 r.1 i) /\
  (forall i, (created <= i)%nat -> blank r.1 i).
Proof.
  intros pc created r k1 k2. subst r. unfold insideParticles.
  fold pc. fold created.
  set (s0 := mkStore (zeros (pc * 3)) (zeros (pc * 3)) (zeros (pc * 3))
               (zeros (pc * 3)) (zeros (pc * 3)) (zeros (pc * 3))
               (zeros (pc * 3)) (zeros pc) (zeros pc) [] [] [] []).
  destruct (tempSizeLoop rnd c pc s0 k) as (K1 & E1 & L1 & V1).
  destruct (forLoop (tempSize rnd c) 0 pc (s0, k)) as [s1 k1'].
  store_simpl. subst k1'.
  set (s1' := set_baseSizes (sizes s1) s1).
  assert (H1 : holds pc s1').
  { subst s1'. rewrite E1. unfold holds, s0. store_simpl.
    rewrite L1. unfold s0. store_simpl. rewrite !length_zeros. done. }
  destruct (insidePointLoop rnd volumePoints pc created s1' (k + pc)%nat)
    as (K2 & H2 & S2 & Z2 & B2 & P2 & U2); [done|lia|lia|].
  destruct (forLoop (insidePoint rnd volumePoints) 0 created (s1', (k + pc)%nat))
    as [s2 k2'].
  store_simpl. subst k2'.
  assert (C : cloudCenterOf s2 created = centroid (take created volumePoints)).
  { apply cloudCenterOf_centroid; [lia|].
    intros i Hi. destruct (P2 i Hi) as (q & Eq & _ & _ & Eb & _). by rewrite Eb. }
  rewrite C.
  destruct (insideStartLoop rnd (centroid (take created volumePoints))
              maxDimension pc created s2 (k + pc + 2 * created)%nat)
    as (K3 & H3 & O3 & B3 & D3 & V3 & C3 & Z3 & Y3 & P3 & U3); [done|lia|].
  destruct (forLoop (insideStart rnd (centroid (take created volumePoints))
                       maxDimension) 0 created
              (s2, (k + pc + 2 * created)%nat)) as [s3 k3'].
  store_simpl. subst k3'.
  split; [done|]. split; [done|]. split.
  { rewrite Y3, Z3, B2, Z2. reflexivity. }
  split.
  { intros i Hi. rewrite Z3, Z2. subst s1'. store_simpl.
    rewrite V1; [done|done|]. unfold s0. store_simpl.
    by rewrite length_zeros. }
  split.
  - intros i Hi. destruct (P2 i Hi) as (q & Eq & _ & Eo & Eb & Ed & Ev & Ec).
    exists q. rewrite O3, B3, D3, V3, C3. repeat split; try done.
    + apply P3. done.
    + apply P3. done.
  - intros i Hi. destruct (U2 i Hi) as (Up & Uo & Ub & Ud & Uv & Uc).
    destruct (U3 i Hi) as [Us Upos].
    unfold blank. rewrite O3, B3, D3, V3, C3, Us, Upos, S2, Up, Uo, Ub, Ud, Uv, Uc.
    subst s1'. rewrite E1. unfold s0. store_simpl.
    rewrite !get3_zeros. done.
Qed.

Lemma typedSet_copy n a b :
  (length a <= b)%nat -> (length a <= n)%nat ->
  typedSet (zeros n) (subarray a b) = Some (a ++ zeros (n - length a)).
Proof.
  intros Hb Hn. unfold typedSet, subarray. rewrite take_ge by lia.
  rewrite length_zeros, bool_decide_true by lia.
  unfold zeros. by rewrite drop_replicate.
Qed.

Lemma rd_app_l a b i : (i < length a)%nat -> rd (a ++ b) i = rd a i.
Proof. intros H. unfold rd. by rewrite lookup_app_l. Qed.

Lemma rd_app_zeros a n i : rd (a ++ zeros n) i = rd a i.
Proof.
  destruct (decide (i < length a)%nat) as [H|H]; [by apply rd_app_l|].
  unfold rd. rewrite lookup_app_r by lia.
  rewrite (lookup_ge_None_2 a i) by lia. apply rd_zeros.
Qed.

Lemma get3_app_zeros a n i : get3 (a ++ zeros n) i = get3 a i.
Proof. unfold get3. by rewrite !rd_app_zeros. Qed.

Lemma outsidePointLoop rnd c pct maxDimension filtered s k :
  let pc := particleCount c in
  let n := length filtered in
  holds (pc + n) s ->
  let r := forLoop (outsidePoint rnd c pct maxDimension filtered) 0 n (s, k) in
  (k <= r.2)%nat /\
  holds (pc + n) r.1 /\
  glows r.1 = glows s /\
  explosionGlowEndTimes r.1 = explosionGlowEndTimes s /\
  explosionReturnTimes r.1 = explosionReturnTimes s /\
  distanceBuffer r.1 = distanceBuffer s /\
  (forall i, (i < pc)%nat -> sameParticle s r.1 i) /\
  (forall i, (i < n)%nat ->
     scattered rnd c pct maxDimension filtered k r.1 i (pc + i)).
Proof.
  intros pc n Hs r. subst r.
  set (I := fun (j : nat) (r : Store * nat) =>
    (k <= r.2)%nat /\
    holds (pc + n) r.1 /\
    glows r.1 = glows s /\
    explosionGlowEndTimes r.1 = explosionGlowEndTimes s /\
    explosionReturnTimes r.1 = explosionReturnTimes s /\
    distanceBuffer r.1 = distanceBuffer s /\
    (forall i, (i < pc)%nat -> sameParticle s r.1 i) /\
    (forall i, (i < j)%nat ->
       scattered rnd c pct maxDimension filtered k r.1 i (pc + i))).
  apply (forLoop_indexed_inv (outsidePoint rnd c pct maxDimension filtered) I n)
    with (n := n) (a := 0%nat); [|lia|].
  - intros j [t kt] Hj (K & H & G1 & G2 & G3 & G4 & P & Q). store_simpl.
    destruct (lookup_lt_is_Some_2 filtered j) as [point Ep]; [done|].
    unfold outsidePoint. rewrite Ep. fold pc. eexists. split; [reflexivity|].
    destruct H as (L1 & L2 & L3 & L4 & L5 & L6 & L7 & L8 & L9).
    unfold I, holds, sameParticle, scattered. store_simpl. split.
    { destruct (bool_decide _); lia. }
    split. { rewrite !length_put3, !length_insert. done. }
    do 4 (split; [done|]). split.
    + intros i Hi. rewrite !get3_put3_ne, !rd_insert_ne by lia. apply P. done.
    + intros i Hi. destruct (decide (i = j)) as [->|Hne].
      * exists point, kt. rewrite !get3_put3_eq by (rewrite ?length_put3; lia).
        rewrite !rd_insert_eq by lia.
        repeat split; try done. f_equal; lra.
      * destruct (Q i) as (q & ka & Q'); [lia|]. exists q, ka.
        rewrite !get3_put3_ne, !rd_insert_ne by lia. done.
  - unfold I. store_simpl. split; [lia|]. split; [done|].
    do 4 (split; [done|]). split; [done|]. intros i Hi. lia.
Qed.

Lemma mergeOutside_spec rnd pct maxDimension temp filtered w :
  let pc := particleCount (CONFIG w) in
  let n := length filtered in
  holds pc temp ->
  exists w', mergeOutside rnd pct maxDimension temp filtered w = Some w' /\
    CONFIG w' = CONFIG w /\
    totalParticleCount w' = (pc + n)%nat /\
    isInitialized w' = isInitialized w /\
    hasGeometry w' = hasGeometry w /\
    holds (pc + n) (store w') /\
    length (explosionGlowEndTimes (store w')) = (pc + n)%nat /\
    length (explosionReturnTimes (store w')) = (pc + n)%nat /\
    length (distanceBuffer (store w')) = (pc + n)%nat /\
    (hasGeometry w = true -> length (glows (store w')) = (pc + n)%nat) /\
    (randomCalls w <= randomCalls w')%nat /\
    (forall i, (i < pc)%nat -> sameParticle temp (store w') i) /\
    (forall i, (i < n)%nat ->
       scattered rnd (CONFIG w) pct maxDimension filtered (randomCalls w)
         (store w') i (pc + i)).
Proof.
  intros pc n (L1 & L2 & L3 & L4 & L5 & L6 & L7 & L8 & L9).
  unfold mergeOutside. fold pc. fold n.
  rewrite L1, Nat.min_id.
  replace (pc * 3 / 3)%nat with pc by (symmetry; apply Nat.div_mul; lia).
  rewrite Nat.min_id.
  rewrite !typedSet_copy by lia. cbn [mbind option_bind].
  set (s0 := mkStore _ _ _ _ _ _ _ _ _ _ _ _ _).
  assert (H0 : holds (pc + n) s0).
  { unfold holds, s0. store_simpl. rewrite !length_app, !length_zeros. lia. }
  destruct (outsidePointLoop rnd (CONFIG w) pct maxDimension filtered s0
              (randomCalls w)) as (K & H & G1 & G2 & G3 & G4 & P & Q);
    [exact H0|].
  fold pc in P, Q, H. fold n in H, Q, K, G1, G2, G3, G4, P.
  destruct (forLoop _ 0 n (s0, randomCalls w)) as [s1 k1]. store_simpl.
  eexists. split; [reflexivity|]. cbn [CONFIG totalParticleCount isInitialized
    hasGeometry store randomCalls].
  do 4 (split; [done|]).
  assert (S1 : forall i, (i < pc)%nat -> sameParticle temp s1 i).
  { intros i Hi. destruct (P i Hi) as (P1 & P2 & P3 & P4 & P5 & P6 & P7 & P8 & P9).
    unfold sameParticle. rewrite P1, P2, P3, P4, P5, P6, P7, P8, P9.
    unfold s0. store_simpl. rewrite !get3_app_zeros, !rd_app_zeros. done. }
  destruct (hasGeometry w && bool_decide (length (glows s1) <> (pc + n)%nat))
    eqn:Er.
  - unfold holds in *. store_simpl. split; [done|].
    rewrite G2, G3, G4. unfold s0. store_simpl. rewrite !length_zeros.
    do 3 (split; [done|]). split; [done|]. split; [done|]. split; [done|].
    done.
  - split; [done|]. rewrite G2, G3, G4. unfold s0. store_simpl.
    rewrite !length_zeros. do 3 (split; [done|]). split.
    { intros Hg. rewrite Hg in Er. cbn [andb] in Er.
      apply bool_decide_eq_false in Er. lia. }
    done.
Qed.

Lemma formed_same rnd vp center maxDimension k1 k2 s s' i :
  sameParticle s s' i -> formed rnd vp center maxDimension k1 k2 s i ->
  formed rnd vp center maxDimension k1 k2 s' i.
Proof.
  intros (P1 & P2 & P3 & P4 & P5 & P6 & P7 & P8 & P9) (q & F).
  exists q. unfold started in *. rewrite P1, P2, P3, P4, P5, P6, P7. exact F.
Qed.

Lemma blank_same s s' i : sameParticle s s' i -> blank s i -> blank s' i.
Proof.
  intros (P1 & P2 & P3 & P4 & P5 & P6 & P7 & P8 & P9) F.
  unfold blank. rewrite P1, P2, P3, P4, P5, P6, P7. exact F.
Qed.

Lemma generateParticlesFromSVG_spec rnd pct volumePoints maxDimension
    outsideDraws filtered w :
  exists w',
    generateParticlesFromSVG rnd pct volumePoints maxDimension outsideDraws
      filtered w = Some w' /\
    CONFIG w' = CONFIG w /\
    totalParticleCount w' = (particleCount (CONFIG w) + length filtered)%nat /\
    isInitialized w' = isInitialized w /\
    hasGeometry w' = hasGeometry w /\
    (hasGeometry w = true ->
     length (glows (store w')) = (particleCount (CONFIG w) + length filtered)%nat) /\
    created rnd pct volumePoints maxDimension outsideDraws filtered w (store w').
Proof.
  unfold generateParticlesFromSVG.
  destruct (insideParticles_spec rnd (CONFIG w) volumePoints maxDimension
              (randomCalls w)) as (K & H & B & Z & F & N).
  destruct (insideParticles rnd (CONFIG w) volumePoints maxDimension
              (randomCalls w)) as [temp k]. store_simpl.
  destruct (mergeOutside_spec rnd pct maxDimension temp filtered
              (withRandom (store w) (k + outsideDraws) w))
    as (w' & E & C & T & I1 & I2 & H' & G1 & G2 & G3 & G4 & K' & P & Q);
    [exact H|].
  cbn [withRandom CONFIG randomCalls hasGeometry isInitialized] in *.
  exists w'. split; [exact E|]. do 4 (split; [done|]). split; [done|].
  split; try done.
  - intros i Hi. destruct (P i Hi) as (_ & _ & _ & _ & _ & _ & _ & P8 & P9).
    rewrite P9, P8, B. split; [|done]. by apply Z.
  - intros i Hi. eexists _, _. eapply formed_same; [apply P; lia|]. by apply F.
  - intros i Hi Hp. eapply blank_same; [by apply P|]. by apply N.
  - intros i Hi. destruct (Q i Hi) as (q & ka & Hk & Q').
    exists q, ka. split; [lia|done].
Qed.

Lemma initialize_spec rnd pct volumePoints maxDimension outsideDraws filtered
    nowDate force progress w :
  let total := (particleCount (CONFIG w) + length filtered)%nat in
  exists w' s1 o g,
    initialize rnd pct volumePoints maxDimension outsideDraws filtered nowDate
      force progress w = Some w' /\
    isInitialized w' = true /\ hasGeometry w' = true /\
    hasColorAttr w' = true /\
    totalParticleCount w' = total /\
    CONFIG w' = set_loadAnimationStartTime (Some nowDate) (CONFIG w) /\
    created rnd pct volumePoints maxDimension outsideDraws filtered w s1 /\
    store w' = set_originalPositions o (set_glows g s1) /\
    length o = (total * 3)%nat /\ length g = total /\
    forall i, (i < total)%nat ->
      get3 o i
      = addScaledVector (get3 (baseOriginalPositions s1) i)
          (get3 (scrollDirections s1) i) (progress * force).
Proof.
  intros total. unfold initialize.
  destruct (generateParticlesFromSVG_spec rnd pct volumePoints maxDimension
              outsideDraws filtered w) as (w1 & E & C & T & I1 & I2 & G & Cr).
  rewrite E. cbn [mbind option_bind]. fold total in T, G.
  set (g := glows (if bool_decide (length (glows (store w1))
                                   <> totalParticleCount w1)
                   then set_glows (zeros (totalParticleCount w1)) (store w1)
                   else store w1)).
  assert (Eg : (if bool_decide (length (glows (store w1))
                                <> totalParticleCount w1)
                then set_glows (zeros (totalParticleCount w1)) (store w1)
                else store w1) = set_glows g (store w1)).
  { subst g. case_bool_decide; [done|]. by destruct (store w1). }
  assert (Lg : length g = total).
  { subst g. case_bool_decide as Hd; store_simpl.
    - by rewrite length_zeros.
    - rewrite <- T. destruct (decide (length (glows (store w1))
                                      = totalParticleCount w1)); [done|].
      by destruct Hd. }
  rewrite Eg. clearbody g. clear Eg.
  pose proof (created_holds _ _ _ _ _ _ _ _ Cr)
    as (L1 & L2 & L3 & L4 & L5 & L6 & L7 & L8 & L9).
  fold total in L1, L2, L3, L4, L5, L6, L7, L8, L9.
  unfold updateOriginalPositionsFromScroll.
  cbn [isInitialized store negb orb totalParticleCount]. store_simpl.
  rewrite L3, T.
  case_bool_decide as Hz.
  - exists
      (mkWorld (set_loadAnimationStartTime (Some nowDate) (CONFIG w1))
         (set_glows g (store w1)) (pointer w1) (camera w1) true true true total
         (cachedGlowBrightness w1) (cachedVelocityGlowMultiplier w1)
         (glowStaticNeedsUpdate w1) (wasWaveActive w1) (explosionIdCounter w1)
         (randomCalls w1)),
      (store w1), (originalPositions (store w1)), g.
    split; [reflexivity|]. cbn [isInitialized hasGeometry hasColorAttr
      totalParticleCount CONFIG store].
    do 4 (split; [done|]). split; [by rewrite C|]. split; [done|].
    split; [by destruct (store w1)|]. split; [done|]. split; [done|].
    intros i Hi. lia.
  - destruct (scrollLoop_shape (progress * force * 1.0)
                (Nat.min total (countOf (total * 3) 3)) 0
                (set_glows g (store w1))) as (o & Eo & Lo).
    store_simpl. rewrite L2 in Lo.
    eexists _, (store w1), o, g. split; [reflexivity|].
    cbn [withStore isInitialized hasGeometry hasColorAttr totalParticleCount
         CONFIG store].
    do 4 (split; [done|]). split; [by rewrite C|]. split; [done|].
    split; [exact Eo|]. split; [done|]. split; [done|].
    intros i Hi.
    assert (Ei : get3 (originalPositions
                   (forLoop (scrollTarget (progress * force * 1.0)) 0
                      (Nat.min total (countOf (total * 3) 3))
                      (set_glows g (store w1)))) i
                 = addScaledVector
                     (get3 (baseOriginalPositions (set_glows g (store w1))) i)
                     (get3 (scrollDirections (set_glows g (store w1))) i)
                     (progress * force * 1.0)).
    { apply scrollLoop_at.
      - split; [lia|]. apply Nat.min_glb_lt; [lia|]. apply countOf_full. lia.
      - store_simpl. lia. }
    rewrite Eo in Ei. store_simpl. rewrite Ei. f_equal. lra.
Qed.

Lemma addScaled_distance_abs c d t :
  lengthSq d = 1 ->
  sqrt (lengthSq (subVectors (addScaledVector c d t) c)) = Rabs t.
Proof.
  intros Hd.
  replace (lengthSq (subVectors (addScaledVector c d t) c)) with (Rsqr t).
  - apply sqrt_Rsqr_abs.
  - unfold lengthSq, subVectors, addScaledVector, Rsqr in *.
    cbn [vx vy vz] in *.
    replace ((vx c + vx d * t - vx c) * (vx c + vx d * t - vx c)
             + (vy c + vy d * t - vy c) * (vy c + vy d * t - vy c)
             + (vz c + vz d * t - vz c) * (vz c + vz d * t - vz c))
      with (t * t * (vx d * vx d + vy d * vy d + vz d * vz d)) by ring.
    rewrite Hd. ring.
Qed.

Lemma holds_allocCount total s : holds total s -> allocCount total s = total.
Proof.
  intros (L1 & L2 & L3 & L4 & L5 & L6 & L7 & L8 & L9). unfold allocCount.
  rewrite L1, L2, L4, L6, L7, Nat.div_mul by lia. lia.
Qed.

(** The initialization returns a state in which every array holds
    exactly [particleCount] plus the number of outside points particles,
    so that a step treats every particle; each particle is at its start
    position, at rest, and its base size is its size. *)
Theorem initialization_fills_arrays rnd pct volumePoints maxDimension
    outsideDraws filtered nowDate force progress w :
  let total := (particleCount (CONFIG w) + length filtered)%nat in
  exists w',
    initialize rnd pct volumePoints maxDimension outsideDraws filtered nowDate
      force progress w = Some w' /\
    isInitialized w' = true /\ hasGeometry w' = true /\
    totalParticleCount w' = total /\
    loadAnimationStartTime (CONFIG w') = Some nowDate /\
    holds total (store w') /\
    length (glows (store w')) = total /\
    length (explosionGlowEndTimes (store w')) = total /\
    length (explosionReturnTimes (store w')) = total /\
    length (distanceBuffer (store w')) = total /\
    forall i, (i < total)%nat ->
      processed total (store w') i /\
      get3 (positions (store w')) i = get3 (startPositions (store w')) i /\
      get3 (velocities (store w')) i = mkVec3 0 0 0 /\
      rd (baseSizes (store w')) i = rd (sizes (store w')) i.
Proof.
  intros total.
  destruct (initialize_spec rnd pct volumePoints maxDimension outsideDraws
              filtered nowDate force progress w)
    as (w' & s1 & o & g & E & I1 & I2 & I3 & T & C & Cr & Es & Lo & Lg & Ho).
  fold total in T, Lo, Lg, Ho.
  destruct Cr as [H G1 G2 G3 Z F B Q]. fold total in H, G1, G2, G3.
  exists w'. split; [exact E|]. do 3 (split; [done|]).
  split; [by rewrite C|].
  assert (H' : holds total (store w')).
  { rewrite Es. unfold holds in *. store_simpl. rewrite Lo. tauto. }
  split; [done|]. rewrite Es. store_simpl. do 4 (split; [done|]).
  intros i Hi. split.
  { unfold processed. rewrite <- Es, holds_allocCount by done. done. }
  destruct (decide (i < particleCount (CONFIG w))%nat) as [Hp|Hp].
  - destruct (Z i Hp) as [_ Zb]. split; [|split; [|done]].
    + destruct (decide (i < Nat.min (particleCount (CONFIG w))
                               (length volumePoints))%nat) as [Hc|Hc].
      * destruct (F i Hc) as (k1 & k2 & q & _ & _ & _ & _ & _ & _ & _ & St).
        done.
      * destruct (B i) as (B1 & _ & _ & B4 & _); [lia|done|]. by rewrite B1, B4.
    + destruct (decide (i < Nat.min (particleCount (CONFIG w))
                               (length volumePoints))%nat) as [Hc|Hc].
      * by destruct (F i Hc) as (k1 & k2 & q & _ & _ & _ & _ & V & _).
      * by destruct (B i) as (_ & _ & _ & _ & _ & B6 & _); [lia|done|].
  - destruct (Q (i - particleCount (CONFIG w))%nat)
      as (q & ka & _ & _ & _ & _ & _ & _ & Qp & Qv & _ & _ & Qb); [lia|].
    replace (particleCount (CONFIG w) + (i - particleCount (CONFIG w)))%nat
      with i in * by lia.
    done.
Qed.

Lemma shell_distance c d r maxDimension :
  lengthSq d = 1 -> 0 <= r < 1 -> 0 <= maxDimension ->
  5 * maxDimension
  <= sqrt (lengthSq (subVectors
                       (addScaledVector c d (maxDimension * (5 + r * 5))) c))
  <= 10 * maxDimension.
Proof.
  intros Hd Hr Hm. rewrite addScaled_distance; [nra|done|nra].
Qed.

(** Every particle of the formation starts the loading animation at a
    distance between 5 and 10 times the largest extent of the shape from
    the centre of the formation, and every particle outside it at such a
    distance from its own target. *)
Theorem particles_start_in_shell rnd pct volumePoints maxDimension
    outsideDraws filtered nowDate force progress w :
  (forall k, 0 <= rnd k < 1) -> 0 <= maxDimension ->
  let pc := particleCount (CONFIG w) in
  let n := Nat.min pc (length volumePoints) in
  let center := centroid (take n volumePoints) in
  exists w',
    initialize rnd pct volumePoints maxDimension outsideDraws filtered nowDate
      force progress w = Some w' /\
    (forall i, (i < n)%nat ->
       let start := get3 (startPositions (store w')) i in
       5 * maxDimension <= sqrt (lengthSq (subVectors start center))
       <= 10 * maxDimension) /\
    (forall i point, filtered !! i = Some point ->
       let start := get3 (startPositions (store w')) (pc + i) in
       get3 (baseOriginalPositions (store w')) (pc + i) = point /\
       5 * maxDimension <= sqrt (lengthSq (subVectors start point))
       <= 10 * maxDimension).
Proof.
  intros Hr Hm pc n center.
  destruct (initialize_spec rnd pct volumePoints maxDimension outsideDraws
              filtered nowDate force progress w)
    as (w' & s1 & o & g & E & I1 & I2 & I3 & T & C & Cr & Es & Lo & Lg & Ho).
  destruct Cr as [H G1 G2 G3 Z F B Q].
  exists w'. split; [exact E|]. rewrite Es. store_simpl. split.
  - intros i Hi. cbv zeta.
    destruct (F i Hi) as (k1 & k2 & q & _ & _ & _ & _ & _ & _ & St & _).
    fold pc in St. fold n in St. fold center in St. rewrite St.
    apply shell_distance; [apply sphereDirection_unit|apply Hr|done].
  - intros i point Ep. cbv zeta.
    destruct (Q i) as (q & ka & _ & Eq & _ & Eb & _ & St & _).
    { by apply lookup_lt_Some in Ep. }
    fold pc in St, Eb. rewrite Ep in Eq. injection Eq as <-.
    split; [done|]. rewrite St.
    apply shell_distance; [apply sphereDirection_unit|apply Hr|done].
Qed.

(** After the initialization the target of every particle that has got
    a point lies at the distance [|scrollProgress * scrollSpreadForce|]
    from that point: the scroll moves it along a direction of length 1.
    The draws lie in [[0, 1)], where the angles of the directions are
    defined. *)
Theorem initial_targets_follow_scroll rnd pct volumePoints maxDimension
    outsideDraws filtered nowDate force progress w :
  (forall k, 0 <= rnd k < 1) ->
  let pc := particleCount (CONFIG w) in
  exists w',
    initialize rnd pct volumePoints maxDimension outsideDraws filtered nowDate
      force progress w = Some w' /\
    (forall i point, (i < pc)%nat -> volumePoints !! i = Some point ->
       let target := get3 (originalPositions (store w')) i in
       get3 (baseOriginalPositions (store w')) i = point /\
       sqrt (lengthSq (subVectors target point)) = Rabs (progress * force)) /\
    (forall i point, filtered !! i = Some point ->
       let target := get3 (originalPositions (store w')) (pc + i) in
       get3 (baseOriginalPositions (store w')) (pc + i) = point /\
       sqrt (lengthSq (subVectors target point)) = Rabs (progress * force)).
Proof.
  intros Hr pc.
  destruct (initialize_spec rnd pct volumePoints maxDimension outsideDraws
              filtered nowDate force progress w)
    as (w' & s1 & o & g & E & I1 & I2 & I3 & T & C & Cr & Es & Lo & Lg & Ho).
  destruct Cr as [H G1 G2 G3 Z F B Q]. fold pc in Ho.
  exists w'. split; [exact E|]. rewrite Es. store_simpl. split.
  - intros i point Hi Ep. cbv zeta.
    pose proof (lookup_lt_Some _ _ _ Ep) as Hl.
    destruct (F i) as (k1 & k2 & q & Eq & _ & Eb & Ed & _); [fold pc; lia|].
    rewrite Ep in Eq. injection Eq as <-. split; [done|].
    rewrite Ho by lia. rewrite Eb, Ed.
    apply addScaled_distance_abs, sphereDirection_unit.
  - intros i point Ep. cbv zeta.
    pose proof (lookup_lt_Some _ _ _ Ep) as Hl.
    destruct (Q i Hl) as (q & ka & _ & Eq & _ & Eb & Ed & _).
    fold pc in Eb, Ed. rewrite Ep in Eq. injection Eq as <-.
    split; [done|]. rewrite Ho by lia. rewrite Eb, Ed.
    apply addScaled_distance_abs, sphereDirection_unit.
Qed.

Lemma sizeOf_range c r :
  0 <= r < 1 -> 0 <= pointSize c -> 0 <= sizeVariation c ->
  pointSize c * (1 - sizeVariation c) <= sizeOf c r
  <= pointSize c * (1 + sizeVariation c).
Proof.
  intros Hr Hp Hv. unfold sizeOf.
  assert (0 <= pointSize c * sizeVariation c) by (by apply Rmult_le_pos).
  assert (E : pointSize c * (1 + sizeVariation c)
              - pointSize c * (1 - sizeVariation c)
              = 2 * (pointSize c * sizeVariation c)) by ring.
  rewrite E. nra.
Qed.

(** The initial sizes: a particle of the formation gets a size between
    [pointSize * (1 - sizeVariation)] and [pointSize * (1 + sizeVariation)];
    a particle outside it gets such a size or the size 0 of an invisible
    particle, never 0 by the draw when [outsideInvisiblePercentage] is 0
    or less and always 0 when it is 100 or more. *)
Theorem initial_sizes rnd pct volumePoints maxDimension outsideDraws filtered
    nowDate force progress w :
  (forall k, 0 <= rnd k < 1) ->
  0 <= pointSize (CONFIG w) -> 0 <= sizeVariation (CONFIG w) ->
  let pc := particleCount (CONFIG w) in
  let lo := pointSize (CONFIG w) * (1 - sizeVariation (CONFIG w)) in
  let hi := pointSize (CONFIG w) * (1 + sizeVariation (CONFIG w)) in
  exists w',
    initialize rnd pct volumePoints maxDimension outsideDraws filtered nowDate
      force progress w = Some w' /\
    (forall i, (i < pc)%nat -> lo <= rd (sizes (store w')) i <= hi) /\
    (forall i, (i < length filtered)%nat ->
       let size := rd (sizes (store w')) (pc + i) in
       (size = 0 \/ lo <= size <= hi) /\
       (pct <= 0 -> lo <= size <= hi) /\
       (100 <= pct -> size = 0)).
Proof.
  intros Hr Hp Hv pc lo hi.
  destruct (initialize_spec rnd pct volumePoints maxDimension outsideDraws
              filtered nowDate force progress w)
    as (w' & s1 & o & g & E & I1 & I2 & I3 & T & C & Cr & Es & Lo & Lg & Ho).
  destruct Cr as [H G1 G2 G3 Z F B Q].
  exists w'. split; [exact E|]. rewrite Es. store_simpl. split.
  - intros i Hi. destruct (Z i Hi) as [-> _]. by apply sizeOf_range.
  - intros i Hi. cbv zeta.
    destruct (Q i Hi) as (q & ka & _ & _ & _ & _ & _ & _ & _ & _ & _ & Esz & _).
    fold pc in Esz. rewrite Esz.
    pose proof (sizeOf_range (CONFIG w) (rnd (ka + 6)%nat) (Hr _) Hp Hv) as Rg.
    fold lo in Rg. fold hi in Rg.
    pose proof (Hr (ka + 5)%nat) as R5.
    case_bool_decide as Hd.
    + split; [by left|]. split; [|done]. intros Hpct. exfalso.
      assert (pct / 100 <= 0) by lra. lra.
    + split; [by right|]. split; [done|]. intros Hpct. exfalso.
      assert (1 <= pct / 100) by lra. lra.
Qed.

Lemma particles_start_in_shell_witness :
  let pc := particleCount (CONFIG startingWorld) in
  let n := Nat.min pc (length [mkVec3 1 2 0]) in
  let center := centroid (take n [mkVec3 1 2 0]) in
  exists w',
    initialize halves 0 [mkVec3 1 2 0] 2 10 [mkVec3 4 0 0] 1000 3 0.5
      startingWorld = Some w' /\
    (forall i, (i < n)%nat ->
       let start := get3 (startPositions (store w')) i in
       5 * 2 <= sqrt (lengthSq (subVectors start center)) <= 10 * 2) /\
    (forall i point, [mkVec3 4 0 0] !! i = Some point ->
       let start := get3 (startPositions (store w')) (pc + i) in
       get3 (baseOriginalPositions (store w')) (pc + i) = point /\
       5 * 2 <= sqrt (lengthSq (subVectors start point)) <= 10 * 2).
Proof.
  apply (particles_start_in_shell halves 0 [mkVec3 1 2 0] 2 10 [mkVec3 4 0 0]
           1000 3 0.5 startingWorld).
  - intros k. unfold halves. lra.
  - lra.
Defined.

Lemma initial_targets_follow_scroll_witness :
  let pc := particleCount (CONFIG startingWorld) in
  exists w',
    initialize halves 0 [mkVec3 1 2 0] 2 10 [mkVec3 4 0 0] 1000 3 0.5
      startingWorld = Some w' /\
    (forall i point, (i < pc)%nat -> [mkVec3 1 2 0] !! i = Some point ->
       let target := get3 (originalPositions (store w')) i in
       get3 (baseOriginalPositions (store w')) i = point /\
       sqrt (lengthSq (subVectors target point)) = Rabs (0.5 * 3)) /\
    (forall i point, [mkVec3 4 0 0] !! i = Some point ->
       let target := get3 (originalPositions (store w')) (pc + i) in
       get3 (baseOriginalPositions (store w')) (pc + i) = point /\
       sqrt (lengthSq (subVectors target point)) = Rabs (0.5 * 3)).
Proof.
  apply (initial_targets_follow_scroll halves 0 [mkVec3 1 2 0] 2 10
           [mkVec3 4 0 0] 1000 3 0.5 startingWorld).
  intros k. unfold halves. lra.
Defined.

Lemma initial_sizes_witness :
  let pc := particleCount (CONFIG startingWorld) in
  let lo := pointSize (CONFIG startingWorld)
            * (1 - sizeVariation (CONFIG startingWorld)) in
  let hi := pointSize (CONFIG startingWorld)
            * (1 + sizeVariation (CONFIG startingWorld)) in
  exists w',
    initialize halves 0 [mkVec3 1 2 0] 2 10 [mkVec3 4 0 0] 1000 3 0.5
      startingWorld = Some w' /\
    (forall i, (i < pc)%nat -> lo <= rd (sizes (store w')) i <= hi) /\
    (forall i, (i < length [mkVec3 4 0 0])%nat ->
       let size := rd (sizes (store w')) (pc + i) in
       (size = 0 \/ lo <= size <= hi) /\
       (0 <= 0 -> lo <= size <= hi) /\
       (100 <= 0 -> size = 0)).
Proof.
  apply (initial_sizes halves 0 [mkVec3 1 2 0] 2 10 [mkVec3 4 0 0] 1000 3 0.5
           startingWorld).
  - intros k. unfold halves. lra.
  - simpl. lra.
  - simpl. lra.
Defined.

(** ** The points outside the formation *)

Lemma mathCeil_threshold : mathCeil (INR 3 * 0.6) = 2.
Proof.
  unfold mathCeil, Int_part.
  replace (INR 3) with 3 by (simpl; lra).
  assert (E : up (- (3 * 0.6)) = (-1)%Z).
  { symmetry. apply tech_up; lra. }
  rewrite E. reflexivity.
Qed.

Lemma isPointInsideMesh_spec intersectObject point :
  isPointInsideMesh intersectObject point = true <->
  (forall d, d ∈ rayDirections -> is_Some (intersectObject point d)) /\
  (2 <= oddRays intersectObject point)%nat.
Proof.
  assert (Hno : forall d, d ∈ rayDirections ->
            intersectObject point d = None ->
            ~ (forall d, d ∈ rayDirections -> is_Some (intersectObject point d))).
  { intros d Hd E H. destruct (H d Hd) as [m Hm]. congruence. }
  unfold isPointInsideMesh, oddRays, oddRay.
  unfold rayDirections at 1 3. cbn [forOf rayCheck List.filter].
  destruct (intersectObject point (mkVec3 1 0 0)) as [m1|] eqn:E1;
    cbn [forOf rayCheck List.filter]; cycle 1.
  { split; [intros [=]|]. intros [H _]. exfalso.
    apply (Hno (mkVec3 1 0 0)); [repeat constructor|done|done]. }
  destruct (intersectObject point (mkVec3 0 1 0)) as [m2|] eqn:E2;
    cbn [forOf rayCheck List.filter]; cycle 1.
  { split; [intros [=]|]. intros [H _]. exfalso.
    apply (Hno (mkVec3 0 1 0)); [repeat constructor|done|done]. }
  destruct (intersectObject point (mkVec3 0 0 1)) as [m3|] eqn:E3;
    cbn [forOf rayCheck List.filter]; cycle 1.
  { split; [intros [=]|]. intros [H _]. exfalso.
    apply (Hno (mkVec3 0 0 1)); [repeat constructor|done|done]. }
  cbv zeta. rewrite mathCeil_threshold.
  assert (Hall : forall d, d ∈ rayDirections ->
                   is_Some (intersectObject point d)).
  { intros d Hd. apply elem_of_cons in Hd as [->|Hd]; [by rewrite E1|].
    apply elem_of_cons in Hd as [->|Hd]; [by rewrite E2|].
    apply list_elem_of_singleton in Hd as ->. by rewrite E3. }
  destruct (bool_decide (m1 mod 2 = 1)%nat), (bool_decide (m2 mod 2 = 1)%nat),
    (bool_decide (m3 mod 2 = 1)%nat); cbn [length];
    rewrite bool_decide_eq_true; simpl; split;
    try (intros _; split; [exact Hall|lia]);
    try (intros [_ H]; lia); try lra; try (intros H; exfalso; lra).
Qed.

Lemma candidateLoop rnd intersectObject viewportBounds n a st :
  (forall k, 0 <= rnd k < 1) ->
  boundsLeft viewportBounds <= boundsRight viewportBounds ->
  boundsBottom viewportBounds <= boundsTop viewportBounds ->
  let good p :=
    inViewport viewportBounds p /\ isPointInsideMesh intersectObject p = false in
  Forall good st.1 ->
  Forall good (forLoop (candidate rnd intersectObject viewportBounds) a n st).1.
Proof.
  intros Hr Hx Hy good H.
  apply (forLoop_invariant (candidate rnd intersectObject viewportBounds)
           (fun st => Forall good st.1) a); [|lia|done].
  intros j [pts k] st' _ Hpts. unfold candidate.
  set (x := boundsLeft viewportBounds
            + rnd k * (boundsRight viewportBounds - boundsLeft viewportBounds)).
  set (y := boundsBottom viewportBounds
            + rnd (k + 1)%nat
              * (boundsTop viewportBounds - boundsBottom viewportBounds)).
  destruct (isPointInsideMesh intersectObject (mkVec3 x y 0)) eqn:E;
    cbn [negb]; intros [= <-]; cbn [fst] in *; [done|].
  apply Forall_app. split; [done|]. apply Forall_singleton.
  split; [|done]. unfold inViewport. cbn [vx vy vz].
  pose proof (Hr k) as R1. pose proof (Hr (k + 1)%nat) as R2.
  subst x y. repeat split; nra.
Qed.

Lemma processBatch_resolves rnd intersectObject viewportBounds candidateCount
    batchSize others :
  (forall k, 0 <= rnd k < 1) ->
  boundsLeft viewportBounds <= boundsRight viewportBounds ->
  boundsBottom viewportBounds <= boundsTop viewportBounds ->
  let good p :=
    inViewport viewportBounds p /\ isPointInsideMesh intersectObject p = false in
  forall fuel b processed st,
    (candidateCount - processed < fuel * batchSize)%nat ->
    Forall good st.1 ->
    exists r,
      processBatch rnd intersectObject viewportBounds candidateCount batchSize
        others fuel b processed st = Some r /\
      Forall good r.1.
Proof.
  intros Hr Hx Hy good fuel.
  induction fuel as [|fuel IH]; intros b processed st Hf Hg; [simpl in Hf; lia|].
  cbn [processBatch].
  set (batchEnd := Nat.min (processed + batchSize) candidateCount).
  pose proof (candidateLoop rnd intersectObject viewportBounds
                (batchEnd - processed) processed st Hr Hx Hy Hg) as Hl.
  case_bool_decide as Hd.
  - apply IH; [|exact Hl]. subst batchEnd. simpl in Hf. lia.
  - eexists. split; [reflexivity|exact Hl].
Qed.

(** With enough batches the generation of the points outside the
    formation resolves; it gives at most [targetCount] points, each of
    them in the viewport on the plane of the formation and rejected by
    [isPointInsideMesh], that is, with fewer than two of the three rays
    meeting the mesh an odd number of times, or with a failed ray cast. *)
Theorem outside_points_in_viewport rnd intersectObject targetCount
    viewportBounds batchSize others fuel k :
  (forall k, 0 <= rnd k < 1) ->
  boundsLeft viewportBounds <= boundsRight viewportBounds ->
  boundsBottom viewportBounds <= boundsTop viewportBounds ->
  (targetCount * 5 < fuel * batchSize)%nat ->
  exists points k',
    generateOutsidePointsAsync rnd intersectObject targetCount viewportBounds
      batchSize others fuel k = Some (points, k') /\
    (length points <= targetCount)%nat /\
    forall p, p ∈ points ->
      inViewport viewportBounds p /\
      isPointInsideMesh intersectObject p = false /\
      ((forall d, d ∈ rayDirections -> is_Some (intersectObject p d)) ->
       (oddRays intersectObject p < 2)%nat).
Proof.
  intros Hr Hx Hy Hf. unfold generateOutsidePointsAsync.
  destruct (processBatch_resolves rnd intersectObject viewportBounds
              (targetCount * 5) batchSize others Hr Hx Hy fuel 0 0 ([], k))
    as ([pts k'] & E & Hg); [lia|by apply Forall_nil|].
  rewrite E. exists (filterOutsidePoints targetCount pts), k'.
  split; [reflexivity|].
  destruct (filterOutsidePoints_chosen targetCount pts) as (L & idx & _ & F2).
  split; [lia|]. intros p Hp.
  assert (Hin : p ∈ pts).
  { apply list_elem_of_lookup in Hp as [i Hi].
    destruct (Forall2_lookup_r _ _ _ _ _ F2 Hi) as (j & _ & Hj).
    by apply list_elem_of_lookup_2 in Hj. }
  cbn [fst] in Hg. rewrite Forall_forall in Hg.
  destruct (Hg p Hin) as [V N]. split; [done|]. split; [done|].
  intros Hall. destruct (decide (oddRays intersectObject p < 2)%nat); [done|].
  assert (T : isPointInsideMesh intersectObject p = true).
  { apply isPointInsideMesh_spec. split; [done|lia]. }
  congruence.
Qed.

Lemma outside_points_in_viewport_witness :
  let bounds := mkBounds (-3) 3 4 (-4) in
  let intersectObject := fun _ _ : Vec3 => Some 0%nat in
  exists points k',
    generateOutsidePointsAsync halves intersectObject 1 bounds 500
      (fun _ => 0%nat) 1 0 = Some (points, k') /\
    (length points <= 1)%nat /\
    forall p, p ∈ points ->
      inViewport bounds p /\
      isPointInsideMesh intersectObject p = false /\
      ((forall d, d ∈ rayDirections -> is_Some (intersectObject p d)) ->
       (oddRays intersectObject p < 2)%nat).
Proof.
  apply (outside_points_in_viewport halves (fun _ _ => Some 0%nat) 1
           (mkBounds (-3) 3 4 (-4)) 500 (fun _ => 0%nat) 1 0).
  - intros k. unfold halves. lra.
  - simpl. lra.
  - simpl. lra.
  - lia.
Defined.

(** ** The points of the formation *)

Lemma reachedFrom_range randomArea sums :
  forall j i, reachedFrom randomArea sums j = Some i ->
    (j <= i < j + length sums)%nat.
Proof.
  induction sums as [|sum rest IH]; intros j i; cbn [reachedFrom length].
  - done.
  - case_bool_decide as Hd.
    + intros [= <-]. lia.
    + intros Hi. apply IH in Hi. lia.
Qed.

Lemma length_cumulativeAreas tris : forall sum,
  length (cumulativeAreas sum tris) = length tris.
Proof.
  induction tris as [|t r IH]; intros sum; cbn [cumulativeAreas length];
    [done|]. by rewrite IH.
Qed.

Lemma surfacePointLoop rnd tris sums areaToUse count k :
  (forall k, 0 <= rnd k < 1) ->
  tris <> [] -> length sums = length tris ->
  let r := forLoop (surfacePointOf rnd tris sums areaToUse) 0 count ([], k) in
  length r.1 = count /\ r.2 = (k + 3 * count)%nat /\
  Forall (fun p => exists tri, tri ∈ tris /\ inTriangle tri p) r.1.
Proof.
  intros Hr Hne Hl r. subst r.
  set (I := fun (j : nat) (r : list Vec3 * nat) =>
    length r.1 = j /\ r.2 = (k + 3 * j)%nat /\
    Forall (fun p => exists tri, tri ∈ tris /\ inTriangle tri p) r.1).
  apply (forLoop_indexed_inv (surfacePointOf rnd tris sums areaToUse) I count)
    with (n := count) (a := 0%nat); [|lia|].
  - intros j [pts kt] _ (L & K & F). cbn [fst snd] in *. subst kt.
    unfold surfacePointOf.
    set (idx := default 0%nat (reachedFrom (rnd (k + 3 * j)%nat * areaToUse) sums 0)).
    assert (Hidx : (idx < length tris)%nat).
    { subst idx.
      destruct (reachedFrom (rnd (k + 3 * j)%nat * areaToUse) sums 0) as [i|] eqn:E.
      - apply reachedFrom_range in E. simpl. lia.
      - simpl. destruct tris; [done|]. cbn [length]. lia. }
    destruct (lookup_lt_is_Some_2 tris idx Hidx) as [tri Et]. rewrite Et.
    pose proof (Hr (k + 3 * j + 1)%nat) as R1.
    pose proof (Hr (k + 3 * j + 2)%nat) as R2.
    set (u0 := rnd (k + 3 * j + 1)%nat) in *.
    set (v0 := rnd (k + 3 * j + 2)%nat) in *.
    assert (Hin : tri ∈ tris) by (by apply list_elem_of_lookup_2 in Et).
    case_bool_decide as Hd; eexists; (split; [reflexivity|]); unfold I;
      cbn [fst snd]; rewrite length_app; cbn [length];
      (split; [lia|]); (split; [lia|]); apply Forall_app; (split; [done|]);
      apply Forall_singleton; exists tri; (split; [done|]);
      unfold inTriangle, addScaledVector; cbn [vx vy vz].
    + exists (1 - u0), (1 - v0), (1 - (1 - u0) - (1 - v0)).
      repeat split; try lra.
    + exists u0, v0, (1 - u0 - v0). repeat split; try lra.
  - unfold I. cbn [fst snd length]. split; [done|]. split; [lia|]. constructor.
Qed.

Lemma vertexPointLoop vertices count :
  (count < length vertices)%nat ->
  let r := forLoop (vertexPoint vertices (INR (length vertices) / INR count))
             0 count [] in
  length r = count /\ Forall (fun p => p ∈ vertices) r.
Proof.
  intros Hc r. subst r.
  set (n := length vertices) in *.
  set (I := fun (j : nat) (r : list Vec3) =>
    length r = j /\ Forall (fun p => p ∈ vertices) r).
  apply (forLoop_indexed_inv (vertexPoint vertices (INR n / INR count)) I count)
    with (n := count) (a := 0%nat); [|lia|].
  - intros j pts Hj [L F]. unfold vertexPoint.
    set (x := INR j * (INR n / INR count)).
    assert (Hx : x < INR n).
    { subst x. assert (0 < INR count) by (apply lt_0_INR; lia).
      assert (INR j < INR count) by (apply lt_INR; lia).
      assert (0 < INR n) by (apply lt_0_INR; lia).
      assert (E : INR j * (INR n / INR count) * INR count = INR j * INR n)
        by (field; lra).
      destruct (Rlt_or_le (INR j * (INR n / INR count)) (INR n)) as [|Hge];
        [done|].
      assert (INR n * INR count <= INR j * (INR n / INR count) * INR count)
        by (apply Rmult_le_compat_r; lra).
      nra. }
    assert (Hi : (Z.to_nat (Int_part x) < n)%nat).
    { destruct (base_Int_part x) as [B _].
      assert (Hz : (Int_part x < Z.of_nat n)%Z).
      { apply lt_IZR. rewrite <- INR_IZR_INZ. lra. }
      lia. }
    destruct (lookup_lt_is_Some_2 vertices _ Hi) as [v Ev]. rewrite Ev.
    eexists. split; [reflexivity|]. unfold I. rewrite length_app. cbn [length].
    split; [lia|]. apply Forall_app. split; [done|]. apply Forall_singleton.
    by apply list_elem_of_lookup_2 in Ev.
  - unfold I. split; [done|constructor].
Qed.

(** The points of the formation lie on the shape: when the shape has
    triangles, [getShapeVolumePoints] returns exactly [count] points, each
    of them a point of the plane [z = 0] over one of the triangles, and
    over a triangle that faces the viewer when there is one; when it has
    none, it returns vertices of the shape, [count] of them or all. *)
Theorem volume_points_on_shape rnd vertices triangles totalArea count k :
  (forall k, 0 <= rnd k < 1) ->
  let r := getShapeVolumePoints rnd vertices triangles totalArea count k in
  (triangles <> [] ->
   length r.1 = count /\ r.2 = (k + 3 * count)%nat /\
   forall p, p ∈ r.1 ->
     exists tri, tri ∈ triangles /\ inTriangle tri p /\
       ((exists t, t ∈ triangles /\ frontFacing t = true) ->
        frontFacing tri = true)) /\
  (triangles = [] ->
   length r.1 = Nat.min count (length vertices) /\ r.2 = k /\
   forall p, p ∈ r.1 -> p ∈ vertices).
Proof.
  intros Hr r. subst r. unfold getShapeVolumePoints. split.
  - intros Hne. rewrite bool_decide_false by (by destruct triangles).
    set (front := List.filter frontFacing triangles).
    set (tris := if bool_decide (0 < length front)%nat then front else triangles).
    assert (Htris : tris <> [] /\
              (forall tri, tri ∈ tris -> tri ∈ triangles /\
                 ((exists t, t ∈ triangles /\ frontFacing t = true) ->
                  frontFacing tri = true))).
    { subst tris. case_bool_decide as Hf.
      - split; [by destruct front; [simpl in Hf; lia|]|].
        intros tri Hin. subst front.
        apply list_elem_of_In, filter_In in Hin as [Hin Hff].
        split; [by apply list_elem_of_In|done].
      - split; [done|]. intros tri Hin. split; [done|].
        intros (t & Ht & Hff). exfalso. apply Hf.
        assert (Hin' : t ∈ front).
        { apply list_elem_of_In, filter_In. split; [by apply list_elem_of_In|done]. }
        destruct front; [by apply elem_of_nil in Hin'|]. cbn [length]. lia. }
    destruct Htris as [Hn Hsub].
    destruct (surfacePointLoop rnd tris (cumulativeAreas 0 tris)
                (if bool_decide (0 < length front)%nat
                 then fold_left (fun sum tri => sum + area tri) front 0
                 else totalArea) count k Hr Hn (length_cumulativeAreas tris 0))
      as (L & K & F).
    destruct (forLoop _ 0 count ([], k)) as [pts k']. cbn [fst snd] in *.
    assert (E : (if bool_decide (length pts = 0%nat) then pts
                 else if bool_decide (length pts < count)%nat
                      then forLoop duplicatePoint 0 (count - length pts) pts
                      else pts) = pts).
    { case_bool_decide; [done|]. rewrite bool_decide_false by lia. done. }
    rewrite E. split; [done|]. split; [done|]. intros p Hp.
    rewrite Forall_forall in F. destruct (F p Hp) as (tri & Hin & Ht).
    exists tri. destruct (Hsub tri Hin). done.
  - intros ->. rewrite bool_decide_true by done. cbn [fst snd].
    split; [|split; [done|]]; unfold vertexPoints; case_bool_decide as Hc.
    + lia.
    + destruct (vertexPointLoop vertices count) as [L _]; [lia|]. lia.
    + done.
    + destruct (vertexPointLoop vertices count) as [_ F]; [lia|].
      intros p Hp. rewrite Forall_forall in F. by apply F.
Qed.

Lemma volume_points_on_shape_witness :
  let vertices := [mkVec3 0 0 0; mkVec3 1 0 0; mkVec3 0 1 0] in
  let r := getShapeVolumePoints halves vertices oneTriangle 0.5 2 0 in
  (oneTriangle <> [] ->
   length r.1 = 2%nat /\ r.2 = (0 + 3 * 2)%nat /\
   forall p, p ∈ r.1 ->
     exists tri, tri ∈ oneTriangle /\ inTriangle tri p /\
       ((exists t, t ∈ oneTriangle /\ frontFacing t = true) ->
        frontFacing tri = true)) /\
  (oneTriangle = [] ->
   length r.1 = Nat.min 2 (length vertices) /\ r.2 = 0%nat /\
   forall p, p ∈ r.1 -> p ∈ vertices).
Proof.
  apply (volume_points_on_shape halves
           [mkVec3 0 0 0; mkVec3 1 0 0; mkVec3 0 1 0] oneTriangle 0.5 2 0).
  intros k. unfold halves. lra.
Defined.
